(* ===== verification/_CoqProject ===== *)
-Q . S2P
Prelude.v
GoStrings.v
GoError.v
Sha256.v
GoTime.v
Base64.v
Json.v
JsonFacts.v
Url.v
UrlEscape.v
Config.v
Sql.v
Nonce.v
AuthProof.v
AuthProofProps.v
GoIO.v
Bodies.v
Http.v
WriterFacts.v
BlobStore.v
LogFacts.v
Trace.v
Tracing.v
Handlers.v
Api.v
Middlewares.v
AuthGate.v
Server.v
ServerProps.v
Public.v
HandlerFacts.v
TelemetryProps.v
Systems.v
MemoryStore.v
MemoryStoreOk.v
MemoryStoreProps.v
MemoryConcurrent.v
Service.v
PostgresStore.v
PostgresFacts.v
PostgresManifest.v
PostgresStoreOk.v
PostgresProps.v
PostgresRace.v
Pool.v
Main.v
Lifecycle.v
Client.v
ClientConcurrent.v
ClientProps.v
ClientServer.v
EndToEnd.v
Session.v
ServerWitness.v
ServiceWitness.v
ClientWitness.v
PostgresWitness.v
