(* ===== verification/Prelude.v ===== *)
(** * Private backup cache: a verification development

    The program is an append-only store for encrypted backup blobs.  A client
    signs every request with one header (an auth proof); the server checks the
    proof before it reads the body, streams an upload into the log of the
    account the proof names, and lets that account read, list, prune and erase
    its log.  An account is a public key; a log is one device's blobs of one
    generation, numbered from 1 without gaps.

    ** The parts, and where they are modelled

    Go's library, as far as the program uses it.  [Prelude] (this file: bytes,
    strings, sums and maxima over lists, Go's unordered map iteration
    [GoRange]), [GoStrings] (strings, strconv), [GoError] (sentinels, wrapping,
    [Is] and [As], the [result] type and its [try] notation), [GoTime],
    [GoIO] (readers as a class [Reader] with its contract [ReaderLaws],
    ReadAll, ReadFull), [Sha256], [Base64], [Json] with [JsonFacts], [Url] with
    [UrlEscape], [Sql] (database/sql over a server whose round trips may fail
    before or after taking effect).  Machine integers are [Z] with [wrap64]
    written where the code adds or multiplies.  [Systems] has what concurrent
    models share: executions, simulations, invariants of histories.

    The auth proof.  [AuthProof] is internal/authproof/authproof.go;
    [AuthProofProps] shows what a proof binds, that it round-trips, and exactly
    when [Verify] accepts it.  [Nonce] is internal/nonce: the in-memory store,
    and the database store with the statements of concurrent replicas
    interleaved.

    The blob store.  [BlobStore] holds the interface of
    internal/blobstore/blobstore.go as a class, the abstract log ([alog], one
    list of blobs per stream), the [spec_] operations on it, and the class
    [BlobStoreOk]: what an implementation promises, with its infrastructure
    allowed to fail.  [LogFacts] has the lemmas on the log, [Trace] sequences
    of calls.  [MemoryStore] is memory.go, [PostgresStore] is postgres.go (one
    function per SQL statement, composed in the code's transactions),
    [Tracing] is tracing.go.  Their instances of [BlobStoreOk] are in
    [MemoryStoreOk], [PostgresStoreOk] (with [PostgresFacts] and
    [PostgresManifest]) and [Tracing].  [MemoryConcurrent] runs the operations
    of memory.go concurrently, each of their critical sections a step;
    [PostgresRace] runs the transactions of uploads and deletions against each
    other, statement by statement; [Pool] is which connections the operations
    of both database stores take, hold and give back, on every path.

    The server.  [Bodies] has the two wrappers around a request body
    (countingBody of server.go, digestVerifyingBody of
    middlewares/authproof.go), [Http] the response, its writers (statusRecorder
    of telemetry.go, sizeGuard of server.go), the signals of telemetry.go and
    responses.go, [WriterFacts]
    their lemmas, [Handlers] internal/server/handlers, [Middlewares] the
    authentication, [Server] the telemetry, the middleware chain, the routes
    and [New].  [Api]
    gives the abstract HTTP API, a function on the log, and shows that the
    handlers over any [BlobStoreOk] store implement it; [AuthGate] isolates the
    decision of the authentication; [ServerProps] states what the whole chain
    does with a request to an endpoint, [Public] what it does with any other,
    [TelemetryProps] what it tells of either.  [HandlerFacts] has the lemmas
    that carry a property through every handler and every layer: a property of
    the world is an instance of [Stable], the hints of its database [keeps]
    do the rest.  [Service] runs any number of requests at once, each passing
    the gate in one step and performing its operation in a later one.

    The process.  [Config] is config.go and logger.go, [Main] is the boot of
    main.go with wallet.go and otel.go, [Lifecycle] what follows it: the
    listener, the signal, the graceful shutdown, the exit.

    The client.  [Client] is client/client.go, one definition per method, over
    any transport; [ClientConcurrent] runs calls that share its cached limits; [ClientServer] is a network that delivers a request once to
    the server of [Server]; [EndToEnd] composes both, call by call, and
    [Session] over a sequence of calls on one client.

    [ServerWitness], [ServiceWitness], [PostgresWitness], [ClientWitness] and the modules [Toy],
    [NonceWitness], [MemoryStoreWitness] apply the theorems to concrete inputs.

    ** How the parts meet

    A request runs through [serve]: telemetry, CORS, the size cap, the router,
    the authentication, a handler.  All of them act on one [world] (the
    response under construction, the body, the two stores, the log), since they
    share the writer and the body.  Handlers reach the store through the class
    [BlobStore] only, and their theorems use [BlobStoreOk] only; the stores
    discharge it.  A clock reading or a draw of random bytes is an argument of
    the step that takes it.

    Concurrency is modelled where state is shared.  Requests share the two
    stores and meet there at most twice, at the nonces and at one operation of
    the store ([Service]); that an operation may count as one step is
    [mem_linearizable] for the in-memory store, while for the database it is
    the work of its transactions, examined statement by statement in
    [PostgresRace].  The statements of a nonce's consumption interleave in
    [Nonce], calls of one client in [ClientConcurrent].

    ** What is shown

    - The service: [serve_refines_api], [upload_stored_is_signed],
      [store_behind_auth], [oversize_upload], [spec_api_isolated], [api_refines],
      [telemetry_discloses], [public_answered]; under concurrent requests,
      [service_refines] and [service_replay].
    - The proof: [Verify_outcome], [Sign_Verify], [Action_injective],
      [Canonical_injective], [BodySha256_Action], [Decode_Encode],
      [Decode_outcome]; replays: [proof_admitted_once], [postgres_nonce_once],
      [memory_nonce_exactly_once], [memory_Consume_outcome],
      [postgres_Consume_outcome], and [memory_Consume_late], a replay that the
      two clock readings leave open.
    - The in-memory store: [mem_trace_refines_log], [mem_log_contiguous],
      [mem_Append_outcome], [mem_Append_Get], [mem_DeleteGeneration_retains],
      [mem_DeleteAccount_erases], [mem_accounts_isolated]; under concurrency,
      [mem_linearizable].
    - The database store: [pg_trace_refines_log] (under any failures),
      [stores_agree] (with the in-memory store), [pg_chunks_ends],
      [pg_log_complete] (under any interleaving of statements); two ways in
      which it falls short, [truncated_upload_accepted] and [erase_race]; its
      connections, [pool_no_deadlock], with what the manifest of the obvious
      shape would do, [nested_manifest_deadlocks], and what slow uploads do,
      [slow_uploads_stall].
    - [WithTracing_transparent], [parsePathInt_outcome]; the process:
      [Load_outcome], [main_boots], [life_cycle], [traced_derivations].
    - The client: [requestURI_verbatim], [client_do_sends],
      [limits_collapse], [client_AppendBytes_outcome], [client_Blob_outcome], and
      [client_session_refines]: whatever sequence of calls a client makes over
      a network that delivers, it observes the abstract log of its account.

    ** Fuel and bounds

    A loop over a reader gets one more step than [rd_fuel], the bytes and
    chunks still to come: [ReadAll_ok] and [pg_chunks_ends] show that more
    changes nothing, and [out_of_fuel] is never an outcome.  The JSON scanner
    gets two calls per byte ([scan_fuel_enough]); digits of a number get one
    step per bit ([digits_ok]).  Streams are shorter than 2^50 bytes
    ([stream_fits]), clock readings lie in the range of [clock_ok], and the
    numbers of a stream in 1 .. 2^30, which the handlers enforce.

    ** Parameters

    Code outside the repository is a parameter: elliptic curve and wallet
    ([Crypto], with [CryptoLaws]: a made signature verifies, a key survives its
    text), go-chi's matching ([Chi], [ChiLaws]), the zone times are rendered in
    ([TimeFormat]), the encoding and collation of the database ([PgServer],
    [PgServerLaws]), the client's transport and the parsers it uses
    ([Transport], [Decoders]).  SHA-256, base64, JSON and URLs are executable
    definitions.

    ** Not modelled

    What OpenTelemetry and slog do with the spans, metrics and records they are
    given, and the extraction of a caller's trace context; the enforcement of
    [StreamTimeout] (net/http's); idle connections of the pool and their
    lifetime; rows of operations that only read interleaved with writers beyond
    their snapshot; the log lines of the handlers' errors; the version the
    telemetry reports of the binary; documentation, docker files and tests. *)
From stdpp Require Export base gmap strings list sorting.
From Stdlib Require Export ZArith Lia.
From Stdlib Require Export Ascii.

(** Hint databases of the development: [go] rewrites with the facts about
    Go's primitives, and its resolution half carries the components'
    preservation lemmas. *)
Create HintDb go.
Create Rewrite HintDb go.

(** * Bytes and strings

    A Go [string] is a byte sequence, and so is Rocq's [string]; a Go
    [[]byte] that is not used as a text is a [list ascii]. *)

Abbreviation bytes := (list ascii).

(** [string(b)] and [[]byte(s)] *)
Fixpoint bytes_of_string (s : string) : bytes :=
  match s with
  | EmptyString => []
  | String c s' => c :: bytes_of_string s'
  end.

Fixpoint string_of_bytes (b : bytes) : string :=
  match b with
  | [] => EmptyString
  | c :: b' => String c (string_of_bytes b')
  end.

(** * Go maps

    A Go map with string keys is a [gmap string V]; [range] enumerates it in
    an order the language leaves open, so every definition that iterates over
    a map is parameterised by an enumeration and every theorem holds for all
    of them. *)
Class GoRange (V : Type) := {
  range : gmap string V -> list (string * V);
  range_perm m : range m ≡ₚ map_to_list m;
}.

(** One enumeration, for evaluating the model on concrete inputs. *)
Definition default_range (V : Type) : GoRange V :=
  {| range := map_to_list; range_perm m := reflexivity _ |}.

(** [for id, r := range m { if p(r) { delete(m, id); n++ } }] *)
Definition delete_where {V} `{GoRange V} (p : V -> bool) (m : gmap string V)
    : gmap string V * Z :=
  foldl (fun acc ir => if p ir.2 then (delete ir.1 acc.1, (acc.2 + 1)%Z) else acc)
    (m, 0%Z) (range m).

(** * Machine integers *)

(** Two's complement wrap-around of a 64-bit signed integer: Go's [int] on
    the targets the service is built for, and [int64]. *)
Definition wrap64 (z : Z) : Z := (z + 2 ^ 63) mod 2 ^ 64 - 2 ^ 63.

Definition in64 (z : Z) : Prop := (- 2 ^ 63 <= z < 2 ^ 63)%Z.

(** [for _, x := range xs { if keep(x) && f(x) > m { m = f(x) } }] *)
Definition max_over {A} (keep : A -> bool) (f : A -> Z) (init : Z) (xs : list A) : Z :=
  foldl (fun m x => if keep x && (m <? f x)%Z then f x else m) init xs.

(** Sum and maximum of an integer measure over a list. *)
Definition zsum {A} (f : A -> Z) (l : list A) : Z := foldr (fun x t => (f x + t)%Z) 0%Z l.
Definition zmax {A} (f : A -> Z) (init : Z) (l : list A) : Z :=
  foldr (fun x t => Z.max (f x) t) init l.

#[global] Instance in64_dec z : Decision (in64 z).
Proof. unfold in64. apply _. Defined.

(** * Lemmas on bytes and strings *)

Lemma string_of_bytes_of_string s : string_of_bytes (bytes_of_string s) = s.
Proof. induction s; simpl; congruence. Qed.

Lemma bytes_of_string_of_bytes b : bytes_of_string (string_of_bytes b) = b.
Proof. induction b; simpl; congruence. Qed.

#[global] Instance bytes_of_string_inj : Inj (=) (=) bytes_of_string.
Proof.
  intros s t E. by rewrite <- (string_of_bytes_of_string s), E, string_of_bytes_of_string.
Qed.

#[global] Instance string_of_bytes_inj : Inj (=) (=) string_of_bytes.
Proof.
  intros s t E. by rewrite <- (bytes_of_string_of_bytes s), E, bytes_of_string_of_bytes.
Qed.

Lemma string_app_cons c s t : String c s +:+ t = String c (s +:+ t).
Proof. done. Qed.

Lemma string_app_nil_l t : EmptyString +:+ t = t.
Proof. done. Qed.

Lemma string_app_nil_r s : s +:+ EmptyString = s.
Proof. induction s; [done|]. rewrite string_app_cons. congruence. Qed.

Lemma string_app_assoc s t u : (s +:+ t) +:+ u = s +:+ (t +:+ u).
Proof. induction s; [done|]. rewrite !string_app_cons. congruence. Qed.

Lemma bytes_of_string_app s t :
  bytes_of_string (s +:+ t) = bytes_of_string s ++ bytes_of_string t.
Proof. induction s; [done|]. rewrite string_app_cons. simpl. congruence. Qed.

Lemma string_of_bytes_app s t :
  string_of_bytes (s ++ t) = string_of_bytes s +:+ string_of_bytes t.
Proof. induction s; [done|]. simpl. rewrite string_app_cons. congruence. Qed.

Lemma length_bytes_of_string s : length (bytes_of_string s) = String.length s.
Proof. induction s; simpl; congruence. Qed.

(** Two texts cut at the first occurrence of a separator agree piecewise. *)
Lemma split_at_sep {A} (sep : A) (a a' b b' : list A) :
  sep ∉ a -> sep ∉ a' -> a ++ sep :: b = a' ++ sep :: b' -> a = a' /\ b = b'.
Proof.
  revert a'. induction a as [|x a IH]; intros [|y a'] Ha Ha' E; simplify_eq/=;
    [done|set_solver|set_solver|].
  destruct (IH a') as [-> ->]; set_solver.
Qed.

(** * Lemmas on machine integers *)

Lemma wrap64_id z : in64 z -> wrap64 z = z.
Proof. unfold in64, wrap64. intros. rewrite Z.mod_small; lia. Qed.

Lemma wrap64_in64 z : in64 (wrap64 z).
Proof.
  unfold in64, wrap64. pose proof (Z.mod_pos_bound (z + 2 ^ 63) (2 ^ 64)). lia.
Qed.

Lemma wrap64_add_l a b : wrap64 (wrap64 a + b) = wrap64 (a + b).
Proof.
  unfold wrap64. f_equal.
  replace ((a + 2 ^ 63) mod 2 ^ 64 - 2 ^ 63 + b + 2 ^ 63)%Z
    with ((a + 2 ^ 63) mod 2 ^ 64 + b)%Z by lia.
  rewrite Z.add_mod_idemp_l by lia. f_equal. lia.
Qed.

(** * Lemmas on lists *)

Section list_facts.
Context {A : Type} (P : A -> Prop) `{forall x, Decision (P x)}.

Lemma list_filter_all (l : list A) : (forall x, x ∈ l -> P x) -> filter P l = l.
Proof.
  induction l as [|x l IH]; intros Hl; [done|].
  rewrite filter_cons_True by (apply Hl; set_solver). f_equal. apply IH. set_solver.
Qed.

Lemma list_filter_none (l : list A) : (forall x, x ∈ l -> ~ P x) -> filter P l = [].
Proof.
  induction l as [|x l IH]; intros Hl; [done|].
  rewrite filter_cons_False by (apply Hl; set_solver). apply IH. set_solver.
Qed.

Lemma list_filter_Forall (Q : A -> Prop) (l : list A) : Forall Q l -> Forall Q (filter P l).
Proof. rewrite !Forall_forall. intros Hl x [_ Hx]%list_elem_of_filter. auto. Qed.

End list_facts.

Lemma NoDup_singleton_eq {A} (x : A) (l : list A) :
  NoDup l -> x ∈ l -> (forall y, y ∈ l -> y = x) -> l = [x].
Proof.
  intros Hnd Hx Hall. destruct l as [|y l]; [by apply not_elem_of_nil in Hx|].
  apply NoDup_cons in Hnd as [Hy _]. rewrite (Hall y) in * by set_solver. f_equal.
  destruct l as [|z l]; [done|]. rewrite (Hall z) in Hy by set_solver. set_solver.
Qed.

Lemma mjoin_cons {A} (l : list A) (ls : list (list A)) : mjoin (l :: ls) = l ++ mjoin ls.
Proof. done. Qed.

Lemma mjoin_take_prefix {A} n (ls : list (list A)) : mjoin (take n ls) `prefix_of` mjoin ls.
Proof.
  revert n. induction ls as [|l ls IH]; intros [|n]; [done..|by exists (mjoin (l :: ls))|].
  rewrite firstn_cons, !mjoin_cons. by apply prefix_app.
Qed.

Lemma filter_fmap {A B} (f : A -> B) (P : B -> Prop) `{forall y, Decision (P y)}
    (l : list A) :
  filter P (f <$> l) = f <$> filter (fun x => P (f x)) l.
Proof.
  induction l as [|x l IH]; [done|]. cbn [fmap list_fmap].
  rewrite !filter_cons. case_decide; cbn [fmap list_fmap]; congruence.
Qed.

(** Lists without two equivalent elements: equal once sorted. *)
Lemma merge_sort_unique {A} (R : relation A) `{!RelDecision R, !Transitive R, !Total R} l1 l2 :
  (forall x y, x ∈ l2 -> y ∈ l2 -> R x y -> R y x -> x = y) ->
  l1 ≡ₚ l2 -> merge_sort R l1 = merge_sort R l2.
Proof.
  intros Ha Hp. apply (StronglySorted_unique_strong R).
  - intros x y Hx Hy. apply Ha; [by rewrite <- Hp, <- (merge_sort_Permutation R)|].
    by rewrite <- (merge_sort_Permutation R).
  - by apply StronglySorted_merge_sort.
  - by apply StronglySorted_merge_sort.
  - by rewrite !merge_sort_Permutation.
Qed.

Lemma merge_sort_sorted {A} (R : relation A) `{!RelDecision R, !Transitive R, !Total R} l1 l2 :
  (forall x y, x ∈ l2 -> y ∈ l2 -> R x y -> R y x -> x = y) ->
  StronglySorted R l2 -> l1 ≡ₚ l2 -> merge_sort R l1 = l2.
Proof.
  intros Ha Hs Hp. apply (StronglySorted_unique_strong R).
  - intros x y Hx Hy. apply Ha; [|done]. by rewrite <- Hp, <- (merge_sort_Permutation R).
  - by apply StronglySorted_merge_sort.
  - done.
  - by rewrite !merge_sort_Permutation.
Qed.

(** * Lemmas on the scanning loops *)

(** What the running maximum of a scan is. *)
Definition is_max {A} (keep : A -> bool) (f : A -> Z) (init v : Z) (xs : list A) : Prop :=
  (init <= v)%Z /\ (forall x, x ∈ xs -> keep x = true -> (f x <= v)%Z) /\
  (v = init \/ exists x, x ∈ xs /\ keep x = true /\ v = f x).

Lemma max_over_is_max {A} (keep : A -> bool) (f : A -> Z) init xs :
  is_max keep f init (max_over keep f init xs) xs.
Proof.
  unfold max_over. revert init. induction xs as [|x xs IH]; intros init; simpl.
  { split; [lia|]. split; [set_solver|]. by left. }
  set (i' := if keep x && (init <? f x)%Z then f x else init).
  destruct (IH i') as (Hi & Hall & Hv).
  assert (init <= i' /\ (keep x = true -> f x <= i') /\
          (i' = init \/ keep x = true /\ i' = f x))%Z as (H1 & H2 & H3).
  { subst i'. destruct (keep x); simpl; [|naive_solver lia].
    destruct (Z.ltb_spec init (f x)); naive_solver lia. }
  split; [lia|]. split.
  - intros y Hy Hk. apply elem_of_cons in Hy as [->|Hy]; [|by apply Hall].
    specialize (H2 Hk). lia.
  - destruct Hv as [Hv|(y & Hy & Hk & Hv)].
    + rewrite Hv. destruct H3 as [H3|[Hk H3]]; [by left|]. right. exists x. set_solver.
    + right. exists y. set_solver.
Qed.

Lemma is_max_unique {A} (keep : A -> bool) (f : A -> Z) init v w xs :
  is_max keep f init v xs -> is_max keep f init w xs -> v = w.
Proof.
  intros (Hi & Ha & Hv) (Hi' & Ha' & Hw).
  apply Z.le_antisymm.
  - destruct Hv as [->|(x & Hx & Hk & ->)]; auto.
  - destruct Hw as [->|(x & Hx & Hk & ->)]; auto.
Qed.

Lemma max_over_eq {A} (keep : A -> bool) (f : A -> Z) init v xs :
  is_max keep f init v xs -> max_over keep f init xs = v.
Proof. apply is_max_unique, max_over_is_max. Qed.

Lemma delete_loop {V} (p : V -> bool) (L : list (string * V)) m0 n0 :
  let r := foldl (fun acc ir => if p ir.2 then (delete ir.1 acc.1, (acc.2 + 1)%Z) else acc)
             (m0, n0) L in
  r.2 = (n0 + Z.of_nat (length (filter (fun v => p v = true) L.*2)))%Z /\
  forall i : string, r.1 !! i =
    if decide (i ∈ (filter (fun ir => p ir.2 = true) L).*1) then None
    else (m0 : gmap string V) !! i.
Proof.
  revert m0 n0. induction L as [|[j v] L IH]; intros m0 n0; [simpl; split; [lia|done]|].
  cbn [foldl fmap list_fmap fst snd]. rewrite !filter_cons. simpl. destruct (p v) eqn:E; simpl.
  - destruct (IH (delete j m0) (n0 + 1)%Z) as [-> Hl]. split; [lia|].
    intros i. rewrite Hl, lookup_delete. repeat case_decide; set_solver.
  - apply IH.
Qed.

(** The deleting loop keeps exactly the other entries, and counts the ones it
    removed. *)
Lemma delete_where_spec {V} `{GoRange V} (p : V -> bool) (m : gmap string V) :
  delete_where p m =
    (filter (fun ir => p ir.2 = false) m,
     Z.of_nat (length (filter (fun v => p v = true) (range m).*2))).
Proof.
  unfold delete_where. destruct (delete_loop p (range m) m 0) as [Hn Hl].
  destruct (foldl _ _ _) as [m' n]. simpl in *. f_equal; [|lia].
  apply map_eq. intros i. rewrite Hl, map_lookup_filter.
  case_decide as Hin.
  - apply list_elem_of_fmap in Hin as ([j v] & -> & [Hp Hv]%list_elem_of_filter).
    rewrite range_perm, elem_of_map_to_list in Hv. simpl in *. rewrite Hv. simpl.
    case_guard; [congruence|done].
  - destruct (m !! i) as [v|] eqn:Hv; [|done]. simpl. case_guard as Hg; [done|].
    destruct Hin. apply list_elem_of_fmap. exists (i, v). split; [done|].
    apply list_elem_of_filter. split; [simpl in *; destruct (p v) eqn:?; congruence|].
    by rewrite range_perm, elem_of_map_to_list.
Qed.

Lemma StronglySorted_filter {A} (R : relation A) (P : A -> Prop) `{forall x, Decision (P x)} l :
  StronglySorted R l -> StronglySorted R (filter P l).
Proof.
  induction 1 as [|x l _ IH Hx]; [constructor|]. rewrite filter_cons.
  case_decide; [|done]. constructor; [done|].
  rewrite Forall_forall in Hx |- *. intros y [_ Hy]%list_elem_of_filter. auto.
Qed.

Lemma StronglySorted_imap {A B} (R : relation B) (f : nat -> A -> B) l :
  (forall i j x y, i < j -> R (f i x) (f j y)) -> StronglySorted R (imap f l).
Proof.
  revert f. induction l as [|x l IH]; intros f Hf; [constructor|].
  rewrite imap_cons. constructor.
  - apply IH. intros. apply Hf. lia.
  - apply Forall_forall. intros y (i & z & -> & _)%elem_of_lookup_imap. apply Hf. lia.
Qed.

Lemma zsum_app {A} (f : A -> Z) l k : zsum f (l ++ k) = (zsum f l + zsum f k)%Z.
Proof. unfold zsum. induction l as [|x l IH]; [done|]. simpl. rewrite IH. lia. Qed.

Lemma zsum_perm {A} (f : A -> Z) l k : l ≡ₚ k -> zsum f l = zsum f k.
Proof. unfold zsum. induction 1; simpl; lia. Qed.

Lemma zsum_fmap {A B} (f : B -> Z) (g : A -> B) l : zsum f (g <$> l) = zsum (f ∘ g) l.
Proof. unfold zsum. induction l as [|x l IH]; [done|]. csimpl. by rewrite IH. Qed.

Lemma zmax_snoc {A} (f : A -> Z) i l x : zmax f i (l ++ [x]) = Z.max (f x) (zmax f i l).
Proof. unfold zmax. induction l as [|y l IH]; [done|]. simpl. rewrite IH. lia. Qed.

Lemma zmax_perm {A} (f : A -> Z) i l k : l ≡ₚ k -> zmax f i l = zmax f i k.
Proof. unfold zmax. induction 1; simpl; lia. Qed.

Lemma zmax_fmap {A B} (f : B -> Z) (g : A -> B) i l : zmax f i (g <$> l) = zmax (f ∘ g) i l.
Proof. unfold zmax. induction l as [|x l IH]; [done|]. csimpl. by rewrite IH. Qed.

Lemma omap_fmap_some {A B C} (f : A -> B) (g : B -> option C) (h : A -> C) (l : list A) :
  (forall x, x ∈ l -> g (f x) = Some (h x)) -> omap g (f <$> l) = h <$> l.
Proof.
  induction l as [|x l IH]; intros Hl; [done|]. csimpl.
  rewrite Hl by set_solver. f_equal. apply IH. set_solver.
Qed.
