(* ===== verification/GoStrings.v ===== *)
(** The string, number-formatting and regular-expression primitives of Go's
    standard library that the service uses: [strings], [strconv], the [%d]
    verb of [fmt], and the two anchored patterns of [regexp].  Each is a
    function on byte strings, with the lemmas (round trips, injectivity) the
    components rely on. *)
From S2P Require Import Prelude.
Local Open Scope Z_scope.

(** * package strings *)

(** the slice [s] from byte [i] on *)
Fixpoint str_drop (i : nat) (s : string) : string :=
  match i, s with
  | O, _ => s
  | S i', String _ s' => str_drop i' s'
  | S _, EmptyString => EmptyString
  end.

(** [strings.HasPrefix(s, prefix)] *)
Fixpoint HasPrefix (s prefix : string) : bool :=
  match prefix, s with
  | EmptyString, _ => true
  | String a p, String b s' => bool_decide (a = b) && HasPrefix s' p
  | String _ _, EmptyString => false
  end.

(** [strings.Contains(s, substr)] *)
Fixpoint Contains (s substr : string) : bool :=
  HasPrefix s substr ||
  match s with
  | EmptyString => false
  | String _ s' => Contains s' substr
  end.

(** [strings.LastIndex(s, substr)], with [None] for Go's [-1]. *)
Fixpoint LastIndex (s substr : string) : option nat :=
  match s with
  | EmptyString => if HasPrefix s substr then Some O else None
  | String _ s' =>
      match LastIndex s' substr with
      | Some i => Some (S i)
      | None => if HasPrefix s substr then Some O else None
      end
  end.

(** [strings.Join(elems, sep)] *)
Fixpoint Join (elems : list string) (sep : string) : string :=
  match elems with
  | [] => EmptyString
  | [e] => e
  | e :: rest => e +:+ sep +:+ Join rest sep
  end.

(** [strings.TrimRight(s, cutset)] for a cutset of one byte. *)
Fixpoint TrimRight (s : string) (cut : ascii) : string :=
  match s with
  | EmptyString => EmptyString
  | String c s' =>
      match TrimRight s' cut with
      | EmptyString => if bool_decide (c = cut) then EmptyString else String c EmptyString
      | t => String c t
      end
  end.

(** [strings.ToLower] on ASCII text. *)
Definition ascii_lower (c : ascii) : ascii :=
  let n := nat_of_ascii c in
  if (Nat.leb 65 n && Nat.leb n 90)%nat then ascii_of_nat (n + 32) else c.

Fixpoint str_lower (s : string) : string :=
  match s with
  | EmptyString => EmptyString
  | String c s' => String (ascii_lower c) (str_lower s')
  end.

(** Every byte of [s] satisfies [p]. *)
Fixpoint str_forall (p : ascii -> bool) (s : string) : bool :=
  match s with
  | EmptyString => true
  | String c s' => p c && str_forall p s'
  end.

Definition str_len (s : string) : Z := Z.of_nat (String.length s).

(** * Decimal notation *)

Definition byte_val (c : ascii) : Z := Z.of_N (N_of_ascii c).
Definition byte_of (z : Z) : ascii := ascii_of_N (Z.to_N z).

Definition digit_char (d : Z) : ascii := byte_of (d + 48).
Definition is_digit (c : ascii) : bool := (48 <=? byte_val c) && (byte_val c <=? 57).
Definition digit_val (c : ascii) : Z := byte_val c - 48.

(** The decimal digits of [n >= 0], least significant first. *)
Fixpoint digits_rev (fuel : nat) (n : Z) : bytes :=
  match fuel with
  | O => []
  | S f => if n <? 10 then [digit_char n]
           else digit_char (n mod 10) :: digits_rev f (n / 10)
  end.

Definition digits (n : Z) : bytes :=
  reverse (digits_rev (S (Z.to_nat (Z.log2 n))) n).

(** [strconv.FormatInt(n, 10)], [strconv.Itoa] and the [%d] verb. *)
Definition FormatInt (n : Z) : string :=
  if n <? 0 then String "-" (string_of_bytes (digits (- n)))
  else string_of_bytes (digits n).

Definition digits_value (b : bytes) : Z :=
  foldl (fun acc c => 10 * acc + digit_val c) 0 b.

(** Unsigned decimal: at least one digit, nothing else. *)
Definition parse_digits (b : bytes) : option Z :=
  match b with
  | [] => None
  | _ => if forallb is_digit b then Some (digits_value b) else None
  end.

(** [strconv.Atoi(s)]: an optional sign, decimal digits, and the result must
    fit the 64-bit [int]; [None] is the error result. *)
Definition Atoi (s : string) : option Z :=
  let signed :=
    match bytes_of_string s with
    | "-"%char :: b => option_map Z.opp (parse_digits b)
    | "+"%char :: b => parse_digits b
    | b => parse_digits b
    end in
  match signed with
  | Some n => if bool_decide (in64 n) then Some n else None
  | None => None
  end.

(** * package regexp: the anchored character-class patterns in use *)

(** the class [[a-f0-9]] *)
Definition is_lower_hex (c : ascii) : bool :=
  is_digit c || ((97 <=? byte_val c) && (byte_val c <=? 102)).

(** [^[a-f0-9]{n}$] matched against [s] *)
Definition match_lower_hex (n : nat) (s : string) : bool :=
  Nat.eqb (String.length s) n && str_forall is_lower_hex s.

(** * Lemmas: slices, prefixes and the last occurrence *)

Lemma str_drop_app s t : str_drop (String.length s) (s +:+ t) = t.
Proof. induction s; [by destruct t|]. done. Qed.

Lemma HasPrefix_spec s p : HasPrefix s p = true <-> exists t, s = p +:+ t.
Proof.
  revert s. induction p as [|a p IH]; intros s.
  - simpl. split; [by exists s|]. by destruct s.
  - destruct s as [|b s]; simpl.
    + split; [done|]. intros [t E]. by rewrite string_app_cons in E.
    + rewrite andb_true_iff, bool_decide_eq_true, IH. split.
      * intros [-> [t ->]]. by exists t.
      * intros [t E]. rewrite string_app_cons in E. simplify_eq. eauto.
Qed.

Lemma HasPrefix_app p t : HasPrefix (p +:+ t) p = true.
Proof. apply HasPrefix_spec. eauto. Qed.

(** The byte [c] does not occur in [s]. *)
Definition str_free (c : ascii) (s : string) : Prop :=
  str_forall (fun x => negb (bool_decide (x = c))) s = true.

Lemma str_free_cons c a s : str_free c (String a s) <-> a <> c /\ str_free c s.
Proof.
  unfold str_free. simpl. rewrite andb_true_iff, negb_true_iff, bool_decide_eq_false. done.
Qed.

Lemma str_free_bytes c s : str_free c s <-> c ∉ bytes_of_string s.
Proof.
  induction s as [|a s IH]; [split; [|done]; set_solver|].
  rewrite str_free_cons, IH. simpl. rewrite not_elem_of_cons. naive_solver.
Qed.

Lemma str_free_app c s t : str_free c (s +:+ t) <-> str_free c s /\ str_free c t.
Proof. rewrite !str_free_bytes, bytes_of_string_app, not_elem_of_app. done. Qed.

Lemma str_length_app s t : String.length (s +:+ t) = (String.length s + String.length t)%nat.
Proof. by rewrite <- !length_bytes_of_string, bytes_of_string_app, length_app. Qed.

(** A text is cut in one way at the first occurrence of a byte. *)
Lemma str_split c s s' t t' :
  str_free c s -> str_free c s' -> s +:+ String c t = s' +:+ String c t' -> s = s' /\ t = t'.
Proof.
  intros Hs%str_free_bytes Hs'%str_free_bytes E%(f_equal bytes_of_string).
  rewrite !bytes_of_string_app in E. simpl in E.
  by apply split_at_sep in E as [->%(inj _) ->%(inj _)].
Qed.

Lemma str_forall_free (p : ascii -> bool) c s :
  p c = false -> str_forall p s = true -> str_free c s.
Proof.
  intros Hp. induction s as [|a s IH]; [done|]. simpl. rewrite andb_true_iff.
  intros [Ha Hs]. apply str_free_cons. split; [congruence|auto].
Qed.

Lemma LastIndex_free c sub s :
  str_free c s -> LastIndex s (String c sub) = None.
Proof.
  induction s as [|a s IH]; [done|]. rewrite str_free_cons. intros [Ha Hs].
  simpl. rewrite IH by done. by rewrite bool_decide_eq_false_2 by congruence.
Qed.

(** When the text after a marker has none of the marker's first byte, the
    last occurrence of the marker is that one. *)
Lemma LastIndex_app c sub s t :
  str_free c sub -> str_free c t ->
  LastIndex (s +:+ String c sub +:+ t) (String c sub) = Some (String.length s).
Proof.
  intros Hsub Ht. induction s as [|a s IH].
  - rewrite string_app_nil_l. change (String c sub +:+ t) with (String c (sub +:+ t)).
    simpl. rewrite LastIndex_free by (by apply str_free_app).
    by rewrite bool_decide_eq_true_2, HasPrefix_app.
  - rewrite string_app_cons. simpl. by rewrite IH.
Qed.

(** With a single byte [c] in the text, an occurrence can only be there. *)
Lemma LastIndex_single c sub s t :
  str_free c s -> str_free c t -> HasPrefix t sub = false ->
  LastIndex (s +:+ String c t) (String c sub) = None.
Proof.
  intros Hs Ht Hp. induction s as [|a s IH].
  - rewrite string_app_nil_l. simpl. rewrite LastIndex_free by done.
    by rewrite Hp, andb_false_r.
  - apply str_free_cons in Hs as [Ha Hs]. rewrite string_app_cons. simpl.
    rewrite IH by done. by rewrite bool_decide_eq_false_2 by congruence.
Qed.

(** * Lemmas: decimal notation *)

Lemma byte_val_of z : 0 <= z < 256 -> byte_val (byte_of z) = z.
Proof.
  intros. unfold byte_val, byte_of. rewrite N_ascii_embedding by lia. lia.
Qed.

Lemma byte_of_val c : byte_of (byte_val c) = c.
Proof. unfold byte_val, byte_of. rewrite N2Z.id. apply ascii_N_embedding. Qed.

Lemma byte_val_range c : 0 <= byte_val c < 256.
Proof. unfold byte_val. pose proof (N_ascii_bounded c). lia. Qed.

Lemma is_digit_char d : 0 <= d < 10 -> is_digit (digit_char d) = true.
Proof.
  intros. unfold is_digit, digit_char. rewrite byte_val_of by lia.
  apply andb_true_iff; split; apply Z.leb_le; lia.
Qed.

Lemma digit_val_char d : 0 <= d < 10 -> digit_val (digit_char d) = d.
Proof. intros. unfold digit_val, digit_char. rewrite byte_val_of; lia. Qed.

(** Value of a digit list written least significant digit first. *)
Fixpoint rev_value (b : bytes) : Z :=
  match b with [] => 0 | c :: b' => digit_val c + 10 * rev_value b' end.

Lemma digits_value_reverse b : digits_value (reverse b) = rev_value b.
Proof.
  unfold digits_value. induction b as [|c b IH]; [done|].
  rewrite reverse_cons, foldl_app, IH. simpl. lia.
Qed.

Lemma digits_rev_ok fuel n :
  0 <= n < 10 ^ Z.of_nat fuel ->
  rev_value (digits_rev fuel n) = n /\ Forall (fun c => is_digit c = true) (digits_rev fuel n).
Proof.
  revert n. induction fuel as [|f IH]; intros n Hn; [simpl in *; split; [lia|done]|].
  rewrite Nat2Z.inj_succ, Z.pow_succ_r in Hn by lia. simpl.
  destruct (Z.ltb_spec n 10).
  - simpl. rewrite digit_val_char by lia.
    split; [lia|]. repeat constructor. apply is_digit_char. lia.
  - pose proof (Z.mod_pos_bound n 10). pose proof (Z.div_mod n 10).
    destruct (IH (n / 10)) as [Hv Hd].
    { split; [apply Z.div_pos; lia|]. apply Z.div_lt_upper_bound; lia. }
    simpl. rewrite Hv, digit_val_char by lia. split; [lia|].
    constructor; [apply is_digit_char; lia|done].
Qed.

Lemma digits_fuel n : 0 <= n -> n < 10 ^ Z.of_nat (S (Z.to_nat (Z.log2 n))).
Proof.
  intros Hn. destruct (decide (n = 0)) as [->|Hne]; [reflexivity|].
  apply Z.lt_le_trans with (2 ^ Z.of_nat (S (Z.to_nat (Z.log2 n)))).
  - rewrite Nat2Z.inj_succ, Z2Nat.id by apply Z.log2_nonneg.
    by apply Z.log2_spec; lia.
  - apply Z.pow_le_mono_l. lia.
Qed.

Lemma digits_ok n :
  0 <= n -> digits_value (digits n) = n /\ Forall (fun c => is_digit c = true) (digits n).
Proof.
  intros Hn. unfold digits.
  destruct (digits_rev_ok (S (Z.to_nat (Z.log2 n))) n) as [Hv Hd];
    [split; [done|by apply digits_fuel]|].
  rewrite digits_value_reverse. split; [done|]. by apply Forall_reverse.
Qed.

Lemma digits_nonempty n : digits n <> [].
Proof.
  unfold digits. cbn [digits_rev]. destruct (n <? 10); [done|].
  rewrite reverse_cons. by destruct (reverse _).
Qed.

Lemma parse_digits_digits n : 0 <= n -> parse_digits (digits n) = Some n.
Proof.
  intros Hn. destruct (digits_ok n Hn) as [Hv Hd]. unfold parse_digits.
  destruct (digits n) as [|c b] eqn:E; [by destruct (digits_nonempty n)|].
  assert (forallb is_digit (c :: b) = true) as ->.
  { apply List.forallb_forall. intros x Hx%list_elem_of_In.
    rewrite Forall_forall in Hd. auto. }
  by rewrite Hv.
Qed.

Lemma digits_sign n : 0 <= n -> exists c b, digits n = c :: b /\ is_digit c = true.
Proof.
  intros Hn. destruct (digits_ok n Hn) as [_ Hd].
  destruct (digits n) as [|c b] eqn:E; [by destruct (digits_nonempty n)|].
  exists c, b. split; [done|]. by apply Forall_cons in Hd as [? _].
Qed.

(** A decimal has no leading zero. *)
Lemma digits_rev_last fuel n :
  0 < n < 10 ^ Z.of_nat fuel ->
  exists b d, digits_rev fuel n = b ++ [digit_char d] /\ 1 <= d < 10.
Proof.
  revert n. induction fuel as [|f IH]; intros n Hn; [simpl in Hn; lia|].
  rewrite Nat2Z.inj_succ, Z.pow_succ_r in Hn by lia. simpl. destruct (Z.ltb_spec n 10).
  - exists [], n. split; [done|lia].
  - destruct (IH (n / 10)) as (b & d & -> & Hd).
    { split; [apply Z.div_str_pos; lia|apply Z.div_lt_upper_bound; lia]. }
    by exists (digit_char (n mod 10) :: b), d.
Qed.

Lemma digits_head n : 0 < n -> exists d b, digits n = digit_char d :: b /\ 1 <= d < 10.
Proof.
  intros Hn. unfold digits.
  destruct (digits_rev_last (S (Z.to_nat (Z.log2 n))) n) as (b & d & -> & Hd).
  { split; [done|]. apply digits_fuel. lia. }
  exists d, (reverse b). by rewrite reverse_app.
Qed.

Lemma FormatInt_nonneg n : 0 <= n -> FormatInt n = string_of_bytes (digits n).
Proof. intros. unfold FormatInt. by destruct (Z.ltb_spec n 0); [lia|]. Qed.

(** Parsing what was formatted gives the integer back. *)
Lemma Atoi_in64 s n : Atoi s = Some n -> in64 n.
Proof.
  unfold Atoi. set (signed := match bytes_of_string s with [] => _ | _ :: _ => _ end).
  destruct signed as [m|]; [|done]. case_bool_decide; [|done]. by intros [= <-].
Qed.

Lemma Atoi_FormatInt n : in64 n -> Atoi (FormatInt n) = Some n.
Proof.
  intros Hn. unfold Atoi, FormatInt. destruct (Z.ltb_spec n 0).
  - cbn [bytes_of_string]. rewrite bytes_of_string_of_bytes, parse_digits_digits by lia.
    simpl. rewrite Z.opp_involutive. by rewrite bool_decide_eq_true_2.
  - rewrite bytes_of_string_of_bytes.
    destruct (digits_sign n) as (c & b & E & Hc); [lia|].
    pose proof (parse_digits_digits n) as Hp. rewrite E in *.
    assert (c <> "-"%char /\ c <> "+"%char) as [] by (split; intros ->; discriminate).
    destruct c as [[] [] [] [] [] [] [] []]; simplify_eq/=;
      rewrite Hp by lia; by rewrite bool_decide_eq_true_2.
Qed.

(** A decimal consists of digits and a leading minus sign. *)
Lemma FormatInt_free c n :
  is_digit c = false -> c <> "-"%char -> str_free c (FormatInt n).
Proof.
  intros Hc Hm. assert (forall k, 0 <= k -> str_free c (string_of_bytes (digits k))) as Hk.
  { intros k Hk. apply str_free_bytes. rewrite bytes_of_string_of_bytes. intros Hin.
    destruct (digits_ok k Hk) as [_ Hd]. rewrite Forall_forall in Hd.
    specialize (Hd c Hin). congruence. }
  unfold FormatInt. destruct (Z.ltb_spec n 0); [|apply Hk; lia].
  apply str_free_cons. split; [congruence|]. apply Hk. lia.
Qed.

Lemma digits_inj n m : 0 <= n -> 0 <= m -> digits n = digits m -> n = m.
Proof.
  intros Hn Hm E. destruct (digits_ok n Hn) as [<- _], (digits_ok m Hm) as [<- _].
  by rewrite E.
Qed.

#[global] Instance FormatInt_inj : Inj (=) (=) FormatInt.
Proof.
  intros n m E. unfold FormatInt in E.
  destruct (Z.ltb_spec n 0), (Z.ltb_spec m 0).
  - injection E as E. apply (inj _) in E. apply digits_inj in E; lia.
  - destruct (digits_sign m) as (c & b & Em & Hc); [lia|]. rewrite Em in E.
    injection E as <- _. discriminate.
  - destruct (digits_sign n) as (c & b & En & Hc); [lia|]. rewrite En in E.
    injection E as -> _. discriminate.
  - apply (inj _) in E. by apply digits_inj in E.
Qed.

(** * Lemmas: lower-case hexadecimal *)

Lemma match_lower_hex_free n s c :
  is_lower_hex c = false -> match_lower_hex n s = true -> str_free c s.
Proof.
  intros Hc. unfold match_lower_hex. rewrite andb_true_iff.
  intros [_ Hs]. by eapply str_forall_free.
Qed.
