(* ===== verification/GoError.v ===== *)
(** Go's error values: the package-level sentinels of the service, errors
    made outside the repository, and [fmt.Errorf("...%w...", err)] wrapping,
    with [errors.Is], [errors.As] and [Error()].  [result] is the pair
    [(value, error)] of a function that returns a value only on success. *)
From S2P Require Import Prelude GoStrings.
Local Open Scope Z_scope.

(** * Error values *)

(** The sentinel errors, compared by identity. *)
Inductive sentinel :=
  | EOF                        (* io.EOF *)
  | ErrUnexpectedEOF           (* io.ErrUnexpectedEOF *)
  | ErrNoRows                  (* sql.ErrNoRows *)
  | ErrTxDone                  (* sql.ErrTxDone *)
  | ErrSeqConflict             (* blobstore *)
  | ErrNotFound
  | ErrRetentionGuard
  | ErrEmptyBlob
  | ErrMalformed               (* authproof *)
  | ErrExpired
  | ErrTooFarFuture
  | ErrActionMismatch
  | ErrBadSignature
  | ErrBodyDigestMismatch      (* middlewares *)
  | ErrBodyTooLarge            (* server.errBodyTooLarge *)
  | ErrMissingServerKey        (* config *)
  | ErrInvalidServerKey
  | ErrNoServerIdentityKey.    (* client *)

#[global] Instance sentinel_eq_dec : EqDecision sentinel.
Proof. solve_decision. Defined.

Inductive error :=
  | Sentinel (s : sentinel)
  | External (msg : string)                          (* made by a package outside src *)
  | PqError (code msg : string)                      (* *pq.Error: SQLSTATE and its text *)
  | APIError (status : Z) (code message : string)    (* *client.APIError *)
  | Wrapf (pre : string) (inner : error) (post : string). (* fmt.Errorf with one %w *)

#[global] Instance error_eq_dec : EqDecision error.
Proof. solve_decision. Defined.

Coercion Sentinel : sentinel >-> error.

Definition sentinel_text (s : sentinel) : string :=
  match s with
  | EOF => "EOF"
  | ErrUnexpectedEOF => "unexpected EOF"
  | ErrNoRows => "sql: no rows in result set"
  | ErrTxDone => "sql: transaction has already been committed or rolled back"
  | ErrSeqConflict => "sequence conflict"
  | ErrNotFound => "not found"
  | ErrRetentionGuard => "generation is within the retained window"
  | ErrEmptyBlob => "empty blob"
  | ErrMalformed => "malformed auth proof"
  | ErrExpired => "auth proof expired"
  | ErrTooFarFuture => "auth proof expiry too far in the future"
  | ErrActionMismatch => "auth proof action mismatch"
  | ErrBadSignature => "auth proof signature invalid"
  | ErrBodyDigestMismatch => "body does not match the digest bound into the auth proof"
  | ErrBodyTooLarge => "request body exceeds the permitted size"
  | ErrMissingServerKey => "SERVER_PRIVATE_KEY is not defined in environment variables"
  | ErrInvalidServerKey => "SERVER_PRIVATE_KEY is invalid"
  | ErrNoServerIdentityKey => "limits response carries no serverIdentityKey"
  end.

(** [err.Error()] *)
Fixpoint Error (e : error) : string :=
  match e with
  | Sentinel s => sentinel_text s
  | External m => m
  | PqError _ m => m
  | APIError st c m => "backup cache: " +:+ FormatInt st +:+ " " +:+ c +:+ ": " +:+ m
  | Wrapf pre i post => pre +:+ Error i +:+ post
  end.

(** [errors.Is(err, target)] for a sentinel target. *)
Fixpoint Is (e : error) (t : sentinel) : bool :=
  match e with
  | Sentinel s => bool_decide (s = t)
  | Wrapf _ i _ => Is i t
  | External _ | PqError _ _ | APIError _ _ _ => false
  end.

(** [errors.As(err, &pqErr)]: the SQLSTATE code of the wrapped driver error. *)
Fixpoint AsPqCode (e : error) : option string :=
  match e with
  | PqError c _ => Some c
  | Wrapf _ i _ => AsPqCode i
  | Sentinel _ | External _ | APIError _ _ _ => None
  end.

(** [errors.As(err, &apiErr)] *)
Fixpoint AsAPIError (e : error) : option (Z * string * string) :=
  match e with
  | APIError st c m => Some (st, c, m)
  | Wrapf _ i _ => AsAPIError i
  | Sentinel _ | External _ | PqError _ _ => None
  end.

(** * Results *)

Inductive result (A : Type) :=
  | Ok (a : A)
  | Err (e : error).
Arguments Ok {A} a.
Arguments Err {A} e.

#[global] Instance result_eq_dec {A} `{EqDecision A} : EqDecision (result A).
Proof. solve_decision. Defined.

Definition res_bind {A B} (r : result A) (f : A -> result B) : result B :=
  match r with Ok a => f a | Err e => Err e end.

Definition is_ok {A} (r : result A) : bool := match r with Ok _ => true | Err _ => false end.

Declare Scope go_scope.
Delimit Scope go_scope with go.
Notation "'try' x ':=' c 'in' k" := (res_bind c (fun x => k))
  (at level 10, x pattern, c at level 100, k at level 200) : go_scope.

Lemma res_bind_Ok {A B} (r : result A) (f : A -> result B) b :
  res_bind r f = Ok b -> exists a, r = Ok a /\ f a = Ok b.
Proof. destruct r; simpl; [eauto|done]. Qed.

(** A wrapped error still is what it wraps. *)
Lemma Is_Wrapf pre e post t : Is (Wrapf pre e post) t = Is e t.
Proof. done. Qed.

Lemma Is_Sentinel (s : sentinel) : Is s s = true.
Proof. simpl. by apply bool_decide_eq_true. Qed.

#[export] Hint Rewrite Is_Wrapf Is_Sentinel : go.
