(* ===== verification/Sha256.v ===== *)
(** [crypto/sha256] (FIPS 180-4) and [encoding/hex], which the stores, the
    body wrapper and the clients use for digests.  [sha256_hex] is the
    composition [hex.EncodeToString(sha256.Sum256(data))] of the code.  The
    streaming hasher ([sha256.New], [Write], [Sum]) is represented by the
    bytes written so far: its [Sum] is the digest of their concatenation. *)
From S2P Require Import Prelude GoStrings.
Local Open Scope Z_scope.

(** * The compression function on 32-bit words *)

Definition w32 (z : Z) : Z := z mod 2 ^ 32.
Definition rotr (n x : Z) : Z := Z.lor (Z.shiftr x n) (w32 (Z.shiftl x (32 - n))).
Definition shr (n x : Z) : Z := Z.shiftr x n.
Definition lnot32 (x : Z) : Z := Z.lxor x 0xffffffff.

Definition Ch (x y z : Z) : Z := Z.lxor (Z.land x y) (Z.land (lnot32 x) z).
Definition Maj (x y z : Z) : Z :=
  Z.lxor (Z.lxor (Z.land x y) (Z.land x z)) (Z.land y z).
Definition bsig0 (x : Z) : Z := Z.lxor (Z.lxor (rotr 2 x) (rotr 13 x)) (rotr 22 x).
Definition bsig1 (x : Z) : Z := Z.lxor (Z.lxor (rotr 6 x) (rotr 11 x)) (rotr 25 x).
Definition ssig0 (x : Z) : Z := Z.lxor (Z.lxor (rotr 7 x) (rotr 18 x)) (shr 3 x).
Definition ssig1 (x : Z) : Z := Z.lxor (Z.lxor (rotr 17 x) (rotr 19 x)) (shr 10 x).

(** The constants, as the standard defines them: the first 32 bits of the
    fractional parts of the cube roots of the first 64 primes, and of the
    square roots of the first eight. *)
Fixpoint find_root (bits : nat) (e n acc : Z) : Z :=
  match bits with
  | O => acc
  | S b =>
      let acc' := acc + 2 ^ Z.of_nat b in
      find_root b e n (if acc' ^ e <=? n then acc' else acc)
  end.

Definition is_prime (n : nat) : bool :=
  (2 <=? n)%nat && forallb (fun d => negb (n mod d =? 0)%nat) (seq 2 (n - 2)).

Definition sha_primes : list Z :=
  Eval vm_compute in (Z.of_nat <$> base.filter (fun n => is_prime n = true) (seq 0 312)).

Definition sha_K : list Z :=
  Eval vm_compute in ((fun p => w32 (find_root 36 3 (p * 2 ^ 96) 0)) <$> sha_primes).

Definition sha_H0 : list Z :=
  Eval vm_compute in ((fun p => w32 (find_root 37 2 (p * 2 ^ 64) 0)) <$> take 8 sha_primes).

(** The message schedule: [w] holds the last sixteen words, oldest first;
    [n] more are produced, each one appended. *)
Fixpoint schedule (n : nat) (w : list Z) : list Z :=
  match n with
  | O => w
  | S n' =>
      let nw := w32 (ssig1 (nth 14 w 0) + nth 9 w 0 + ssig0 (nth 1 w 0) + nth 0 w 0) in
      match w with
      | [] => []
      | w0 :: ws => w0 :: schedule n' (ws ++ [nw])
      end
  end.

(** One round on the working variables [a..h]. *)
Definition sha_round (st : list Z) (kw : Z * Z) : list Z :=
  match st with
  | [a; b; c; d; e; f; g; h] =>
      let t1 := w32 (h + bsig1 e + Ch e f g + fst kw + snd kw) in
      let t2 := w32 (bsig0 a + Maj a b c) in
      [w32 (t1 + t2); a; b; c; w32 (d + t1); e; f; g]
  | _ => st
  end.

Definition compress (st : list Z) (block : list Z) : list Z :=
  let st' := fold_left sha_round (combine sha_K (schedule 48 block)) st in
  map (fun p => w32 (fst p + snd p)) (combine st st').

(** * Padding and blocks *)

(** [n] bytes of [z], most significant first. *)
Fixpoint be_bytes (n : nat) (z : Z) : list Z :=
  match n with
  | O => []
  | S n' => be_bytes n' (z / 256) ++ [z mod 256]
  end.

Definition sha_pad (data : list Z) : list Z :=
  let len := Z.of_nat (length data) in
  let zeros := Z.to_nat ((55 - len) mod 64) in
  data ++ [0x80] ++ repeat 0 zeros ++ be_bytes 8 (8 * len).

Fixpoint words (n : nat) (l : list Z) : list Z * list Z :=
  match n with
  | O => ([], l)
  | S n' =>
      match l with
      | a :: b :: c :: d :: l' =>
          let '(ws, rest) := words n' l' in
          (((a * 256 + b) * 256 + c) * 256 + d :: ws, rest)
      | _ => ([], l)
      end
  end.

(** [n] blocks of sixteen words each. *)
Fixpoint hash_blocks (n : nat) (st : list Z) (l : list Z) : list Z :=
  match n with
  | O => st
  | S n' => let '(ws, rest) := words 16 l in hash_blocks n' (compress st ws) rest
  end.

(** [sha256.Sum256(data)] *)
Definition Sum256 (data : bytes) : list Z :=
  let p := sha_pad (map byte_val data) in
  concat (map (be_bytes 4) (hash_blocks (length p / 64) sha_H0 p)).

(** * package encoding/hex *)

Definition hex_digit (d : Z) : ascii := if d <? 10 then byte_of (d + 48) else byte_of (d + 87).

(** [hex.EncodeToString] *)
Fixpoint EncodeToString (l : list Z) : string :=
  match l with
  | [] => EmptyString
  | b :: l' => String (hex_digit (b / 16)) (String (hex_digit (b mod 16)) (EncodeToString l'))
  end.

Definition sha256_hex (data : bytes) : string := EncodeToString (Sum256 data).

(** * Test vectors *)

Example sha256_empty :
  sha256_hex [] = "e3b0c44298fc1c149afbf4c8996fb92427ae41e4649b934ca495991b7852b855".
Proof. vm_compute. reflexivity. Qed.

Example sha256_foo :
  sha256_hex (bytes_of_string "foo")
  = "2c26b46b68ffc68ff99b453c1d30413413422d706483bfa0f98a5e886266e7ae".
Proof. vm_compute. reflexivity. Qed.

Example sha256_two_blocks :
  sha256_hex (bytes_of_string "abcdbcdecdefdefgefghfghighijhijkijkljklmklmnlmnomnopnopq")
  = "248d6a61d20638b8e5c026930c3e6039a33ce45964ff2167f6ecedd419db06c1".
Proof. vm_compute. reflexivity. Qed.

(** * The digest text is 64 lower-case hexadecimal characters *)

Lemma hex_digit_lower d : 0 <= d < 16 -> is_lower_hex (hex_digit d) = true.
Proof.
  intros Hd. unfold hex_digit, is_lower_hex, is_digit.
  destruct (Z.ltb_spec d 10); rewrite byte_val_of by lia;
    repeat match goal with |- context [(?a <=? ?b)] => destruct (Z.leb_spec a b); try lia end;
    done.
Qed.

Lemma length_be_bytes n z : length (be_bytes n z) = n.
Proof. revert z. induction n as [|n IH]; intros z; [done|]. simpl. rewrite length_app, IH. simpl. lia. Qed.

Lemma be_bytes_range n z : Forall (fun b => 0 <= b < 256) (be_bytes n z).
Proof.
  revert z. induction n as [|n IH]; intros z; [constructor|]. simpl.
  apply Forall_app. split; [apply IH|]. repeat constructor; apply Z.mod_pos_bound; lia.
Qed.

Lemma EncodeToString_lower l :
  Forall (fun b => 0 <= b < 256) l -> str_forall is_lower_hex (EncodeToString l) = true.
Proof.
  induction 1 as [|b l Hb _ IH]; [done|]. simpl. rewrite IH, !hex_digit_lower; [done| |].
  - split; [apply Z.mod_pos_bound; lia|]. apply Z.mod_pos_bound; lia.
  - split; [apply Z.div_pos; lia|]. apply Z.div_lt_upper_bound; lia.
Qed.

Lemma length_EncodeToString l : String.length (EncodeToString l) = (2 * length l)%nat.
Proof. induction l as [|b l IH]; [done|]. simpl. rewrite IH. lia. Qed.

Lemma length_compress st b : length st = 8%nat -> length (compress st b) = 8%nat.
Proof.
  intros H. unfold compress. rewrite length_map, length_combine.
  assert (forall l s, length s = 8%nat -> length (fold_left sha_round l s) = 8%nat) as Hr.
  { induction l as [|kw l IH]; intros s Hs; [done|]. simpl. apply IH.
    do 9 (destruct s as [|? s]; simplify_eq/=; try done). }
  rewrite Hr by done. lia.
Qed.

Lemma length_hash_blocks n st l : length st = 8%nat -> length (hash_blocks n st l) = 8%nat.
Proof.
  revert st l. induction n as [|n IH]; intros st l H; [done|]. cbn [hash_blocks].
  destruct (words 16 l) as [ws rest]. apply IH. by apply length_compress.
Qed.

Lemma Sum256_shape data :
  length (Sum256 data) = 32%nat /\ Forall (fun b => 0 <= b < 256) (Sum256 data).
Proof.
  unfold Sum256. set (p := sha_pad (map byte_val data)).
  pose proof (length_hash_blocks (length p / 64) sha_H0 p eq_refl) as H.
  revert H. generalize (hash_blocks (length p / 64) sha_H0 p). intros l Hl. split.
  - do 9 (destruct l as [|? l]; simplify_eq/=; try done).
  - apply Forall_concat, Forall_map, Forall_forall. intros x _. apply be_bytes_range.
Qed.

Lemma sha256_hex_shape data : match_lower_hex 64 (sha256_hex data) = true.
Proof.
  destruct (Sum256_shape data) as [Hl Hr]. unfold match_lower_hex, sha256_hex.
  by rewrite length_EncodeToString, Hl, EncodeToString_lower.
Qed.

(** Proofs never compute a digest; the witnesses use [vm_compute]. *)
#[global] Opaque sha256_hex.
