(* ===== verification/GoTime.v ===== *)
(** The part of package [time] the service uses.  A [time.Time] is a number
    of nanoseconds since the Unix epoch, a [time.Duration] a number of
    nanoseconds. *)
From S2P Require Import Prelude.
Local Open Scope Z_scope.

Definition Millisecond : Z := 10 ^ 6.
Definition Second : Z := 10 ^ 9.
Definition Minute : Z := 60 * Second.

(** [t.UnixMilli()]: the fraction is dropped towards the past. *)
Definition UnixMilli (t : Z) : Z := wrap64 (t / Millisecond).

(** [time.UnixMilli(ms)] *)
Definition time_UnixMilli (ms : Z) : Z := ms * Millisecond.

(** [d.Milliseconds()] of a non-negative duration. *)
Definition Milliseconds (d : Z) : Z := d / Millisecond.

(** Clock readings of this era: between 1970 and the year 2262, where every
    quantity the service derives from them fits 64 bits. *)
Definition clock_ok (t : Z) : Prop := 0 <= t < 2 ^ 63.

Lemma UnixMilli_clock t : clock_ok t -> UnixMilli t = t / Millisecond /\ 0 <= t / Millisecond < 2 ^ 44.
Proof.
  unfold clock_ok, UnixMilli, Millisecond. intros Ht.
  assert (0 <= t / 10 ^ 6 < 2 ^ 44).
  { split; [apply Z.div_pos; lia|]. apply Z.div_lt_upper_bound; lia. }
  split; [|done]. apply wrap64_id. unfold in64. lia.
Qed.

(** A moment strictly before a whole millisecond reads as an earlier one. *)
Lemma UnixMilli_lt t ms : clock_ok t -> UnixMilli t < ms <-> t < time_UnixMilli ms.
Proof.
  intros Ht. destruct (UnixMilli_clock t Ht) as [-> _]. unfold time_UnixMilli, Millisecond.
  split; intros H; [|apply Z.div_lt_upper_bound; lia].
  pose proof (Z.mod_pos_bound t (10 ^ 6)). pose proof (Z.div_mod t (10 ^ 6)). lia.
Qed.
