(* ===== verification/Base64.v ===== *)
(** Package [encoding/base64]: [StdEncoding.EncodeToString] and
    [StdEncoding.DecodeString], with their round trip. *)
From S2P Require Import Prelude GoStrings.
Local Open Scope Z_scope.

(** The standard alphabet: A-Z, a-z, 0-9, +, /. *)
Definition b64_char (v : Z) : ascii :=
  if v <? 26 then byte_of (v + 65)
  else if v <? 52 then byte_of (v - 26 + 97)
  else if v <? 62 then byte_of (v - 52 + 48)
  else if v =? 62 then "+"%char else "/"%char.

Definition b64_val (c : ascii) : option Z :=
  let n := byte_val c in
  if (65 <=? n) && (n <=? 90) then Some (n - 65)
  else if (97 <=? n) && (n <=? 122) then Some (n - 97 + 26)
  else if (48 <=? n) && (n <=? 57) then Some (n - 48 + 52)
  else if n =? 43 then Some 62
  else if n =? 47 then Some 63
  else None.

Definition pad : ascii := "="%char.

(** Three bytes make four characters; the last group is padded. *)
Fixpoint base64_encode (b : bytes) : bytes :=
  match b with
  | [] => []
  | [x] =>
      let n := byte_val x * 65536 in
      [b64_char (n / 262144); b64_char (n / 4096 mod 64); pad; pad]
  | [x; y] =>
      let n := byte_val x * 65536 + byte_val y * 256 in
      [b64_char (n / 262144); b64_char (n / 4096 mod 64); b64_char (n / 64 mod 64); pad]
  | x :: y :: z :: rest =>
      let n := byte_val x * 65536 + byte_val y * 256 + byte_val z in
      b64_char (n / 262144) :: b64_char (n / 4096 mod 64) :: b64_char (n / 64 mod 64)
        :: b64_char (n mod 64) :: base64_encode rest
  end.

Definition base64_EncodeToString (b : bytes) : string := string_of_bytes (base64_encode b).

(** The decoder works on groups of four characters.  Padding ends the input;
    the unused low bits of a padded group are not checked. *)
Fixpoint base64_groups (b : bytes) : option bytes :=
  match b with
  | [] => Some []
  | p :: q :: r :: s :: rest =>
      match b64_val p, b64_val q with
      | Some vp, Some vq =>
          let n := vp * 262144 + vq * 4096 in
          if bool_decide (r = pad) && bool_decide (s = pad) && bool_decide (rest = []) then
            Some [byte_of (n / 65536)]
          else
            match b64_val r with
            | None => None
            | Some vr =>
                let n := n + vr * 64 in
                if bool_decide (s = pad) && bool_decide (rest = []) then
                  Some [byte_of (n / 65536); byte_of (n / 256 mod 256)]
                else
                  match b64_val s, base64_groups rest with
                  | Some vs, Some out =>
                      let n := n + vs in
                      Some (byte_of (n / 65536) :: byte_of (n / 256 mod 256)
                              :: byte_of (n mod 256) :: out)
                  | _, _ => None
                  end
            end
      | _, _ => None
      end
  | _ => None
  end.

(** Line breaks are skipped wherever they stand. *)
Definition is_line_break (c : ascii) : bool := (byte_val c =? 10) || (byte_val c =? 13).

Definition base64_DecodeString (s : string) : option bytes :=
  base64_groups (base.filter (fun c => is_line_break c = false) (bytes_of_string s)).

(** * Round trip *)

(** Every 6-bit value and every byte, by evaluation. *)
Lemma forall_below (n : nat) (P : Z -> bool) :
  forallb (fun i => P (Z.of_nat i)) (seq 0 n) = true -> forall z, 0 <= z < Z.of_nat n -> P z = true.
Proof.
  intros H z Hz. rewrite forallb_forall in H. specialize (H (Z.to_nat z)).
  rewrite Z2Nat.id in H by lia. apply H, in_seq. lia.
Qed.

Definition b64_char_good (v : Z) : bool :=
  bool_decide (b64_val (b64_char v) = Some v) && bool_decide (b64_char v <> pad)
  && negb (is_line_break (b64_char v)) && (byte_val (b64_char v) <? 128).

Lemma b64_char_props v : 0 <= v < 64 -> b64_char_good v = true.
Proof. apply (forall_below 64). vm_compute. reflexivity. Qed.

Lemma b64_val_char v : 0 <= v < 64 -> b64_val (b64_char v) = Some v.
Proof.
  intros Hv%b64_char_props. unfold b64_char_good in Hv.
  rewrite !andb_true_iff, !bool_decide_eq_true in Hv. apply Hv.
Qed.

Lemma b64_char_pad v : 0 <= v < 64 -> b64_char v <> pad.
Proof.
  intros Hv%b64_char_props. unfold b64_char_good in Hv.
  rewrite !andb_true_iff, !bool_decide_eq_true in Hv. apply Hv.
Qed.

(** Induction by groups of three bytes. *)
Lemma groups_ind (P : bytes -> Prop) :
  P [] -> (forall x, P [x]) -> (forall x y, P [x; y]) ->
  (forall x y z rest, P rest -> P (x :: y :: z :: rest)) -> forall b, P b.
Proof.
  intros H0 H1 H2 H3. fix IH 1. intros [|x [|y [|z rest]]]; [done|apply H1|apply H2|].
  apply H3, IH.
Qed.

Lemma byte_of_eq c v : v = byte_val c -> byte_of v = c.
Proof. intros ->. apply byte_of_val. Qed.

(** Arithmetic on the values of bytes. *)
Ltac b64_bytes :=
  repeat match goal with
    | |- context [byte_val ?x] =>
        pose proof (byte_val_range x); generalize dependent (byte_val x); intros
    end;
  Z.to_euclidean_division_equations; lia.

Ltac b64_digits := rewrite ?b64_val_char by b64_bytes.

Lemma base64_groups_encode b : base64_groups (base64_encode b) = Some b.
Proof.
  induction b as [|x|x y|x y z rest IH] using groups_ind.
  - done.
  - simpl. b64_digits. simpl. do 2 f_equal. apply byte_of_eq. b64_bytes.
  - cbn [base64_encode base64_groups]. b64_digits.
    rewrite bool_decide_eq_false_2 by (apply b64_char_pad; b64_bytes). simpl.
    do 2 f_equal; [|f_equal]; apply byte_of_eq; b64_bytes.
  - cbn [base64_encode base64_groups]. b64_digits.
    rewrite !bool_decide_eq_false_2 by (apply b64_char_pad; b64_bytes).
    rewrite !andb_false_l. rewrite IH.
    do 2 f_equal; [|f_equal; [|f_equal]]; apply byte_of_eq; b64_bytes.
Qed.

(** What every character of an encoding satisfies. *)
Definition b64_out (c : ascii) : Prop := is_line_break c = false /\ byte_val c < 128.

Lemma b64_char_out v : 0 <= v < 64 -> b64_out (b64_char v).
Proof.
  intros Hv%b64_char_props. unfold b64_char_good in Hv.
  rewrite !andb_true_iff, negb_true_iff in Hv. destruct Hv as [[_ Hb] Hr%Z.ltb_lt]. done.
Qed.

Lemma base64_encode_out b : Forall b64_out (base64_encode b).
Proof.
  assert (b64_out pad) as Hp by (split; [done|by vm_compute]).
  induction b as [|x|x y|x y z rest IH] using groups_ind; cbn [base64_encode];
    repeat apply Forall_cons_2; try done; try apply Forall_nil_2; apply b64_char_out; b64_bytes.
Qed.

(** Decoding an encoding gives the bytes back. *)
Lemma base64_round_trip b : base64_DecodeString (base64_EncodeToString b) = Some b.
Proof.
  unfold base64_DecodeString, base64_EncodeToString. rewrite bytes_of_string_of_bytes.
  rewrite list_filter_all; [apply base64_groups_encode|].
  intros c Hc. pose proof (base64_encode_out b) as H. rewrite Forall_forall in H. apply H, Hc.
Qed.

Example base64_f : base64_EncodeToString (bytes_of_string "f") = "Zg==".
Proof. reflexivity. Qed.
Example base64_foobar : base64_EncodeToString (bytes_of_string "foobar") = "Zm9vYmFy".
Proof. reflexivity. Qed.
Example base64_garbage : base64_DecodeString "Zg==Zg==" = None.
Proof. reflexivity. Qed.
Example base64_broken : base64_DecodeString (String "Z" (String "010" "g==")) = Some (bytes_of_string "f").
Proof. reflexivity. Qed.
