(* ===== verification/Json.v ===== *)
(** Package [encoding/json], as far as the service uses it: the compact
    encoding of values with HTML-safe string escaping ([json.Marshal] and
    [json.NewEncoder(w).Encode]), the scanner and decoder of [json.Unmarshal]
    with Go's repairs of ill-formed text, and the lookup of a struct's fields
    by folded name.  A number keeps its literal text. *)
From S2P Require Import Prelude GoStrings Base64.
Local Open Scope Z_scope.

#[warnings="-register-all"]
Inductive json :=
  | JNull
  | JBool (b : bool)
  | JNum (lit : bytes)
  | JStr (s : bytes)
  | JArr (l : list json)
  | JObj (m : list (bytes * json)).

Definition JString (s : string) : json := JStr (bytes_of_string s).
Definition JInt (n : Z) : json := JNum (bytes_of_string (FormatInt n)).

(** * UTF-8 and UTF-16 *)

Definition rune_error : Z := 65533.

Definition is_cont (c : ascii) : bool := (128 <=? byte_val c) && (byte_val c <=? 191).
Definition cont_val (c : ascii) : Z := byte_val c mod 64.
Definition is_surrogate (r : Z) : bool := (55296 <=? r) && (r <=? 57343).

(** [utf8.DecodeRune]: the first rune and its width, [None] where it reports
    [(RuneError, 1)]. *)
Definition decode_rune (b : bytes) : option (Z * nat) :=
  match b with
  | [] => None
  | c :: b1 =>
      let n := byte_val c in
      if n <? 128 then Some (n, 1%nat)
      else if n <? 224 then
        match b1 with
        | c1 :: _ =>
            let r := n mod 32 * 64 + cont_val c1 in
            if (192 <=? n) && is_cont c1 && (128 <=? r) then Some (r, 2%nat) else None
        | _ => None
        end
      else if n <? 240 then
        match b1 with
        | c1 :: c2 :: _ =>
            let r := n mod 16 * 4096 + cont_val c1 * 64 + cont_val c2 in
            if is_cont c1 && is_cont c2 && (2048 <=? r) && negb (is_surrogate r)
            then Some (r, 3%nat) else None
        | _ => None
        end
      else
        match b1 with
        | c1 :: c2 :: c3 :: _ =>
            let r := n mod 8 * 262144 + cont_val c1 * 4096 + cont_val c2 * 64 + cont_val c3 in
            if (n <? 248) && is_cont c1 && is_cont c2 && is_cont c3 && (65536 <=? r)
               && (r <=? 1114111)
            then Some (r, 4%nat) else None
        | _ => None
        end
  end.

(** [utf8.AppendRune] *)
Definition encode_rune (r : Z) : bytes :=
  let r := if (r <? 0) || (1114111 <? r) || is_surrogate r then rune_error else r in
  if r <? 128 then [byte_of r]
  else if r <? 2048 then [byte_of (192 + r / 64); byte_of (128 + r mod 64)]
  else if r <? 65536 then
    [byte_of (224 + r / 4096); byte_of (128 + r / 64 mod 64); byte_of (128 + r mod 64)]
  else
    [byte_of (240 + r / 262144); byte_of (128 + r / 4096 mod 64);
     byte_of (128 + r / 64 mod 64); byte_of (128 + r mod 64)].

(** * Encoding *)

Definition quote : ascii := "034"%char.
Definition backslash : ascii := "\"%char.

Definition hex_lower (d : Z) : ascii := if d <? 10 then byte_of (d + 48) else byte_of (d + 87).

(** One ASCII byte of a string; [<], [>] and [&] are escaped too. *)
Definition escape_ascii (c : ascii) : bytes :=
  let n := byte_val c in
  if (n =? 34) || (n =? 92) then [backslash; c]
  else if n =? 8 then [backslash; "b"%char]
  else if n =? 12 then [backslash; "f"%char]
  else if n =? 10 then [backslash; "n"%char]
  else if n =? 13 then [backslash; "r"%char]
  else if n =? 9 then [backslash; "t"%char]
  else if (n <? 32) || (n =? 60) || (n =? 62) || (n =? 38) then
    [backslash; "u"%char; "0"%char; "0"%char; hex_lower (n / 16); hex_lower (n mod 16)]
  else [c].

(** [appendString] with [escapeHTML]: ill-formed UTF-8 is written as the
    escaped replacement character, the two JavaScript line separators are
    escaped.  [fuel] is the number of bytes. *)
Fixpoint escape_loop (fuel : nat) (b : bytes) : bytes :=
  match fuel, b with
  | S f, c :: b1 =>
      if byte_val c <? 128 then escape_ascii c ++ escape_loop f b1
      else
        match decode_rune b with
        | None => bytes_of_string "\ufffd" ++ escape_loop f b1
        | Some (r, w) =>
            (if r =? 8232 then bytes_of_string "\u2028"
             else if r =? 8233 then bytes_of_string "\u2029"
             else take w b) ++ escape_loop f (drop w b)
        end
  | _, _ => []
  end.

Definition escape (b : bytes) : bytes := escape_loop (length b) b.

Definition encode_string (b : bytes) : bytes := quote :: escape b ++ [quote].

(** The elements of an array or object, separated by commas. *)
Fixpoint commas (l : list bytes) : bytes :=
  match l with
  | [] => []
  | [x] => x
  | x :: l' => x ++ ","%char :: commas l'
  end.

Fixpoint encode (j : json) : bytes :=
  match j with
  | JNull => bytes_of_string "null"
  | JBool true => bytes_of_string "true"
  | JBool false => bytes_of_string "false"
  | JNum lit => lit
  | JStr s => encode_string s
  | JArr l => "["%char :: commas (map encode l) ++ ["]"%char]
  | JObj m =>
      "{"%char :: commas (map (fun kv => encode_string kv.1 ++ ":"%char :: encode kv.2) m)
        ++ ["}"%char]
  end.

(** * Scanning *)

Definition is_ws (c : ascii) : bool :=
  let n := byte_val c in (n =? 32) || (n =? 9) || (n =? 13) || (n =? 10).

Fixpoint skip_ws (b : bytes) : bytes :=
  match b with
  | c :: b' => if is_ws c then skip_ws b' else b
  | [] => []
  end.

Definition hex_val (c : ascii) : option Z :=
  let n := byte_val c in
  if (48 <=? n) && (n <=? 57) then Some (n - 48)
  else if (97 <=? n) && (n <=? 102) then Some (n - 87)
  else if (65 <=? n) && (n <=? 70) then Some (n - 55)
  else None.

(** The four hexadecimal digits of a unicode escape. *)
Definition hex4 (a b c d : ascii) : option Z :=
  match hex_val a, hex_val b, hex_val c, hex_val d with
  | Some x, Some y, Some z, Some w => Some (((x * 16 + y) * 16 + z) * 16 + w)
  | _, _, _, _ => None
  end.

(** The byte a two-character escape stands for. *)
Definition simple_escape (c : ascii) : option ascii :=
  let n := byte_val c in
  if (n =? 34) || (n =? 92) || (n =? 47) then Some c
  else if n =? 98 then Some (byte_of 8)
  else if n =? 102 then Some (byte_of 12)
  else if n =? 110 then Some (byte_of 10)
  else if n =? 114 then Some (byte_of 13)
  else if n =? 116 then Some (byte_of 9)
  else None.

Definition push (p : bytes) (r : option (bytes * bytes)) : option (bytes * bytes) :=
  match r with Some (raw, rest) => Some (p ++ raw, rest) | None => None end.

(** The scanner on the inside of a string literal: the raw text up to the
    closing quote, and what follows it. *)
Fixpoint scan_string (b : bytes) : option (bytes * bytes) :=
  match b with
  | [] => None
  | c :: b1 =>
      if bool_decide (c = quote) then Some ([], b1)
      else if bool_decide (c = backslash) then
        match b1 with
        | e :: b2 =>
            match simple_escape e with
            | Some _ => push [c; e] (scan_string b2)
            | None =>
                match b2 with
                | h1 :: h2 :: h3 :: h4 :: b3 =>
                    if bool_decide (e = "u"%char) && bool_decide (is_Some (hex4 h1 h2 h3 h4))
                    then push [c; e; h1; h2; h3; h4] (scan_string b3) else None
                | _ => None
                end
            end
        | [] => None
        end
      else if byte_val c <? 32 then None
      else push [c] (scan_string b1)
  end.

(** [getu4]: the unicode escape the text starts with. *)
Definition getu4 (b : bytes) : option Z :=
  match b with
  | c :: u :: b2 =>
      if bool_decide (c = backslash) && bool_decide (u = "u"%char) then
        match b2 with h1 :: h2 :: h3 :: h4 :: _ => hex4 h1 h2 h3 h4 | _ => None end
      else None
  | _ => None
  end.

(** [utf16.DecodeRune] *)
Definition surrogate_pair (r1 r2 : Z) : option Z :=
  if (55296 <=? r1) && (r1 <? 56320) && (56320 <=? r2) && (r2 <? 57344)
  then Some ((r1 - 55296) * 1024 + (r2 - 56320) + 65536) else None.

(** [unquoteBytes] on the inside of a literal the scanner accepted. *)
Fixpoint unquote_loop (fuel : nat) (b : bytes) : bytes :=
  match fuel, b with
  | S f, c :: b1 =>
      if bool_decide (c = backslash) then
        match getu4 b with
        | Some r =>
            if is_surrogate r then
              match getu4 (drop 6 b) with
              | Some r2 =>
                  match surrogate_pair r r2 with
                  | Some rr => encode_rune rr ++ unquote_loop f (drop 12 b)
                  | None => encode_rune rune_error ++ unquote_loop f (drop 6 b)
                  end
              | None => encode_rune rune_error ++ unquote_loop f (drop 6 b)
              end
            else encode_rune r ++ unquote_loop f (drop 6 b)
        | None =>
            match b1 with
            | e :: b2 =>
                match simple_escape e with
                | Some x => x :: unquote_loop f b2
                | None => []
                end
            | [] => []
            end
        end
      else if byte_val c <? 128 then c :: unquote_loop f b1
      else
        match decode_rune b with
        | Some (r, w) => encode_rune r ++ unquote_loop f (drop w b)
        | None => encode_rune rune_error ++ unquote_loop f b1
        end
  | _, _ => []
  end.

Definition unquote (b : bytes) : bytes := unquote_loop (length b) b.

(** ** Numbers *)

(** The longest prefix of digits. *)
Fixpoint span_digits (b : bytes) : bytes * bytes :=
  match b with
  | c :: b1 => if is_digit c then (c :: (span_digits b1).1, (span_digits b1).2) else ([], b)
  | [] => ([], [])
  end.

(** [-? (0 | [1-9][0-9]* ) (. [0-9]+)? ([eE][+-]?[0-9]+)?] *)
Definition scan_int (b : bytes) : option (bytes * bytes) :=
  match b with
  | "0"%char :: b1 => Some (["0"%char], b1)
  | _ => match span_digits b with ([], _) => None | (ds, rest) => Some (ds, rest) end
  end.

Definition scan_frac (b : bytes) : option (bytes * bytes) :=
  match b with
  | "."%char :: b1 =>
      match span_digits b1 with ([], _) => None | (ds, rest) => Some ("."%char :: ds, rest) end
  | _ => Some ([], b)
  end.

Definition scan_exp (b : bytes) : option (bytes * bytes) :=
  match b with
  | e :: b1 =>
      if bool_decide (e = "e"%char) || bool_decide (e = "E"%char) then
        let '(sg, b2) := match b1 with
          | "+"%char :: b2 => (["+"%char], b2)
          | "-"%char :: b2 => (["-"%char], b2)
          | _ => ([], b1)
          end in
        match span_digits b2 with ([], _) => None | (ds, rest) => Some (e :: sg ++ ds, rest) end
      else Some ([], b)
  | [] => Some ([], b)
  end.

Definition scan_number (b : bytes) : option (bytes * bytes) :=
  let '(sg, b1) := match b with "-"%char :: b1 => (["-"%char], b1) | _ => ([], b) end in
  match scan_int b1 with
  | None => None
  | Some (i, b2) =>
      match scan_frac b2 with
      | None => None
      | Some (fr, b3) =>
          match scan_exp b3 with
          | None => None
          | Some (ex, b4) => Some (sg ++ i ++ fr ++ ex, b4)
          end
      end
  end.

(** ** Values *)

Definition expect (lit : string) (j : json) (b : bytes) : option (json * bytes) :=
  if HasPrefix (string_of_bytes b) lit then Some (j, drop (String.length lit) b) else None.

(** [maxNestingDepth] *)
Definition max_depth : nat := Z.to_nat 10000.

(** A value, the members of an object after its brace, and the elements of an
    array after its bracket.  [depth] is the nesting still allowed; [fuel]
    bounds the number of values and members. *)
Fixpoint scan_value (fuel depth : nat) (b : bytes) : option (json * bytes) :=
  match fuel with
  | O => None
  | S f =>
      match skip_ws b with
      | [] => None
      | c :: b1 =>
          if bool_decide (c = quote) then
            match scan_string b1 with
            | Some (raw, rest) => Some (JStr (unquote raw), rest)
            | None => None
            end
          else if bool_decide (c = "{"%char) then
            match depth with
            | O => None
            | S d =>
                match skip_ws b1 with
                | "}"%char :: rest => Some (JObj [], rest)
                | _ => match scan_members f d b1 with
                       | Some (m, rest) => Some (JObj m, rest)
                       | None => None
                       end
                end
            end
          else if bool_decide (c = "["%char) then
            match depth with
            | O => None
            | S d =>
                match skip_ws b1 with
                | "]"%char :: rest => Some (JArr [], rest)
                | _ => match scan_elements f d b1 with
                       | Some (l, rest) => Some (JArr l, rest)
                       | None => None
                       end
                end
            end
          else if bool_decide (c = "n"%char) then expect "null" JNull (c :: b1)
          else if bool_decide (c = "t"%char) then expect "true" (JBool true) (c :: b1)
          else if bool_decide (c = "f"%char) then expect "false" (JBool false) (c :: b1)
          else
            match scan_number (c :: b1) with
            | Some (lit, rest) => Some (JNum lit, rest)
            | None => None
            end
      end
  end
with scan_members (fuel depth : nat) (b : bytes) : option (list (bytes * json) * bytes) :=
  match fuel with
  | O => None
  | S f =>
      match skip_ws b with
      | c :: b1 =>
          if bool_decide (c = quote) then
            match scan_string b1 with
            | None => None
            | Some (raw, b2) =>
                match skip_ws b2 with
                | ":"%char :: b3 =>
                    match scan_value f depth b3 with
                    | None => None
                    | Some (v, b4) =>
                        match skip_ws b4 with
                        | "}"%char :: rest => Some ([(unquote raw, v)], rest)
                        | ","%char :: b5 =>
                            match scan_members f depth b5 with
                            | Some (m, rest) => Some ((unquote raw, v) :: m, rest)
                            | None => None
                            end
                        | _ => None
                        end
                    end
                | _ => None
                end
            end
          else None
      | [] => None
      end
  end
with scan_elements (fuel depth : nat) (b : bytes) : option (list json * bytes) :=
  match fuel with
  | O => None
  | S f =>
      match scan_value f depth b with
      | None => None
      | Some (v, b1) =>
          match skip_ws b1 with
          | "]"%char :: rest => Some ([v], rest)
          | ","%char :: b2 =>
              match scan_elements f depth b2 with
              | Some (l, rest) => Some (v :: l, rest)
              | None => None
              end
          | _ => None
          end
      end
  end.

(** Two calls per byte are enough, see [scan_fuel_enough]. *)
Definition scan_fuel (b : bytes) : nat := 2 * length b + 2.

(** The whole input is one value. *)
Definition parse (b : bytes) : option json :=
  match scan_value (scan_fuel b) max_depth b with
  | Some (j, rest) => match skip_ws rest with [] => Some j | _ => None end
  | None => None
  end.

(** * Struct fields *)

(** [foldName]: ASCII letters are upper-cased; of the other runes only the
    long s and the Kelvin sign fold to ASCII letters. *)
Definition ascii_upper (c : ascii) : ascii :=
  let n := byte_val c in if (97 <=? n) && (n <=? 122) then byte_of (n - 32) else c.

Fixpoint fold_name (b : bytes) : bytes :=
  match b with
  | [] => []
  | c :: b1 =>
      match b1 with
      | c1 :: b2 =>
          if (byte_val c =? 197) && (byte_val c1 =? 191) then "S"%char :: fold_name b2
          else match b2 with
               | c2 :: b3 =>
                   if (byte_val c =? 226) && (byte_val c1 =? 132) && (byte_val c2 =? 170)
                   then "K"%char :: fold_name b3 else ascii_upper c :: fold_name b1
               | [] => ascii_upper c :: fold_name b1
               end
      | [] => [ascii_upper c]
      end
  end.

Definition is_field (name : string) (key : bytes) : bool :=
  bool_decide (fold_name key = fold_name (bytes_of_string name)).

(** Storing a value into a string or an [int64] field: null leaves it as it
    is, a value of another type is an error. *)
Definition set_string (v : json) (old : string) : option string :=
  match v with
  | JStr s => Some (string_of_bytes s)
  | JNull => Some old
  | _ => None
  end.

Definition set_int64 (v : json) (old : Z) : option Z :=
  match v with
  | JNum lit => Atoi (string_of_bytes lit)
  | JNull => Some old
  | _ => None
  end.
