(* ===== verification/JsonFacts.v ===== *)
(** Decoding what was encoded: [parse (encode j) = Some j] for every value
    made of ASCII strings and integers, which is all the service and its
    clients write. *)
From S2P Require Import Prelude GoStrings Base64 Json.
Local Open Scope Z_scope.

Definition ascii7 (b : bytes) : Prop := Forall (fun c => byte_val c < 128) b.
Definition ascii7_str (s : string) : Prop := ascii7 (bytes_of_string s).

Lemma ascii7_check b : forallb (fun c => byte_val c <? 128) b = true -> ascii7 b.
Proof.
  intros Hb. apply Forall_forall. intros c Hc%list_elem_of_In.
  by apply Z.ltb_lt, (proj1 (List.forallb_forall _ _) Hb).
Qed.

(** * Strings *)

(** A property of all 128 ASCII bytes is decided by looking at each. *)
Ltac each_ascii c H :=
  destruct c as [[] [] [] [] [] [] [] []]; try (vm_compute in H; discriminate); clear H.

Lemma escape_cons c s : byte_val c < 128 -> escape (c :: s) = escape_ascii c ++ escape s.
Proof. intros H. unfold escape. simpl. by rewrite (proj2 (Z.ltb_lt _ _) H). Qed.

Lemma scan_escape_ascii c t :
  byte_val c < 128 -> scan_string (escape_ascii c ++ t) = push (escape_ascii c) (scan_string t).
Proof. intros H. each_ascii c H; reflexivity. Qed.

Lemma scan_escape s rest :
  ascii7 s -> scan_string (escape s ++ quote :: rest) = Some (escape s, rest).
Proof.
  induction 1 as [|c s Hc Hs IH]; [reflexivity|].
  rewrite escape_cons, <- app_assoc, scan_escape_ascii, IH by done. reflexivity.
Qed.

Lemma unquote_escape_ascii f c t :
  byte_val c < 128 -> unquote_loop (S f) (escape_ascii c ++ t) = c :: unquote_loop f t.
Proof. intros H. each_ascii c H; reflexivity. Qed.

Lemma escape_ascii_length c : byte_val c < 128 -> (1 <= length (escape_ascii c))%nat.
Proof. intros H. each_ascii c H; simpl; lia. Qed.

Lemma unquote_escape s : ascii7 s -> unquote (escape s) = s.
Proof.
  intros Hs. unfold unquote. assert (forall f, (length (escape s) <= f)%nat ->
    unquote_loop f (escape s) = s) as H; [|by apply H].
  induction Hs as [|c s Hc Hs IH]; intros f Hf; [by destruct f|].
  rewrite escape_cons in * by done. rewrite length_app in Hf.
  pose proof (escape_ascii_length c Hc). destruct f as [|f]; [lia|].
  rewrite unquote_escape_ascii by done. f_equal. apply IH. lia.
Qed.

(** * Numbers *)

(** What may follow a number without being read as part of it. *)
Definition follows (rest : bytes) : Prop :=
  match rest with
  | [] => True
  | c :: _ => is_digit c = false /\ c <> "."%char /\ c <> "e"%char /\ c <> "E"%char
  end.

Lemma span_digits_app ds rest :
  Forall (fun c => is_digit c = true) ds -> follows rest -> span_digits (ds ++ rest) = (ds, rest).
Proof.
  intros Hds Hr. induction Hds as [|c ds Hc Hds IH].
  - destruct rest as [|c rest]; [done|]. simpl. by destruct Hr as [-> _].
  - simpl. by rewrite Hc, IH.
Qed.

Lemma scan_tail rest : follows rest -> scan_frac rest = Some ([], rest) /\ scan_exp rest = Some ([], rest).
Proof.
  destruct rest as [|c rest]; [done|]. intros (_ & H1 & H2 & H3). split.
  - destruct c as [[] [] [] [] [] [] [] []]; congruence || reflexivity.
  - simpl. by rewrite !bool_decide_eq_false_2.
Qed.

Lemma scan_int_digits n rest :
  0 <= n -> follows rest -> scan_int (digits n ++ rest) = Some (digits n, rest).
Proof.
  intros Hn Hr. destruct (digits_ok n Hn) as [_ Hd].
  destruct (decide (n = 0)) as [->|Hne]; [reflexivity|].
  destruct (digits_head n) as (d & b & E & Hd1); [lia|].
  pose proof (span_digits_app _ _ Hd Hr) as Hs. rewrite E in *. unfold scan_int. rewrite Hs.
  assert (digit_char d <> "0"%char) as Hz.
  { intros Hz. apply (f_equal byte_val) in Hz. unfold digit_char in Hz.
    rewrite byte_val_of in Hz by lia. change (byte_val "0") with 48 in Hz. lia. }
  change ((digit_char d :: b) ++ rest) with (digit_char d :: (b ++ rest)).
  destruct (digit_char d) as [[] [] [] [] [] [] [] []]; congruence || reflexivity.
Qed.

Lemma digits_not_minus n : 0 <= n -> exists c b, digits n = c :: b /\ c <> "-"%char.
Proof.
  intros Hn. destruct (digits_sign n Hn) as (c & b & E & Hc). exists c, b.
  split; [done|]. by intros ->.
Qed.

Lemma scan_number_FormatInt n rest :
  follows rest ->
  scan_number (bytes_of_string (FormatInt n) ++ rest) = Some (bytes_of_string (FormatInt n), rest).
Proof.
  intros Hr. destruct (scan_tail rest Hr) as [Hf He]. unfold FormatInt, scan_number.
  destruct (Z.ltb_spec n 0).
  - cbn [bytes_of_string app]. rewrite bytes_of_string_of_bytes, scan_int_digits by (lia || done).
    rewrite Hf, He. simpl. by rewrite app_nil_r.
  - rewrite bytes_of_string_of_bytes. destruct (digits_not_minus n) as (c & b & E & Hc); [lia|].
    pose proof (scan_int_digits n rest) as Hi. rewrite E in *. 
    assert ((match (c :: b) ++ rest with "-"%char :: b1 => (["-"%char], b1) | _ => ([], (c :: b) ++ rest) end)
      = ([], (c :: b) ++ rest)) as ->.
    { simpl. destruct c as [[] [] [] [] [] [] [] []]; congruence || reflexivity. }
    rewrite Hi, Hf, He by (lia || done). simpl. by rewrite app_nil_r.
Qed.

(** * Values *)

(** Values made of ASCII strings and integers, with their nesting. *)
Inductive plain : nat -> json -> Prop :=
  | plain_null d : plain d JNull
  | plain_bool d b : plain d (JBool b)
  | plain_int d n : plain d (JInt n)
  | plain_str d s : ascii7 s -> plain d (JStr s)
  | plain_arr d l : plain_list d l -> plain (S d) (JArr l)
  | plain_obj d m : plain_members d m -> plain (S d) (JObj m)
with plain_list : nat -> list json -> Prop :=
  | plain_nil d : plain_list d []
  | plain_cons d j l : plain d j -> plain_list d l -> plain_list d (j :: l)
with plain_members : nat -> list (bytes * json) -> Prop :=
  | plain_mnil d : plain_members d []
  | plain_mcons d k j m : ascii7 k -> plain d j -> plain_members d m -> plain_members d ((k, j) :: m).

Scheme plain_mind := Induction for plain Sort Prop
with plain_list_mind := Induction for plain_list Sort Prop
with plain_members_mind := Induction for plain_members Sort Prop.
Combined Scheme plain_mutind from plain_mind, plain_list_mind, plain_members_mind.

Lemma plain_list_Forall d l : Forall (plain d) l -> plain_list d l.
Proof. induction 1; by constructor. Qed.

Lemma plain_members_Forall d m : Forall (fun kv => ascii7 kv.1 /\ plain d kv.2) m -> plain_members d m.
Proof. induction 1 as [|[k j] m [] ? IH]; by constructor. Qed.

(** Every encoding starts with a byte that is neither white space nor a
    closing bracket. *)
Definition opens (b : bytes) : Prop :=
  exists c t, b = c :: t /\ is_ws c = false /\ c <> "]"%char /\ c <> "}"%char.

Lemma opens_app b t : opens b -> opens (b ++ t).
Proof. intros (c & t' & -> & H). exists c, (t' ++ t). done. Qed.

Lemma opens_skip_ws b : opens b -> skip_ws b = b.
Proof. intros (c & t & -> & H & _). simpl. by rewrite H. Qed.

Lemma opens_string s : opens (encode_string s).
Proof. eexists _, _. split; [reflexivity|]. done. Qed.

Lemma opens_FormatInt n : opens (bytes_of_string (FormatInt n)).
Proof.
  unfold FormatInt. destruct (Z.ltb_spec n 0); [by eexists _, _|].
  rewrite bytes_of_string_of_bytes. destruct (digits_sign n) as (c & b & -> & Hc); [lia|].
  exists c, b. split; [done|]. destruct c as [[] [] [] [] [] [] [] []]; try discriminate; done.
Qed.

Lemma opens_encode d j : plain d j -> opens (encode j).
Proof.
  destruct 1 as [d|d []|d n|d s Hs|d l|d m]; try (by eexists _, _).
  apply opens_FormatInt.
Qed.

(** Values that open neither a string, an object, an array nor a word are numbers. *)
Lemma scan_value_number f d c t :
  is_digit c = true \/ c = "-"%char ->
  scan_value (S f) d (c :: t)
  = match scan_number (c :: t) with Some (lit, rest) => Some (JNum lit, rest) | None => None end.
Proof.
  intros [H| ->]; [|reflexivity].
  destruct c as [[] [] [] [] [] [] [] []]; try discriminate; reflexivity.
Qed.

Lemma scan_value_FormatInt f d n rest :
  follows rest ->
  scan_value (S f) d (bytes_of_string (FormatInt n) ++ rest) = Some (JInt n, rest).
Proof.
  intros Hr. assert (exists c t, bytes_of_string (FormatInt n) = c :: t /\ (is_digit c = true \/ c = "-"%char))
    as (c & t & E & Hc).
  { unfold FormatInt. destruct (Z.ltb_spec n 0); [by eexists _, _; split; [reflexivity|right]|].
    rewrite bytes_of_string_of_bytes. destruct (digits_sign n) as (c & b & -> & Hc); [lia|]. eauto. }
  pose proof (scan_number_FormatInt n rest Hr) as Hn. unfold JInt. rewrite E in *.
  change ((c :: t) ++ rest) with (c :: (t ++ rest)) in *.
  rewrite scan_value_number, Hn by done. done.
Qed.

Lemma scan_value_string f d s rest :
  ascii7 s -> scan_value (S f) d (encode_string s ++ rest) = Some (JStr s, rest).
Proof.
  intros Hs. unfold encode_string. rewrite <- app_comm_cons, <- app_assoc.
  cbn [scan_value skip_ws]. change (is_ws quote) with false. cbn iota.
  rewrite bool_decide_eq_true_2 by done. cbn [app]. rewrite scan_escape by done.
  by rewrite unquote_escape.
Qed.

(** Entering an object or an array that is not empty. *)
Lemma scan_value_open_obj f d b : opens b ->
  scan_value (S f) (S d) ("{"%char :: b)
  = match scan_members f d b with Some (m, rest) => Some (JObj m, rest) | None => None end.
Proof.
  intros Hb. pose proof (opens_skip_ws b Hb) as Hw. destruct Hb as (c & t & -> & _ & H1 & H2).
  cbn [scan_value]. change (skip_ws ("{"%char :: c :: t)) with ("{"%char :: c :: t). cbn iota.
  rewrite bool_decide_eq_false_2, bool_decide_eq_true_2 by done. rewrite Hw.
  destruct c as [[] [] [] [] [] [] [] []]; congruence || reflexivity.
Qed.

Lemma scan_value_open_arr f d b : opens b ->
  scan_value (S f) (S d) ("["%char :: b)
  = match scan_elements f d b with Some (l, rest) => Some (JArr l, rest) | None => None end.
Proof.
  intros Hb. pose proof (opens_skip_ws b Hb) as Hw. destruct Hb as (c & t & -> & _ & H1 & H2).
  cbn [scan_value]. change (skip_ws ("["%char :: c :: t)) with ("["%char :: c :: t). cbn iota.
  rewrite !bool_decide_eq_false_2, bool_decide_eq_true_2 by done. rewrite Hw.
  destruct c as [[] [] [] [] [] [] [] []]; congruence || reflexivity.
Qed.

Definition member (kv : bytes * json) : bytes := encode_string kv.1 ++ ":"%char :: encode kv.2.

Lemma commas_cons x l t :
  commas (x :: l) ++ t = x ++ match l with [] => t | _ => ","%char :: (commas l ++ t) end.
Proof. destruct l; simpl; [done|]. by rewrite <- app_assoc. Qed.

Lemma scan_members_cons f d k j b :
  ascii7 k -> scan_value f d (encode j ++ b) = Some (j, b) ->
  scan_members (S f) d (member (k, j) ++ b)
  = match skip_ws b with
    | "}"%char :: rest => Some ([(k, j)], rest)
    | ","%char :: b5 =>
        match scan_members f d b5 with Some (m, rest) => Some ((k, j) :: m, rest) | None => None end
    | _ => None
    end.
Proof.
  intros Hk Hj. unfold member, encode_string. simpl fst. simpl snd.
  rewrite <- app_assoc. cbn [app]. rewrite <- app_assoc. cbn [app scan_members].
  cbn [skip_ws]. change (is_ws quote) with false. cbn iota.
  rewrite bool_decide_eq_true_2, scan_escape by done.
  cbn [skip_ws]. change (is_ws ":") with false. cbn iota.
  rewrite Hj, unquote_escape by done. done.
Qed.

Lemma expect_app lit j rest : expect lit j (bytes_of_string lit ++ rest) = Some (j, rest).
Proof.
  unfold expect. rewrite string_of_bytes_app, string_of_bytes_of_string, HasPrefix_app.
  by rewrite <- length_bytes_of_string, drop_app_length.
Qed.

Lemma encode_nonempty d j : plain d j -> (1 <= length (encode j))%nat.
Proof. intros (c & t & -> & _)%opens_encode. simpl. lia. Qed.

(** Scanning an encoding yields the value and the text after it. *)
Lemma scan_encode :
  (forall d j, plain d j -> forall fuel depth rest,
    (d <= depth)%nat -> (2 * length (encode j ++ rest) < fuel)%nat -> follows rest ->
    scan_value fuel depth (encode j ++ rest) = Some (j, rest)) /\
  (forall d l, plain_list d l -> forall fuel depth rest,
    l <> [] -> (d <= depth)%nat ->
    (2 * length (commas (map encode l) ++ "]"%char :: rest) + 1 < fuel)%nat ->
    scan_elements fuel depth (commas (map encode l) ++ "]"%char :: rest) = Some (l, rest)) /\
  (forall d m, plain_members d m -> forall fuel depth rest,
    m <> [] -> (d <= depth)%nat ->
    (2 * length (commas (map member m) ++ "}"%char :: rest) < fuel)%nat ->
    scan_members fuel depth (commas (map member m) ++ "}"%char :: rest) = Some (m, rest)).
Proof.
  apply plain_mutind; try done.
  - intros d [|fuel] depth rest Hd Hf Hr; [lia|]. apply (expect_app "null").
  - intros d [] [|fuel] depth rest Hd Hf Hr; try lia;
      [apply (expect_app "true")|apply (expect_app "false")].
  - intros d n [|fuel] depth rest Hd Hf Hr; [lia|]. by apply scan_value_FormatInt.
  - intros d s Hs [|fuel] depth rest Hd Hf Hr; [lia|]. by apply scan_value_string.
  - intros d l Hl IH [|fuel] [|depth] rest Hd Hf Hr; try lia.
    destruct l as [|j l]; [reflexivity|]. cbn [encode] in *.
    rewrite <- app_comm_cons, <- app_assoc in *. cbn [app] in *.
    rewrite scan_value_open_arr.
    + rewrite IH; [done|done|lia|]. cbn [length] in Hf. lia.
    + cbn [map]. rewrite commas_cons. inversion Hl. apply opens_app. by eapply opens_encode.
  - intros d m Hm IH [|fuel] [|depth] rest Hd Hf Hr; try lia.
    destruct m as [|[k j] m]; [reflexivity|]. cbn [encode] in *.
    change (map (fun kv => encode_string kv.1 ++ ":"%char :: encode kv.2) ?x) with (map member x) in *.
    rewrite <- app_comm_cons, <- app_assoc in *. cbn [app] in *.
    rewrite scan_value_open_obj.
    + rewrite IH; [done|done|lia|]. cbn [length] in Hf. lia.
    + cbn [map]. rewrite commas_cons. apply opens_app, opens_app, opens_string.
  - intros d j l Hj IHj Hl IHl [|fuel] depth rest _ Hd Hf; [lia|]. cbn [map] in *.
    rewrite commas_cons in *. pose proof (encode_nonempty d j Hj).
    rewrite length_app in Hf. cbn [scan_elements].
    rewrite IHj; [|done|rewrite length_app; lia|by destruct l].
    destruct l as [|j' l]; [reflexivity|]. cbn [map skip_ws] in *.
    change (is_ws ",") with false. cbn iota.
    rewrite IHl; [done|done|lia|]. cbn [length] in Hf. cbn [map]. lia.
  - intros d k j m Hk Hj IHj Hm IHm [|fuel] depth rest _ Hd Hf; [lia|]. cbn [map] in *.
    rewrite commas_cons in *. rewrite length_app in Hf.
    assert (length (encode j) + 3 <= length (member (k, j)))%nat as Hlen.
    { unfold member, encode_string. simpl. rewrite !length_app. simpl. lia. }
    rewrite scan_members_cons; [|done|].
    + destruct m as [|[k' j'] m]; [reflexivity|]. cbn [map skip_ws] in *.
      change (is_ws ",") with false. cbn iota.
      rewrite IHm; [done|done|lia|]. cbn [length] in Hf. cbn [map]. lia.
    + apply IHj; [done|rewrite length_app; lia|by destruct m].
Qed.

(** Round trip. *)
Lemma parse_encode d j : plain d j -> (d <= max_depth)%nat -> parse (encode j) = Some j.
Proof.
  intros Hj Hd. unfold parse. pose proof (proj1 scan_encode d j Hj (scan_fuel (encode j)) max_depth []) as H.
  rewrite app_nil_r in H. rewrite H; [done|done| |done]. unfold scan_fuel. lia.
Qed.

(** White space after the value, as [json.Encoder] writes it. *)
Lemma parse_encode_newline d j :
  plain d j -> (d <= max_depth)%nat -> parse (encode j ++ ["010"%char]) = Some j.
Proof.
  intros Hj Hd. unfold parse. rewrite (proj1 scan_encode d j Hj); [done|done| |done].
  unfold scan_fuel. lia.
Qed.

(** * The fuel *)

Lemma skip_ws_length b : (length (skip_ws b) <= length b)%nat.
Proof. induction b as [|c b IH]; simpl; [lia|]. destruct (is_ws c); simpl; lia. Qed.

Lemma push_Some p r raw rest : push p r = Some (raw, rest) -> exists raw', r = Some (raw', rest).
Proof. destruct r as [[raw' rest']|]; simpl; intros [= <- <-]; eauto. Qed.

Ltac scan_cases :=
  repeat (case_match; simplify_eq/=; try done; try lia).

Lemma scan_string_length b raw rest : scan_string b = Some (raw, rest) -> (length rest < length b)%nat.
Proof.
  assert (forall n b raw rest, (length b <= n)%nat -> scan_string b = Some (raw, rest) ->
    (length rest < length b)%nat) as H; [|by eapply H].
  induction n as [|n IH]; intros b0 raw0 rest0 Hn E; [by destruct b0; simpl in *; [|lia]|].
  assert (forall p b1, (length b1 <= n)%nat -> push p (scan_string b1) = Some (raw0, rest0) ->
    (length rest0 < length b1)%nat) as IH'.
  { intros p b1 Hb [raw' E']%push_Some. by eapply IH. }
  destruct b0 as [|c b1]; simpl in *; [done|].
  repeat (case_match; simplify_eq/=; try done; try lia);
    repeat match goal with H : push _ _ = Some _ |- _ => apply IH' in H; lia end.
Qed.

Lemma span_digits_length b : (length (span_digits b).1 + length (span_digits b).2 = length b)%nat.
Proof. induction b as [|c b IH]; simpl; [done|]. destruct (is_digit c); simpl; lia. Qed.

(** The digits a number needs. *)
Lemma span_digits_some b c ds rest :
  span_digits b = (c :: ds, rest) -> (length rest < length b)%nat.
Proof. intros E. pose proof (span_digits_length b) as H. rewrite E in H. simpl in H. lia. Qed.

Lemma scan_int_length b i rest : scan_int b = Some (i, rest) -> (length rest < length b)%nat.
Proof.
  unfold scan_int. intros E. destruct (span_digits b) as [[|d ds] r] eqn:Es.
  - scan_cases.
  - apply span_digits_some in Es. scan_cases.
Qed.

Lemma scan_frac_length b i rest : scan_frac b = Some (i, rest) -> (length rest <= length b)%nat.
Proof.
  unfold scan_frac. intros E. scan_cases;
    match goal with H : span_digits _ = _ |- _ => apply span_digits_some in H; simpl; lia end.
Qed.

Lemma scan_exp_length b i rest : scan_exp b = Some (i, rest) -> (length rest <= length b)%nat.
Proof.
  unfold scan_exp. intros E. destruct b as [|e b1]; [by simplify_eq|].
  destruct (_ || _); [|by simplify_eq].
  destruct (match b1 with "+"%char :: b2 => _ | "-"%char :: b2 => _ | _ => _ end) as [sg b2] eqn:Eb.
  assert (length b2 <= length b1)%nat.
  { clear E. scan_cases. }
  destruct (span_digits b2) as [[|d ds] r] eqn:Es; simplify_eq. apply span_digits_some in Es. simpl. lia.
Qed.

Lemma scan_number_length b lit rest : scan_number b = Some (lit, rest) -> (length rest < length b)%nat.
Proof.
  unfold scan_number. intros E.
  destruct (match b with "-"%char :: b1 => _ | _ => _ end) as [sg b1] eqn:Eb.
  assert (length b1 <= length b)%nat by (clear E; scan_cases).
  destruct (scan_int b1) as [[i b2]|] eqn:Ei; [|done]. apply scan_int_length in Ei.
  destruct (scan_frac b2) as [[fr b3]|] eqn:Ef; [|done]. apply scan_frac_length in Ef.
  destruct (scan_exp b3) as [[ex b4]|] eqn:Ee; [|done]. apply scan_exp_length in Ee.
  simplify_eq. lia.
Qed.

Lemma expect_length lit j b j' rest :
  (1 <= String.length lit)%nat -> expect lit j b = Some (j', rest) -> b <> [] ->
  (length rest < length b)%nat.
Proof.
  unfold expect. destruct (HasPrefix _ _); [|done]. intros Hl [= <- <-] Hb. rewrite length_drop.
  destruct b; [done|]. simpl. lia.
Qed.

(** Text after white space. *)
Lemma skip_ws_cons b c b1 : skip_ws b = c :: b1 -> (length b1 < length b)%nat.
Proof. intros E. pose proof (skip_ws_length b) as H. rewrite E in H. simpl in H. lia. Qed.

Ltac scan_lengths :=
  repeat match goal with
    | H : skip_ws _ = _ :: _ |- _ => apply skip_ws_cons in H
    | H : scan_string _ = Some _ |- _ => apply scan_string_length in H
    | H : scan_number _ = Some _ |- _ => apply scan_number_length in H
    | H : expect _ _ _ = Some _ |- _ => apply expect_length in H; [|simpl; lia|done]
    end.

(** Every scanner consumes something. *)
Lemma scan_length fuel :
  (forall depth b j rest, scan_value fuel depth b = Some (j, rest) -> (length rest < length b)%nat) /\
  (forall depth b m rest, scan_members fuel depth b = Some (m, rest) -> (length rest < length b)%nat) /\
  (forall depth b l rest, scan_elements fuel depth b = Some (l, rest) -> (length rest < length b)%nat).
Proof.
  induction fuel as [|f (IHv & IHm & IHe)]; [by split_and!|]. split_and!; intros depth b x rest E.
  - cbn [scan_value] in E. destruct (skip_ws b) as [|c b1] eqn:Eb; [done|]. apply skip_ws_cons in Eb.
    scan_cases; scan_lengths; simpl in *;
      repeat match goal with
        | H : scan_members _ _ _ = Some _ |- _ => apply IHm in H
        | H : scan_elements _ _ _ = Some _ |- _ => apply IHe in H
        end; lia.
  - cbn [scan_members] in E. destruct (skip_ws b) as [|c b1] eqn:Eb; [done|]. apply skip_ws_cons in Eb.
    scan_cases; scan_lengths;
      repeat match goal with
        | H : scan_members _ _ _ = Some _ |- _ => apply IHm in H
        | H : scan_value _ _ _ = Some _ |- _ => apply IHv in H
        end; lia.
  - cbn [scan_elements] in E. destruct (scan_value f depth b) as [[v b1]|] eqn:Ev; [|done].
    apply IHv in Ev.
    scan_cases; scan_lengths;
      repeat match goal with H : scan_elements _ _ _ = Some _ |- _ => apply IHe in H end; lia.
Qed.

(** Fuel beyond two calls per byte changes nothing. *)
Lemma scan_fuel_irrelevant f g :
  (forall d b, (2 * length b < f)%nat -> (2 * length b < g)%nat -> scan_value f d b = scan_value g d b) /\
  (forall d b, (2 * length b < f)%nat -> (2 * length b < g)%nat ->
     scan_members f d b = scan_members g d b) /\
  (forall d b, (2 * length b + 1 < f)%nat -> (2 * length b + 1 < g)%nat ->
     scan_elements f d b = scan_elements g d b).
Proof.
  revert g. induction f as [|f IH]; intros [|g]; try (split_and!; lia).
  destruct (IH g) as (IHv & IHm & IHe). clear IH. split_and!; intros d b Hf Hg.
  - cbn [scan_value]. destruct (skip_ws b) as [|c b1] eqn:Eb; [done|]. apply skip_ws_cons in Eb.
    destruct d as [|d]; [done|]. rewrite (IHm d b1), (IHe d b1) by lia. done.
  - cbn [scan_members]. destruct (skip_ws b) as [|c b1] eqn:Eb; [done|]. apply skip_ws_cons in Eb.
    destruct (bool_decide _); [|done]. destruct (scan_string b1) as [[raw b2]|] eqn:Es; [|done].
    apply scan_string_length in Es.
    destruct (skip_ws b2) as [|c2 b3] eqn:Eb2; [done|]. apply skip_ws_cons in Eb2.
    rewrite (IHv d b3) by lia. destruct (scan_value g d b3) as [[v b4]|] eqn:Ev; [|done].
    apply (scan_length g) in Ev.
    destruct (skip_ws b4) as [|c4 b5] eqn:Eb4; [done|]. apply skip_ws_cons in Eb4.
    rewrite (IHm d b5) by lia. done.
  - cbn [scan_elements]. rewrite (IHv d b) by lia.
    destruct (scan_value g d b) as [[v b1]|] eqn:Ev; [|done]. apply (scan_length g) in Ev.
    destruct (skip_ws b1) as [|c b2] eqn:Eb; [done|]. apply skip_ws_cons in Eb.
    rewrite (IHe d b2) by lia. done.
Qed.

(** [parse] does not fail for want of fuel. *)
Lemma scan_fuel_enough f d b : (scan_fuel b <= f)%nat -> scan_value f d b = scan_value (scan_fuel b) d b.
Proof. intros Hf. apply scan_fuel_irrelevant; unfold scan_fuel in *; lia. Qed.

(** Examples are written with single quotes. *)
Definition text (s : string) : bytes :=
  (fun c => if bool_decide (c = "'"%char) then quote else c) <$> bytes_of_string s.

Example parse_values :
  parse (text " {'a' : [1, -0.5e+3, true, null], 'b':{}} ") =
  Some (JObj [(text "a", JArr [JNum (text "1"); JNum (text "-0.5e+3"); JBool true; JNull]);
              (text "b", JObj [])]).
Proof. vm_compute. reflexivity. Qed.
Example parse_pair : parse (text "'\ud83d\ude00\u00e9'") = Some (JStr (byte_of <$> [240; 159; 152; 128; 195; 169])).
Proof. vm_compute. reflexivity. Qed.
Example parse_lone : parse (text "'\ud83dx'") = Some (JStr (byte_of <$> [239; 191; 189; 120])).
Proof. vm_compute. reflexivity. Qed.
Example parse_leading_zero : parse (text "01") = None.
Proof. vm_compute. reflexivity. Qed.
Example parse_trailing_comma : parse (text "{'a':1,}") = None.
Proof. vm_compute. reflexivity. Qed.
Example encode_html : encode (JObj [(text "q", JStr (text "a&b<c>"))]) = text "{'q':'a\u0026b\u003cc\u003e'}".
Proof. vm_compute. reflexivity. Qed.
Example fold_kelvin : is_field "key" (byte_of <$> [226; 132; 170; 101; 89]) = true.
Proof. vm_compute. reflexivity. Qed.
