(* ===== verification/Url.v ===== *)
(** The part of package [net/url] that turns a request target into the URL a
    handler sees, renders it back ([URL.RequestURI], which the auth proof
    binds), and reads query parameters. *)
From S2P Require Import Prelude GoStrings Base64 Json.
Local Open Scope Z_scope.

(** * Escaping *)

Definition is_alnum (c : ascii) : bool :=
  let n := byte_val c in
  ((97 <=? n) && (n <=? 122)) || ((65 <=? n) && (n <=? 90)) || ((48 <=? n) && (n <=? 57)).

Definition one_of (s : string) (c : ascii) : bool := bool_decide (c ∈ bytes_of_string s).

(** [shouldEscape(c, encodePath)] *)
Definition should_escape_path (c : ascii) : bool :=
  negb (is_alnum c || one_of "-_.~" c || one_of "$&+,/:;=@" c).

Definition hex_upper (d : Z) : ascii := if d <? 10 then byte_of (d + 48) else byte_of (d + 55).

Definition percent (c : ascii) : bytes :=
  ["%"%char; hex_upper (byte_val c / 16); hex_upper (byte_val c mod 16)].

(** [escape(path, encodePath)] *)
Definition escape_path (p : bytes) : bytes :=
  flat_map (fun c => if should_escape_path c then percent c else [c]) p.

(** [validEncoded(path, encodePath)] *)
Definition valid_encoded (p : bytes) : bool :=
  forallb (fun c => one_of "!$&'()*+,;=:@[]%" c || negb (should_escape_path c)) p.

(** [unescape(s, mode)]; in a query, a plus sign is a space. *)
Fixpoint unescape (query : bool) (s : bytes) : option bytes :=
  match s with
  | [] => Some []
  | c :: s1 =>
      if bool_decide (c = "%"%char) then
        match s1 with
        | h :: l :: s2 =>
            match hex_val h, hex_val l with
            | Some x, Some y => cons (byte_of (x * 16 + y)) <$> unescape query s2
            | _, _ => None
            end
        | _ => None
        end
      else if query && bool_decide (c = "+"%char) then cons " "%char <$> unescape query s1
      else cons c <$> unescape query s1
  end.

(** * URLs of requests *)

Record URL := mkURL {
  Path : bytes;
  RawPath : bytes;
  RawQuery : bytes;
  ForceQuery : bool;
}.

(** [setPath] *)
Definition set_path (p : bytes) : option (bytes * bytes) :=
  match unescape false p with
  | None => None
  | Some path => Some (path, if bool_decide (escape_path path = p) then [] else p)
  end.

(** [strings.Cut(s, "?")] *)
Fixpoint cut_query (s : bytes) : bytes * bytes :=
  match s with
  | [] => ([], [])
  | c :: s1 =>
      if bool_decide (c = "?"%char) then ([], s1)
      else let '(a, b) := cut_query s1 in (c :: a, b)
  end.

(** [url.ParseRequestURI] of a target in origin form. *)
Definition ParseRequestURI (target : bytes) : option URL :=
  if negb (forallb (fun c => (32 <=? byte_val c) && negb (byte_val c =? 127)) target) then None
  else match target with
  | "/"%char :: _ =>
      let force := bool_decide (last target = Some "?"%char) &&
        bool_decide (length (base.filter (fun c => c = "?"%char) target) = 1%nat) in
      let '(p, q) := cut_query target in
      match set_path p with
      | None => None
      | Some (path, raw) => Some (mkURL path raw q force)
      end
  | _ => None
  end.

(** [u.EscapedPath()] *)
Definition EscapedPath (u : URL) : bytes :=
  if negb (bool_decide (RawPath u = [])) && valid_encoded (RawPath u)
     && bool_decide (unescape false (RawPath u) = Some (Path u)) then RawPath u
  else if bool_decide (Path u = ["*"%char]) then ["*"%char]
  else escape_path (Path u).

(** [u.RequestURI()] *)
Definition RequestURI (u : URL) : bytes :=
  (match EscapedPath u with [] => ["/"%char] | p => p end) ++
  (if ForceQuery u || negb (bool_decide (RawQuery u = [])) then "?"%char :: RawQuery u else []).

(** * Query parameters *)

(** The pieces between ampersands. *)
Fixpoint split_amp (s : bytes) : list bytes :=
  match s with
  | [] => [[]]
  | c :: s1 =>
      if bool_decide (c = "&"%char) then [] :: split_amp s1
      else match split_amp s1 with
           | [] => [[c]]
           | x :: xs => (c :: x) :: xs
           end
  end.

(** [strings.Cut(s, "=")] *)
Fixpoint cut_eq (s : bytes) : bytes * bytes :=
  match s with
  | [] => ([], [])
  | c :: s1 =>
      if bool_decide (c = "="%char) then ([], s1)
      else let '(a, b) := cut_eq s1 in (c :: a, b)
  end.

(** One [key=value]; pieces that are empty, hold a semicolon or do not decode
    are dropped. *)
Definition parse_pair (kv : bytes) : option (bytes * bytes) :=
  if bool_decide (kv = []) || bool_decide (";"%char ∈ kv) then None
  else let '(k, v) := cut_eq kv in
       match unescape true k, unescape true v with
       | Some k', Some v' => Some (k', v')
       | _, _ => None
       end.

(** [u.Query()] *)
Definition Query (u : URL) : list (bytes * bytes) := omap parse_pair (split_amp (RawQuery u)).

(** [values.Get(name)]: the first value, or the empty string. *)
Definition Query_Get (u : URL) (name : string) : string :=
  match base.filter (fun kv => kv.1 = bytes_of_string name) (Query u) with
  | [] => ""
  | kv :: _ => string_of_bytes kv.2
  end.

(** * The literal request target

    Targets of unreserved characters (what the clients of this API send) come
    back unchanged, so both sides of the auth proof name the same text. *)

Definition plain_path (p : bytes) : Prop := Forall (fun c => should_escape_path c = false) p.

(** No control character. *)
Definition printable (s : bytes) : Prop :=
  Forall (fun c => 32 <= byte_val c /\ byte_val c <> 127) s.

Lemma plain_char c :
  should_escape_path c = false ->
  c <> "%"%char /\ c <> "?"%char /\ c <> " "%char /\ 32 <= byte_val c /\ byte_val c <> 127.
Proof.
  destruct c as [[] [] [] [] [] [] [] []]; intros H; try (vm_compute in H; discriminate);
    repeat split; done.
Qed.

Lemma escape_path_plain p : plain_path p -> escape_path p = p.
Proof. induction 1 as [|c p Hc Hp IH]; simpl; [done|]. by rewrite Hc, IH. Qed.

Lemma unescape_plain p : plain_path p -> unescape false p = Some p.
Proof.
  induction 1 as [|c p Hc Hp IH]; simpl; [done|]. apply plain_char in Hc as [Hc _].
  by rewrite bool_decide_eq_false_2, IH.
Qed.

Lemma plain_no_question p : plain_path p -> "?"%char ∉ p.
Proof.
  intros Hp Hin. unfold plain_path in Hp. rewrite Forall_forall in Hp. by apply Hp, plain_char in Hin as (_ & ? & _).
Qed.

Lemma plain_printable p : plain_path p -> printable p.
Proof. intros Hp. eapply Forall_impl; [exact Hp|]. by intros c (_ & _ & _ & ?)%plain_char. Qed.

Lemma cut_query_app p q : "?"%char ∉ p -> cut_query (p ++ "?"%char :: q) = (p, q).
Proof.
  induction p as [|c p IH]; simpl; [done|]. rewrite not_elem_of_cons. intros [Hc Hp].
  rewrite bool_decide_eq_false_2 by congruence. by rewrite IH.
Qed.

Lemma cut_query_none p : "?"%char ∉ p -> cut_query p = (p, []).
Proof.
  induction p as [|c p IH]; simpl; [done|]. rewrite not_elem_of_cons. intros [Hc Hp].
  rewrite bool_decide_eq_false_2 by congruence. by rewrite IH.
Qed.

Lemma set_path_plain p : plain_path p -> set_path p = Some (p, []).
Proof.
  intros Hp. unfold set_path. rewrite unescape_plain, escape_path_plain by done.
  by rewrite bool_decide_eq_true_2.
Qed.

(** The target an API client writes: a path, and a query unless it is empty. *)
Definition target_of (p q : bytes) : bytes := p ++ match q with [] => [] | _ => "?"%char :: q end.

Lemma ParseRequestURI_plain p q :
  plain_path ("/"%char :: p) -> printable q ->
  ParseRequestURI (target_of ("/"%char :: p) q) = Some (mkURL ("/"%char :: p) [] q false).
Proof.
  intros Hp Hq. set (path := "/"%char :: p) in *.
  assert (printable (target_of path q)) as Hpr.
  { unfold target_of. apply Forall_app. split; [by apply plain_printable|].
    destruct q; [done|]. constructor; [done|exact Hq]. }
  unfold ParseRequestURI.
  assert (forallb (fun c => (32 <=? byte_val c) && negb (byte_val c =? 127)) (target_of path q) = true)
    as ->.
  { apply List.forallb_forall. intros c Hc%list_elem_of_In. unfold printable in Hpr.
    rewrite Forall_forall in Hpr. destruct (Hpr c Hc). apply andb_true_iff, conj.
    - by apply Z.leb_le.
    - by apply negb_true_iff, Z.eqb_neq. }
  cbn [negb]. assert (cut_query (target_of path q) = (path, q)) as Hcut.
  { unfold target_of. destruct q as [|c q]; [rewrite app_nil_r; apply cut_query_none|apply cut_query_app];
      by apply plain_no_question. }
  assert (bool_decide (last (target_of path q) = Some "?"%char) &&
    bool_decide (length (base.filter (fun c => c = "?"%char) (target_of path q)) = 1%nat) = false) as ->.
  { apply andb_false_iff. pose proof (plain_no_question path Hp) as Hn. unfold target_of.
    destruct q as [|c q].
    - left. apply bool_decide_eq_false. rewrite app_nil_r. intros Hl.
      apply Hn. by apply last_Some_elem_of in Hl.
    - destruct (bool_decide _) eqn:Hl; [|by left]. right. apply bool_decide_eq_true in Hl.
      apply bool_decide_eq_false. rewrite filter_app, filter_cons_True by done.
      rewrite last_app_cons in Hl. assert ("?"%char ∈ c :: q) as Hin by (by apply last_Some_elem_of).
      intros Hlen. rewrite length_app in Hlen. simpl in Hlen.
      assert (base.filter (fun x => x = "?"%char) (c :: q) = []) as Hnil.
      { apply nil_length_inv. lia. }
      assert ("?"%char ∈ base.filter (fun x => x = "?"%char) (c :: q)) as Hf
        by (by apply list_elem_of_filter).
      rewrite Hnil in Hf. by apply not_elem_of_nil in Hf. }
  rewrite Hcut, set_path_plain by done. done.
Qed.

Lemma RequestURI_plain p q :
  plain_path ("/"%char :: p) -> RequestURI (mkURL ("/"%char :: p) [] q false) = target_of ("/"%char :: p) q.
Proof.
  intros Hp. unfold RequestURI, EscapedPath, target_of. simpl Path. simpl RawPath.
  rewrite (bool_decide_eq_true_2 ([] = [])) by done. cbn [negb andb].
  rewrite bool_decide_eq_false_2 by (intros [=]). rewrite escape_path_plain by done.
  simpl. by destruct q.
Qed.

Example request_uri_escaped :
  RequestURI <$> ParseRequestURI (bytes_of_string "/v1/%6cog/a%20b?x=1&y=%20+")
  = Some (bytes_of_string "/v1/%6cog/a%20b?x=1&y=%20+").
Proof. vm_compute. reflexivity. Qed.
Example query_get :
  (fun u => (Query_Get u "x", Query_Get u "y", Query_Get u "z"))
    <$> ParseRequestURI (bytes_of_string "/p?x=1%31&y=a+b&x=2&z;=3")
  = Some ("11", "a b", "").
Proof. vm_compute. reflexivity. Qed.
