(* ===== verification/UrlEscape.v ===== *)
(** The client's side of package [net/url]: [PathEscape], [QueryEscape], and
    how [url.Parse] reads what follows the origin of an absolute URL; with the
    lemmas that make an escaped target survive parsing byte for byte. *)
From S2P Require Import Prelude GoStrings Base64 Json Url.
Local Open Scope Z_scope.

(** * Escaping *)

(** [shouldEscape(c, encodePathSegment)] *)
Definition should_escape_segment (c : ascii) : bool := should_escape_path c || one_of "/;,?" c.

(** [shouldEscape(c, encodeQueryComponent)] *)
Definition should_escape_query (c : ascii) : bool := negb (is_alnum c || one_of "-_.~" c).

(** [url.PathEscape] *)
Definition PathEscape (s : bytes) : bytes :=
  flat_map (fun c => if should_escape_segment c then percent c else [c]) s.

(** [url.QueryEscape]: a space becomes a plus sign. *)
Definition QueryEscape (s : bytes) : bytes :=
  flat_map (fun c => if bool_decide (c = " "%char) then ["+"%char]
                     else if should_escape_query c then percent c else [c]) s.

(** * Parsing what follows the origin *)

(** [strings.Cut(s, "#")] *)
Fixpoint cut_fragment (s : bytes) : bytes * bytes :=
  match s with
  | [] => ([], [])
  | c :: s1 =>
      if bool_decide (c = "#"%char) then ([], s1)
      else let '(a, b) := cut_fragment s1 in (c :: a, b)
  end.

(** Path, query and fragment of [url.Parse]; the path may be empty. *)
Definition parse_tail (s : bytes) : option URL :=
  let '(u, frag) := cut_fragment s in
  if negb (forallb (fun c => (32 <=? byte_val c) && negb (byte_val c =? 127)) u) then None
  else
    let force := bool_decide (last u = Some "?"%char) &&
      bool_decide (length (base.filter (fun c => c = "?"%char) u) = 1%nat) in
    let '(p, q) := cut_query u in
    match set_path p, unescape false frag with
    | Some (path, raw), Some _ => Some (mkURL path raw q force)
    | _, _ => None
    end.

(** * Targets that survive *)

(** Bytes that need no escape in a path, and well-formed escapes. *)
Inductive escaped : bytes -> Prop :=
  | escaped_nil : escaped []
  | escaped_char c p : should_escape_path c = false -> escaped p -> escaped (c :: p)
  | escaped_percent h l p :
      is_Some (hex_val h) -> is_Some (hex_val l) -> escaped p -> escaped ("%"%char :: h :: l :: p).

Lemma escaped_app p q : escaped p -> escaped q -> escaped (p ++ q).
Proof. induction 1; simpl; auto using escaped. Qed.

Lemma hex_val_upper d : 0 <= d < 16 -> hex_val (hex_upper d) = Some d.
Proof.
  intros Hd. assert (forallb (fun d => bool_decide (hex_val (hex_upper d) = Some d))
    [0;1;2;3;4;5;6;7;8;9;10;11;12;13;14;15] = true) as H by (vm_compute; reflexivity).
  rewrite List.forallb_forall in H. apply (bool_decide_eq_true_1 _), H. simpl. lia.
Qed.

Lemma percent_eq c : percent c = ["%"%char; hex_upper (byte_val c / 16); hex_upper (byte_val c mod 16)].
Proof. done. Qed.

Lemma percent_hex c :
  hex_val (hex_upper (byte_val c / 16)) = Some (byte_val c / 16) /\
  hex_val (hex_upper (byte_val c mod 16)) = Some (byte_val c mod 16).
Proof.
  pose proof (byte_val_range c). split; apply hex_val_upper.
  - split; [apply Z.div_pos; lia|apply Z.div_lt_upper_bound; lia].
  - apply Z.mod_pos_bound. lia.
Qed.

Lemma percent_escaped c : escaped (percent c).
Proof. destruct (percent_hex c) as [H1 H2]. rewrite percent_eq. repeat constructor; by eexists. Qed.

Lemma escape_segment_escaped s : escaped (PathEscape s).
Proof.
  induction s as [|c s IH]; [constructor|]. simpl. apply escaped_app; [|done].
  destruct (should_escape_segment c) eqn:E; [apply percent_escaped|].
  apply orb_false_iff in E as [E _]. repeat constructor. done.
Qed.

Lemma plain_escaped p : plain_path p -> escaped p.
Proof. induction 1; auto using escaped. Qed.

Lemma hex_val_char c :
  is_Some (hex_val c) -> c <> "?"%char /\ c <> "#"%char /\ 32 <= byte_val c /\ byte_val c <> 127 /\
    should_escape_path c = false.
Proof. destruct c as [[] [] [] [] [] [] [] []]; intros [x Hx]; vm_compute in Hx; try discriminate; done. Qed.

Lemma plain_char_hash c : should_escape_path c = false -> c <> "#"%char.
Proof. by intros H ->. Qed.

Lemma escaped_chars p :
  escaped p -> Forall (fun c => c <> "?"%char /\ c <> "#"%char /\ 32 <= byte_val c /\ byte_val c <> 127 /\
    (one_of "!$&'()*+,;=:@[]%" c || negb (should_escape_path c)) = true) p.
Proof.
  induction 1 as [|c p Hc Hp IH|h l p Hh Hl Hp IH]; [constructor| |].
  - constructor; [|done]. pose proof (plain_char_hash c Hc). apply plain_char in Hc as H'.
    rewrite Hc, orb_true_r. naive_solver.
  - apply hex_val_char in Hh, Hl. constructor; [done|]. constructor; [|constructor; [|done]].
    + destruct Hh as (? & ? & ? & ? & ->). by rewrite orb_true_r.
    + destruct Hl as (? & ? & ? & ? & ->). by rewrite orb_true_r.
Qed.

Lemma escaped_unescape p : escaped p -> is_Some (unescape false p).
Proof.
  induction 1 as [|c p Hc Hp [x Hx]|h l p [a Ha] [b Hb] Hp [x Hx]]; [by eexists| |]; simpl.
  - apply plain_char in Hc as [Hc _]. rewrite bool_decide_eq_false_2 by done. rewrite Hx. by eexists.
  - rewrite Ha, Hb, Hx. by eexists.
Qed.

Lemma valid_encoded_escaped p : escaped p -> valid_encoded p = true.
Proof.
  intros Hp%escaped_chars. unfold valid_encoded. apply List.forallb_forall. intros c Hc%list_elem_of_In.
  rewrite Forall_forall in Hp. by apply Hp in Hc as (_ & _ & _ & _ & ?).
Qed.

Lemma cut_fragment_none s : "#"%char ∉ s -> cut_fragment s = (s, []).
Proof.
  induction s as [|c s IH]; simpl; [done|]. rewrite not_elem_of_cons. intros [Hc Hs].
  rewrite bool_decide_eq_false_2 by congruence. by rewrite IH.
Qed.

(** A query the client writes. *)
Definition plain_query (q : bytes) : Prop := printable q /\ "#"%char ∉ q.

Lemma forallb_printable s :
  printable s -> forallb (fun c => (32 <=? byte_val c) && negb (byte_val c =? 127)) s = true.
Proof.
  intros Hp. unfold printable in Hp. rewrite Forall_forall in Hp.
  apply List.forallb_forall. intros c Hc%list_elem_of_In. destruct (Hp c Hc). apply andb_true_iff, conj.
  - by apply Z.leb_le.
  - by apply negb_true_iff, Z.eqb_neq.
Qed.

(** The force-query flag is not raised by a target without a bare question
    mark at its end. *)
Lemma no_force_query p q :
  "?"%char ∉ p ->
  bool_decide (last (target_of p q) = Some "?"%char) &&
  bool_decide (length (base.filter (fun c => c = "?"%char) (target_of p q)) = 1%nat) = false.
Proof.
  intros Hn. apply andb_false_iff. unfold target_of. destruct q as [|c q].
  - left. apply bool_decide_eq_false. rewrite app_nil_r. intros Hl. apply Hn. by apply last_Some_elem_of in Hl.
  - destruct (bool_decide _) eqn:Hl; [|by left]. right. apply bool_decide_eq_true in Hl.
    apply bool_decide_eq_false. rewrite filter_app, filter_cons_True by done.
    rewrite last_app_cons in Hl. assert ("?"%char ∈ c :: q) as Hin by (by apply last_Some_elem_of).
    intros Hlen. rewrite length_app in Hlen. simpl in Hlen.
    assert (base.filter (fun x => x = "?"%char) (c :: q) = []) as Hnil by (apply nil_length_inv; lia).
    assert ("?"%char ∈ base.filter (fun x => x = "?"%char) (c :: q)) as Hf by (by apply list_elem_of_filter).
    rewrite Hnil in Hf. by apply not_elem_of_nil in Hf.
Qed.

Lemma cut_query_target p q : "?"%char ∉ p -> cut_query (target_of p q) = (p, q).
Proof.
  intros Hp. unfold target_of. destruct q; [rewrite app_nil_r; by apply cut_query_none|by apply cut_query_app].
Qed.

(** The URL both sides read off an escaped target. *)
Lemma parse_escaped p q :
  escaped ("/"%char :: p) -> plain_query q ->
  exists u, ParseRequestURI (target_of ("/"%char :: p) q) = Some u /\
    parse_tail (target_of ("/"%char :: p) q) = Some u /\
    RequestURI u = target_of ("/"%char :: p) q /\ RawQuery u = q.
Proof.
  set (path := "/"%char :: p). intros Hp [Hq Hh].
  pose proof (escaped_chars _ Hp) as Hc. rewrite Forall_forall in Hc.
  assert ("?"%char ∉ path) as Hn by (by intros (? & _)%Hc).
  assert (printable path) as Hpp.
  { apply Forall_forall. intros c Hin. by apply Hc in Hin as (_ & _ & ? & ? & _). }
  assert (printable (target_of path q)) as Hpr.
  { unfold target_of. apply Forall_app. split; [done|]. destruct q; [done|]. constructor; [done|exact Hq]. }
  assert ("#"%char ∉ target_of path q) as Hnh.
  { unfold target_of. intros [Hin|Hin]%elem_of_app; [by apply Hc in Hin as (_ & ? & _)|].
    destruct q; [by apply not_elem_of_nil in Hin|]. apply elem_of_cons in Hin as [|]; done. }
  destruct (escaped_unescape path Hp) as [path' Hu].
  set (raw := if bool_decide (escape_path path' = path) then [] else path).
  assert (set_path path = Some (path', raw)) as Hset by (unfold set_path; by rewrite Hu).
  exists (mkURL path' raw q false).
  assert (ParseRequestURI (target_of path q) = Some (mkURL path' raw q false)) as H1.
  { unfold ParseRequestURI. rewrite forallb_printable by done. cbn [negb].
    rewrite no_force_query, cut_query_target by done. rewrite Hset. done. }
  split; [exact H1|]. split; [|split; [|done]].
  - unfold parse_tail. rewrite cut_fragment_none by done. rewrite forallb_printable by done. cbn [negb].
    rewrite no_force_query, cut_query_target by done. by rewrite Hset.
  - assert (EscapedPath (mkURL path' raw q false) = path) as Hesc.
    { unfold EscapedPath. cbn [RawPath Path]. unfold raw. destruct (bool_decide (escape_path path' = path)) eqn:He.
      - rewrite (bool_decide_eq_true_2 ([] = [])) by done. cbn [negb andb].
        apply bool_decide_eq_true in He. rewrite bool_decide_eq_false_2; [done|]. intros ->. done.
      - rewrite (bool_decide_eq_false_2 (path = [])) by done.
        rewrite valid_encoded_escaped, bool_decide_eq_true_2 by done. done. }
    unfold RequestURI. rewrite Hesc. cbn [ForceQuery RawQuery orb]. unfold target_of, path.
    destruct q; [by rewrite bool_decide_eq_true_2|by rewrite bool_decide_eq_false_2].
Qed.

(** * Queries *)

Lemma unescape_query_escape s rest :
  unescape true (QueryEscape s ++ rest) = (fun r => s ++ r) <$> unescape true rest.
Proof.
  induction s as [|c s IH]; [simpl; by destruct (unescape true rest)|].
  change (QueryEscape (c :: s)) with ((if bool_decide (c = " "%char) then ["+"%char]
    else if should_escape_query c then percent c else [c]) ++ QueryEscape s).
  rewrite <- app_assoc. case_bool_decide as Hs.
  - subst c. simpl. rewrite IH. by destruct (unescape true rest).
  - destruct (should_escape_query c) eqn:Hc.
    + destruct (percent_hex c) as [H1 H2]. rewrite percent_eq. cbn [app unescape].
      rewrite bool_decide_eq_true_2 by done. rewrite H1, H2, IH.
      replace (byte_val c / 16 * 16 + byte_val c mod 16) with (byte_val c)
        by (pose proof (Z.div_mod (byte_val c) 16); lia).
      rewrite byte_of_val. by destruct (unescape true rest).
    + assert (c <> "%"%char /\ c <> "+"%char) as [H1 H2] by (by split; intros ->).
      cbn [app unescape]. rewrite (bool_decide_eq_false_2 (c = "%"%char)) by done.
      rewrite (bool_decide_eq_false_2 (c = "+"%char)) by done. cbn [andb]. rewrite IH. by destruct (unescape true rest).
Qed.

Lemma hex_upper_char d :
  0 <= d < 16 -> hex_upper d ∈ bytes_of_string "0123456789ABCDEF".
Proof.
  intros Hd. assert (forallb (fun d => bool_decide (hex_upper d ∈ bytes_of_string "0123456789ABCDEF"))
    [0;1;2;3;4;5;6;7;8;9;10;11;12;13;14;15] = true) as H by (vm_compute; reflexivity).
  rewrite List.forallb_forall in H. apply (bool_decide_eq_true_1 _), H. simpl. lia.
Qed.

(** What a query component is made of. *)
Definition component_char (c : ascii) : Prop :=
  c = "+"%char \/ c = "%"%char \/ should_escape_query c = false.

Lemma query_escape_chars s : Forall component_char (QueryEscape s).
Proof.
  induction s as [|c s IH]; [constructor|]. simpl. apply Forall_app. split; [|done].
  case_bool_decide; [apply Forall_cons; split; [by left|done]|]. destruct (should_escape_query c) eqn:E.
  - pose proof (byte_val_range c). rewrite percent_eq.
    assert (forall d, d ∈ bytes_of_string "0123456789ABCDEF" -> component_char d) as Hd.
    { intros d Hin. right. right. revert d Hin. apply Forall_forall. by repeat constructor. }
    apply Forall_cons. split; [by right; left|]. apply Forall_cons. split; [|apply Forall_cons; split; [|done]].
    + apply Hd, hex_upper_char. split; [apply Z.div_pos; lia|apply Z.div_lt_upper_bound; lia].
    + apply Hd, hex_upper_char, Z.mod_pos_bound. lia.
  - apply Forall_cons. split; [by right; right|done].
Qed.

Lemma component_char_plain c :
  component_char c -> c <> "&"%char /\ c <> "="%char /\ c <> ";"%char /\ c <> "#"%char /\
    32 <= byte_val c /\ byte_val c <> 127.
Proof.
  destruct c as [[] [] [] [] [] [] [] []]; intros [H|[H|H]]; try discriminate H;
    try (vm_compute in H; discriminate H); repeat split; try done; try (vm_compute; done).
Qed.

(** A query of pairs. *)
Definition pair_text (kv : bytes * bytes) : bytes := QueryEscape kv.1 ++ "="%char :: QueryEscape kv.2.

Fixpoint join_query (kvs : list (bytes * bytes)) : bytes :=
  match kvs with
  | [] => []
  | [kv] => pair_text kv
  | kv :: rest => pair_text kv ++ "&"%char :: join_query rest
  end.

Lemma component_not_in s c :
  (forall x, component_char x -> x <> c) -> c ∉ QueryEscape s.
Proof.
  intros Hc Hin. pose proof (query_escape_chars s) as H. rewrite Forall_forall in H. by apply (Hc c); [apply H|].
Qed.

Lemma pair_text_free kv c :
  c <> "="%char -> (forall x, component_char x -> x <> c) -> c ∉ pair_text kv.
Proof.
  intros He Hc. unfold pair_text. intros [Hin|[->|Hin]%elem_of_cons]%elem_of_app; [|done|];
    by eapply component_not_in in Hin.
Qed.

Lemma split_amp_one a : "&"%char ∉ a -> split_amp a = [a].
Proof.
  induction a as [|c a IH]; simpl; [done|]. rewrite not_elem_of_cons. intros [Hc Ha].
  rewrite bool_decide_eq_false_2 by congruence. by rewrite IH.
Qed.

Lemma split_amp_cons a rest : "&"%char ∉ a -> split_amp (a ++ "&"%char :: rest) = a :: split_amp rest.
Proof.
  induction a as [|c a IH]; simpl; [done|]. rewrite not_elem_of_cons. intros [Hc Ha].
  rewrite bool_decide_eq_false_2 by congruence. by rewrite IH.
Qed.

Lemma cut_eq_app a b : "="%char ∉ a -> cut_eq (a ++ "="%char :: b) = (a, b).
Proof.
  induction a as [|c a IH]; simpl; [done|]. rewrite not_elem_of_cons. intros [Hc Ha].
  rewrite bool_decide_eq_false_2 by congruence. by rewrite IH.
Qed.

Lemma unescape_QueryEscape s : unescape true (QueryEscape s) = Some s.
Proof. pose proof (unescape_query_escape s []) as H. rewrite !app_nil_r in H. rewrite H. simpl. by rewrite app_nil_r. Qed.

Lemma parse_pair_text kv : parse_pair (pair_text kv) = Some kv.
Proof.
  unfold parse_pair. rewrite bool_decide_eq_false_2 by (unfold pair_text; by destruct (QueryEscape kv.1)).
  rewrite bool_decide_eq_false_2.
  - cbn [orb]. unfold pair_text. rewrite cut_eq_app, !unescape_QueryEscape; [by destruct kv|].
    apply component_not_in. by intros x (_ & ? & _)%component_char_plain.
  - apply pair_text_free; [done|]. by intros x (_ & _ & ? & _)%component_char_plain.
Qed.

Lemma Query_join kvs : kvs <> [] -> omap parse_pair (split_amp (join_query kvs)) = kvs.
Proof.
  assert (forall kv, "&"%char ∉ pair_text kv) as Hamp.
  { intros kv. apply pair_text_free; [done|]. by intros x (? & _)%component_char_plain. }
  induction kvs as [|kv [|kv' kvs] IH]; intros Hne; [done| |].
  - cbn [join_query]. rewrite split_amp_one by done. simpl. by rewrite parse_pair_text.
  - change (join_query (kv :: kv' :: kvs)) with (pair_text kv ++ "&"%char :: join_query (kv' :: kvs)).
    rewrite split_amp_cons by done. cbn [omap list_omap]. rewrite parse_pair_text. f_equal. by apply IH.
Qed.

Lemma QueryEscape_plain s :
  Forall (fun c => c <> " "%char /\ should_escape_query c = false) s -> QueryEscape s = s.
Proof.
  induction 1 as [|c s [Hc He] Hs IH]; [done|]. simpl. by rewrite bool_decide_eq_false_2, He, IH.
Qed.

(** ** Hexadecimal names are their own escapes *)

Lemma PathEscape_hex s : str_forall is_lower_hex s = true -> PathEscape (bytes_of_string s) = bytes_of_string s.
Proof.
  induction s as [|c s IH]; [done|]. simpl. intros [Hc Hs]%andb_true_iff.
  assert (should_escape_segment c = false) as -> by (destruct c as [[] [] [] [] [] [] [] []]; vm_compute in Hc |- *; done).
  by rewrite IH.
Qed.

Lemma hex_plain s : str_forall is_lower_hex s = true -> plain_path (bytes_of_string s) /\ "/"%char ∉ bytes_of_string s.
Proof.
  induction s as [|c s IH]; [split; [constructor|apply not_elem_of_nil]|]. cbn [str_forall bytes_of_string].
  intros [Hc Hs]%andb_true_iff. destruct (IH Hs). rewrite not_elem_of_cons.
  assert (should_escape_path c = false /\ "/"%char <> c) as [? ?]
    by (destruct c as [[] [] [] [] [] [] [] []]; vm_compute in Hc |- *; done).
  split; [by constructor|done].
Qed.
