(* ===== verification/Config.v ===== *)
(** [internal/config/config.go] and [internal/logger/logger.go]: what the
    process reads from its environment, and the logger it configures. *)
From S2P Require Import Prelude GoStrings GoError.
Local Open Scope Z_scope.

(** * The environment *)

(** Variables that are not set read as empty. *)
Abbreviation Env := (gmap string string).

Definition Getenv (env : Env) (k : string) : string := default "" (env !! k).

(** * Configuration *)

Definition DefaultMaxBlobBytes : Z := Z.shiftl 200 20.

Record Config := mkConfig {
  Port : Z;
  ServerPrivateKey : string;
  DatabaseURL : string;
  LogLevel : string;
  LogFormat : string;
  MaxBlobBytes : Z;
  OTelEndpoint : string;
}.

Definition is_hex (c : ascii) : bool :=
  let n := byte_val c in
  ((48 <=? n) && (n <=? 57)) || ((97 <=? n) && (n <=? 102)) || ((65 <=? n) && (n <=? 70)).

(** The loop runs over runes; a byte outside ASCII belongs to a rune that is
    no digit. *)
Definition validateHexKey (key : string) : option error :=
  if negb (str_len key =? 64) then
    Some (Wrapf "" ErrInvalidServerKey (": must be 64 hex characters, got " +:+ FormatInt (str_len key)))
  else if negb (str_forall is_hex key) then
    Some (Wrapf "" ErrInvalidServerKey ": must be hexadecimal")
  else None.

Definition getEnvDefault (env : Env) (k d : string) : string :=
  let v := Getenv env k in if negb (bool_decide (v = "")) then v else d.

Definition getEnvInt (env : Env) (k : string) (d : Z) : Z :=
  let v := Getenv env k in
  if negb (bool_decide (v = "")) then match Atoi v with Some n => n | None => d end else d.

Definition Load (env : Env) : result Config :=
  let key := Getenv env "SERVER_PRIVATE_KEY" in
  if bool_decide (key = "") then Err ErrMissingServerKey
  else
    match validateHexKey key with
    | Some e => Err e
    | None =>
        Ok (mkConfig (getEnvInt env "PORT" 8080) key
              (getEnvDefault env "DATABASE_URL" "")
              (getEnvDefault env "LOG_LEVEL" "info")
              (getEnvDefault env "LOG_FORMAT" "json")
              (getEnvInt env "MAX_BLOB_BYTES" DefaultMaxBlobBytes)
              (getEnvDefault env "OTEL_EXPORTER_OTLP_ENDPOINT" ""))
    end.

(** * The logger *)

Inductive Level := LevelDebug | LevelInfo | LevelWarn | LevelError.

(** [strings.ToLower], of which only the outcome on ASCII matters here: no
    rune outside ASCII lowers to a letter of the words compared with. *)
Definition ascii_lower (c : ascii) : ascii :=
  let n := byte_val c in if (65 <=? n) && (n <=? 90) then byte_of (n + 32) else c.

Fixpoint ToLower (s : string) : string :=
  match s with EmptyString => EmptyString | String c s' => String (ascii_lower c) (ToLower s') end.

(** An attribute of a record, and the span context of a request. *)
Definition attr : Type := string * string.

(** [slog.Handler]: [Out] is what handling a record yields. *)
Class slog_Handler (Out H : Type) := {
  handle : H -> option (string * string) -> list attr -> Out;
  WithAttrs : H -> list attr -> H;
  WithGroup : H -> string -> H;
}.

(** The handler [Configure] chooses: its level, and whether it writes text
    instead of JSON; what it was derived with is the library's. *)
Record slogHandler := mkHandler {
  h_level : Level;
  h_text : bool;
}.

(** [traceHandler], which embeds the handler it wraps. *)
Record traceHandler (H : Type) := WithTraceContext { embedded : H }.
Arguments WithTraceContext {_} _.
Arguments embedded {_} _.

(** What a valid span context adds to a record. *)
Definition stamp (sc : option (string * string)) : list attr :=
  match sc with
  | Some (trace_id, span_id) => [("trace_id", trace_id); ("span_id", span_id)]
  | None => []
  end.

#[export] Instance traceHandler_Handler {Out H} `{slog_Handler Out H} : slog_Handler Out (traceHandler H) := {|
  handle t sc attrs := handle (embedded t) sc (attrs ++ stamp sc);
  WithAttrs t attrs := WithTraceContext (WithAttrs (Out := Out) (embedded t) attrs);
  WithGroup t name := WithTraceContext (WithGroup (Out := Out) (embedded t) name);
|}.

Definition Configure (level format : string) : traceHandler slogHandler :=
  let l := ToLower level in
  let l := if bool_decide (l = "debug") then LevelDebug
           else if bool_decide (l = "warn") then LevelWarn
           else if bool_decide (l = "error") then LevelError
           else LevelInfo in
  WithTraceContext (mkHandler l (bool_decide (ToLower format = "text"))).

(** How a logger is derived: [With] and [WithGroup]. *)
Inductive derivation := ByAttrs (attrs : list attr) | ByGroup (name : string).

Definition derive {Out H} `{slog_Handler Out H} (h : H) (ds : list derivation) : H :=
  foldl (fun h d => match d with ByAttrs a => WithAttrs (Out := Out) h a | ByGroup n => WithGroup (Out := Out) h n end) h ds.

(** However a logger is derived from the configured one, each of its records
    is handled as the plain handler, derived alike, would handle it with the
    span's ids added; outside a span nothing is added. *)
Lemma traced_derivations {Out H} `{slog_Handler Out H} (h : H) ds sc attrs :
  handle (derive (Out := Out) (WithTraceContext h) ds) sc attrs = handle (derive (Out := Out) h ds) sc (attrs ++ stamp sc).
Proof. revert h. induction ds as [|[a|n] ds IH]; intros h; [done|apply IH..]. Qed.

(** * What a configuration is *)

(** A variable that holds no number has no effect. *)
Definition int_setting (env : Env) (k : string) (d : Z) (n : Z) : Prop :=
  in64 n /\
  ((Getenv env k <> "" /\ Atoi (Getenv env k) = Some n) \/
   ((Getenv env k = "" \/ Atoi (Getenv env k) = None) /\ n = d)).

Definition text_setting (env : Env) (k d v : string) : Prop :=
  (Getenv env k <> "" /\ v = Getenv env k) \/ (Getenv env k = "" /\ v = d).

Record config_ok (env : Env) (c : Config) : Prop := {
  ok_key : ServerPrivateKey c = Getenv env "SERVER_PRIVATE_KEY" /\
    String.length (ServerPrivateKey c) = 64%nat /\ str_forall is_hex (ServerPrivateKey c) = true;
  ok_port : int_setting env "PORT" 8080 (Port c);
  ok_cap : int_setting env "MAX_BLOB_BYTES" (200 * 2 ^ 20) (MaxBlobBytes c);
  ok_db : text_setting env "DATABASE_URL" "" (DatabaseURL c);
  ok_level : text_setting env "LOG_LEVEL" "info" (LogLevel c);
  ok_format : text_setting env "LOG_FORMAT" "json" (LogFormat c);
  ok_otel : text_setting env "OTEL_EXPORTER_OTLP_ENDPOINT" "" (OTelEndpoint c);
}.

Lemma getEnvInt_setting env k d : in64 d -> int_setting env k d (getEnvInt env k d).
Proof.
  unfold int_setting, getEnvInt. intros Hd. case_bool_decide as H; cbn [negb].
  - split; [done|right; auto].
  - destruct (Atoi _) as [n|] eqn:E; [|split; [done|right; auto]].
    split; [by eapply Atoi_in64|by left].
Qed.

Lemma getEnvDefault_setting env k d : text_setting env k d (getEnvDefault env k d).
Proof. unfold text_setting, getEnvDefault. case_bool_decide; cbn [negb]; auto. Qed.

(** C32. The configuration is well formed or there is none: [Load] succeeds
    exactly when SERVER_PRIVATE_KEY holds 64 hexadecimal digits, and says what
    is wrong with it otherwise; every other setting is the variable's value,
    or the default where the variable is empty or, for a number, does not hold
    one. *)
Theorem Load_outcome env :
  match Load env with
  | Ok c => config_ok env c
  | Err e =>
      let key := Getenv env "SERVER_PRIVATE_KEY" in
      (key = "" /\ e = ErrMissingServerKey) \/
      (key <> "" /\ Is e ErrInvalidServerKey = true /\
       (String.length key <> 64%nat \/ str_forall is_hex key = false))
  end.
Proof.
  unfold Load. case_bool_decide as Hk; [by left|]. unfold validateHexKey, str_len.
  destruct (Z.eqb_spec (Z.of_nat (String.length (Getenv env "SERVER_PRIVATE_KEY"))) 64) as [Hl|Hl]; cbn [negb].
  2:{ right. split; [done|]. split; [done|]. left. lia. }
  destruct (str_forall is_hex _) eqn:Hh; cbn [negb]; [|right; split; [done|]; split; [done|by right]].
  split; cbn [ServerPrivateKey Port MaxBlobBytes DatabaseURL LogLevel LogFormat OTelEndpoint];
    try apply getEnvDefault_setting.
  - split; [done|]. split; [lia|done].
  - by apply getEnvInt_setting.
  - by apply getEnvInt_setting.
Qed.
