(* ===== verification/Sql.v ===== *)
(** [database/sql] over a PostgreSQL server, as the stores use it: a session
    is the committed contents of the tables together with a script of how the
    coming round trips to the server end.  An empty script is a connection
    that never fails; the theorems hold for every script.

    The statements themselves are functions on the tables, written next to
    the Go code that sends them. *)
From S2P Require Import Prelude GoStrings GoError.
Local Open Scope Z_scope.

(** * How a round trip ends *)

Inductive exec_fate :=
  | ExecOk
  | ExecLost (e : error)       (* error reported, nothing executed *)
  | ExecUnacked (e : error).   (* executed, but an error reported *)

#[global] Instance exec_fate_eq_dec : EqDecision exec_fate.
Proof. solve_decision. Defined.

(** A result set may also break after some rows; the error then comes out of
    [rows.Err()]. *)
Inductive fate :=
  | Call (f : exec_fate)
  | Broken (n : nat) (e : error).

Definition fate_error (f : fate) : option error :=
  match f with
  | Call ExecOk => None
  | Call (ExecLost e) | Call (ExecUnacked e) | Broken _ e => Some e
  end.

(** * Sessions *)

Record session (T : Type) := mkSession {
  tables_of : T;
  script : list fate;
}.
Arguments mkSession {T} _ _.
Arguments tables_of {T} _.
Arguments script {T} _.

Section sessions.
Context {T : Type}.
Abbreviation session := (session T).

(** A computation over the session that returns a value or an error. *)
Definition DB (A : Type) : Type := session -> session * result A.

Definition with_tables (t : T) (s : session) : session := mkSession t (script s).

Definition next_fate (s : session) : session * fate :=
  (mkSession (tables_of s) (tail (script s)), default (Call ExecOk) (head (script s))).

Definition db_ret {A} (a : A) : DB A := fun s => (s, Ok a).
Definition db_fail {A} (e : error) : DB A := fun s => (s, Err e).
Definition db_bind {A B} (c : DB A) (k : A -> DB B) : DB B := fun s =>
  match c s with
  | (s', Ok a) => k a s'
  | (s', Err e) => (s', Err e)
  end.

(** [PingContext], [BeginTx]: a round trip without effect. *)
Definition db_call : DB unit := fun s =>
  let '(s, f) := next_fate s in
  match fate_error f with None => (s, Ok ()) | Some e => (s, Err e) end.

(** [ExecContext] *)
Definition db_exec {A} (stmt : T -> result (T * A)) : DB A := fun s =>
  let '(s, f) := next_fate s in
  match f with
  | Call ExecOk =>
      match stmt (tables_of s) with
      | Ok (t, a) => (with_tables t s, Ok a)
      | Err e => (s, Err e)
      end
  | Call (ExecUnacked e) =>
      match stmt (tables_of s) with
      | Ok (t, _) => (with_tables t s, Err e)
      | Err e' => (s, Err e')
      end
  | Call (ExecLost e) | Broken _ e => (s, Err e)
  end.

(** [QueryRowContext(...).Scan(...)] *)
Definition db_query_row {A} (stmt : T -> result A) : DB A := fun s =>
  let '(s, f) := next_fate s in
  match fate_error f with
  | None => (s, stmt (tables_of s))
  | Some e => (s, Err e)
  end.

(** [QueryContext]: the rows that arrive, and [rows.Err()] after them. *)
Definition db_query {A} (stmt : T -> result (list A)) : DB (list A * option error) := fun s =>
  let '(s, f) := next_fate s in
  match f with
  | Call (ExecLost e) | Call (ExecUnacked e) => (s, Err e)
  | Call ExecOk =>
      match stmt (tables_of s) with Ok l => (s, Ok (l, None)) | Err e => (s, Err e) end
  | Broken n e =>
      match stmt (tables_of s) with Ok l => (s, Ok (take n l, Some e)) | Err e' => (s, Err e') end
  end.

(** [tx.Commit()] of the work done since the tables were [t0]. *)
Definition db_commit (t0 : T) : DB unit := fun s =>
  let '(s, f) := next_fate s in
  match f with
  | Call ExecOk => (s, Ok ())
  | Call (ExecUnacked e) => (s, Err e)
  | Call (ExecLost e) | Broken _ e => (with_tables t0 s, Err e)
  end.

(** A transaction with its deferred [Rollback]: [work] ends with the commit,
    and whatever it returns as an error before that undoes its statements.
    [X] is what [work] changes besides the database. *)
Definition db_rollback {X A} (t0 : T) (out : session * X * result A) : session * X * result A :=
  match out with
  | (s, x, Ok a) => (s, x, Ok a)
  | (s, x, Err e) => (with_tables t0 s, x, Err e)
  end.

Definition transact {X A} (x0 : X) (work : session -> session * X * result A)
    (commit_error : error -> error) (s : session) : session * X * result A :=
  match db_call s with
  | (s, Err e) => (s, x0, Err e)
  | (s, Ok _) =>
      match db_rollback (tables_of s) (work s) with
      | (s', x, Err e) => (s', x, Err e)
      | (s', x, Ok a) =>
          match db_commit (tables_of s) s' with
          | (s'', Ok _) => (s'', x, Ok a)
          | (s'', Err e) => (s'', x, Err (commit_error e))
          end
      end
  end.

(** The migrations a boot runs, in order; [what] and the number name the one
    that failed. *)
Fixpoint migrate (what : string) (i : Z) (ms : list (T -> result (T * unit))) : DB unit :=
  match ms with
  | [] => db_ret ()
  | m :: ms' => fun s =>
      match db_exec m s with
      | (s, Err e) => (s, Err (Wrapf (what +:+ FormatInt i +:+ ": ") e ""))
      | (s, Ok _) => migrate what (i + 1) ms' s
      end
  end.

End sessions.
Arguments DB T A : clear implicits.

Create HintDb sql.
Declare Scope sql_scope.
Delimit Scope sql_scope with sql.
Notation "'query' x ':=' c 'in' k" := (db_bind c (fun x => k))
  (at level 10, x pattern, c at level 100, k at level 200) : sql_scope.

(** * Aggregates *)

(** [MAX(f)] over a set of rows; [NULL] when there is none. *)
Definition sql_max (l : list Z) : option Z :=
  foldr (fun x acc => Some (match acc with Some m => Z.max x m | None => x end)) None l.

(** [INTEGER] holds 32 bits; a larger argument is refused by the server. *)
Definition int4 (z : Z) : bool := (- 2 ^ 31 <=? z) && (z <? 2 ^ 31).

Lemma sql_max_spec l :
  match sql_max l with
  | None => l = []
  | Some m => m ∈ l /\ forall x, x ∈ l -> x <= m
  end.
Proof.
  induction l as [|x l IH]; [done|]. simpl. destruct (sql_max l) as [m|].
  - destruct IH as [Hm Hall]. split.
    + destruct (Z.max_spec x m) as [[_ ->]|[_ ->]]; set_solver.
    + intros y [->|Hy]%elem_of_cons; [lia|]. specialize (Hall y Hy). lia.
  - subst l. split; [set_solver|]. intros y ->%list_elem_of_singleton. lia.
Qed.

Lemma sql_max_eq l m : m ∈ l -> (forall x, x ∈ l -> x <= m) -> sql_max l = Some m.
Proof.
  intros Hm Hall. pose proof (sql_max_spec l) as Hs. destruct (sql_max l) as [m'|].
  - destruct Hs as [Hm' Hall']. f_equal. apply Z.le_antisymm; auto.
  - subst l. by apply not_elem_of_nil in Hm.
Qed.

(** * What a script may do *)

(** The errors the network and the server report on their own: made outside
    the repository, and no unique violation, which only a statement that
    violates a key reports. *)
Definition unique_violation : string := "23505".

Definition fault_ok (e : error) : Prop :=
  match e with
  | External _ => True
  | PqError c _ => c <> unique_violation
  | _ => False
  end.

Definition fate_ok (f : fate) : Prop :=
  match fate_error f with Some e => fault_ok e | None => True end.

Definition script_ok (l : list fate) : Prop := Forall fate_ok l.

(** Some round trip of the script fails. *)
Definition script_faulty (l : list fate) : Prop := Exists (fun f => fate_error f <> None) l.

Section scripts.
Context {T : Type}.
Abbreviation session := (session T).

(** What any computation does to the script: it uses some of it up. *)
Definition later (s s' : session) : Prop :=
  (script_ok (script s) -> script_ok (script s')) /\
  (script_faulty (script s') -> script_faulty (script s)).

#[export] Instance later_preorder : PreOrder later.
Proof. split; [by split|]. intros s1 s2 s3 [] []. split; auto. Qed.

(** A failure the script is responsible for. *)
Definition fault (s : session) (e : error) : Prop := fault_ok e /\ script_faulty (script s).

Lemma fault_later (s s' : session) e : later s s' -> fault s' e -> fault s e.
Proof. intros [_ H] [? ?]. split; auto. Qed.

Lemma later_with_tables t (s s' : session) : later s s' -> later s (with_tables t s').
Proof. by intros []. Qed.

Lemma later_tables t (s s' : session) : later s s' -> later s (mkSession t (script s')).
Proof. by intros []. Qed.

Lemma next_fate_ok (s s' : session) f :
  next_fate s = (s', f) -> script_ok (script s) ->
  later s s' /\ tables_of s' = tables_of s /\ (forall e, fate_error f = Some e -> fault s e).
Proof.
  unfold next_fate, later, fault, script_ok, script_faulty. intros [= <- <-]. simpl.
  destruct (script s) as [|g l]; simpl; [by intros _|]. intros [Hg Hl]%Forall_cons. split_and!; auto.
  intros e He. split; [unfold fate_ok in Hg; by rewrite He in Hg|]. left. by rewrite He.
Qed.

Lemma db_call_cases (s s' : session) r :
  db_call s = (s', r) -> script_ok (script s) ->
  later s s' /\ tables_of s' = tables_of s /\ (r = Ok () \/ exists e, r = Err e /\ fault s e).
Proof.
  unfold db_call. destruct (next_fate s) as [s1 f] eqn:E. intros Hr Hs.
  destruct (next_fate_ok s s1 f E Hs) as (? & ? & He).
  destruct (fate_error f); simplify_eq; split_and!; eauto.
Qed.

Lemma db_query_row_cases {A} (stmt : T -> result A) (s s' : session) r :
  db_query_row stmt s = (s', r) -> script_ok (script s) ->
  later s s' /\ tables_of s' = tables_of s /\
  (r = stmt (tables_of s) \/ exists e, r = Err e /\ fault s e).
Proof.
  unfold db_query_row. destruct (next_fate s) as [s1 f] eqn:E. intros Hr Hs.
  destruct (next_fate_ok s s1 f E Hs) as (? & Ht & He).
  destruct (fate_error f); simplify_eq; split_and!; eauto. left. by rewrite Ht.
Qed.

Lemma db_query_cases {A} (stmt : T -> result (list A)) (s s' : session) r :
  db_query stmt s = (s', r) -> script_ok (script s) ->
  later s s' /\ tables_of s' = tables_of s /\
  match stmt (tables_of s) with
  | Ok l => r = Ok (l, None) \/ exists e, fault s e /\ (r = Err e \/ exists n, r = Ok (take n l, Some e))
  | Err e => r = Err e \/ exists e', r = Err e' /\ fault s e'
  end.
Proof.
  unfold db_query. destruct (next_fate s) as [s1 f] eqn:E. intros Hr Hs.
  destruct (next_fate_ok s s1 f E Hs) as (? & Ht & He).
  destruct f as [[|e|e]|n e]; [specialize (He (External ""))|specialize (He e eq_refl)..]; rewrite ?Ht in Hr;
    destruct (stmt (tables_of s)); simplify_eq; split_and!; eauto 7.
Qed.

Lemma db_exec_cases {A} (stmt : T -> result (T * A)) (s s' : session) r :
  db_exec stmt s = (s', r) -> script_ok (script s) ->
  later s s' /\
  (match stmt (tables_of s) with
   | Ok (t, a) => r = Ok a /\ tables_of s' = t
   | Err e => r = Err e /\ tables_of s' = tables_of s
   end \/ exists e, r = Err e /\ fault s e).
Proof.
  unfold db_exec. destruct (next_fate s) as [s1 f] eqn:E. intros Hr Hs.
  destruct (next_fate_ok s s1 f E Hs) as (Hl & Ht & He).
  destruct f as [[|e|e]|n e]; [specialize (He (External ""))|specialize (He e eq_refl)..]; rewrite ?Ht in Hr;
    destruct (stmt (tables_of s)) as [[t a]|e']; simplify_eq; split; eauto using later_with_tables.
Qed.

Lemma db_commit_cases t0 (s s' : session) r :
  db_commit t0 s = (s', r) -> script_ok (script s) ->
  later s s' /\
  ((r = Ok () /\ tables_of s' = tables_of s) \/
   exists e, r = Err e /\ fault s e /\ (tables_of s' = t0 \/ tables_of s' = tables_of s)).
Proof.
  unfold db_commit. destruct (next_fate s) as [s1 f] eqn:E. intros Hr Hs.
  destruct (next_fate_ok s s1 f E Hs) as (Hl & Ht & He).
  destruct f as [[|e|e]|n e]; [|specialize (He e eq_refl)..]; simplify_eq; split;
    eauto 7 using later_with_tables.
Qed.

(** A transaction is all or nothing: an error before the commit leaves the
    tables as they were, a commit that reports an error leaves them as they
    were or as the work left them. *)
Lemma transact_cases {X A} (x0 : X) (work : session -> session * X * result A) ce (s s' : session) x' res :
  transact x0 work ce s = (s', x', res) -> script_ok (script s) ->
  (forall s1 s2 x r, work s1 = (s2, x, r) -> script_ok (script s1) -> later s1 s2) ->
  later s s' /\
  ((exists e, res = Err e /\ x' = x0 /\ fault s e /\ tables_of s' = tables_of s) \/
   exists s1 s2 r, later s s1 /\ script_ok (script s1) /\ tables_of s1 = tables_of s /\ work s1 = (s2, x', r) /\
     match r with
     | Err e => res = Err e /\ tables_of s' = tables_of s
     | Ok a =>
         (res = Ok a /\ tables_of s' = tables_of s2) \/
         exists e, res = Err (ce e) /\ fault s e /\
           (tables_of s' = tables_of s \/ tables_of s' = tables_of s2)
     end).
Proof.
  unfold transact. destruct (db_call s) as [s1 r1] eqn:Ec. intros Hr Hs Hwork.
  destruct (db_call_cases s s1 r1 Ec Hs) as (Hl1 & Ht1 & [->|(e & -> & Hf)]).
  2:{ simplify_eq. split; [done|]. left. eauto. }
  assert (script_ok (script s1)) as Hs1 by (by apply Hl1).
  destruct (work s1) as [[s2 x] r] eqn:Ew. pose proof (Hwork _ _ _ _ Ew Hs1) as Hl2.
  unfold db_rollback in Hr. destruct r as [a|e].
  2:{ simplify_eq. split; [by apply later_with_tables; etrans|]. right. do 3 eexists. split_and!; try done. }
  destruct (db_commit (tables_of s1) s2) as [s3 r3] eqn:Em.
  destruct (db_commit_cases _ _ _ _ Em) as (Hl3 & Hc); [by apply Hl2|].
  assert (later s s3) as Hl by (etrans; [exact Hl1|by etrans]).
  destruct Hc as [[-> Ht3]|(e & -> & Hf & Ht3)]; simplify_eq; (split; [done|right]);
    exists s1, s2, (Ok a); (do 4 (split; [done|])); [by left|].
  right. exists e. split; [done|]. split; [by apply (fault_later s s2); [transitivity s1|]|]. by rewrite <- Ht1.
Qed.

(** * Computations that only use the script up *)

Definition uses {A} (c : DB T A) : Prop :=
  forall s s' r, c s = (s', r) -> script_ok (script s) -> later s s'.

Lemma uses_pure {A} (f : session -> result A) : uses (fun s => (s, f s)).
Proof. by intros s s' r [= <- _]. Qed.

Lemma uses_call : uses db_call.
Proof. intros s s' r E Hs. by destruct (db_call_cases _ _ _ E Hs). Qed.

Lemma uses_query_row {A} (stmt : T -> result A) : uses (db_query_row stmt).
Proof. intros s s' r E Hs. by destruct (db_query_row_cases _ _ _ _ E Hs). Qed.

Lemma uses_query {A} (stmt : T -> result (list A)) : uses (db_query stmt).
Proof. intros s s' r E Hs. by destruct (db_query_cases _ _ _ _ E Hs). Qed.

Lemma uses_exec {A} (stmt : T -> result (T * A)) : uses (db_exec stmt).
Proof. intros s s' r E Hs. by destruct (db_exec_cases _ _ _ _ E Hs). Qed.

Lemma uses_bind {A B} (c : DB T A) (k : A -> DB T B) :
  uses c -> (forall a, uses (k a)) -> uses (db_bind c k).
Proof.
  intros Hc Hk s s' r. unfold db_bind. destruct (c s) as [s1 [a|e]] eqn:E; intros Hr Hs.
  - pose proof (Hc _ _ _ E Hs) as Hl. etrans; [exact Hl|]. eapply Hk; [exact Hr|by apply Hl].
  - injection Hr as <- _. by eapply Hc.
Qed.

(** A migration that succeeded has run; one that failed has run or not. *)
Lemma migrate_step (keep : relation T) `{!PreOrder keep} what i f ms (s s' : session) r :
  migrate what i ((fun sc => Ok (f sc, ())) :: ms) s = (s', r) -> (forall sc, keep sc (f sc)) ->
  exists s1, keep (tables_of s) (tables_of s1) /\
    ((tables_of s1 = f (tables_of s) /\ migrate what (i + 1) ms s1 = (s', r)) \/
     (s' = s1 /\ exists e, r = Err (Wrapf (what +:+ FormatInt i +:+ ": ") e ""))).
Proof.
  cbn [migrate]. intros Hr Hk. destruct (db_exec _ s) as [s1 r1] eqn:E. exists s1.
  assert (tables_of s1 = f (tables_of s) \/ (tables_of s1 = tables_of s /\ r1 <> Ok ())) as Hs1.
  { revert E. unfold db_exec. cbn. destruct (default _ _) as [[|e|e]|n e]; intros [= <- <-]; auto. }
  destruct Hs1 as [E1|[E1 Hne]]; rewrite E1; (split; [done|]);
    destruct r1 as [[]|e]; try done; first [by left|right; injection Hr as <- <-; eauto].
Qed.

Lemma uses_migrate what i ms : uses (migrate what i ms).
Proof.
  revert i. induction ms as [|m ms IH]; intros i s s' r; simpl; [by intros [= <- _]|].
  destruct (db_exec m s) as [s1 [[]|e]] eqn:E; intros Hr Hs; pose proof (uses_exec _ _ _ _ E Hs) as Hl.
  - etrans; [exact Hl|]. eapply IH; [exact Hr|by apply Hl].
  - by injection Hr as <- _.
Qed.

End scripts.

#[export] Hint Resolve uses_pure uses_call uses_query_row uses_query uses_exec uses_bind uses_migrate : sql.
