(* ===== verification/Nonce.v ===== *)
(** [internal/nonce]: the stores that make an auth proof single-use.

    [Consume] is modelled as a function of the store's clock reading: for
    [MemoryStore] the reading of [m.now()] under the mutex, for
    [PostgresStore] the database's [now()].  The interface [NonceStoreOk]
    states what the authentication layer relies on, and [accepted_once] draws
    the consequence for any sequence of requests; both stores implement it. *)
From S2P Require Import Prelude GoError GoTime Sql.
Local Open Scope Z_scope.

(** * The interface [Store] *)

Class NonceStore (St : Type) := {
  (** [Consume now st nonce expiresAt] *)
  Consume : Z -> St -> string -> Z -> St * result bool;
}.

(** [remembers st n e]: the store refuses [n] until its clock passes [e]. *)
Class NonceStoreOk (St : Type) {ns : NonceStore St} := {
  remembers : St -> string -> Z -> Prop;
  Consume_true now st n e st' :
    Consume now st n e = (st', Ok true) -> remembers st' n e;
  Consume_keeps now st n e st' res m em :
    Consume now st n e = (st', res) -> remembers st m em -> now <= em -> remembers st' m em;
  Consume_refuses now st n e st' res em :
    Consume now st n e = (st', res) -> remembers st n em -> now <= em -> res <> Ok true;
}.

(** One call: the clock reading, the nonce and its expiry. *)
Record consume_call := mkCall { cc_now : Z; cc_nonce : string; cc_expiresAt : Z }.

Fixpoint consume_all {St} `{NonceStore St} (st : St) (cs : list consume_call)
    : St * list (result bool) :=
  match cs with
  | [] => (st, [])
  | c :: cs' =>
      let '(st1, res) := Consume (cc_now c) st (cc_nonce c) (cc_expiresAt c) in
      let '(st2, rest) := consume_all st1 cs' in (st2, res :: rest)
  end.

(** How often a proof (nonce and expiry) is accepted in a run of calls. *)
Definition acceptances (n : string) (e : Z) (cs : list consume_call) (rs : list (result bool)) : nat :=
  length (filter (fun cr => cc_nonce cr.1 = n /\ cc_expiresAt cr.1 = e /\ cr.2 = Ok true) (zip cs rs)).

(** * In-process store: nonce.go *)

Record NonceMemory := mkNonceMemory { seen : gmap string Z }.

Definition NewNonceMemory : NonceMemory := mkNonceMemory ∅.

(** [now.After(exp)] *)
Definition expired (now exp : Z) : bool := exp <? now.

Definition memory_Consume `{GoRange Z} (now : Z) (m : NonceMemory) (nonce : string) (expiresAt : Z)
    : NonceMemory * result bool :=
  let swept := (delete_where (expired now) (seen m)).1 in
  match swept !! nonce with
  | Some _ => (mkNonceMemory swept, Ok false)
  | None => (mkNonceMemory (<[nonce := expiresAt]> swept), Ok true)
  end.

#[export] Instance NonceMemory_Store `{GoRange Z} : NonceStore NonceMemory := {|
  Consume := memory_Consume;
|}.

(** * Database store: postgres.go

    The table [auth_nonces] as a map from its primary key, and the
    environment a call meets, one decision per request: the random draw, and
    how each statement ends.  A failing statement outside a transaction may
    have taken effect before the connection broke. *)

Record env := mkEnv {
  env_draw : Z;                      (* rand.IntN(64) *)
  env_sweep : exec_fate;
  env_insert : exec_fate;
  env_rows : option error;           (* res.RowsAffected() *)
}.

Record NoncePostgres := mkNoncePostgres {
  auth_nonces : gmap string Z;
  envs : list env;
}.

Definition calm : env := mkEnv 1 ExecOk ExecOk None.

(** [DELETE FROM auth_nonces WHERE expires_at < now()] *)
Definition sql_sweep (now : Z) (t : gmap string Z) : gmap string Z :=
  filter (fun ne => ~ ne.2 < now) t.

(** [INSERT ... ON CONFLICT (nonce) DO NOTHING], with the number of rows. *)
Definition sql_insert (n : string) (e : Z) (t : gmap string Z) : gmap string Z * Z :=
  match t !! n with
  | Some _ => (t, 0)
  | None => (<[n := e]> t, 1)
  end.

Definition exec (f : exec_fate) {A} (t : A) (t' : A) : A * option error :=
  match f with
  | ExecOk => (t', None)
  | ExecLost e => (t, Some e)
  | ExecUnacked e => (t', Some e)
  end.

Definition postgres_consume_with (ev : env) (now : Z) (t : gmap string Z) (nonce : string) (expiresAt : Z)
    : gmap string Z * result bool :=
  let '(t1, err) :=
    if bool_decide (env_draw ev = 0) then exec (env_sweep ev) t (sql_sweep now t) else (t, None) in
  match err with
  | Some e => (t1, Err (Wrapf "sweep nonces: " e ""))
  | None =>
      let '(t2, err2) := exec (env_insert ev) t1 (sql_insert nonce expiresAt t1).1 in
      match err2 with
      | Some e => (t2, Err (Wrapf "consume nonce: " e ""))
      | None =>
          match env_rows ev with
          | Some e => (t2, Err e)
          | None => (t2, Ok (bool_decide ((sql_insert nonce expiresAt t1).2 = 1)))
          end
      end
  end.

Definition postgres_Consume (now : Z) (s : NoncePostgres) (nonce : string) (expiresAt : Z)
    : NoncePostgres * result bool :=
  let '(t, res) := postgres_consume_with (default calm (head (envs s))) now (auth_nonces s) nonce expiresAt in
  (mkNoncePostgres t (tail (envs s)), res).

#[export] Instance NoncePostgres_Store : NonceStore NoncePostgres := {|
  Consume := postgres_Consume;
|}.

(** ** Boot: the pool is already open *)

Definition NonceMigrations : list (option (gmap string Z) -> result (option (gmap string Z) * unit)) :=
  [ fun sc => Ok (match sc with None => Some ∅ | Some _ => sc end, ());
    fun sc => Ok (sc, ()) ].

Definition NewNoncePostgres : DB (option (gmap string Z)) unit := migrate "nonce migration " 0 NonceMigrations.

(** Booting keeps every nonce already spent. *)
Lemma NewNoncePostgres_boots (s s' : session (option (gmap string Z))) r :
  NewNoncePostgres s = (s', r) ->
  (forall t, tables_of s = Some t -> tables_of s' = Some t) /\
  match r with
  | Ok _ => tables_of s' = Some (default ∅ (tables_of s))
  | Err e => exists step e0, e = Wrapf step e0 ""
  end.
Proof.
  set (keep := fun sc sc' : option (gmap string Z) => forall t, sc = Some t -> sc' = Some t).
  assert (PreOrder keep) as Hpre by (split; unfold keep; [by intros ?|intros ? ? ?; auto]).
  unfold NewNoncePostgres, NonceMigrations. intros E.
  apply (migrate_step keep) in E as (s1 & K1 & [[E1 E]|[-> [e ->]]]); [|by eauto|by intros [t|] t' [= <-]].
  apply (migrate_step keep) in E as (s2 & K2 & [[E2 E]|[-> [e ->]]]); [|split; [|by eauto]|by intros sc t].
  - injection E as <- <-. rewrite E2, E1. split; [by intros t ->|by destruct (tables_of s)].
  - intros t Ht. by apply K2, K1.
Qed.

(** * Any store: a proof is accepted at most once *)

Section any_store.
Context `{NonceStoreOk St}.

(** Once remembered, no call in time is accepted. *)
Lemma remembered_refused (st : St) n e cs :
  remembers st n e -> Forall (fun c => cc_now c <= e) cs ->
  acceptances n e cs (consume_all st cs).2 = 0%nat.
Proof.
  revert st. induction cs as [|c cs IH]; intros st Hr Hcs; [done|].
  apply Forall_cons in Hcs as [Hc Hcs]. simpl.
  destruct (Consume _ _ _ _) as [st1 res] eqn:E1.
  assert (remembers st1 n e) as Hr1 by (by eapply Consume_keeps).
  specialize (IH st1 Hr1 Hcs). destruct (consume_all st1 cs) as [st2 rest] eqn:E2.
  unfold acceptances in *. simpl in *. rewrite filter_cons_False; [done|].
  simpl. intros (<- & <- & ->). by eapply Consume_refuses in E1.
Qed.

Lemma consume_all_once (st : St) n e cs :
  Forall (fun c => cc_now c <= e) cs ->
  (acceptances n e cs (consume_all st cs).2 <= 1)%nat.
Proof.
  revert st. induction cs as [|c cs IH]; intros st Hcs; [unfold acceptances; simpl; lia|].
  apply Forall_cons in Hcs as [Hc Hcs]. simpl.
  destruct (Consume _ _ _ _) as [st1 res] eqn:E1. specialize (IH st1 Hcs).
  destruct (consume_all st1 cs) as [st2 rest] eqn:E2. unfold acceptances in *. simpl in *.
  destruct (decide (cc_nonce c = n /\ cc_expiresAt c = e /\ res = Ok true)) as [(<- & <- & ->)|Hno].
  - rewrite filter_cons_True by done. apply Consume_true in E1.
    pose proof (remembered_refused st1 _ _ cs E1 Hcs) as Hz. rewrite E2 in Hz.
    unfold acceptances in Hz. simpl in *. lia.
  - rewrite filter_cons_False by done. done.
Qed.
End any_store.

(** * The in-process store *)

Section memory.
Context `{GoRange Z}.

Definition live (now : Z) (t : gmap string Z) : gmap string Z := filter (fun ne => now <= ne.2) t.

Lemma memory_sweep now t : (delete_where (expired now) t).1 = live now t.
Proof.
  rewrite delete_where_spec. simpl. apply map_filter_ext. intros n e _. simpl.
  unfold expired. rewrite Z.ltb_ge. done.
Qed.

Lemma live_lookup now t n : live now t !! n = match t !! n with
  | Some e => if decide (now <= e) then Some e else None | None => None end.
Proof. unfold live. rewrite map_lookup_filter. destruct (t !! n); [|done]. simpl. by repeat case_decide. Qed.

Definition memory_remembers (m : NonceMemory) (n : string) (e : Z) : Prop :=
  exists e', seen m !! n = Some e' /\ e <= e'.

#[export] Instance NonceMemory_Ok : NonceStoreOk NonceMemory.
Proof.
  refine {| remembers := memory_remembers |}.
  - intros now [t] n e st'. simpl. unfold memory_Consume. rewrite memory_sweep. simpl.
    destruct (live now t !! n) eqn:E; intros [= <-]. exists e. simpl. by rewrite lookup_insert_eq.
  - intros now [t] n e st' res m em. simpl. unfold memory_Consume. rewrite memory_sweep. simpl.
    intros E (e' & He' & Hle) Hnow. simpl in He'.
    assert (live now t !! m = Some e') as Hl.
    { rewrite live_lookup, He'. by rewrite decide_True by lia. }
    destruct (live now t !! n) eqn:En; injection E as <- <-; exists e'; simpl; [done|].
    rewrite lookup_insert_ne by congruence. done.
  - intros now [t] n e st' res em. simpl. unfold memory_Consume. rewrite memory_sweep. simpl.
    intros E (e' & He' & Hle) Hnow. simpl in He'.
    assert (live now t !! n = Some e') as Hl.
    { rewrite live_lookup, He'. by rewrite decide_True by lia. }
    rewrite Hl in E. by injection E as <- <-.
Defined.

(** The in-process nonce store: [Consume] accepts exactly the nonces it
    holds no unexpired record of, records an accepted one under its expiry,
    and drops every expired record, so that what it keeps is bounded by the
    proofs that are still valid. *)
Theorem memory_Consume_outcome now m n e m' res :
  memory_Consume now m n e = (m', res) ->
  res = Ok (match seen m !! n with Some e' => e' <? now | None => true end) /\
  (forall k ek, seen m' !! k = Some ek <->
     (seen m !! k = Some ek /\ now <= ek) \/ (k = n /\ ek = e /\ res = Ok true)).
Proof.
  unfold memory_Consume. rewrite memory_sweep.
  assert (forall k ek, live now (seen m) !! k = Some ek <-> seen m !! k = Some ek /\ now <= ek) as Hl.
  { intros k ek. rewrite live_lookup. destruct (seen m !! k); [case_decide|]; naive_solver. }
  destruct (live now (seen m) !! n) as [e0|] eqn:El; intros [= <- <-]; simpl; split.
  - apply Hl in El as [-> ?]. f_equal. symmetry. apply Z.ltb_ge. done.
  - intros k ek. rewrite Hl. naive_solver.
  - f_equal. destruct (seen m !! n) as [e'|] eqn:Es; [|done]. symmetry. apply Z.ltb_lt.
    rewrite live_lookup, Es in El. case_decide; [done|lia].
  - intros k ek. rewrite lookup_insert_Some, Hl. destruct (decide (k = n)) as [->|]; [|naive_solver].
    split; [naive_solver|]. intros [[Hk Hle]|]; [|naive_solver]. by rewrite (proj2 (Hl n ek)) in El.
Qed.

(** The first call with a nonce the store holds no record of wins. *)
Lemma acceptances_cons n e c cs res rs :
  acceptances n e (c :: cs) (res :: rs)
  = ((if decide (cc_nonce c = n /\ cc_expiresAt c = e /\ res = Ok true) then 1 else 0)
     + acceptances n e cs rs)%nat.
Proof. unfold acceptances. simpl. case_decide; by rewrite ?filter_cons_True, ?filter_cons_False by done. Qed.

Lemma memory_first_wins m n e cs :
  seen m !! n = None ->
  Forall (fun c => cc_nonce c = n -> cc_expiresAt c = e /\ cc_now c <= e) cs ->
  Exists (fun c => cc_nonce c = n) cs ->
  (1 <= acceptances n e cs (consume_all m cs).2)%nat.
Proof.
  revert m. induction cs as [|c cs IH]; intros m Hm Hcs Hex; [by apply Exists_nil in Hex|].
  apply Forall_cons in Hcs as [Hc Hcs]. simpl.
  destruct (memory_Consume _ _ _ _) as [m1 res] eqn:E1.
  destruct (consume_all m1 cs) as [m2 rest] eqn:E2. simpl. rewrite acceptances_cons.
  unfold memory_Consume in E1. rewrite memory_sweep in E1. destruct (decide (cc_nonce c = n)) as [<-|Hn].
  - rewrite live_lookup, Hm in E1. injection E1 as <- <-.
    destruct Hc as [-> _]; [done|]. rewrite decide_True by done. lia.
  - apply Exists_cons in Hex as [Hex|Hex]; [done|].
    assert (seen m1 !! n = None) as Hm1.
    { destruct (live _ _ !! _) eqn:El; injection E1 as <- <-; simpl;
        rewrite ?lookup_insert_ne by done; rewrite live_lookup, Hm; done. }
    specialize (IH m1 Hm1 Hcs Hex). rewrite E2 in IH. simpl in IH. lia.
Qed.

(** C33. Exactly once: while the store's clock has not passed the expiry of a
    proof, of any number of requests that present it, in any order and mixed
    with requests presenting other proofs, exactly one is accepted. *)
Theorem memory_nonce_exactly_once m n e cs :
  seen m !! n = None ->
  Forall (fun c => cc_now c <= e /\ (cc_nonce c = n -> cc_expiresAt c = e)) cs ->
  Exists (fun c => cc_nonce c = n) cs ->
  acceptances n e cs (consume_all m cs).2 = 1%nat.
Proof.
  intros Hm Hcs Hex. assert (Forall (fun c => cc_now c <= e) cs) as Hnow.
  { eapply Forall_impl; [exact Hcs|]. naive_solver. }
  pose proof (consume_all_once m n e cs Hnow).
  pose proof (memory_first_wins m n e cs Hm) as Hf.
  assert (1 <= acceptances n e cs (consume_all m cs).2)%nat; [|lia].
  apply Hf; [|done]. eapply Forall_impl; [exact Hcs|]. naive_solver.
Qed.
End memory.

(** * The database store *)

(** What one replica does to the table is a sequence of statements, and the
    database serialises the statements of all replicas. *)
Inductive statement :=
  | StSweep (now : Z) (f : exec_fate)
  | StInsert (n : string) (e : Z) (f : exec_fate).

(** The table after a statement, and the number of rows it reports. *)
Definition exec_statement (t : gmap string Z) (s : statement) : gmap string Z * option Z :=
  match s with
  | StSweep now f => ((exec f t (sql_sweep now t)).1, None)
  | StInsert n e f =>
      let '(t', err) := exec f t (sql_insert n e t).1 in
      (t', match err with None => Some (sql_insert n e t).2 | Some _ => None end)
  end.

Fixpoint exec_statements (t : gmap string Z) (ss : list statement) : gmap string Z * list (option Z) :=
  match ss with
  | [] => (t, [])
  | s :: ss' =>
      let '(t1, r) := exec_statement t s in
      let '(t2, rs) := exec_statements t1 ss' in (t2, r :: rs)
  end.

(** The statements of one [Consume]. *)
Definition consume_statements (ev : env) (now : Z) (n : string) (e : Z) : list statement :=
  if bool_decide (env_draw ev = 0) then
    match env_sweep ev with
    | ExecOk => [StSweep now ExecOk; StInsert n e (env_insert ev)]
    | f => [StSweep now f]
    end
  else [StInsert n e (env_insert ev)].

(** The inserts of nonce [n] that report a row: the accepted requests. *)
Definition is_insert_of (n : string) (s : statement) : bool :=
  match s with StInsert n' _ _ => bool_decide (n' = n) | StSweep _ _ => false end.

Definition inserted (n : string) (ss : list statement) (rs : list (option Z)) : nat :=
  length (filter (fun sr => is_insert_of n sr.1 = true /\ sr.2 = Some 1) (zip ss rs)).

Lemma postgres_consume_is_statements ev now t n e :
  let ss := consume_statements ev now n e in
  (postgres_consume_with ev now t n e).1 = (exec_statements t ss).1 /\
  ((postgres_consume_with ev now t n e).2 = Ok true ->
   inserted n ss (exec_statements t ss).2 = 1%nat).
Proof.
  unfold consume_statements, postgres_consume_with.
  destruct (bool_decide (env_draw ev = 0)); [destruct (env_sweep ev); simpl; try done|];
    destruct (env_insert ev); simpl; try done;
    destruct (env_rows ev); simpl; (split; [done|]); try done;
    intros [= Hb%bool_decide_eq_true]; unfold inserted; simpl; rewrite Hb;
    rewrite ?(filter_cons_False _ (StSweep _ _, _)), filter_cons_True by
      (simpl; rewrite ?bool_decide_eq_true_2 by done; naive_solver); done.
Qed.

Section postgres_remembers.
Context (n : string) (e : Z).

(** Statements of requests that present the proof in time. *)
Definition sweep_in_time (s : statement) : Prop :=
  match s with StSweep now _ => now <= e | StInsert _ _ _ => True end.

Definition in_time (s : statement) : Prop :=
  sweep_in_time s /\ match s with StSweep _ _ => True | StInsert n' e' _ => n' = n -> e <= e' end.

Definition pg_remembers (t : gmap string Z) : Prop := exists e', t !! n = Some e' /\ e <= e'.

Lemma exec_statement_keeps t s :
  sweep_in_time s -> pg_remembers t -> pg_remembers (exec_statement t s).1.
Proof.
  intros Hs (e' & He' & Hle).
  assert (forall now, now <= e -> pg_remembers (sql_sweep now t)) as Hsw.
  { intros now Hn. exists e'. split; [|done]. apply map_lookup_filter_Some. simpl. split; [done|lia]. }
  assert (forall k ek, pg_remembers (sql_insert k ek t).1) as Hin.
  { intros k ek. unfold sql_insert. destruct (t !! k) eqn:Ek; simpl; exists e'; [done|].
    by rewrite lookup_insert_ne by congruence. }
  destruct s as [now f|k ek f]; destruct f; simpl; eauto; by exists e'.
Qed.

Lemma exec_statements_keep t ss :
  Forall sweep_in_time ss -> pg_remembers t -> pg_remembers (exec_statements t ss).1.
Proof.
  intros Hss. revert t. induction Hss as [|s ss Hs _ IH]; intros t Ht; [done|]. simpl.
  apply (exec_statement_keeps t s Hs) in Ht. destruct (exec_statement t s) as [t1 r].
  specialize (IH t1 Ht). by destruct (exec_statements t1 ss).
Qed.

(** An insert that reports a row did not find the nonce, and leaves it. *)
Lemma exec_statement_inserted t s :
  is_insert_of n s = true -> (exec_statement t s).2 = Some 1 ->
  ~ pg_remembers t /\ (in_time s -> pg_remembers (exec_statement t s).1).
Proof.
  destruct s as [now f|k ek f]; simpl; [done|]. intros ->%bool_decide_eq_true.
  destruct f; simpl; try done. unfold sql_insert. destruct (t !! n) as [e0|] eqn:Et; simpl; [done|].
  intros _. split; [intros (? & ? & ?); congruence|]. intros [_ Hs].
  exists ek. rewrite lookup_insert_eq. auto.
Qed.

Lemma inserted_cons s r ss rs :
  inserted n (s :: ss) (r :: rs)
  = ((if decide (is_insert_of n s = true /\ r = Some 1%Z) then 1 else 0) + inserted n ss rs)%nat.
Proof. unfold inserted. simpl. case_decide; by rewrite ?filter_cons_True, ?filter_cons_False by done. Qed.

Lemma remembered_not_inserted t ss :
  Forall sweep_in_time ss -> pg_remembers t -> inserted n ss (exec_statements t ss).2 = 0%nat.
Proof.
  intros Hss. revert t. induction Hss as [|s ss Hs Hss IH]; intros t Ht; [done|]. simpl.
  pose proof (exec_statement_keeps t s Hs Ht) as Ht1. pose proof (exec_statement_inserted t s) as Hi.
  destruct (exec_statement t s) as [t1 r] eqn:E1. simpl in *. specialize (IH t1 Ht1).
  destruct (exec_statements t1 ss) as [t2 rs]. simpl in *. rewrite inserted_cons, IH.
  case_decide; [|done]. naive_solver.
Qed.
End postgres_remembers.

(** C25. Across replicas: however the database orders the statements of any
    number of concurrent requests, sweeps included, and whichever of them
    fail or lose their acknowledgement, at most one request presenting a
    proof in time is told that its nonce was fresh. *)
Theorem postgres_nonce_once t n e ss :
  Forall (in_time n e) ss -> (inserted n ss (exec_statements t ss).2 <= 1)%nat.
Proof.
  intros Hss. revert t. induction Hss as [|s ss Hs Hss IH]; intros t; [unfold inserted; simpl; lia|]. simpl.
  pose proof (exec_statement_inserted n e t s) as Hi. destruct (exec_statement t s) as [t1 r].
  pose proof (remembered_not_inserted n e t1 ss) as Hz. specialize (IH t1).
  destruct (exec_statements t1 ss) as [t2 rs]. simpl in *. rewrite inserted_cons.
  case_decide as Hd; [|lia]. destruct Hi as [_ Hr]; [naive_solver..|].
  rewrite Hz; [lia| |by apply Hr]. eapply Forall_impl; [exact Hss|]. by intros ? [? _].
Qed.

Lemma consume_statements_in_time ev now n e em :
  now <= em -> Forall (sweep_in_time em) (consume_statements ev now n e).
Proof.
  intros Hnow. unfold consume_statements. destruct (bool_decide _); [destruct (env_sweep ev)|];
    repeat constructor; done.
Qed.

Lemma postgres_consume_true ev now t n e t' :
  postgres_consume_with ev now t n e = (t', Ok true) -> t' !! n = Some e.
Proof.
  unfold postgres_consume_with. destruct (if bool_decide _ then _ else _) as [t1 [err|]]; [done|].
  destruct (env_insert _); simpl; try done. destruct (env_rows _); [done|].
  intros [= <- Hb%bool_decide_eq_true]. revert Hb. unfold sql_insert.
  destruct (t1 !! n); simpl; [done|]. intros _. by rewrite lookup_insert_eq.
Qed.

#[export] Instance NoncePostgres_Ok : NonceStoreOk NoncePostgres.
Proof.
  refine {| remembers := fun s n e => pg_remembers n e (auth_nonces s) |};
    intros now s n e s' *; simpl; unfold postgres_Consume;
    set (ev := default calm (head (envs s)));
    pose proof (postgres_consume_is_statements ev now (auth_nonces s) n e) as [Ht Hi];
    destruct (postgres_consume_with _ _ _ _ _) as [t res'] eqn:Ec; simpl in Ht; intros [= <- E]; simpl.
  - subst res'. exists e. by apply postgres_consume_true in Ec.
  - intros Hr Hnow. rewrite Ht. by apply exec_statements_keep; [apply consume_statements_in_time|].
  - intros Hr Hnow ->. specialize (Hi E). rewrite (remembered_not_inserted n em) in Hi; try done.
    by apply consume_statements_in_time.
Defined.

(** A call leaves the table as swept or unswept, with or without the insert. *)
Lemma postgres_consume_cases v now t n e t' res :
  postgres_consume_with v now t n e = (t', res) ->
  exists t1, (t1 = t \/ t1 = sql_sweep now t) /\
    ((t' = t1 /\ is_ok res = false) \/
     (t' = (sql_insert n e t1).1 /\
      (is_ok res = false \/ res = Ok (bool_decide ((sql_insert n e t1).2 = 1))))).
Proof.
  unfold postgres_consume_with.
  assert (forall t1, (t1 = t \/ t1 = sql_sweep now t) ->
    (let '(t2, err2) := exec (env_insert v) t1 (sql_insert n e t1).1 in
      match err2 with
      | Some er => (t2, Err (Wrapf "consume nonce: " er ""))
      | None => match env_rows v with
                | Some er => (t2, Err er)
                | None => (t2, Ok (bool_decide ((sql_insert n e t1).2 = 1)))
                end
      end) = (t', res) ->
    exists t1, (t1 = t \/ t1 = sql_sweep now t) /\
    ((t' = t1 /\ is_ok res = false) \/
     (t' = (sql_insert n e t1).1 /\
      (is_ok res = false \/ res = Ok (bool_decide ((sql_insert n e t1).2 = 1)))))) as Hins.
  { intros t1 Ht1 E. exists t1. split; [done|]. revert E.
    destruct (env_insert v), (env_rows v); simpl; intros [= <- <-]; auto. }
  destruct (bool_decide _); [destruct (env_sweep v)|]; simpl; [by apply Hins; right| | |by apply Hins; left].
  - intros [= <- <-]. exists t. auto.
  - intros [= <- <-]. exists (sql_sweep now t). auto.
Qed.

Lemma sql_sweep_lookup now t k :
  sql_sweep now t !! k = t !! k \/
  (sql_sweep now t !! k = None /\ exists ek, t !! k = Some ek /\ ek < now).
Proof.
  unfold sql_sweep. destruct (t !! k) as [ek|] eqn:Ek.
  - destruct (decide (ek < now)).
    + right. split; [|by eauto]. apply map_lookup_filter_None. right. intros x. rewrite Ek.
      intros [= <-]. simpl. tauto.
    + left. by apply map_lookup_filter_Some.
  - left. apply map_lookup_filter_None. by left.
Qed.

(** C39. The database nonce store, whatever its environment does to it: a
    nonce is reported fresh only if the table holds no record of it after the
    sweep, and is then recorded; a failed call reports an infrastructure
    error and may burn the nonce, but never revives one; and no row other
    than the nonce's own and expired ones is touched. *)
Theorem postgres_Consume_outcome now s n e s' res :
  postgres_Consume now s n e = (s', res) ->
  (res = Ok true -> auth_nonces s' !! n = Some e /\
     (auth_nonces s !! n = None \/ exists e', auth_nonces s !! n = Some e' /\ e' < now)) /\
  (res = Ok false -> exists e', auth_nonces s !! n = Some e' /\ auth_nonces s' !! n = Some e') /\
  (forall k, k <> n ->
     auth_nonces s' !! k = auth_nonces s !! k \/
     (auth_nonces s' !! k = None /\ exists ek, auth_nonces s !! k = Some ek /\ ek < now)) /\
  (forall en, auth_nonces s !! n = Some en -> now <= en -> auth_nonces s' !! n = Some en).
Proof.
  unfold postgres_Consume. destruct s as [t es]. simpl.
  destruct (postgres_consume_with _ now t n e) as [t' r] eqn:Ec. intros [= <- <-]. simpl.
  apply postgres_consume_cases in Ec as (t1 & Ht1 & Hcase).
  assert (forall k, t1 !! k = t !! k \/
     (t1 !! k = None /\ exists ek, t !! k = Some ek /\ ek < now)) as Hk.
  { intros k. destruct Ht1 as [->| ->]; [by left|apply sql_sweep_lookup]. }
  assert (t' = t1 \/ (t1 !! n = None /\ t' = <[n:=e]> t1)) as Ht'.
  { destruct Hcase as [[-> _]|[-> _]]; [by left|]. unfold sql_insert. destruct (t1 !! n); eauto. }
  assert (forall b, r = Ok b -> t' = (sql_insert n e t1).1 /\ b = bool_decide ((sql_insert n e t1).2 = 1))
    as Hr by (intros b ->; naive_solver).
  clear Hcase. unfold sql_insert in Hr. split_and!.
  - intros [-> Hb]%Hr. destruct (t1 !! n) eqn:En; [done|]. simpl. rewrite lookup_insert_eq.
    split; [done|]. destruct (Hk n) as [E|[_ E]]; [left; congruence|by right].
  - intros [-> Hb]%Hr. destruct (t1 !! n) eqn:En; [|done]. simpl. destruct (Hk n) as [E|[E _]]; [|congruence].
    exists z. split; congruence.
  - intros k Hkn. destruct Ht' as [->|[_ ->]]; rewrite ?lookup_insert_ne by done; apply Hk.
  - intros en Hen Hnow. assert (t1 !! n = Some en).
    { destruct (Hk n) as [E|[_ (ek & E & ?)]]; [congruence|]. rewrite Hen in E. injection E as ->. lia. }
    destruct Ht' as [->|[? ->]]; congruence.
Qed.


(** * Concrete executions *)

Module NonceWitness.
#[local] Existing Instance default_range.

Definition store : NonceMemory := mkNonceMemory {[ "old" := 5; "kept" := 90 ]}.
Definition calls : list consume_call :=
  [mkCall 10 "a" 100; mkCall 12 "kept" 90; mkCall 20 "a" 100; mkCall 100 "a" 100].

Lemma memory_Consume_outcome_witness :
  Ok true = Ok (match seen store !! "a" with Some e' => e' <? 10 | None => true end).
Proof.
  apply (memory_Consume_outcome 10 store "a" 100 (memory_Consume 10 store "a" 100).1 (Ok true)).
  vm_compute. reflexivity.
Defined.

Lemma memory_nonce_exactly_once_witness :
  acceptances "a" 100 calls (consume_all store calls).2 = 1%nat.
Proof.
  apply memory_nonce_exactly_once; [reflexivity| |].
  - repeat constructor; simpl; lia || done.
  - left. reflexivity.
Defined.

Lemma postgres_nonce_once_witness :
  let ss := [StInsert "a" 100 ExecOk; StSweep 50 ExecOk; StInsert "a" 100 (ExecUnacked EOF);
             StInsert "a" 100 ExecOk] in
  (inserted "a" ss (exec_statements ∅ ss).2 <= 1)%nat.
Proof.
  intros ss. apply (postgres_nonce_once ∅ "a" 100 ss). repeat constructor; simpl; lia || done.
Defined.

Definition pg_store : NoncePostgres :=
  mkNoncePostgres {[ "old" := 5 ]} [mkEnv 0 ExecOk ExecOk None].

Lemma postgres_Consume_outcome_witness :
  auth_nonces (postgres_Consume 10 pg_store "old" 100).1 !! "old" = Some 100.
Proof.
  destruct (postgres_Consume_outcome 10 pg_store "old" 100
    (postgres_Consume 10 pg_store "old" 100).1 (Ok true)) as [H _].
  - vm_compute. reflexivity.
  - apply H. reflexivity.
Defined.


End NonceWitness.
