(* ===== verification/AuthProof.v ===== *)
(** [internal/authproof/authproof.go]: the proof a request carries, its wire
    form, what gets signed, and the checks of [Verify].

    The wallet and the elliptic-curve library (github.com/bsv-blockchain/go-sdk)
    are parameters: class [Crypto] has the calls the service makes, class
    [CryptoLaws] the behaviour it relies on. *)
From S2P Require Import Prelude GoStrings GoError GoTime Base64 Json JsonFacts.
Local Open Scope Z_scope.

(** * The go-sdk *)

(** [wallet.EncryptionArgs]: the BRC-43 protocol, the key id and the
    counterparty a signing key is derived for. *)
Record EncryptionArgs (K : Type) := mkArgs {
  SecurityLevel : Z;
  Protocol : string;
  KeyID : string;
  Counterparty : K;
}.
Arguments mkArgs {K} _ _ _ _.
Arguments SecurityLevel {K} _.
Arguments Protocol {K} _.
Arguments KeyID {K} _.
Arguments Counterparty {K} _.

Class Crypto := {
  Wallet : Type;
  PublicKey : Type;
  Signature : Type;
  PublicKeyFromString : string -> result PublicKey;
  ToDERHex : PublicKey -> string;
  ParseDERSignature : bytes -> result Signature;
  ToDER : Signature -> result bytes;
  (** [GetPublicKey] with [IdentityKey: true] *)
  GetPublicKey : Wallet -> result PublicKey;
  CreateSignature : Wallet -> EncryptionArgs PublicKey -> bytes -> result Signature;
  (** the [Valid] bit of the result *)
  VerifySignature : Wallet -> EncryptionArgs PublicKey -> bytes -> Signature -> result bool;
}.

(** The go-sdk's constructors of a key and of the wallet that holds it. *)
Class Keys {crypto : Crypto} := {
  PrivateKey : Type;
  PrivateKeyFromHex : string -> result PrivateKey;
  NewCompletedProtoWallet : PrivateKey -> result Wallet;
}.

(** * Constants and data *)

Definition ProtocolName : string := "backup cache auth".
Definition Header : string := "X-Bsv-Auth".
Definition Window : Z := 2 * Minute.
Definition Skew : Z := 30 * Second.

Record Proof := mkProof {
  Proof_Action : string;
  IdentityKey : string;
  ExpiresAt : Z;
  Nonce : string;
  Proof_Signature : string;
}.

#[global] Instance Proof_eq_dec : EqDecision Proof.
Proof. solve_decision. Defined.

Definition zero_proof : Proof := mkProof "" "" 0 "" "".

(** * The action *)

Definition Action (method requestURI bodySha256 : string) : string :=
  if bool_decide (bodySha256 = "") then method +:+ " " +:+ requestURI
  else method +:+ " " +:+ requestURI +:+ " sha256=" +:+ bodySha256.

Definition BodySha256 (action : string) : string :=
  match LastIndex action " sha256=" with
  | None => ""
  | Some i => str_drop (i + String.length " sha256=") action
  end.

Definition newline : string := String "010" "".

Definition Canonical (action identityKey : string) (expiresAt : Z) (nonce : string) : bytes :=
  bytes_of_string (Join [action; identityKey; FormatInt expiresAt; nonce] newline).

(** * The header value *)

Definition proof_json (p : Proof) : json :=
  JObj [ (bytes_of_string "action", JString (Proof_Action p));
         (bytes_of_string "identityKey", JString (IdentityKey p));
         (bytes_of_string "expiresAt", JInt (ExpiresAt p));
         (bytes_of_string "nonce", JString (Nonce p));
         (bytes_of_string "signature", JString (Proof_Signature p)) ].

Definition Encode (p : Proof) : string := base64_EncodeToString (encode (proof_json p)).

(** One member of the JSON object: unknown names are skipped. *)
Definition set_field (p : Proof) (kv : bytes * json) : option Proof :=
  let '(k, v) := kv in
  let '(mkProof a i e n s) := p in
  if is_field "action" k then (fun x => mkProof x i e n s) <$> set_string v a
  else if is_field "identityKey" k then (fun x => mkProof a x e n s) <$> set_string v i
  else if is_field "expiresAt" k then (fun x => mkProof a i x n s) <$> set_int64 v e
  else if is_field "nonce" k then (fun x => mkProof a i e x s) <$> set_string v n
  else if is_field "signature" k then (fun x => mkProof a i e n x) <$> set_string v s
  else Some p.

(** [json.Unmarshal(raw, &p)] *)
Definition unmarshal_proof (raw : bytes) : option Proof :=
  match parse raw with
  | Some (JObj m) => foldl (fun acc kv => acc ≫= fun p => set_field p kv) (Some zero_proof) m
  | Some JNull => Some zero_proof
  | _ => None
  end.

Definition malformed (what : string) : error := Wrapf "" ErrMalformed (": " +:+ what).

Definition Decode (headerValue : string) : result Proof :=
  match base64_DecodeString headerValue with
  | None => Err (malformed "header is not base64")
  | Some raw =>
      match unmarshal_proof raw with
      | None => Err (malformed "header is not a JSON proof")
      | Some p =>
          if bool_decide (Proof_Action p = "") || bool_decide (IdentityKey p = "")
             || bool_decide (Nonce p = "") || bool_decide (Proof_Signature p = "")
          then Err (malformed "missing fields") else Ok p
      end
  end.

(** * Signing and verifying *)

Section sign_verify.
Context `{Crypto}.
Local Open Scope go_scope.

Definition proof_args (nonce : string) (counterparty : PublicKey) : EncryptionArgs PublicKey :=
  mkArgs 2 ProtocolName nonce counterparty.

Definition wrap_err {A} (pre : string) (r : result A) : result A :=
  match r with Ok a => Ok a | Err e => Err (Wrapf pre e "") end.

(** [draw]: the 32 bytes [rand.Read] yields. *)
Definition Sign (w : Wallet) (counterpartyKey action : string) (now : Z) (draw : result bytes)
    : result Proof :=
  try counterparty := wrap_err "parse counterparty key: " (PublicKeyFromString counterpartyKey) in
  try pub := wrap_err "read identity key: " (GetPublicKey w) in
  try nonceBytes := wrap_err "draw nonce: " draw in
  let identityKey := ToDERHex pub in
  let expiresAt := UnixMilli (now + Window) in
  let nonce := base64_EncodeToString nonceBytes in
  try sig := wrap_err "sign proof: "
    (CreateSignature w (proof_args nonce counterparty) (Canonical action identityKey expiresAt nonce)) in
  try der := wrap_err "encode signature: " (ToDER sig) in
  Ok (mkProof action identityKey expiresAt nonce (base64_EncodeToString der)).

Definition Verify (w : Wallet) (p : Proof) (expectedAction : string) (now : Z) : result PublicKey :=
  if negb (bool_decide (Proof_Action p = expectedAction)) then Err ErrActionMismatch else
  let nowMs := UnixMilli now in
  if ExpiresAt p <=? nowMs then Err ErrExpired else
  if Milliseconds (Window + Skew) <? wrap64 (ExpiresAt p - nowMs) then Err ErrTooFarFuture else
  match PublicKeyFromString (IdentityKey p) with
  | Err _ => Err (malformed "identity key is not a public key")
  | Ok caller =>
      match base64_DecodeString (Proof_Signature p) with
      | None => Err (malformed "signature is not base64")
      | Some der =>
          match ParseDERSignature der with
          | Err _ => Err (malformed "signature is not DER")
          | Ok sig =>
              match VerifySignature w (proof_args (Nonce p) caller)
                      (Canonical (Proof_Action p) (IdentityKey p) (ExpiresAt p) (Nonce p)) sig with
              | Ok true => Ok caller
              | _ => Err ErrBadSignature
              end
          end
      end
  end.

End sign_verify.

(** * What the service relies on

    A key pair is known by its identity key.  A signature made by a wallet
    toward a counterparty verifies in the counterparty's wallet when that
    names the signer; keys and signatures survive their encodings; and a key
    prints as 66 lower-case hexadecimal digits (compressed DER). *)
Class CryptoLaws (C : Crypto) := {
  PublicKey_round_trip (k : PublicKey) : PublicKeyFromString (ToDERHex k) = Ok k;
  ToDERHex_hex (k : PublicKey) : match_lower_hex 66 (ToDERHex k) = true;
  Signature_round_trip (s : Signature) b : ToDER s = Ok b -> ParseDERSignature b = Ok s;
  Signature_verifies (signer verifier : Wallet) (ks kv : PublicKey) lvl proto keyID data sig :
    GetPublicKey signer = Ok ks -> GetPublicKey verifier = Ok kv ->
    CreateSignature signer (mkArgs lvl proto keyID kv) data = Ok sig ->
    VerifySignature verifier (mkArgs lvl proto keyID ks) data sig = Ok true;
}.
