(* ===== verification/AuthProofProps.v ===== *)
(** What the proof scheme of [AuthProof] guarantees: the signed text
    determines what was signed, a proof names one request, the wire form
    round-trips, and [Verify] accepts exactly the fresh, well-signed proofs
    for the expected action. *)
From S2P Require Import Prelude GoStrings GoError GoTime Base64 Json JsonFacts AuthProof.
Local Open Scope Z_scope.

(** * The action names the request *)

Definition space : ascii := " "%char.

(** The parts of a request line as net/http hands them out: split at spaces,
    with a target that begins with a slash (or [*]). *)
Definition request_line_ok (method uri : string) : Prop :=
  str_free space method /\ str_free space uri /\ HasPrefix uri "sha256=" = false.

Definition digest_ok (d : string) : Prop := d = "" \/ match_lower_hex 64 d = true.

Lemma digest_free d : digest_ok d -> str_free space d.
Proof. intros [->|Hd]; [done|]. by eapply match_lower_hex_free. Qed.

Lemma BodySha256_Action_lemma method uri d :
  request_line_ok method uri -> digest_ok d -> BodySha256 (Action method uri d) = d.
Proof.
  intros (Hm & Hu & Hp) Hd. unfold BodySha256, Action. case_bool_decide as He.
  - subst d. pose proof (LastIndex_single space "sha256=" method uri Hm Hu Hp) as Hl.
    change (method +:+ String space uri) with (method +:+ " " +:+ uri) in Hl.
    change (String space "sha256=") with " sha256=" in Hl. by rewrite Hl.
  - rewrite <- 2!string_app_assoc. set (s := method +:+ " " +:+ uri).
    replace ((method +:+ " ") +:+ uri) with s by (symmetry; apply string_app_assoc).
    pose proof (LastIndex_app space "sha256=" s d eq_refl (digest_free d Hd)) as Hl.
    change (String space "sha256=") with " sha256=" in Hl.
    change (String space "sha256=" +:+ d) with (" sha256=" +:+ d) in Hl.
    rewrite Hl, <- string_app_assoc, <- str_length_app. apply str_drop_app.
Qed.

Lemma Action_inj_lemma m u d m' u' d' :
  request_line_ok m u -> request_line_ok m' u' -> digest_ok d -> digest_ok d' ->
  Action m u d = Action m' u' d' -> m = m' /\ u = u' /\ d = d'.
Proof.
  intros Hr Hr' Hd Hd' E. assert (d = d') as <-.
  { rewrite <- (BodySha256_Action_lemma m u d), <- (BodySha256_Action_lemma m' u' d') by done.
    by rewrite E. }
  assert (m +:+ String space u = m' +:+ String space u') as E'.
  { revert E. unfold Action. case_bool_decide; [done|].
    intros E%(f_equal bytes_of_string). apply (inj bytes_of_string). revert E.
    change (" " +:+ ?x) with (String space x). rewrite !bytes_of_string_app. simpl.
    rewrite !bytes_of_string_app, !app_comm_cons, !app_assoc.
    by intros E%app_inv_tail%app_inv_tail. }
  destruct Hr as (Hm & _), Hr' as (Hm' & _). apply str_split in E' as [-> ->]; done.
Qed.

(** What the middleware reads off the action is what was bound into it:
    the digest of an upload, and none for a bodyless request. *)
Theorem BodySha256_Action method uri d :
  request_line_ok method uri -> digest_ok d -> BodySha256 (Action method uri d) = d.
Proof. apply BodySha256_Action_lemma. Qed.

(** C35. An action names one request: equal action strings come from the same
    method, the same target and the same body digest, so a proof for one
    route or one body says nothing about another. *)
Theorem Action_injective m u d m' u' d' :
  request_line_ok m u -> request_line_ok m' u' -> digest_ok d -> digest_ok d' ->
  Action m u d = Action m' u' d' -> m = m' /\ u = u' /\ d = d'.
Proof. apply Action_inj_lemma. Qed.

(** C36. The signed bytes determine the proof: with no line break in the action
    and in the identity key, equal canonical texts have equal fields. *)
Theorem Canonical_injective a i e n a' i' e' n' :
  str_free "010" a -> str_free "010" i -> str_free "010" a' -> str_free "010" i' ->
  Canonical a i e n = Canonical a' i' e' n' -> a = a' /\ i = i' /\ e = e' /\ n = n'.
Proof.
  intros Ha Hi Ha' Hi' E%(inj bytes_of_string). cbn [Join] in E. unfold newline in E.
  apply str_split in E as [-> E]; [|done..]. apply str_split in E as [-> E]; [|done..].
  apply str_split in E as [E ->]; [|by apply FormatInt_free..].
  apply (inj FormatInt) in E as ->. done.
Qed.

(** * The wire form *)

Definition proof_ok (p : Proof) : Prop :=
  ascii7_str (Proof_Action p) /\ ascii7_str (IdentityKey p) /\ ascii7_str (Nonce p) /\
  ascii7_str (Proof_Signature p) /\ in64 (ExpiresAt p) /\
  Proof_Action p <> "" /\ IdentityKey p <> "" /\ Nonce p <> "" /\ Proof_Signature p <> "".

(** Comparing concrete field names. *)
Ltac field_names :=
  match goal with
  | |- context [is_field ?a ?b] =>
      let v := eval vm_compute in (is_field a b) in change (is_field a b) with v; cbn iota
  end.

Lemma unmarshal_proof_json p d :
  proof_ok p -> parse d = Some (proof_json p) -> unmarshal_proof d = Some p.
Proof.
  intros (_ & _ & _ & _ & He & _) E. unfold unmarshal_proof. rewrite E.
  destruct p as [a i e n s]. unfold proof_json, JString, JInt, zero_proof. simpl in He.
  cbn [foldl mbind option_bind set_field Proof_Action IdentityKey ExpiresAt Nonce Proof_Signature].
  repeat (field_names;
    cbn [set_string set_int64 fmap option_fmap option_map mbind option_bind set_field];
    rewrite ?string_of_bytes_of_string, ?Atoi_FormatInt by done).
  done.
Qed.

Lemma proof_json_plain p : proof_ok p -> plain 1 (proof_json p).
Proof.
  intros (? & ? & ? & ? & _). apply plain_obj, plain_members_Forall.
  repeat apply Forall_cons_2; try apply Forall_nil_2; (split; [repeat constructor|]);
    try (by apply plain_str); apply plain_int.
Qed.

Lemma Decode_Encode_lemma p : proof_ok p -> Decode (Encode p) = Ok p.
Proof.
  intros Hp. unfold Decode, Encode. rewrite base64_round_trip.
  rewrite (unmarshal_proof_json p) by
    (done || (apply (parse_encode 1); [by apply proof_json_plain|unfold max_depth; lia])).
  destruct Hp as (_ & _ & _ & _ & _ & ? & ? & ? & ?). by rewrite !bool_decide_eq_false_2.
Qed.

(** C37. Round trip of the header value: a proof with ASCII fields, none of
    them empty, is decoded to itself. *)
Theorem Decode_Encode p : proof_ok p -> Decode (Encode p) = Ok p.
Proof. apply Decode_Encode_lemma. Qed.

Lemma set_field_in64 p kv p' : in64 (ExpiresAt p) -> set_field p kv = Some p' -> in64 (ExpiresAt p').
Proof.
  destruct p as [a i e n s], kv as [k v]. simpl. intros He.
  assert (forall x, set_int64 v e = Some x -> in64 x) as Hx.
  { intros x. destruct v; simpl; try done; [by intros [= <-]|]. unfold Atoi.
    destruct (match bytes_of_string _ with [] => _ | _ :: _ => _ end) as [z|]; [|done].
    case_bool_decide; [|done]. by intros [= <-]. }
  repeat case_match; try (intros [= <-]; done);
    intros (x & E & ->)%fmap_Some; simpl; auto.
Qed.

Lemma Decode_cases h :
  match Decode h with
  | Ok p => Proof_Action p <> "" /\ IdentityKey p <> "" /\ Nonce p <> "" /\
            Proof_Signature p <> "" /\ in64 (ExpiresAt p)
  | Err e => Is e ErrMalformed = true
  end.
Proof.
  unfold Decode. destruct (base64_DecodeString h) as [raw|]; [|done].
  destruct (unmarshal_proof raw) as [p|] eqn:Eu; [|done].
  destruct (_ || _) eqn:Eb; [done|]. rewrite !orb_false_iff, !bool_decide_eq_false in Eb.
  destruct Eb as [[[? ?] ?] ?]. split_and!; try done. revert Eu. unfold unmarshal_proof.
  assert (in64 0) as Hz by (unfold in64; lia).
  destruct (parse raw) as [[| | | | |m]|]; try done; [by intros [= <-]|].
  assert (forall acc, (forall q, acc = Some q -> in64 (ExpiresAt q)) ->
    foldl (fun acc kv => acc ≫= fun p => set_field p kv) acc m = Some p -> in64 (ExpiresAt p)) as Hf.
  { induction m as [|kv m IH]; intros acc Hacc; simpl; [auto|]. apply IH.
    destruct acc as [q|]; simpl; [|done]. intros q'. apply set_field_in64. auto. }
  apply Hf. by intros q [= <-].
Qed.

Lemma Decode_shape h p :
  Decode h = Ok p ->
  Proof_Action p <> "" /\ IdentityKey p <> "" /\ Nonce p <> "" /\ Proof_Signature p <> "" /\
  in64 (ExpiresAt p).
Proof. intros E. pose proof (Decode_cases h) as H. by rewrite E in H. Qed.

(** What [Decode] lets through: every field is present and the expiry is
    a 64-bit integer; everything else is refused as malformed. *)
Theorem Decode_outcome h :
  match Decode h with
  | Ok p => Proof_Action p <> "" /\ IdentityKey p <> "" /\ Nonce p <> "" /\
            Proof_Signature p <> "" /\ in64 (ExpiresAt p)
  | Err e => Is e ErrMalformed = true
  end.
Proof. apply Decode_cases. Qed.

(** * Verification *)

Section verification.
Context `{Crypto}.

(** The window [Verify] grants, in milliseconds. *)
Definition fresh_at (now expiresAt : Z) : Prop :=
  UnixMilli now < expiresAt <= UnixMilli now + 150000.

(** The signature over the four fields, made for [w] by the claimed key. *)
Definition well_signed (w : Wallet) (p : Proof) (k : PublicKey) : Prop :=
  PublicKeyFromString (IdentityKey p) = Ok k /\
  exists der sig, base64_DecodeString (Proof_Signature p) = Some der /\
    ParseDERSignature der = Ok sig /\
    VerifySignature w (mkArgs 2 ProtocolName (Nonce p) k)
      (Canonical (Proof_Action p) (IdentityKey p) (ExpiresAt p) (Nonce p)) sig = Ok true.

Lemma window_no_overflow now e :
  clock_ok now -> in64 e -> UnixMilli now < e -> wrap64 (e - UnixMilli now) = e - UnixMilli now.
Proof.
  intros Hn He Hlt. destruct (UnixMilli_clock now Hn) as [E Hb]. rewrite E in *.
  apply wrap64_id. unfold in64 in *. lia.
Qed.

(** What [Verify] answers. *)
Definition verify_outcome (w : Wallet) (p : Proof) (action : string) (now : Z)
    (res : result PublicKey) : Prop :=
  match res with
  | Ok k => Proof_Action p = action /\ fresh_at now (ExpiresAt p) /\ well_signed w p k
  | Err e =>
      (Proof_Action p <> action /\ e = ErrActionMismatch) \/
      (Proof_Action p = action /\ ExpiresAt p <= UnixMilli now /\ e = ErrExpired) \/
      (Proof_Action p = action /\ UnixMilli now + 150000 < ExpiresAt p /\ e = ErrTooFarFuture) \/
      (Proof_Action p = action /\ fresh_at now (ExpiresAt p) /\
       (Is e ErrMalformed = true \/ e = ErrBadSignature) /\ forall k, ~ well_signed w p k)
  end.

Lemma Verify_sound w p action now :
  clock_ok now -> in64 (ExpiresAt p) -> verify_outcome w p action now (Verify w p action now).
Proof.
  intros Hn He. unfold Verify. case_bool_decide as Ha; simpl; [|by left].
  destruct (Z.leb_spec (ExpiresAt p) (UnixMilli now)) as [Hle|Hlt]; [by right; left|].
  rewrite window_no_overflow by done. change (Milliseconds (Window + Skew)) with 150000.
  destruct (Z.ltb_spec 150000 (ExpiresAt p - UnixMilli now)) as [Hfar|Hnear].
  { right; right; left. split_and!; [done|lia|done]. }
  assert (fresh_at now (ExpiresAt p)) as Hfr by (unfold fresh_at; lia).
  destruct (PublicKeyFromString (IdentityKey p)) as [k|ek] eqn:Ek.
  2:{ right; right; right. split_and!; try done; [by left|]. intros k (Hk & _). congruence. }
  destruct (base64_DecodeString (Proof_Signature p)) as [der|] eqn:Ed.
  2:{ right; right; right. split_and!; try done; [by left|].
      intros k' (_ & der' & sig' & Hd & _). congruence. }
  destruct (ParseDERSignature der) as [sig|es] eqn:Es.
  2:{ right; right; right. split_and!; try done; [by left|].
      intros k' (_ & der' & sig' & Hd & Hs & _). congruence. }
  destruct (VerifySignature _ _ _ _) as [[]|ev] eqn:Ev.
  { split_and!; [done..|]. split; [done|]. by exists der, sig. }
  all: right; right; right; split_and!; try done; [by right|];
    intros k' (Hk & der' & sig' & Hd & Hs & Hv); unfold proof_args in Ev; congruence.
Qed.

(** C17. [Verify] on every branch: it accepts a proof exactly when its action
    is the expected one, its expiry lies in the future but at most 150
    seconds ahead, and its signature verifies for the claimed identity over
    exactly the four fields; otherwise the error names the first check that
    failed.  The 64-bit subtraction never wraps. *)
Theorem Verify_outcome w p action now :
  clock_ok now -> in64 (ExpiresAt p) ->
  verify_outcome w p action now (Verify w p action now) /\
  (forall k, Verify w p action now = Ok k <->
     Proof_Action p = action /\ fresh_at now (ExpiresAt p) /\ well_signed w p k).
Proof.
  intros Hn He. pose proof (Verify_sound w p action now Hn He) as Hs. split; [done|].
  intros k. split; [by intros E; rewrite E in Hs|]. intros (Ha & Hf & Hk).
  destruct (Verify w p action now) as [k'|e]; simpl in Hs.
  - destruct Hs as (_ & _ & [Hk' _]), Hk as [Hk _]. congruence.
  - unfold fresh_at in *. destruct Hs as [[]|[(_ & ? & _)|[(_ & ? & _)|(_ & _ & _ & Hno)]]];
      try done; try lia. by destruct (Hno k).
Qed.

Context {laws : CryptoLaws _}.

(** What [Sign] puts into a proof. *)
Lemma Sign_fields client ks kc action t draw p :
  GetPublicKey client = Ok kc -> Sign client (ToDERHex ks) action t draw = Ok p ->
  exists nb sig der, draw = Ok nb /\
    CreateSignature client (proof_args (base64_EncodeToString nb) ks)
      (Canonical action (ToDERHex kc) (UnixMilli (t + Window)) (base64_EncodeToString nb)) = Ok sig /\
    ToDER sig = Ok der /\
    p = mkProof action (ToDERHex kc) (UnixMilli (t + Window)) (base64_EncodeToString nb) (base64_EncodeToString der).
Proof.
  intros Hkc. unfold Sign. rewrite PublicKey_round_trip, Hkc. simpl. destruct draw as [nb|]; [|done]. simpl.
  destruct (CreateSignature _ _ _) as [sig|] eqn:Es; [|done]. simpl.
  destruct (ToDER sig) as [der|] eqn:Ed; [|done]. simpl. intros [= <-]. by exists nb, sig, der.
Qed.

Lemma Sign_Verify_lemma client server ks kc action t now draw p :
  GetPublicKey server = Ok ks -> GetPublicKey client = Ok kc ->
  clock_ok t -> clock_ok (t + Window) -> clock_ok now ->
  Sign client (ToDERHex ks) action t draw = Ok p ->
  UnixMilli t - Milliseconds Skew <= UnixMilli now < UnixMilli t + Milliseconds Window ->
  Verify server p action now = Ok kc.
Proof.
  intros Hks Hkc Ht Htw Hn (nb & sig & der & -> & Es & Ed & ->)%(Sign_fields _ _ kc) Hwin; [|done].
  assert (UnixMilli (t + Window) = UnixMilli t + 120000) as Hexp.
  { destruct (UnixMilli_clock t Ht) as [-> _], (UnixMilli_clock _ Htw) as [-> _].
    unfold Window, Minute, Second, Millisecond. Z.to_euclidean_division_equations. lia. }
  change (Milliseconds Skew) with 30000 in Hwin. change (Milliseconds Window) with 120000 in Hwin.
  unfold Verify. simpl. rewrite bool_decide_eq_true_2 by done. simpl. rewrite Hexp in *.
  destruct (Z.leb_spec (UnixMilli t + 120000) (UnixMilli now)); [lia|].
  rewrite window_no_overflow; [|done| |lia].
  2:{ destruct (UnixMilli_clock t Ht) as [-> ?]. unfold in64. lia. }
  change (Milliseconds (Window + Skew)) with 150000.
  destruct (Z.ltb_spec 150000 (UnixMilli t + 120000 - UnixMilli now)); [lia|].
  rewrite PublicKey_round_trip, base64_round_trip, (Signature_round_trip sig der Ed).
  unfold proof_args in *. by rewrite (Signature_verifies client server kc ks _ _ _ _ sig Hkc Hks Es).
Qed.

(** C34. The honest client gets through: what [Sign] makes for a server's key
    at time [t] is accepted by that server's [Verify] for the same action,
    under the identity that signed, at every clock reading from 30 seconds
    before [t] until 2 minutes after it. *)
Theorem Sign_Verify client server ks kc action t now draw p :
  GetPublicKey server = Ok ks -> GetPublicKey client = Ok kc ->
  clock_ok t -> clock_ok (t + Window) -> clock_ok now ->
  Sign client (ToDERHex ks) action t draw = Ok p ->
  UnixMilli t - Milliseconds Skew <= UnixMilli now < UnixMilli t + Milliseconds Window ->
  Verify server p action now = Ok kc.
Proof. apply Sign_Verify_lemma. Qed.
End verification.

(** * The published test vectors (testdata/vectors.json) *)

Definition vector_key : string :=
  "034f355bdcb7cc0af728ef3cceb9615d90684bb5b2ca5f859ab0f0b704075871aa".

Definition hex_of (b : bytes) : string :=
  string_of_bytes (flat_map (fun c => [hex_lower (byte_val c / 16); hex_lower (byte_val c mod 16)]) b).

Example vector_bodyless :
  hex_of (Canonical "GET /v1/manifest" vector_key 1755700000000
            "AAECAwQFBgcICQoLDA0ODxAREhMUFRYXGBkaGxwdHh8=")
  = "474554202f76312f6d616e69666573740a3033346633353562646362376363306166373238656633636365623936313564393036383462623562326361356638353961623066306237303430373538373161610a313735353730303030303030300a41414543417751464267634943516f4c4441304f4478415245684d554652595847426b61477877644868383d".
Proof. vm_compute. reflexivity. Qed.

Example vector_upload_digest :
  BodySha256 "POST /v1/log/0123456789abcdef0123456789abcdef?seq=1&generation=1 sha256=2c26b46b68ffc68ff99b453c1d30413413422d706483bfa0f98a5e886266e7ae"
  = "2c26b46b68ffc68ff99b453c1d30413413422d706483bfa0f98a5e886266e7ae".
Proof. vm_compute. reflexivity. Qed.

(** * Concrete executions

    A two-party instance of the cryptography: a signature spells out who
    signed what for whom.  It satisfies every law, so the theorems above are
    not vacuous. *)
Module Toy.

Definition key_client : string := vector_key.
Definition key_server : string := "02466d7fcae563e5cb09a0d1870bb580344804617879a14949cf22285f1bae3f27".
Definition key_hex (k : bool) : string := if k then key_server else key_client.

Definition sign_text (signer : bool) (args : EncryptionArgs bool) (data : bytes) : bytes :=
  bytes_of_string (key_hex signer +:+ key_hex (Counterparty args) +:+ FormatInt (SecurityLevel args)
    +:+ Protocol args +:+ newline +:+ KeyID args +:+ newline) ++ data.

#[export] Instance toy : Crypto := {|
  Wallet := bool;
  PublicKey := bool;
  Signature := bytes;
  PublicKeyFromString s :=
    if bool_decide (s = key_client) then Ok false
    else if bool_decide (s = key_server) then Ok true else Err (External "not on curve");
  ToDERHex := key_hex;
  ParseDERSignature b := Ok b;
  ToDER s := Ok s;
  GetPublicKey w := Ok w;
  CreateSignature w args data := Ok (sign_text w args data);
  VerifySignature w args data sig :=
    Ok (bool_decide (sig = sign_text (Counterparty args)
          (mkArgs (SecurityLevel args) (Protocol args) (KeyID args) w) data));
|}.

#[export] Instance toy_laws : CryptoLaws toy.
Proof.
  split.
  - by intros [].
  - by intros [].
  - by intros s b [= ->].
  - intros signer verifier ks kv lvl proto keyID data sig [= ->] [= ->] [= <-].
    simpl. by rewrite bool_decide_eq_true_2.
Qed.

Definition now : Z := 1755700000000000000.
Definition action : string := "GET /v1/manifest".
Definition draw : result bytes := Ok (replicate 32 "A"%char).
Definition proof : Proof :=
  match Sign (false : Wallet) key_server action now draw with Ok p => p | Err _ => zero_proof end.

Lemma now_ok : clock_ok now /\ clock_ok (now + Window).
Proof. by vm_compute. Qed.

Lemma BodySha256_Action_witness :
  BodySha256 (Action "GET" "/v1/manifest" "") = "".
Proof. apply BodySha256_Action; [repeat split; vm_compute; reflexivity|by left]. Defined.

Lemma Action_injective_witness :
  Action "GET" "/v1/manifest" "" <> Action "GET" "/v1/account" "".
Proof.
  intros E. destruct (Action_injective "GET" "/v1/manifest" "" "GET" "/v1/account" "") as (_ & Hu & _);
    [repeat split; vm_compute; reflexivity..|by left|by left|exact E|discriminate Hu].
Defined.

Lemma Canonical_injective_witness :
  Canonical action key_client 1 "n" <> Canonical action key_client 2 "n".
Proof.
  intros E. destruct (Canonical_injective action key_client 1 "n" action key_client 2 "n")
    as (_ & _ & He & _); [vm_compute; reflexivity..|exact E|discriminate He].
Defined.

Lemma proof_is_ok : proof_ok proof.
Proof.
  unfold proof_ok, ascii7_str, in64.
  split_and!; try (apply ascii7_check; vm_compute; reflexivity); vm_compute; done.
Qed.

Lemma Decode_Encode_witness : Decode (Encode proof) = Ok proof.
Proof. apply Decode_Encode, proof_is_ok. Defined.

Lemma Verify_outcome_witness :
  verify_outcome (true : Wallet) proof action now (Ok (false : PublicKey)).
Proof.
  assert (in64 (ExpiresAt proof)) as He by (split; vm_compute; done).
  pose proof (Verify_outcome (true : Wallet) proof action now (proj1 now_ok) He) as [H _].
  assert (Verify (true : Wallet) proof action now = Ok (false : PublicKey)) as E
    by (vm_compute; reflexivity).
  rewrite E in H. exact H.
Defined.

Lemma Sign_Verify_witness :
  Verify (true : Wallet) proof action (now + 60 * Second) = Ok (false : PublicKey).
Proof.
  apply (@Sign_Verify toy toy_laws false true true false action now (now + 60 * Second) draw);
    try reflexivity; try (split; vm_compute; done).
Defined.

End Toy.
