(* ===== verification/GoIO.v ===== *)
(** [io.Reader] and the functions of package [io] the service calls:
    [io.ReadAll], [io.ReadFull] and [io.Copy].

    A reader is a state with a [Read] step (class [Reader]).  What a stream
    means is given by [ReaderSpec]: the error it ends in and the bytes it holds,
    all of which it delivers when that error is [io.EOF]; [ReaderLaws] ties the two and gives
    the measure that makes every reading loop terminate.  The loops run on
    fuel taken from that measure, and the lemmas below show that the fuel is
    always enough: their outcome is the one [ReaderSpec] announces, whatever
    the sizes of the reads. *)
From S2P Require Import Prelude GoStrings GoError.

(** * The interface *)

(** [rd r n] is [r.Read(p)] with [len(p) = n]: the new state, the bytes put
    in [p] and the error, both of which a Go reader may return at once. *)
Class Reader (R : Type) := {
  rd : R -> nat -> R * (bytes * option error);
  rd_fuel : R -> nat;
}.

Class ReaderSpec (R : Type) := {
  rd_err : R -> error;
  rd_bytes : R -> bytes;
}.

Class ReaderLaws (R : Type) {rr : Reader R} {rs : ReaderSpec R} : Prop := {
  rd_bound (r r' : R) n bs e :
    rd r n = (r', (bs, e)) -> length bs <= n;
  rd_measure (r r' : R) n bs e :
    rd r n = (r', (bs, e)) -> rd_fuel r' + length bs <= rd_fuel r;
  rd_more (r r' : R) n bs :
    0 < n -> rd r n = (r', (bs, None)) ->
    rd_fuel r' < rd_fuel r /\ rd_err r' = rd_err r /\ rd_bytes r = bs ++ rd_bytes r';
  rd_end (r r' : R) n bs e :
    0 < n -> rd r n = (r', (bs, Some e)) ->
    rd_err r = e /\ rd_err r' = e /\ rd_bytes r = bs ++ rd_bytes r' /\
    (rd_err r = EOF -> rd_bytes r' = []);
}.

(** [reads_to r r' e]: some reads (into non-empty buffers) lead from [r] to
    [r'], and the last of them returned the error [e]. *)
Inductive reads_to {R} `{Reader R} (r : R) : R -> option error -> Prop :=
  | reads_none : reads_to r r None
  | reads_snoc r1 e1 n r2 bs e2 :
      reads_to r r1 e1 -> 0 < n -> rd r1 n = (r2, (bs, e2)) -> reads_to r r2 e2.

(** The end of file, or an error that is neither an end of file nor an
    unexpected one. *)
Definition clean_error (e : error) : Prop :=
  e = EOF \/ (Is e EOF = false /\ Is e ErrUnexpectedEOF = false).

(** A stream shorter than 2^50 bytes, a thousand terabytes. *)
Definition stream_fits {R} `{Reader R} (r : R) : Prop := (Z.of_nat (rd_fuel r) < 2 ^ 50)%Z.

(** * Sources: the request body as the network delivers it

    Any fragmentation into chunks (an empty chunk is a read of zero bytes
    without error), then a final error, repeated on every later read.  With
    [src_joined] the final error comes together with the last bytes. *)
Record source := mkSource {
  src_chunks : list bytes;
  src_final : error;
  src_joined : bool;
}.

Definition source_read (s : source) (n : nat) : source * (bytes * option error) :=
  match src_chunks s with
  | [] => (s, ([], Some (src_final s)))
  | c :: cs =>
      if Nat.leb (length c) n then
        (mkSource cs (src_final s) (src_joined s),
         (c, if src_joined s && bool_decide (cs = []) then Some (src_final s) else None))
      else
        (mkSource (drop n c :: cs) (src_final s) (src_joined s), (take n c, None))
  end.

#[export] Instance source_Reader : Reader source := {|
  rd := source_read;
  rd_fuel s := sum_list ((fun c => S (length c)) <$> src_chunks s);
|}.

#[export] Instance source_ReaderSpec : ReaderSpec source := {|
  rd_err s := src_final s;
  rd_bytes s := mjoin (src_chunks s);
|}.

(** [bytes.NewReader(data)] *)
Definition bytes_reader (data : bytes) : source :=
  mkSource (match data with [] => [] | _ => [data] end) EOF false.

(** * ReadAll, ReadFull, Copy *)

Section loops.
Context {R : Type} `{Reader R}.

(** Never the outcome of a loop below: see [ReadAll_ok] and [ReadFull_ok]. *)
Definition out_of_fuel : error := External "fuel".

(** The free space [io.ReadAll] offers to each [Read]; it starts at this
    value and grows, which the outcome does not depend on. *)
Definition readall_space : nat := 512.

Fixpoint read_all_loop (fuel : nat) (r : R) (b : bytes) : R * (bytes * option error) :=
  match fuel with
  | O => (r, (b, Some out_of_fuel))
  | S f =>
      let '(r', (bs, e)) := rd r readall_space in
      match e with
      | None => read_all_loop f r' (b ++ bs)
      | Some e' => (r', (b ++ bs, if bool_decide (e' = EOF) then None else Some e'))
      end
  end.

Definition ReadAll (r : R) : R * (bytes * option error) :=
  read_all_loop (S (rd_fuel r)) r [].

Fixpoint read_full_loop (fuel : nat) (r : R) (room : nat) (b : bytes)
    : R * (bytes * option error) :=
  match room, fuel with
  | O, _ => (r, (b, None))
  | S _, O => (r, (b, Some out_of_fuel))
  | S _, S f =>
      let '(r', (bs, e)) := rd r room in
      match e with
      | None => read_full_loop f r' (room - length bs) (b ++ bs)
      | Some e' => (r', (b ++ bs, Some e'))
      end
  end.

(** A read that fills the buffer reports no error, even when the last
    [Read] returned one with its bytes; an end of file after some bytes is
    [io.ErrUnexpectedEOF]. *)
Definition ReadFull (r : R) (n : nat) : R * (bytes * option error) :=
  let '(r', (bs, e)) := read_full_loop (S (rd_fuel r)) r n [] in
  if Nat.leb n (length bs) then (r', (bs, None))
  else match e with
       | Some e' =>
           if bool_decide (e' = EOF) && negb (bool_decide (bs = []))
           then (r', (bs, Some (Sentinel ErrUnexpectedEOF)))
           else (r', (bs, Some e'))
       | None => (r', (bs, None))
       end.

Context {W : Type} (write : W -> bytes -> W).

Definition copy_buffer : nat := 32 * 1024.

Fixpoint copy_loop (fuel : nat) (r : R) (w : W) : R * W * option error :=
  match fuel with
  | O => (r, w, Some out_of_fuel)
  | S f =>
      let '(r', (bs, e)) := rd r copy_buffer in
      let w' := match bs with [] => w | _ => write w bs end in
      match e with
      | None => copy_loop f r' w'
      | Some e' => (r', w', if bool_decide (e' = EOF) then None else Some e')
      end
  end.

(** [io.Copy(w, r)] for a writer that does not fail. *)
Definition Copy (w : W) (r : R) : R * W * option error :=
  copy_loop (S (rd_fuel r)) r w.

(** Copying keeps what every write keeps. *)
Lemma Copy_keeps (I : W -> Prop) w r :
  (forall p w, I w -> I (write w p)) -> I w -> I (Copy w r).1.2.
Proof.
  intros Hwrite. unfold Copy. generalize (S (rd_fuel r)). intros fuel. revert r w.
  induction fuel as [|fuel IH]; intros r w HI; [done|]. simpl.
  destruct (rd r copy_buffer) as [r' [bs e]]. assert (I (match bs with [] => w | _ :: _ => write w bs end)) as HI'.
  { destruct bs; [done|by apply Hwrite]. }
  destruct e; [done|by apply IH].
Qed.

End loops.
#[global] Opaque readall_space copy_buffer.
#[global] Arguments out_of_fuel : simpl never.

(** * Sources obey the laws *)

Lemma readall_space_pos : 0 < readall_space.
Proof. apply Nat.ltb_lt. vm_compute. reflexivity. Qed.

Lemma copy_buffer_pos : 0 < copy_buffer.
Proof. apply Nat.ltb_lt. vm_compute. reflexivity. Qed.

#[export] Hint Resolve readall_space_pos copy_buffer_pos : go.

Lemma source_read_bytes s s' n bs e :
  0 < n -> source_read s n = (s', (bs, e)) ->
  mjoin (src_chunks s) = bs ++ mjoin (src_chunks s') /\ src_final s' = src_final s.
Proof.
  intros Hn. unfold source_read. destruct (src_chunks s) as [|c cs] eqn:E.
  - intros. simplify_eq. by rewrite E.
  - destruct (Nat.leb_spec (length c) n); intros; simplify_eq/=; [done|].
    by rewrite app_assoc, take_drop.
Qed.

#[export] Instance source_ReaderLaws : ReaderLaws source.
Proof.
  split.
  - intros s s' n bs e. simpl. unfold source_read.
    destruct (src_chunks s) as [|c cs]; [intros; simplify_eq/=; lia|].
    destruct (Nat.leb_spec (length c) n); intros; simplify_eq/=; [done|].
    rewrite length_take. lia.
  - intros s s' n bs e. simpl. unfold source_read.
    destruct (src_chunks s) as [|c cs] eqn:E; [intros; simplify_eq/=; rewrite E; simpl; lia|].
    destruct (Nat.leb_spec (length c) n); intros; simplify_eq/=; [lia|].
    rewrite length_take, length_drop. lia.
  - intros s s' n bs Hn Hr. destruct (source_read_bytes _ _ _ _ _ Hn Hr) as [Hb Hf].
    split; [|done]. revert Hr. simpl. unfold source_read.
    destruct (src_chunks s) as [|c cs]; [done|].
    destruct (Nat.leb_spec (length c) n); intros; simplify_eq/=; [lia|].
    rewrite length_drop. lia.
  - intros s s' n bs e Hn Hr. destruct (source_read_bytes _ _ _ _ _ Hn Hr) as [Hb Hf].
    revert Hr Hb Hf. simpl. unfold source_read.
    destruct (src_chunks s) as [|c cs] eqn:E; [intros; simplify_eq; by rewrite E|].
    destruct (Nat.leb_spec (length c) n); intros; simplify_eq/=.
    destruct (src_joined s); simplify_eq/=. by case_bool_decide; simplify_eq/=.
Qed.

(** * The loops return what the stream announces *)

Section loops_ok.
Context {R : Type} `{ReaderLaws R}.

Lemma read_all_loop_ok fuel r b :
  rd_fuel r < fuel ->
  exists r' bs,
    read_all_loop fuel r b
      = (r', (b ++ bs, if bool_decide (rd_err r = EOF) then None else Some (rd_err r)))
    /\ (rd_err r = EOF -> bs = rd_bytes r)
    /\ rd_err r' = rd_err r.
Proof.
  revert r b. induction fuel as [|f IH]; intros r b Hf; [lia|]. simpl.
  destruct (rd r readall_space) as [r1 [bs [e|]]] eqn:Er.
  - destruct (rd_end r r1 readall_space bs e) as (He & He1 & Hb); auto with go.
    exists r1, bs. rewrite He. split; [done|]. split; [|by rewrite He1].
    intros E. destruct Hb as [Hb Hnil]. by rewrite Hb, Hnil, app_nil_r by congruence.
  - destruct (rd_more r r1 readall_space bs) as (Hlt & He & Hb); auto with go.
    destruct (IH r1 (b ++ bs)) as (r' & bs' & -> & Hbs & Hr'); [lia|].
    exists r', (bs ++ bs'). rewrite He, app_assoc. split; [done|].
    split; [|congruence]. intros E. by rewrite Hb, Hbs by congruence.
Qed.

(** [io.ReadAll] terminates with the stream's final error, and with the
    whole content when that error is the end of the stream. *)
Lemma ReadAll_ok r :
  exists r' bs,
    ReadAll r = (r', (bs, if bool_decide (rd_err r = EOF) then None else Some (rd_err r)))
    /\ (rd_err r = EOF -> bs = rd_bytes r)
    /\ rd_err r' = rd_err r.
Proof. unfold ReadAll. destruct (read_all_loop_ok (S (rd_fuel r)) r []) as (r' & bs & ? & ? & ?); eauto. Qed.

Lemma read_full_loop_ok fuel r n b :
  rd_fuel r < fuel ->
  exists r' bs e,
    read_full_loop fuel r n b = (r', (b ++ bs, e))
    /\ length bs <= n
    /\ rd_fuel r' + length bs <= rd_fuel r
    /\ rd_err r' = rd_err r
    /\ (rd_err r = EOF -> rd_bytes r = bs ++ rd_bytes r')
    /\ match e with
       | None => length bs = n
       | Some e' => e' = rd_err r /\ (e' = EOF -> rd_bytes r' = [])
       end.
Proof.
  revert r n b. induction fuel as [|f IH]; intros r n b Hf; [lia|].
  destruct n as [|n].
  { exists r, [], None. simpl. rewrite app_nil_r. repeat split; auto; lia. }
  cbn [read_full_loop]. destruct (rd r (S n)) as [r1 [bs [e|]]] eqn:Er.
  - pose proof (rd_bound _ _ _ _ _ Er). pose proof (rd_measure _ _ _ _ _ Er).
    destruct (rd_end r r1 (S n) bs e) as (He & He1 & Hb); [lia|done|].
    exists r1, bs, (Some e). repeat split; try done; try congruence.
    + intros _. apply Hb.
    + intros E. apply Hb. congruence.
  - pose proof (rd_bound _ _ _ _ _ Er). pose proof (rd_measure _ _ _ _ _ Er).
    destruct (rd_more r r1 (S n) bs) as (Hlt & He & Hb); [lia|done|].
    destruct (IH r1 (S n - length bs) (b ++ bs)) as (r' & bs' & e & -> & Hl & Hm & He' & Hb' & Hd);
      [lia|].
    exists r', (bs ++ bs'), e. rewrite app_assoc, length_app.
    repeat split; try done; try lia; try congruence.
    + intros E. rewrite Hb, Hb' by congruence. by rewrite app_assoc.
    + destruct e; [|lia]. split; [|apply Hd]. destruct Hd. congruence.
Qed.

(** [io.ReadFull]: the buffer is filled and no error is reported, or the
    stream has ended short of it. *)
Lemma ReadFull_ok r n :
  exists r' bs e,
    ReadFull r n = (r', (bs, e))
    /\ length bs <= n
    /\ rd_fuel r' + length bs <= rd_fuel r
    /\ rd_err r' = rd_err r
    /\ (rd_err r = EOF -> rd_bytes r = bs ++ rd_bytes r')
    /\ match e with
       | None => length bs = n
       | Some e' =>
           length bs < n /\
           (rd_err r = EOF -> rd_bytes r' = [] /\
              e' = if bool_decide (bs = []) then EOF else ErrUnexpectedEOF) /\
           (rd_err r <> EOF -> e' = rd_err r)
       end.
Proof.
  unfold ReadFull.
  destruct (read_full_loop_ok (S (rd_fuel r)) r n []) as (r' & bs & e & -> & Hl & Hm & He & Hb & Hd);
    [lia|]. simpl.
  destruct (Nat.leb_spec n (length bs)).
  { exists r', bs, None. repeat split; try done; lia. }
  destruct e as [e|]; [|lia]. destruct Hd as [-> Hd].
  case_bool_decide as E; simpl; [destruct (bool_decide (bs = [])) eqn:E'; simpl|];
    do 3 eexists; (split; [reflexivity|]);
    repeat (split; [done|]); rewrite ?E'; try split; auto; done.
Qed.

Lemma read_all_loop_reads fuel r0 r b r' bs e :
  rd_fuel r < fuel -> (exists e0, reads_to r0 r e0) ->
  read_all_loop fuel r b = (r', (bs, e)) ->
  reads_to r0 r' (Some (rd_err r)).
Proof.
  revert r b. induction fuel as [|f IH]; intros r b Hf [e0 Hr]; [lia|]. simpl.
  destruct (rd r readall_space) as [r1 [bs1 [e1|]]] eqn:Er.
  - intros. simplify_eq. destruct (rd_end r r' readall_space bs1 e1) as (-> & _ & _); auto with go.
    eapply reads_snoc; [exact Hr| |exact Er]; auto with go.
  - destruct (rd_more r r1 readall_space bs1) as (Hlt & <- & _); auto with go.
    apply IH; [lia|]. eexists. eapply reads_snoc; [exact Hr| |exact Er]; auto with go.
Qed.

(** [io.ReadAll] stops on the read that returned the stream's final error. *)
Lemma ReadAll_reads r r' bs e :
  ReadAll r = (r', (bs, e)) -> reads_to r r' (Some (rd_err r)).
Proof. apply read_all_loop_reads; [lia|]. eexists. constructor. Qed.

Lemma read_full_loop_reads fuel r0 r n b r' bs e :
  (exists e0, reads_to r0 r e0) ->
  rd_fuel r < fuel -> read_full_loop fuel r n b = (r', (bs, e)) ->
  exists e0, reads_to r0 r' e0 /\ (forall e', e = Some e' -> e0 = Some e').
Proof.
  revert r n b. induction fuel as [|f IH]; intros r n b [e0 Hr] Hf; [lia|].
  destruct n as [|n]; [simpl; intros; simplify_eq; exists e0; naive_solver|].
  cbn [read_full_loop]. destruct (rd r (S n)) as [r1 [bs1 [e1|]]] eqn:Er.
  - intros. simplify_eq. exists (Some e1). split; [|naive_solver].
    eapply reads_snoc; [exact Hr| |exact Er]; lia.
  - destruct (rd_more r r1 (S n) bs1) as (Hlt & _ & _); [lia|done|].
    apply IH; [|lia]. eexists. eapply reads_snoc; [exact Hr| |exact Er]; lia.
Qed.

(** An error of [io.ReadFull] other than the two end-of-file errors it makes
    is the one the last read returned. *)
Lemma ReadFull_reads r0 e0 r n r' bs e :
  reads_to r0 r e0 -> ReadFull r n = (r', (bs, e)) ->
  exists e1, reads_to r0 r' e1 /\
    (forall e', e = Some e' -> e' <> EOF -> e' <> ErrUnexpectedEOF -> e1 = Some e').
Proof.
  intros Hr. unfold ReadFull.
  destruct (read_full_loop (S (rd_fuel r)) r n []) as [r1 [bs1 e1]] eqn:El.
  apply (read_full_loop_reads _ r0) in El as (e2 & Hr1 & He); [|eauto|lia].
  intros HF. exists e2.
  destruct (Nat.leb n (length bs1)); simplify_eq; [naive_solver|].
  destruct e1 as [e1|]; simplify_eq; [|naive_solver].
  destruct (_ && _); simplify_eq; naive_solver.
Qed.

(** Reading does not change how a stream ends. *)
Lemma reads_to_err (r r' : R) e : reads_to r r' e -> rd_err r' = rd_err r.
Proof.
  induction 1 as [|r1 e1 n r2 bs e2 _ IH Hn E]; [done|]. destruct e2 as [e2|].
  - destruct (rd_end r1 r2 n bs e2 Hn E) as (? & ? & _). congruence.
  - destruct (rd_more r1 r2 n bs Hn E) as (_ & ? & _). congruence.
Qed.

Context {W : Type} (write : W -> bytes -> W) (out : W -> bytes) (I : W -> Prop).
Hypothesis write_ok : forall w bs, I w -> I (write w bs) /\ out (write w bs) = out w ++ bs.

Lemma copy_loop_ok fuel r w :
  rd_fuel r < fuel -> I w ->
  exists r' w' bs,
    copy_loop write fuel r w
      = (r', w', if bool_decide (rd_err r = EOF) then None else Some (rd_err r))
    /\ I w' /\ out w' = out w ++ bs /\ bs `prefix_of` rd_bytes r /\ (rd_err r = EOF -> bs = rd_bytes r).
Proof.
  revert r w. induction fuel as [|f IH]; intros r w Hf HI; [lia|]. simpl.
  destruct (rd r copy_buffer) as [r1 [bs e]] eqn:Er.
  set (w1 := match bs with [] => w | _ => write w bs end).
  assert (I w1 /\ out w1 = out w ++ bs) as [HI1 Hw].
  { subst w1. destruct bs; [by rewrite app_nil_r|by apply write_ok]. }
  destruct e as [e|].
  - destruct (rd_end r r1 copy_buffer bs e) as (He & He1 & Hb); auto with go.
    exists r1, w1, bs. destruct Hb as [-> Hb]. rewrite He in *. split_and!; try done; [by eexists|].
    intros E. by rewrite (Hb E), app_nil_r.
  - destruct (rd_more r r1 copy_buffer bs) as (Hlt & He & Hb); auto with go.
    destruct (IH r1 w1) as (r' & w' & bs' & -> & HI' & Hw' & Hpre & Hbs'); [lia|done|].
    exists r', w', (bs ++ bs'). rewrite He, Hw', Hw, app_assoc, Hb. split_and!; try done.
    + by apply prefix_app.
    + intros E. by rewrite Hbs' by congruence.
Qed.

(** [io.Copy] writes the whole content of a stream that ends properly, and an
    initial part of one that does not. *)
Lemma Copy_ok w r :
  I w ->
  exists r' w' bs,
    Copy write w r = (r', w', if bool_decide (rd_err r = EOF) then None else Some (rd_err r))
    /\ I w' /\ out w' = out w ++ bs /\ bs `prefix_of` rd_bytes r /\ (rd_err r = EOF -> bs = rd_bytes r).
Proof. apply copy_loop_ok. lia. Qed.

End loops_ok.

Lemma bytes_reader_err data : rd_err (bytes_reader data) = EOF.
Proof. done. Qed.

Lemma bytes_reader_bytes data : rd_bytes (bytes_reader data) = data.
Proof. destruct data; simpl; [done|]. by rewrite app_nil_r. Qed.

(** From here on the meaning of a stream is used through the laws. *)
#[global] Arguments rd_err : simpl never.
#[global] Arguments rd_bytes : simpl never.
