(* ===== verification/Bodies.v ===== *)
(** The request body as the handlers read it: the network stream, wrapped by
    [countingBody] (internal/server/server.go) and, on an upload, by
    [digestVerifyingBody] (internal/server/middlewares/authproof.go).

    [countingBody] raises the [over] flag of the [sizeGuard] it points to; the
    flag is kept with the body here and read by the guard's writer in
    [Http.sizeGuard].  The byte counter is an [int64] that would wrap after
    2^63 bytes of one request; it is not wrapped here.  A hasher's state is
    the bytes written to it. *)
From S2P Require Import Prelude GoStrings GoError Sha256 GoIO.
Local Open Scope Z_scope.

(** * Definitions *)

Record countingBody := mkCountingBody {
  cb_rc : source;
  cb_limit : Z;
  cb_read : Z;
  cb_over : bool;          (* guard.over *)
}.

Definition countingBody_Read (b : countingBody) (n : nat) : countingBody * (bytes * option error) :=
  let '(rc', (p, err)) := rd (cb_rc b) n in
  let read := cb_read b + Z.of_nat (length p) in
  if cb_limit b <? read
  then (mkCountingBody rc' (cb_limit b) read true, (p, Some (Sentinel ErrBodyTooLarge)))
  else (mkCountingBody rc' (cb_limit b) read (cb_over b), (p, err)).

(** The body a middleware below [AuthProof] may have put in place. *)
Inductive innerBody :=
  | RawBody (s : source)
  | CountedBody (b : countingBody).

Definition innerBody_Read (b : innerBody) (n : nat) : innerBody * (bytes * option error) :=
  match b with
  | RawBody s => let '(s', out) := rd s n in (RawBody s', out)
  | CountedBody c => let '(c', out) := countingBody_Read c n in (CountedBody c', out)
  end.

Record digestVerifyingBody := mkDigestVerifyingBody {
  dv_rc : innerBody;
  dv_hasher : bytes;
  dv_want : string;
  dv_failed : bool;
}.

Definition digestVerifyingBody_Read (b : digestVerifyingBody) (n : nat)
    : digestVerifyingBody * (bytes * option error) :=
  if dv_failed b then (b, ([], Some (Sentinel ErrBodyDigestMismatch)))
  else
    let '(rc', (p, err)) := innerBody_Read (dv_rc b) n in
    let hasher := dv_hasher b ++ p in
    if match err with Some e => Is e EOF | None => false end
       && negb (bool_decide (sha256_hex hasher = dv_want b))
    then (mkDigestVerifyingBody rc' hasher (dv_want b) true,
          (p, Some (Sentinel ErrBodyDigestMismatch)))
    else (mkDigestVerifyingBody rc' hasher (dv_want b) false, (p, err)).

(** [r.Body] *)
Inductive reqBody :=
  | PlainBody (b : innerBody)
  | VerifiedBody (b : digestVerifyingBody).

Definition reqBody_Read (b : reqBody) (n : nat) : reqBody * (bytes * option error) :=
  match b with
  | PlainBody i => let '(i', out) := innerBody_Read i n in (PlainBody i', out)
  | VerifiedBody d => let '(d', out) := digestVerifyingBody_Read d n in (VerifiedBody d', out)
  end.

Definition inner_of (b : reqBody) : innerBody :=
  match b with PlainBody i => i | VerifiedBody d => dv_rc d end.

(** The guard's [over] flag. *)
Definition inner_over (b : innerBody) : bool :=
  match b with RawBody _ => false | CountedBody c => cb_over c end.

Definition body_over (b : reqBody) : bool := inner_over (inner_of b).

(** [r.Body = &countingBody{rc: r.Body, ...}] on the body of the network. *)
Definition count_body (limit : Z) (b : reqBody) : reqBody :=
  match b with
  | PlainBody (RawBody s) => PlainBody (CountedBody (mkCountingBody s limit 0 false))
  | _ => b
  end.

(** [r.Body = &digestVerifyingBody{rc: r.Body, hasher: sha256.New(), want: digest}] *)
Definition verify_body (digest : string) (b : reqBody) : reqBody :=
  match b with
  | PlainBody i => VerifiedBody (mkDigestVerifyingBody i [] digest false)
  | VerifiedBody _ => b
  end.

(** * What these streams amount to *)

Definition src_of (b : innerBody) : source :=
  match b with RawBody s => s | CountedBody c => cb_rc c end.

#[export] Instance reqBody_Reader : Reader reqBody := {|
  rd := reqBody_Read;
  rd_fuel b := rd_fuel (src_of (inner_of b));
|}.

(** The bytes still to come count against the cap. *)
Definition inner_err (b : innerBody) : error :=
  match b with
  | RawBody s => rd_err s
  | CountedBody c =>
      if cb_limit c <? cb_read c + Z.of_nat (length (rd_bytes (cb_rc c)))
      then Sentinel ErrBodyTooLarge else rd_err (cb_rc c)
  end.

Definition inner_bytes (b : innerBody) : bytes := rd_bytes (src_of b).

Definition verified_err (d : digestVerifyingBody) : error :=
  if dv_failed d then Sentinel ErrBodyDigestMismatch
  else if Is (inner_err (dv_rc d)) EOF
          && negb (bool_decide (sha256_hex (dv_hasher d ++ inner_bytes (dv_rc d)) = dv_want d))
       then Sentinel ErrBodyDigestMismatch
       else inner_err (dv_rc d).

#[export] Instance reqBody_ReaderSpec : ReaderSpec reqBody := {|
  rd_err b := match b with PlainBody i => inner_err i | VerifiedBody d => verified_err d end;
  rd_bytes b := inner_bytes (inner_of b);
|}.

(** * The reader laws *)

Lemma source_read_ok (s s' : source) n p e :
  (0 < n)%nat -> rd s n = (s', (p, e)) ->
  (length p <= n)%nat /\ (rd_fuel s' + length p <= rd_fuel s)%nat /\
  rd_err s' = rd_err s /\ rd_bytes s = p ++ rd_bytes s' /\
  match e with
  | None => (rd_fuel s' < rd_fuel s)%nat
  | Some e' => rd_err s = e' /\ rd_bytes s' = []
  end.
Proof.
  intros Hn E. pose proof (source_read_bytes s s' n p e Hn E) as [Hb Hf].
  split_and!; [by eapply rd_bound|by eapply rd_measure|done|done|].
  destruct e as [e'|]; [|by eapply rd_more].
  destruct (rd_end s s' n p e' Hn E) as (He & _ & _). split; [done|].
  revert E. simpl. unfold source_read. destruct (src_chunks s) as [|c cs] eqn:Ec;
    [intros; simplify_eq/=; done|].
  destruct (Nat.leb _ _); [|done]. destruct (src_joined s); simpl; [|done].
  case_bool_decide as Hcs; [|done]. intros [= <- <- _]. simpl. by rewrite Hcs.
Qed.

(** One read of the inner body. *)
Lemma innerBody_Read_ok b b' n p e :
  (0 < n)%nat -> innerBody_Read b n = (b', (p, e)) ->
  (length p <= n)%nat /\ (rd_fuel (src_of b') + length p <= rd_fuel (src_of b))%nat /\
  inner_err b' = inner_err b /\ inner_bytes b = p ++ inner_bytes b' /\
  match e with
  | None => (rd_fuel (src_of b') < rd_fuel (src_of b))%nat
  | Some e' => inner_err b = e' /\ (e' <> ErrBodyTooLarge -> inner_bytes b' = [])
  end.
Proof.
  intros Hn. unfold innerBody_Read, countingBody_Read, inner_bytes.
  destruct b as [s|[s lim rdn ov]]; cbn [cb_rc cb_limit cb_read cb_over].
  - destruct (rd s n) as [s' [p' e']] eqn:Es. intros [= <- <- <-].
    destruct (source_read_ok s s' n p' e' Hn Es) as (? & ? & ? & ? & He). split_and!; try done.
    destruct e'; [|done]. destruct He. done.
  - destruct (rd s n) as [s' [p' e']] eqn:Es.
    destruct (source_read_ok s s' n p' e' Hn Es) as (Hl & Hm & Hf & Hb & He).
    assert (inner_err (CountedBody (mkCountingBody s' lim (rdn + Z.of_nat (length p')) ov))
      = inner_err (CountedBody (mkCountingBody s lim rdn ov))) as Hinv.
    { cbn [inner_err cb_rc cb_limit cb_read]. rewrite Hb, length_app, Nat2Z.inj_add, Hf.
      by rewrite Z.add_assoc. }
    destruct (Z.ltb_spec lim (rdn + Z.of_nat (length p'))); intros [= <- <- <-];
      (do 4 (split; [first [exact Hinv|exact Hb|done]|])).
    + split; [|done]. cbn [inner_err cb_rc cb_limit cb_read]. rewrite Hb, length_app, Nat2Z.inj_add.
      rewrite (proj2 (Z.ltb_lt _ _)); [done|lia].
    + destruct e'; [|done]. destruct He as [He He']. split; [|done].
      cbn [inner_err cb_rc cb_limit cb_read]. rewrite Hb, He', app_nil_r.
      rewrite (proj2 (Z.ltb_ge _ _)); [done|lia].
Qed.

(** The end of an EOF body is an EOF, and what is hashed is what is read. *)
Lemma digestVerifyingBody_Read_ok d d' n p e :
  (0 < n)%nat -> digestVerifyingBody_Read d n = (d', (p, e)) ->
  (length p <= n)%nat /\
  (rd_fuel (src_of (dv_rc d')) + length p <= rd_fuel (src_of (dv_rc d)))%nat /\
  verified_err d' = verified_err d /\ inner_bytes (dv_rc d) = p ++ inner_bytes (dv_rc d') /\
  match e with
  | None => (rd_fuel (src_of (dv_rc d')) < rd_fuel (src_of (dv_rc d)))%nat
  | Some e' => verified_err d = e' /\ (e' = EOF -> inner_bytes (dv_rc d') = [])
  end.
Proof.
  intros Hn. unfold digestVerifyingBody_Read. destruct d as [b h want []]; cbn [dv_failed dv_rc dv_hasher dv_want].
  { intros [= <- <- <-]. simpl. split_and!; try lia; done. }
  destruct (innerBody_Read b n) as [b' [p' e']] eqn:Eb.
  destruct (innerBody_Read_ok b b' n p' e' Hn Eb) as (Hl & Hm & Hf & Hbs & He).
  unfold verified_err. cbn [dv_failed dv_rc dv_hasher dv_want].
  destruct e' as [e'|]; simpl.
  - destruct He as [He Hend]. rewrite He.
    assert (Is e' EOF = true -> inner_bytes b' = []) as Hnil.
    { intros Hi. apply Hend. by intros ->. }
    destruct (Is e' EOF) eqn:Hi; simpl.
    + rewrite Hbs, !Hnil, app_nil_r by done. case_bool_decide as Hs; simpl; intros [= <- <- <-];
        cbn [dv_failed dv_rc dv_hasher dv_want]; rewrite ?Hf, ?He, ?Hi, ?Hnil, ?app_nil_r by done;
        split_and!; try done; by rewrite bool_decide_eq_true_2.
    + intros [= <- <- <-]; cbn [dv_failed dv_rc dv_hasher dv_want]. rewrite Hf, He, Hi. simpl.
      split_and!; try done. intros ->. by rewrite Is_Sentinel in Hi.
  - intros [= <- <- <-]; cbn [dv_failed dv_rc dv_hasher dv_want]. rewrite Hf, Hbs, <- app_assoc.
    split_and!; done.
Qed.

Lemma reqBody_Read_bound b b' n p e :
  rd b n = (b', (p, e)) ->
  (length p <= n)%nat /\ (rd_fuel b' + length p <= rd_fuel b)%nat.
Proof.
  assert (forall i i' p e, innerBody_Read i n = (i', (p, e)) ->
    (length p <= n)%nat /\ (rd_fuel (src_of i') + length p <= rd_fuel (src_of i))%nat) as Hi.
  { intros [s|c] i' q e' E; unfold innerBody_Read, countingBody_Read in E.
    - destruct (rd s n) as [s' [q' e'']] eqn:Es. injection E as <- <- <-.
      split; [by eapply rd_bound|by eapply rd_measure].
    - destruct (rd (cb_rc c) n) as [s' [q' e'']] eqn:Es.
      destruct (_ <? _); injection E as <- <- <-; (split; [by eapply rd_bound|by eapply rd_measure]). }
  simpl. unfold reqBody_Read, digestVerifyingBody_Read. destruct b as [i|d].
  - destruct (innerBody_Read i n) as [i' [q e']] eqn:E. intros [= <- <- <-]. by eapply Hi.
  - destruct (dv_failed d); [intros [= <- <- <-]; simpl; lia|].
    destruct (innerBody_Read (dv_rc d) n) as [i' [q e']] eqn:E.
    destruct (_ && _); intros [= <- <- <-]; by eapply Hi.
Qed.

#[export] Instance reqBody_ReaderLaws : ReaderLaws reqBody.
Proof.
  split; intros b b' n p.
  - intros e E. by apply reqBody_Read_bound in E as [? _].
  - intros e E. by apply reqBody_Read_bound in E as [_ ?].
  - intros Hn. simpl. unfold reqBody_Read. destruct b as [i|d].
    + destruct (innerBody_Read i n) as [i' [p' e']] eqn:Ei. intros [= <- <- ->].
      destruct (innerBody_Read_ok i i' n p' None Hn Ei) as (_ & _ & ? & ? & ?). done.
    + destruct (digestVerifyingBody_Read d n) as [d' [p' e']] eqn:Ed. intros [= <- <- ->].
      destruct (digestVerifyingBody_Read_ok d d' n p' None Hn Ed) as (_ & _ & ? & ? & ?). done.
  - intros e Hn. simpl. unfold reqBody_Read. destruct b as [i|d].
    + destruct (innerBody_Read i n) as [i' [p' e']] eqn:Ei. intros [= <- <- ->].
      destruct (innerBody_Read_ok i i' n p' _ Hn Ei) as (_ & _ & Hf & Hb & He & Hnil).
      split; [exact He|]. split; [exact (eq_trans Hf He)|]. split; [exact Hb|]. intros Heof. apply Hnil. change (rd_err (PlainBody i)) with (inner_err i) in Heof. congruence.
    + destruct (digestVerifyingBody_Read d n) as [d' [p' e']] eqn:Ed. intros [= <- <- ->].
      destruct (digestVerifyingBody_Read_ok d d' n p' _ Hn Ed) as (_ & _ & Hf & Hbs & He & Hb).
      split; [exact He|]. split; [exact (eq_trans Hf He)|]. split; [exact Hbs|]. intros Heof.
      apply Hb. change (rd_err (VerifiedBody d)) with (verified_err d) in Heof. congruence.
Qed.

(** * An upload's body, from the router to the store *)

(** What [maxBody] and [AuthProof] leave in [r.Body] for a network stream. *)
Definition upload_body (limit : Z) (digest : string) (s : source) : reqBody :=
  verify_body digest (count_body limit (PlainBody (RawBody s))).

Lemma upload_body_bytes limit digest s : rd_bytes (upload_body limit digest s) = rd_bytes s.
Proof. done. Qed.

(** How it ends: too large, or not what was signed, or as the network says. *)
Lemma upload_body_err limit digest s :
  rd_err (upload_body limit digest s)
  = if limit <? Z.of_nat (length (rd_bytes s)) then Sentinel ErrBodyTooLarge
    else if Is (rd_err s) EOF && negb (bool_decide (sha256_hex (rd_bytes s) = digest))
         then Sentinel ErrBodyDigestMismatch else rd_err s.
Proof.
  change (rd_err (upload_body limit digest s)) with
    (verified_err (mkDigestVerifyingBody (CountedBody (mkCountingBody s limit 0 false)) [] digest false)).
  unfold verified_err, inner_err, inner_bytes. cbn [dv_failed dv_rc dv_hasher dv_want cb_rc cb_limit cb_read].
  rewrite Z.add_0_l. by destruct (limit <? _).
Qed.

Lemma upload_body_EOF limit digest s :
  rd_err (upload_body limit digest s) = EOF <->
  rd_err s = EOF /\ Z.of_nat (length (rd_bytes s)) <= limit /\ sha256_hex (rd_bytes s) = digest.
Proof.
  rewrite upload_body_err. destruct (Z.ltb_spec limit (Z.of_nat (length (rd_bytes s)))).
  - split; [done|]. intros (_ & ? & _). lia.
  - destruct (Is (rd_err s) EOF) eqn:Hi; simpl.
    + case_bool_decide; simpl; naive_solver lia.
    + split; [|naive_solver]. intros E. rewrite E, Is_Sentinel in Hi. done.
Qed.

Lemma upload_body_clean limit digest s (P : error -> Prop) :
  (forall e, clean_error e -> P e) -> P (rd_err s) -> P (rd_err (upload_body limit digest s)).
Proof.
  intros HP Hs. rewrite upload_body_err. destruct (_ <? _); [by apply HP; right|].
  destruct (_ && _); [by apply HP; right|]. done.
Qed.

(** ** The guard's flag

    The flag is up exactly when the counter passed the cap, and then the
    stream has failed with [errBodyTooLarge]. *)
Definition body_inv (b : reqBody) : Prop :=
  match inner_of b with
  | RawBody _ => True
  | CountedBody c => cb_over c = (cb_limit c <? cb_read c)
  end /\
  match b with VerifiedBody d => dv_failed d = true -> body_over b = false | PlainBody _ => True end.

Lemma innerBody_Read_inv i i' n p e :
  innerBody_Read i n = (i', (p, e)) ->
  match i with RawBody _ => True | CountedBody c => cb_over c = (cb_limit c <? cb_read c) end ->
  match i' with RawBody _ => True | CountedBody c => cb_over c = (cb_limit c <? cb_read c) end /\
  (inner_over i' = true -> e = Some (Sentinel ErrBodyTooLarge)).
Proof.
  unfold innerBody_Read, countingBody_Read. destruct i as [s|[s lim rdn ov]]; cbn [cb_rc cb_limit cb_read cb_over].
  - destruct (rd s n) as [s' out]. by intros [= <- _].
  - destruct (rd s n) as [s' [q e']]. destruct (Z.ltb_spec lim (rdn + Z.of_nat (length q))) as [Hlt|Hle];
      intros [= <- <- <-] Hinv; cbn [inner_over cb_over cb_limit cb_read]; split; try done.
    + symmetry. by apply Z.ltb_lt.
    + rewrite Hinv. rewrite (proj2 (Z.ltb_ge _ _)); [|lia]. symmetry. apply Z.ltb_ge. done.
    + rewrite Hinv, (proj2 (Z.ltb_ge _ _)); [done|lia].
Qed.

Lemma reqBody_Read_inv b b' n p e :
  rd b n = (b', (p, e)) -> body_inv b ->
  body_inv b' /\ (body_over b' = true -> e = Some (Sentinel ErrBodyTooLarge)).
Proof.
  change (rd b n) with (reqBody_Read b n). unfold reqBody_Read, digestVerifyingBody_Read, body_inv, body_over.
  destruct b as [i|d]; simpl.
  - destruct (innerBody_Read i n) as [i' [q e']] eqn:E. intros [= <- <- <-] [Hi _].
    apply innerBody_Read_inv in E as [? ?]; [|done]. done.
  - destruct (dv_failed d) eqn:Hf; [intros [= <- <- <-] [Hi Ho]; simpl; rewrite Ho; done|].
    destruct (innerBody_Read (dv_rc d) n) as [i' [q e']] eqn:E. intros E' [Hi _].
    apply innerBody_Read_inv in E as [Hi' Ho]; [|done].
    destruct e' as [e'|]; simpl in E'; [destruct (Is e' EOF) eqn:He; simpl in E';
      [destruct (bool_decide _); simpl in E'|]|]; injection E' as <- <- <-; simpl;
      (split; [split; [done|]|]); try done.
    + intros _. destruct (inner_over i'); [|done]. specialize (Ho eq_refl). by injection Ho as ->.
    + intros Hov. specialize (Ho Hov). by injection Ho as ->.
Qed.

Lemma reads_to_inv b b' e : reads_to b b' e -> body_inv b -> body_inv b'.
Proof. induction 1 as [|r1 e1 n r2 bs e2 _ IH _ E]; [done|]. intros Hb. by eapply reqBody_Read_inv; [|apply IH]. Qed.

(** A read that reports the service's own size error raised the flag,
    provided the network does not end the stream with that error. *)
Definition src_err (b : reqBody) : error := rd_err (src_of (inner_of b)).

Lemma innerBody_Read_src i i' n p e :
  (0 < n)%nat -> innerBody_Read i n = (i', (p, e)) ->
  rd_err (src_of i') = rd_err (src_of i) /\
  (forall e', e = Some e' -> inner_over i' = true \/ rd_err (src_of i) = e').
Proof.
  intros Hn. unfold innerBody_Read, countingBody_Read. destruct i as [s|c].
  - destruct (rd s n) as [s' [q e']] eqn:E. intros [= <- <- <-].
    destruct (source_read_ok s s' n q e' Hn E) as (_ & _ & Hf & _ & He). split; [done|].
    intros e'' ->. right. apply He.
  - destruct (rd (cb_rc c) n) as [s' [q e']] eqn:E.
    destruct (source_read_ok _ s' n q e' Hn E) as (_ & _ & Hf & _ & He).
    destruct (_ <? _); intros [= <- <- <-]; (split; [done|]); intros e'' E'; [by left|].
    subst e'. right. apply He.
Qed.

Lemma reqBody_Read_src b b' n p e :
  (0 < n)%nat -> rd b n = (b', (p, e)) ->
  src_err b' = src_err b /\
  (e = Some (Sentinel ErrBodyTooLarge) -> src_err b <> ErrBodyTooLarge -> body_over b' = true).
Proof.
  intros Hn. change (rd b n) with (reqBody_Read b n).
  unfold reqBody_Read, digestVerifyingBody_Read, src_err, body_over. destruct b as [i|d]; simpl.
  - destruct (innerBody_Read i n) as [i' [q e']] eqn:E. intros [= <- <- <-].
    apply innerBody_Read_src in E as [? Ho]; [|done]. split; [done|]. intros -> Hs.
    by destruct (Ho _ eq_refl).
  - destruct (dv_failed d) eqn:Hf; [by intros [= <- <- <-]|].
    destruct (innerBody_Read (dv_rc d) n) as [i' [q e']] eqn:E. intros E'.
    apply innerBody_Read_src in E as [Hs Ho]; [|done].
    destruct (_ && _); injection E' as <- <- <-; simpl; (split; [done|]); [done|].
    intros -> Hne. by destruct (Ho _ eq_refl).
Qed.

Lemma reads_too_large b b' e :
  reads_to b b' e -> src_err b <> ErrBodyTooLarge ->
  src_err b' = src_err b /\ (e = Some (Sentinel ErrBodyTooLarge) -> body_over b' = true).
Proof.
  induction 1 as [|r1 e1 n r2 bs e2 _ IH Hn E]; intros Hs; [done|].
  destruct (IH Hs) as [Hs1 _]. apply reqBody_Read_src in E as [Hs2 Ho]; [|done].
  split; [congruence|]. intros ->. apply Ho; [done|congruence].
Qed.

(** With the flag up, the stream has failed for its size. *)
Lemma over_err b : body_inv b -> body_over b = true -> rd_err b = ErrBodyTooLarge.
Proof.
  unfold body_inv, body_over. intros [Hi Hd] Ho.
  assert (inner_err (inner_of b) = ErrBodyTooLarge) as He.
  { destruct (inner_of b) as [s|c]; [done|]. simpl in *. rewrite Ho in Hi. symmetry in Hi.
    apply Z.ltb_lt in Hi. rewrite (proj2 (Z.ltb_lt _ _)); [done|]. lia. }
  destruct b as [i|d]; [exact He|]. change (verified_err d = ErrBodyTooLarge). unfold verified_err.
  simpl in He, Ho, Hd. destruct (dv_failed d); [by rewrite Hd in Ho|]. by rewrite He.
Qed.

Lemma upload_body_inv limit digest s : 0 <= limit -> body_inv (upload_body limit digest s).
Proof.
  intros Hl. split; [|done]. simpl. symmetry. apply Z.ltb_ge. done.
Qed.

(** How a body can end. *)
Lemma body_err_cases b :
  rd_err b = ErrBodyTooLarge \/ rd_err b = ErrBodyDigestMismatch \/ rd_err b = src_err b.
Proof.
  assert (forall i, inner_err i = ErrBodyTooLarge \/ inner_err i = rd_err (src_of i)) as Hi.
  { intros [s|c]; simpl; [by right|]. destruct (_ <? _); auto. }
  destruct b as [i|d].
  - change (rd_err (PlainBody i)) with (inner_err i). unfold src_err. simpl. destruct (Hi i); auto.
  - change (rd_err (VerifiedBody d)) with (verified_err d). unfold verified_err, src_err. simpl.
    destruct (dv_failed d); [auto|]. destruct (_ && _); [auto|]. destruct (Hi (dv_rc d)); auto.
Qed.
