(* ===== verification/Http.v ===== *)
(** The parts of [net/http] the service is written against: the request, the
    response under construction, [http.ResponseWriter] and the writers the
    service wraps around it ([statusRecorder] of telemetry.go, [sizeGuard] of
    server.go), and [internal/server/responses].

    All writers of a request act on one shared state, the [world]; a writer is
    a record of operations on it, so that a write through an outer writer and
    the flag a body reader raises are seen by all of them. *)
From S2P Require Import Prelude GoStrings GoError Json Url AuthProof GoIO Bodies.
Local Open Scope Z_scope.

(** * Responses *)

(** [rs_header] is the live header map, [rs_status] the status once the
    header was written and [rs_sent] the headers that went out with it. *)
Record response := mkResponse {
  rs_header : gmap string string;
  rs_status : option Z;
  rs_sent : gmap string string;
  rs_body : bytes;
}.

Definition new_response : response := mkResponse ∅ None ∅ [].

(** [WriteHeader] of net/http: only the first call counts. *)
Definition resp_WriteHeader (code : Z) (rs : response) : response :=
  match rs_status rs with
  | Some _ => rs
  | None => mkResponse (rs_header rs) (Some code) (rs_header rs) (rs_body rs)
  end.

Definition resp_Write (p : bytes) (rs : response) : response :=
  let rs := resp_WriteHeader 200 rs in
  mkResponse (rs_header rs) (rs_status rs) (rs_sent rs) (rs_body rs ++ p).

(** * Requests *)

Record request {crypto : Crypto} := mkRequest {
  Method : string;
  ReqURL : URL;
  ReqHeader : gmap string string;
  ContentLength : Z;                   (* -1 when unknown *)
  ctx_identity : option PublicKey;     (* middlewares.GetIdentityKey(r.Context()) *)
  url_params : list (string * string); (* chi.URLParam *)
}.

Definition Header_Get {crypto : Crypto} (r : request) (name : string) : string :=
  default "" (ReqHeader r !! name).

Definition URLParam {crypto : Crypto} (r : request) (name : string) : string :=
  match filter (fun kv => kv.1 = name) (url_params r) with [] => "" | kv :: _ => kv.2 end.

Definition WithIdentityKey {crypto : Crypto} (r : request) (k : PublicKey) : request :=
  mkRequest _ (Method r) (ReqURL r) (ReqHeader r) (ContentLength r) (Some k) (url_params r).

Definition GetIdentityKey {crypto : Crypto} (r : request) : option PublicKey := ctx_identity r.

(** * The state of one request *)

(** Clock readings, in the order the code takes them. *)
Record times := mkTimes {
  t_verify : Z;   (* time.Now() in AuthProof *)
  t_nonce : Z;    (* the nonce store's clock *)
  t_store : Z;    (* the blob store's clock *)
  t_elapsed : Z;  (* time.Since(start) in Telemetry, in nanoseconds *)
}.

(** ** What telemetry.go hands to the log and to OpenTelemetry *)

Inductive attr_value := AttrString (s : string) | AttrInt (n : Z).
Abbreviation attribute := (string * attr_value)%type.

(** A span when it ends; the error is the description of its status. *)
Record server_span := mkServerSpan {
  ss_name : string;
  ss_attrs : list attribute;
  ss_error : option string;
}.

(** One line of the request log. *)
Record log_line := mkLogLine {
  log_warn : bool;
  log_method : string;
  log_route : string;
  log_status : Z;
  log_duration_ms : Z;
  log_bytes_out : Z;
}.

Inductive signal :=
  | SpanEnded (sp : server_span)
  | DurationRecorded (elapsed : Z) (attrs : list attribute) (* http.server.request.duration *)
  | ErrorCounted (attrs : list attribute)                   (* http.server.errors *)
  | LineLogged (l : log_line).

Record world (St NSt : Type) := mkWorld {
  w_resp : response;
  w_status : Z;            (* statusRecorder.status *)
  w_written : Z;           (* statusRecorder.written *)
  w_wrote : bool;          (* sizeGuard.wrote *)
  w_body : reqBody;        (* r.Body *)
  w_store : St;
  w_nonces : NSt;
  w_times : times;
  w_route : string;        (* chi.RouteContext(r.Context()).RoutePattern() *)
  w_signals : list signal;
}.
Arguments mkWorld {St NSt} _ _ _ _ _ _ _ _ _ _.
Arguments w_resp {St NSt} _.
Arguments w_status {St NSt} _.
Arguments w_written {St NSt} _.
Arguments w_wrote {St NSt} _.
Arguments w_body {St NSt} _.
Arguments w_store {St NSt} _.
Arguments w_nonces {St NSt} _.
Arguments w_times {St NSt} _.
Arguments w_route {St NSt} _.
Arguments w_signals {St NSt} _.

Section writers.
Context {St NSt : Type}.
Abbreviation world := (world St NSt).

Definition set_resp (f : response -> response) (s : world) : world :=
  mkWorld (f (w_resp s)) (w_status s) (w_written s) (w_wrote s) (w_body s) (w_store s) (w_nonces s)
    (w_times s) (w_route s) (w_signals s).
Definition set_recorder (status written : Z) (s : world) : world :=
  mkWorld (w_resp s) status written (w_wrote s) (w_body s) (w_store s) (w_nonces s) (w_times s) (w_route s) (w_signals s).
Definition set_wrote (b : bool) (s : world) : world :=
  mkWorld (w_resp s) (w_status s) (w_written s) b (w_body s) (w_store s) (w_nonces s) (w_times s) (w_route s) (w_signals s).
Definition set_body (b : reqBody) (s : world) : world :=
  mkWorld (w_resp s) (w_status s) (w_written s) (w_wrote s) b (w_store s) (w_nonces s) (w_times s) (w_route s) (w_signals s).
Definition set_store (st : St) (s : world) : world :=
  mkWorld (w_resp s) (w_status s) (w_written s) (w_wrote s) (w_body s) st (w_nonces s) (w_times s) (w_route s) (w_signals s).
Definition set_nonces (n : NSt) (s : world) : world :=
  mkWorld (w_resp s) (w_status s) (w_written s) (w_wrote s) (w_body s) (w_store s) n (w_times s) (w_route s) (w_signals s).
Definition set_route (p : string) (s : world) : world :=
  mkWorld (w_resp s) (w_status s) (w_written s) (w_wrote s) (w_body s) (w_store s) (w_nonces s)
    (w_times s) p (w_signals s).
Definition emit (l : list signal) (s : world) : world :=
  mkWorld (w_resp s) (w_status s) (w_written s) (w_wrote s) (w_body s) (w_store s) (w_nonces s)
    (w_times s) (w_route s) (w_signals s ++ l).

(** ** Writers *)

Record ResponseWriter := mkWriter {
  rw_WriteHeader : Z -> world -> world;
  rw_Write : bytes -> world -> world;
}.

(** [w.Header()] is the same map for every writer. *)
Definition Header_update (f : gmap string string -> gmap string string) (s : world) : world :=
  set_resp (fun rs => mkResponse (f (rs_header rs)) (rs_status rs) (rs_sent rs) (rs_body rs)) s.

Definition Header_Set (k v : string) : world -> world := Header_update (<[k := v]>).

Definition base_writer : ResponseWriter := {|
  rw_WriteHeader code := set_resp (resp_WriteHeader code);
  rw_Write p := set_resp (resp_Write p);
|}.

(** ** responses.go *)

Definition WriteJSON (w : ResponseWriter) (status : Z) (payload : json) (s : world) : world :=
  let s := Header_Set "Content-Type" "application/json" s in
  let s := rw_WriteHeader w status s in
  rw_Write w (encode payload ++ ["010"%char]) s.

Definition ErrorBody (code description : string) : json :=
  JObj [ (bytes_of_string "status", JString "error");
         (bytes_of_string "code", JString code);
         (bytes_of_string "description", JString description) ].

Definition WriteError (w : ResponseWriter) (status : Z) (code description : string) : world -> world :=
  WriteJSON w status (ErrorBody code description).

(** ** telemetry.go: statusRecorder *)

Definition statusRecorder (w : ResponseWriter) : ResponseWriter := {|
  rw_WriteHeader code s :=
    let s := if w_status s =? 0 then set_recorder code (w_written s) s else s in
    rw_WriteHeader w code s;
  rw_Write p s :=
    let s := if w_status s =? 0 then set_recorder 200 (w_written s) s else s in
    let s := rw_Write w p s in
    set_recorder (w_status s) (w_written s + Z.of_nat (length p)) s;
|}.

(** ** server.go: sizeGuard *)

Definition too_large_description (blobLimit : Z) : string :=
  "Blob exceeds the maximum permitted size of " +:+ FormatInt blobLimit
    +:+ " bytes. GET /v1/limits reports the current cap.".

Definition writeTooLarge (w : ResponseWriter) (blobLimit : Z) : world -> world :=
  WriteError w 413 "ERR_BLOB_TOO_LARGE" (too_large_description blobLimit).

(** The headers that survive a 413. *)
Definition keep_cors (h : gmap string string) : gmap string string :=
  base.filter (fun kv => HasPrefix kv.1 "Access-Control-" = true) h.

Definition guard_WriteHeader (w : ResponseWriter) (blobLimit code : Z) (s : world) : world :=
  if w_wrote s then s
  else
    let s := set_wrote true s in
    if body_over (w_body s) then
      writeTooLarge w blobLimit (Header_update keep_cors s)
    else rw_WriteHeader w code s.

Definition guard_Write (w : ResponseWriter) (blobLimit : Z) (p : bytes) (s : world) : world :=
  let s := if w_wrote s then s else guard_WriteHeader w blobLimit 200 s in
  if body_over (w_body s) then s else rw_Write w p s.

Definition sizeGuard (blobLimit : Z) (w : ResponseWriter) : ResponseWriter := {|
  rw_WriteHeader := guard_WriteHeader w blobLimit;
  rw_Write := guard_Write w blobLimit;
|}.

End writers.
Arguments ResponseWriter St NSt : clear implicits.

(** [http.HandlerFunc] *)
Definition handler {crypto : Crypto} (St NSt : Type) : Type :=
  ResponseWriter St NSt -> request -> world St NSt -> world St NSt.
