(* ===== verification/WriterFacts.v ===== *)
(** What the writers of [Http] do to the response: a reply written through
    the chain of the router arrives as it was written, or as the 413 of the
    size guard when the body overran, and nothing but the response changes. *)
From S2P Require Import Prelude GoStrings GoError Json Url AuthProof GoIO Bodies Http.
Local Open Scope Z_scope.

(** * Replies *)

(** Status, the two entity headers, and the body. *)
Record reply := mkReply {
  rp_status : Z;
  rp_type : option string;
  rp_length : option string;
  rp_body : bytes;
}.

Definition json_reply (status : Z) (payload : json) : reply :=
  mkReply status (Some "application/json") None (encode payload ++ ["010"%char]).

Definition error_reply (status : Z) (code description : string) : reply :=
  json_reply status (ErrorBody code description).

Definition too_large_reply (limit : Z) : reply :=
  error_reply 413 "ERR_BLOB_TOO_LARGE" (too_large_description limit).

Definition empty_reply (status : Z) : reply := mkReply status None None [].

Section facts.
Context {St NSt : Type}.
Abbreviation world := (world St NSt).
Abbreviation ResponseWriter := (ResponseWriter St NSt).

(** Nothing was written yet, and no entity header was set. *)
Definition unwritten (s : world) : Prop :=
  w_status s = 0 /\ w_written s = 0 /\ rs_status (w_resp s) = None /\ rs_body (w_resp s) = [].

Definition fresh (s : world) : Prop :=
  unwritten s /\ rs_header (w_resp s) !! "Content-Type" = None /\
  rs_header (w_resp s) !! "Content-Length" = None.

(** The response the client gets. *)
Definition response_is (s : world) (rp : reply) : Prop :=
  rs_status (w_resp s) = Some (rp_status rp) /\
  rs_sent (w_resp s) !! "Content-Type" = rp_type rp /\
  rs_sent (w_resp s) !! "Content-Length" = rp_length rp /\
  rs_body (w_resp s) = rp_body rp.

(** Only the response was touched. *)
Definition same_state (s s' : world) : Prop :=
  w_body s' = w_body s /\ w_store s' = w_store s /\ w_nonces s' = w_nonces s /\
  w_times s' = w_times s /\ w_route s' = w_route s /\ w_signals s' = w_signals s.

#[export] Instance same_state_trans : Transitive same_state.
Proof. unfold same_state. intros x y z H1 H2. destruct_and!. split_and!; congruence. Qed.

(** The recorder agrees with the response. *)
Definition recorded (s : world) : Prop :=
  rs_status (w_resp s) = (if w_status s =? 0 then None else Some (w_status s)) /\
  w_written s = Z.of_nat (length (rs_body (w_resp s))).

(** The writer below the router's middleware, and the one handlers get. *)
Definition recorder_writer : ResponseWriter := statusRecorder base_writer.
Definition api_writer (limit : Z) : ResponseWriter := sizeGuard limit recorder_writer.

(** A state taken apart, for evaluation. *)
Ltac open_world s :=
  destruct s as [[h st sent b] ? ? ? body ? ? ? ? ?]; unfold fresh, unwritten in *; simpl in *;
  destruct_and?; simplify_eq.

Lemma recorder_WriteHeader status s :
  unwritten s -> status <> 0 ->
  let s' := rw_WriteHeader recorder_writer status s in
  response_is s' (mkReply status (rs_header (w_resp s) !! "Content-Type")
                    (rs_header (w_resp s) !! "Content-Length") []) /\
  same_state s s' /\ recorded s' /\ w_wrote s' = w_wrote s.
Proof.
  intros Hu Hst. open_world s. unfold response_is, same_state, recorded. simpl.
  apply Z.eqb_neq in Hst. by rewrite Hst.
Qed.

(** Every further write appends to the body. *)
Lemma recorder_Write p s rp :
  response_is s rp -> recorded s ->
  let s' := rw_Write recorder_writer p s in
  response_is s' (mkReply (rp_status rp) (rp_type rp) (rp_length rp) (rp_body rp ++ p)) /\
  same_state s s' /\ recorded s' /\ w_wrote s' = w_wrote s.
Proof.
  destruct s as [[h st sent b] ? ? ? body ? ? ? ? ?], rp as [code ty len bd].
  unfold response_is, same_state, recorded. simpl. intros (-> & Ht & Hl & Hb) [Hs Hn].
  destruct (w_status =? 0) eqn:E; [done|]. simpl. rewrite E. subst. split_and!; try done.
  rewrite length_app. lia.
Qed.

Lemma recorder_WriteJSON status payload s :
  fresh s -> status <> 0 ->
  let s' := WriteJSON recorder_writer status payload s in
  response_is s' (json_reply status payload) /\ same_state s s' /\ recorded s' /\ w_wrote s' = w_wrote s.
Proof.
  intros (Hu & Ht & Hl) Hst. unfold WriteJSON. cbn zeta.
  destruct (recorder_WriteHeader status (Header_Set "Content-Type" "application/json" s)) as (Hr & Hs & Hc & Hw);
    [done|done|].
  destruct (recorder_Write (encode payload ++ ["010"%char]) _ _ Hr Hc) as (Hr2 & Hs2 & Hc2 & Hw2).
  split_and!; [|by etrans|done|by rewrite Hw2]. revert Hr2. cbn [rp_status rp_type rp_length rp_body].
  change (rs_header (w_resp (Header_Set "Content-Type" "application/json" s)))
    with (<["Content-Type" := "application/json"]> (rs_header (w_resp s))).
  by rewrite lookup_insert_eq, lookup_insert_ne, Hl by done.
Qed.

(** ** The size guard *)

Lemma keep_cors_none h k : HasPrefix k "Access-Control-" = false -> keep_cors h !! k = None.
Proof.
  intros Hk. apply map_lookup_filter_None. right. intros x _. simpl. congruence.
Qed.

Lemma fresh_keep_cors s : unwritten s -> fresh (Header_update keep_cors (set_wrote true s)).
Proof. intros Hu. split; [done|]. split; by apply keep_cors_none. Qed.

Lemma writeTooLarge_ok limit s :
  fresh s ->
  let s' := writeTooLarge recorder_writer limit s in
  response_is s' (too_large_reply limit) /\ same_state s s' /\ recorded s' /\ w_wrote s' = w_wrote s.
Proof. intros Hf. by apply recorder_WriteJSON. Qed.

(** With the flag up, the guard answers once and swallows the rest. *)
Lemma api_WriteHeader_over limit status s :
  w_wrote s = false -> body_over (w_body s) = true -> unwritten s ->
  let s' := rw_WriteHeader (api_writer limit) status s in
  response_is s' (too_large_reply limit) /\ same_state s s' /\ recorded s' /\ w_wrote s' = true.
Proof.
  intros Hw Ho Hu. simpl. unfold guard_WriteHeader. rewrite Hw.
  change (body_over (w_body (set_wrote true s))) with (body_over (w_body s)). rewrite Ho.
  destruct (writeTooLarge_ok limit _ (fresh_keep_cors s Hu)) as (? & ? & ? & ->). done.
Qed.

Lemma api_Write_over limit p s :
  w_wrote s = true -> body_over (w_body s) = true -> rw_Write (api_writer limit) p s = s.
Proof. intros Hw Ho. simpl. unfold guard_Write. by rewrite Hw, Ho. Qed.

Lemma api_WriteHeader_pass limit status s :
  w_wrote s = false -> body_over (w_body s) = false ->
  rw_WriteHeader (api_writer limit) status s = rw_WriteHeader recorder_writer status (set_wrote true s).
Proof.
  intros Hw Ho. simpl. unfold guard_WriteHeader. rewrite Hw.
  change (body_over (w_body (set_wrote true s))) with (body_over (w_body s)). by rewrite Ho.
Qed.

Lemma api_Write_pass limit p s :
  w_wrote s = true -> body_over (w_body s) = false ->
  rw_Write (api_writer limit) p s = rw_Write recorder_writer p s.
Proof. intros Hw Ho. simpl. unfold guard_Write. by rewrite Hw, Ho. Qed.

(** What becomes of a reply on its way out. *)
Definition reply_through (limit : Z) (s : world) (rp : reply) : reply :=
  if body_over (w_body s) then too_large_reply limit else rp.

(** [replied limit s s' rp]: the handler answered [rp] in state [s], and only
    the response changed. *)
Definition replied (limit : Z) (s s' : world) (rp : reply) : Prop :=
  response_is s' (reply_through limit s rp) /\ same_state s s' /\ recorded s' /\ w_wrote s' = true.

Lemma api_WriteJSON limit status payload s :
  fresh s -> w_wrote s = false -> status <> 0 ->
  replied limit s (WriteJSON (api_writer limit) status payload s) (json_reply status payload).
Proof.
  intros (Hu & Ht & Hl) Hw Hst. unfold replied, reply_through, WriteJSON. cbn zeta.
  set (s1 := Header_Set "Content-Type" "application/json" s).
  destruct (body_over (w_body s)) eqn:Ho.
  - destruct (api_WriteHeader_over limit status s1 Hw Ho Hu) as (Hr & Hs & Hc & Hw1).
    rewrite api_Write_over; [done|done|]. destruct Hs as (-> & _). done.
  - pose proof (recorder_WriteJSON status payload (set_wrote true s)) as Hrec.
    destruct Hrec as (Hr & Hs & Hc & Hw1); [done|done|]. unfold WriteJSON in Hr, Hs, Hc, Hw1. cbn zeta in *.
    rewrite api_WriteHeader_pass by done.
    change (set_wrote true s1) with (Header_Set "Content-Type" "application/json" (set_wrote true s)).
    rewrite api_Write_pass; [done| |].
    + destruct (recorder_WriteHeader status (Header_Set "Content-Type" "application/json" (set_wrote true s)))
        as (_ & _ & _ & ->); done.
    + destruct (recorder_WriteHeader status (Header_Set "Content-Type" "application/json" (set_wrote true s)))
        as (_ & (-> & _) & _); done.
Qed.

Lemma api_WriteError limit status code description s :
  fresh s -> w_wrote s = false -> status <> 0 ->
  replied limit s (WriteError (api_writer limit) status code description s)
    (error_reply status code description).
Proof. apply api_WriteJSON. Qed.

(** A bare status. *)
Lemma api_WriteHeader limit status s :
  fresh s -> w_wrote s = false -> status <> 0 ->
  replied limit s (rw_WriteHeader (api_writer limit) status s) (empty_reply status).
Proof.
  intros (Hu & Ht & Hl) Hw Hst. unfold replied, reply_through. destruct (body_over (w_body s)) eqn:Ho.
  - by apply api_WriteHeader_over.
  - rewrite api_WriteHeader_pass by done.
    destruct (recorder_WriteHeader status (set_wrote true s)) as (Hr & Hs & Hc & Hw1); [done|done|].
    change (rs_header (w_resp (set_wrote true s))) with (rs_header (w_resp s)) in Hr.
    rewrite Ht, Hl in Hr. done.
Qed.
End facts.
