(* ===== verification/BlobStore.v ===== *)
(** [internal/blobstore/blobstore.go]: the vocabulary of the persistence
    seam, the abstract log every implementation has to present, and the
    interface as a pair of classes: [BlobStore] (the operations) and
    [BlobStoreOk] (the promise that they act as the abstract log does, or
    fail and change nothing).  The HTTP handlers are proved against
    [BlobStoreOk]; [MemoryStore] and [PostgresStore] discharge it.

    A time is a number of nanoseconds since the Unix epoch. *)
From stdpp Require Import sorting.
From S2P Require Import Prelude GoStrings GoError Sha256 GoIO.
Local Open Scope Z_scope.

(** * Data *)

Definition RetainedGenerations : Z := 2.

Record BlobKey := mkBlobKey {
  Pseudonym : string;
  DeviceID : string;
  Generation : Z;
  Seq : Z;
}.

Record Entry := mkEntry {
  Entry_Seq : Z;
  Entry_Sha256 : string;
  Entry_PrevSha256 : string;
  Entry_Size : Z;
  Entry_CreatedAt : Z;
}.

Record DeviceSummary := mkDeviceSummary {
  Summary_DeviceID : string;
  Summary_Generation : Z;
  Summary_HeadSeq : Z;
  Summary_HeadSha256 : string;
  Summary_TotalBytes : Z;
  Summary_UpdatedAt : Z;
}.

#[global] Instance BlobKey_eq_dec : EqDecision BlobKey.
Proof. solve_decision. Defined.
#[global] Instance Entry_eq_dec : EqDecision Entry.
Proof. solve_decision. Defined.
#[global] Instance DeviceSummary_eq_dec : EqDecision DeviceSummary.
Proof. solve_decision. Defined.

(** The zero [time.Time]: the first instant of year 1. *)
Definition time_zero : Z := -62135596800 * 10 ^ 9.

(** The order of the manifest and of the index. *)
Definition summary_le (x y : DeviceSummary) : Prop :=
  if decide (Summary_DeviceID x = Summary_DeviceID y)
  then Summary_Generation x <= Summary_Generation y
  else String.le (Summary_DeviceID x) (Summary_DeviceID y).

#[global] Instance summary_le_dec : RelDecision summary_le.
Proof. intros x y. unfold summary_le. destruct (decide _); apply _. Defined.

Definition entry_le (x y : Entry) : Prop := Entry_Seq x <= Entry_Seq y.

#[global] Instance entry_le_dec : RelDecision entry_le.
Proof. intros x y. unfold entry_le. apply _. Defined.

Definition conflict_error (want got : Z) : error :=
  Wrapf "" ErrSeqConflict (": expected seq " +:+ FormatInt want +:+ ", got " +:+ FormatInt got).

Definition guard_error (generation newest : Z) : error :=
  Wrapf "" ErrRetentionGuard
    (": generation " +:+ FormatInt generation +:+ ", newest " +:+ FormatInt newest).

Definition read_body_error (e : error) : error := Wrapf "read body: " e "".

(** * The interface *)

Class BlobStore (St : Type) := {
  (** the stream handed out by [Get] *)
  BlobReader : Type;
  BlobReader_Reader :: Reader BlobReader;
  BlobReader_Spec :: ReaderSpec BlobReader;
  (** [now] is the clock reading the stored row gets *)
  Append : forall {R : Type} `{Reader R},
    Z -> St -> BlobKey -> string -> R -> St * R * result (string * Z);
  Get : St -> BlobKey -> St * result (BlobReader * Z);
  Index : St -> string -> string -> Z -> Z -> Z -> St * result (list Entry);
  Manifest : St -> string -> St * result (list DeviceSummary);
  DeleteGeneration : St -> string -> string -> Z -> St * result Z;
  DeleteAccount : St -> string -> St * result Z;
  Ping : St -> St * result unit;
}.

(** * The abstract log

    For every (pseudonym, device, generation) the list of its blobs; the
    blob with sequence number [n] is element [n - 1].  A stream nobody has
    written to, or that was deleted, is absent. *)
Record ablob := mkAblob {
  ab_data : bytes;
  ab_prev : string;
  ab_at : Z;
}.

Abbreviation stream := (string * string * Z)%type.
Abbreviation alog := (gmap stream (list ablob)).

Definition stream_of (k : BlobKey) : stream := (Pseudonym k, DeviceID k, Generation k).

Definition log_of (a : alog) (s : stream) : list ablob := default [] (a !! s).

Definition blob_at (a : alog) (k : BlobKey) : option ablob :=
  if bool_decide (1 <= Seq k) then log_of a (stream_of k) !! Z.to_nat (Seq k - 1) else None.

Definition spec_next (a : alog) (s : stream) : Z := Z.of_nat (length (log_of a s)) + 1.

(** What a body amounts to: its bytes, or the error that cut it short. *)
Definition body_outcome {R} `{ReaderSpec R} (r : R) : result bytes :=
  if bool_decide (rd_err r = EOF) then Ok (rd_bytes r) else Err (rd_err r).

Definition spec_append (now : Z) (a : alog) (k : BlobKey) (prev : string)
    (body : result bytes) : alog * result (string * Z) :=
  if bool_decide (Seq k = spec_next a (stream_of k)) then
    match body with
    | Err e => (a, Err (read_body_error e))
    | Ok [] => (a, Err ErrEmptyBlob)
    | Ok data =>
        (<[stream_of k := log_of a (stream_of k) ++ [mkAblob data prev now]]> a,
         Ok (sha256_hex data, Z.of_nat (length data)))
    end
  else (a, Err (conflict_error (spec_next a (stream_of k)) (Seq k))).

Definition spec_get (a : alog) (k : BlobKey) : result bytes :=
  match blob_at a k with Some b => Ok (ab_data b) | None => Err ErrNotFound end.

Definition spec_entry (i : nat) (b : ablob) : Entry :=
  mkEntry (Z.of_nat i + 1) (sha256_hex (ab_data b)) (ab_prev b)
    (Z.of_nat (length (ab_data b))) (ab_at b).

Definition spec_index (a : alog) (p d : string) (g from limit : Z) : list Entry :=
  take (Z.to_nat limit)
    (filter (fun e => from <= Entry_Seq e) (imap spec_entry (log_of a (p, d, g)))).

Definition log_bytes (l : list ablob) : Z := zsum (fun b => Z.of_nat (length (ab_data b))) l.

Definition log_updated (l : list ablob) : Z := zmax ab_at time_zero l.

Definition spec_summary (sl : stream * list ablob) : DeviceSummary :=
  let '((p, d, g), l) := sl in
  mkDeviceSummary d g (Z.of_nat (length l))
    (match last l with Some b => sha256_hex (ab_data b) | None => "" end)
    (wrap64 (log_bytes l)) (log_updated l).

Definition spec_manifest (a : alog) (p : string) : list DeviceSummary :=
  merge_sort summary_le
    (spec_summary <$> filter (fun sl => sl.1.1.1 = p) (map_to_list a)).

Definition generations_of (a : alog) (p d : string) : list Z :=
  (fun sl => sl.1.2) <$> filter (fun sl => sl.1.1 = (p, d)) (map_to_list a).

(** The newest generation of a device; 0 when it has none. *)
Definition newest_of (a : alog) (p d : string) : Z := foldr Z.max 0 (generations_of a p d).

Definition spec_delete_generation (a : alog) (p d : string) (g : Z) : alog * result Z :=
  if bool_decide (generations_of a p d <> [] /\ newest_of a p d - RetainedGenerations < g)
  then (a, Err (guard_error g (newest_of a p d)))
  else (delete (p, d, g) a, Ok (Z.of_nat (length (log_of a (p, d, g))))).

Definition account_blobs (a : alog) (p : string) : nat :=
  sum_list ((fun sl => length sl.2) <$> filter (fun sl => sl.1.1.1 = p) (map_to_list a)).

Definition spec_delete_account (a : alog) (p : string) : alog * result Z :=
  (filter (fun sl => sl.1.1.1 <> p) a, Ok (Z.of_nat (account_blobs a p))).

(** * Well-formedness *)

Definition nul : ascii := "000"%char.

(** Accounts and devices are named in lowercase hexadecimal. *)
Definition name_ok (s : string) : Prop := str_forall is_lower_hex s = true.

(** What the handlers guarantee of the key they hand to a store: hexadecimal
    names and numbers within [1 .. 2^30]. *)
Definition key_ok (k : BlobKey) : Prop :=
  name_ok (Pseudonym k) /\ name_ok (DeviceID k) /\
  1 <= Generation k <= 2 ^ 30 /\ 1 <= Seq k <= 2 ^ 30.

Definition stream_ok (s : stream) : Prop :=
  name_ok s.1.1 /\ name_ok s.1.2 /\ 1 <= s.2 <= 2 ^ 30.

(** Streams are non-empty, contiguous by construction, and their numbers
    stay addressable. *)
Definition alog_ok (a : alog) : Prop :=
  map_Forall (fun s l => stream_ok s /\ l <> [] /\ Z.of_nat (length l) <= 2 ^ 30 /\
                         Forall (fun b => ab_data b <> [] /\ time_zero <= ab_at b) l) a.

(** * The promise of an implementation

    [infra e]: an error that is none of the service's own sentinels, as the
    database driver, the network or the run-time report them. *)
Definition infra (e : error) : Prop := forall s : sentinel, Is e s = false.

(** An operation that would take the log from [a] to [a'] and answer [spec]
    does exactly that.  Only when the infrastructure below may fail it may
    report an infrastructure error instead; in that case the log is untouched,
    or (a commit whose acknowledgement was lost) the operation took effect as
    a whole. *)
Definition op_outcome {St A : Type} (refines : St -> alog -> Prop) (faulty : Prop) (a a' : alog)
    (spec : result A) (st' : St) (res : result A) : Prop :=
  (refines st' a' /\ res = spec) \/
  (faulty /\ exists e, res = Err e /\ infra e /\ (refines st' a \/ refines st' a')).

Class BlobStoreOk (St : Type) {bs : BlobStore St} := {
  refines : St -> alog -> Prop;
  (** what the store runs on may fail during the next call *)
  faulty : St -> Prop;
  (** the ends of a body [Append] takes for what they are *)
  end_ok : error -> Prop;
  end_ok_clean e : clean_error e -> end_ok e;
  (** the texts and the numbers it can take as arguments *)
  text_ok : string -> Prop;
  int_ok : Z -> Prop;
  (** the accounts whose totals it can report *)
  totals_ok : alog -> string -> Prop;
  BlobReader_Laws :: ReaderLaws BlobReader;
  refines_alog_ok st a : refines st a -> alog_ok a;
  Append_ok {R} `{ReaderLaws R} now st a k prev (r : R) st' r' res :
    refines st a -> key_ok k -> time_zero <= now -> end_ok (rd_err r) -> stream_fits r ->
    Append now st k prev r = (st', r', res) ->
    op_outcome refines (faulty st \/ ~ text_ok prev) a (spec_append now a k prev (body_outcome r)).1
      (spec_append now a k prev (body_outcome r)).2 st' res /\
    exists e0, reads_to r r' e0 /\ (forall e, res = Err (read_body_error e) -> e0 = Some e);
  Get_ok st a k st' res :
    refines st a -> key_ok k -> Get st k = (st', res) ->
    refines st' a /\
    match res with
    | Ok (r, n) =>
        exists b, blob_at a k = Some b /\ n = Z.of_nat (length (ab_data b)) /\
          ((rd_err r = EOF /\ rd_bytes r = ab_data b) \/
           (faulty st /\ infra (rd_err r) /\ rd_bytes r `prefix_of` ab_data b))
    | Err e => (blob_at a k = None /\ e = ErrNotFound) \/ (faulty st /\ infra e)
    end;
  Index_ok st a p d g from limit st' res :
    refines st a -> stream_ok (p, d, g) -> 1 <= limit ->
    Index st p d g from limit = (st', res) ->
    op_outcome refines (faulty st \/ ~ int_ok from) a a (Ok (spec_index a p d g from limit)) st' res;
  Manifest_ok st a p st' res :
    refines st a -> name_ok p -> Manifest st p = (st', res) ->
    op_outcome refines (faulty st \/ ~ totals_ok a p) a a (Ok (spec_manifest a p)) st' res;
  DeleteGeneration_ok st a p d g st' res :
    refines st a -> stream_ok (p, d, g) -> DeleteGeneration st p d g = (st', res) ->
    op_outcome refines (faulty st) a (spec_delete_generation a p d g).1 (spec_delete_generation a p d g).2 st' res;
  DeleteAccount_ok st a p st' res :
    refines st a -> name_ok p -> DeleteAccount st p = (st', res) ->
    op_outcome refines (faulty st) a (spec_delete_account a p).1 (spec_delete_account a p).2 st' res;
  Ping_ok st a st' res :
    refines st a -> Ping st = (st', res) -> op_outcome refines (faulty st) a a (Ok ()) st' res;
}.
