(* ===== verification/LogFacts.v ===== *)
(** Facts about the abstract log of [BlobStore]: its rows as one list (the
    view every scan of a store has of it), how the scans restrict to one
    stream or one account, and that the operations of the specification keep
    the log well formed. *)
From stdpp Require Import sorting.
From S2P Require Import Prelude GoStrings GoError Sha256 GoIO BlobStore.
Local Open Scope Z_scope.

(** * The log as a list of rows *)

Definition key_in (s : stream) (i : nat) : BlobKey :=
  mkBlobKey s.1.1 s.1.2 s.2 (Z.of_nat i + 1).

Definition stream_rows (sl : stream * list ablob) : list (BlobKey * ablob) :=
  imap (fun i b => (key_in sl.1 i, b)) sl.2.

Definition log_rows (a : alog) : list (BlobKey * ablob) :=
  mjoin (stream_rows <$> map_to_list a).

Lemma stream_of_key_in s i : stream_of (key_in s i) = s.
Proof. by destruct s as [[p d] g]. Qed.

Lemma key_in_stream_of k : 1 <= Seq k -> key_in (stream_of k) (Z.to_nat (Seq k - 1)) = k.
Proof. destruct k. unfold key_in, stream_of. simpl. intros. f_equal. lia. Qed.

Lemma key_in_inj s s' i i' : key_in s i = key_in s' i' -> s = s' /\ i = i'.
Proof.
  destruct s as [[p d] g], s' as [[p' d'] g']. unfold key_in. simpl.
  intros E. simplify_eq. split; [done|lia].
Qed.

Lemma blob_at_key_in a s i : blob_at a (key_in s i) = log_of a s !! i.
Proof.
  unfold blob_at. rewrite stream_of_key_in. unfold key_in. simpl.
  rewrite bool_decide_eq_true_2 by lia. f_equal. lia.
Qed.

Lemma elem_of_stream_rows sl k b :
  (k, b) ∈ stream_rows sl <-> exists i, k = key_in sl.1 i /\ sl.2 !! i = Some b.
Proof.
  unfold stream_rows. rewrite elem_of_lookup_imap. split.
  - intros (i & b' & E & Hl). simplify_eq. eauto.
  - intros (i & -> & Hl). eauto.
Qed.

Lemma log_of_Some a s l : a !! s = Some l -> log_of a s = l.
Proof. unfold log_of. by intros ->. Qed.

Lemma log_of_lookup a s i b :
  log_of a s !! i = Some b <-> exists l, a !! s = Some l /\ l !! i = Some b.
Proof.
  unfold log_of. destruct (a !! s) as [l|]; simpl.
  - naive_solver.
  - rewrite lookup_nil. naive_solver.
Qed.

Lemma blob_at_Some a k b :
  blob_at a k = Some b <->
  exists s i, k = key_in s i /\ log_of a s !! i = Some b.
Proof.
  split.
  - unfold blob_at. case_bool_decide; [|done]. intros Hl.
    exists (stream_of k), (Z.to_nat (Seq k - 1)). by rewrite key_in_stream_of.
  - intros (s & i & -> & Hl). by rewrite blob_at_key_in.
Qed.

Lemma elem_of_log_rows a k b : (k, b) ∈ log_rows a <-> blob_at a k = Some b.
Proof.
  unfold log_rows. rewrite list_elem_of_join, blob_at_Some. split.
  - intros (rs & Hk & ([s l] & -> & Hs)%list_elem_of_fmap).
    apply elem_of_map_to_list in Hs. apply elem_of_stream_rows in Hk as (i & -> & Hi).
    exists s, i. split; [done|]. apply log_of_lookup. eauto.
  - intros (s & i & -> & (l & Hs & Hi)%log_of_lookup).
    exists (stream_rows (s, l)). split; [apply elem_of_stream_rows; eauto|].
    apply list_elem_of_fmap. exists (s, l). split; [done|]. by apply elem_of_map_to_list.
Qed.

Lemma NoDup_stream_rows sl : NoDup (stream_rows sl).*1.
Proof.
  unfold stream_rows. rewrite fmap_imap, NoDup_alt. intros i j k Hi Hj.
  rewrite list_lookup_imap in Hi, Hj.
  apply fmap_Some in Hi as (b & _ & ->), Hj as (b' & _ & E).
  by apply key_in_inj in E as [_ ->].
Qed.

Lemma NoDup_log_rows a : NoDup (log_rows a).*1.
Proof.
  unfold log_rows. pose proof (NoDup_fst_map_to_list a) as Hnd. revert Hnd.
  induction (map_to_list a) as [|[s l] L IH]; [constructor|].
  rewrite !fmap_cons, mjoin_cons, fmap_app. intros [Hs Hnd]%NoDup_cons.
  apply NoDup_app. split; [apply NoDup_stream_rows|]. split; [|by apply IH].
  intros k ([k1 b] & -> & Hk)%list_elem_of_fmap ([k2 b2] & E & Hk2)%list_elem_of_fmap.
  simpl in E. subst k2. apply elem_of_stream_rows in Hk as (i & -> & _).
  apply list_elem_of_join in Hk2 as (rs & Hk2 & ([s2 l2] & -> & Hin)%list_elem_of_fmap).
  apply elem_of_stream_rows in Hk2 as (i2 & E & _). apply key_in_inj in E as [E _].
  simpl in E. subst s2. apply Hs. apply list_elem_of_fmap. by exists (s, l2).
Qed.

(** Restricting the rows to one stream gives that stream's rows in order. *)
Lemma log_rows_stream a s :
  filter (fun kb => stream_of kb.1 = s) (log_rows a) ≡ₚ stream_rows (s, log_of a s).
Proof.
  apply NoDup_Permutation.
  - apply NoDup_filter. eapply NoDup_fmap_1, NoDup_log_rows.
  - eapply NoDup_fmap_1, NoDup_stream_rows.
  - intros [k b]. rewrite list_elem_of_filter, elem_of_log_rows, elem_of_stream_rows, blob_at_Some.
    simpl. split.
    + intros (<- & s' & i & -> & Hi). rewrite stream_of_key_in in *. eauto.
    + intros (i & -> & Hi). rewrite stream_of_key_in. eauto.
Qed.

Lemma filter_stream_rows_in (P : stream -> Prop) `{forall s, Decision (P s)} sl :
  P sl.1 -> filter (fun kb => P (stream_of kb.1)) (stream_rows sl) = stream_rows sl.
Proof.
  intros HP. apply list_filter_all. intros [k b] (i & -> & _)%elem_of_stream_rows.
  simpl. by rewrite stream_of_key_in.
Qed.

Lemma filter_stream_rows_out (P : stream -> Prop) `{forall s, Decision (P s)} sl :
  ~ P sl.1 -> filter (fun kb => P (stream_of kb.1)) (stream_rows sl) = [].
Proof.
  intros HP. apply list_filter_none.
  intros [k b] (i & -> & _)%elem_of_stream_rows. simpl. by rewrite stream_of_key_in.
Qed.

(** Restricting the rows to a set of streams. *)
Lemma log_rows_streams (P : stream -> Prop) `{forall s, Decision (P s)} a :
  filter (fun kb => P (stream_of kb.1)) (log_rows a)
  = mjoin (stream_rows <$> filter (fun sl => P sl.1) (map_to_list a)).
Proof.
  unfold log_rows. induction (map_to_list a) as [|sl L IH]; [done|].
  rewrite fmap_cons, mjoin_cons, filter_app, IH, filter_cons.
  case_decide as HP; rewrite ?fmap_cons, ?mjoin_cons.
  - by rewrite filter_stream_rows_in.
  - by rewrite filter_stream_rows_out.
Qed.

Lemma length_stream_rows sl : length (stream_rows sl) = length sl.2.
Proof. apply length_imap. Qed.

Lemma length_mjoin_stream_rows L :
  length (mjoin (stream_rows <$> L)) = sum_list ((fun sl => length sl.2) <$> L).
Proof.
  induction L as [|sl L IH]; [done|]. rewrite !fmap_cons, mjoin_cons. simpl.
  by rewrite length_app, length_stream_rows, IH.
Qed.

Lemma account_blobs_rows a p :
  account_blobs a p = length (filter (fun kb => (stream_of kb.1).1.1 = p) (log_rows a)).
Proof.
  pose proof (f_equal length (log_rows_streams (fun s => s.1.1 = p) a)) as E.
  rewrite length_mjoin_stream_rows in E. symmetry. exact E.
Qed.

(** * Well-formedness of the log *)

(** A hexadecimal name holds no separator. *)
Lemma name_free s : name_ok s -> str_free nul s.
Proof. by apply str_forall_free. Qed.

Lemma alog_ok_empty : alog_ok ∅.
Proof. apply map_Forall_empty. Qed.

Lemma alog_ok_lookup a s l :
  alog_ok a -> a !! s = Some l ->
  stream_ok s /\ l <> [] /\ Z.of_nat (length l) <= 2 ^ 30 /\
  Forall (fun b => ab_data b <> [] /\ time_zero <= ab_at b) l.
Proof. intros Ha. apply (map_Forall_lookup_1 _ _ _ _ Ha). Qed.

Lemma log_of_nonempty a s :
  alog_ok a -> log_of a s <> [] -> a !! s = Some (log_of a s).
Proof. unfold log_of. destruct (a !! s); done. Qed.

Lemma log_of_length a s : alog_ok a -> Z.of_nat (length (log_of a s)) <= 2 ^ 30.
Proof.
  intros Ha. unfold log_of. destruct (a !! s) as [l|] eqn:E; [|simpl; lia].
  by apply (alog_ok_lookup a s l).
Qed.

Lemma blob_at_key_ok a k b :
  alog_ok a -> blob_at a k = Some b ->
  key_ok k /\ ab_data b <> [] /\ time_zero <= ab_at b.
Proof.
  intros Ha (s & i & -> & (l & Hs & Hi)%log_of_lookup)%blob_at_Some.
  destruct (alog_ok_lookup a s l Ha Hs) as ((Hp & Hd & Hg) & _ & Hlen & Hall).
  pose proof (lookup_lt_Some _ _ _ Hi).
  split; [|by apply (Forall_lookup_1 _ _ _ _ Hall Hi)].
  unfold key_ok, key_in. simpl. split_and!; try done; lia.
Qed.

Lemma stream_of_ok k : key_ok k -> stream_ok (stream_of k).
Proof. unfold key_ok, stream_ok, stream_of. naive_solver. Qed.

(** * The operations of the specification keep the log well formed *)

Lemma spec_append_ok now a k prev body :
  alog_ok a -> key_ok k -> time_zero <= now -> alog_ok (spec_append now a k prev body).1.
Proof.
  intros Ha Hk Hnow. unfold spec_append. case_bool_decide as Hseq; [|done].
  destruct body as [[|c data]|e]; try done. simpl. apply map_Forall_insert_2; [|done].
  unfold spec_next in Hseq. destruct Hk as (Hp & Hd & Hg & Hs).
  split_and!; try done.
  - by destruct (log_of a (stream_of k)).
  - rewrite length_app. simpl. lia.
  - apply Forall_app. split; [|by repeat constructor].
    unfold log_of. destruct (a !! stream_of k) as [l|] eqn:E; [|constructor].
    by apply (alog_ok_lookup a (stream_of k) l).
Qed.

Lemma spec_delete_generation_ok a p d g :
  alog_ok a -> alog_ok (spec_delete_generation a p d g).1.
Proof.
  intros Ha. unfold spec_delete_generation. case_bool_decide; [done|]. simpl.
  by apply map_Forall_delete.
Qed.

Lemma spec_delete_account_ok a p : alog_ok a -> alog_ok (spec_delete_account a p).1.
Proof.
  intros Ha s l [Hs _]%map_lookup_filter_Some. by apply (map_Forall_lookup_1 _ _ _ _ Ha).
Qed.

#[export] Hint Resolve alog_ok_empty spec_append_ok spec_delete_generation_ok
  spec_delete_account_ok : go.

(** * What is stored where after an operation *)

Lemma log_of_insert a s s' l :
  log_of (<[s := l]> a) s' = if decide (s = s') then l else log_of a s'.
Proof. unfold log_of. rewrite lookup_insert. by case_decide. Qed.

Lemma log_of_delete a s s' :
  log_of (delete s a) s' = if decide (s = s') then [] else log_of a s'.
Proof. unfold log_of. rewrite lookup_delete. by case_decide. Qed.

Lemma blob_at_log a a' k :
  log_of a (stream_of k) = log_of a' (stream_of k) -> blob_at a k = blob_at a' k.
Proof. unfold blob_at. by intros ->. Qed.

(** A successful append adds its blob at its key and nothing else. *)
Lemma blob_at_append a k b k' :
  Seq k = spec_next a (stream_of k) ->
  blob_at (<[stream_of k := log_of a (stream_of k) ++ [b]]> a) k'
  = if decide (k' = k) then Some b else blob_at a k'.
Proof.
  unfold spec_next. intros Hseq. unfold blob_at. rewrite log_of_insert.
  case_bool_decide as H1; [|case_decide; [subst; lia|done]].
  case_decide as Hs; [|case_decide as E; [by subst|done]].
  rewrite Hs, lookup_app. rewrite Hs in Hseq.
  destruct (log_of a (stream_of k') !! Z.to_nat (Seq k' - 1)) as [b'|] eqn:Hl.
  - apply lookup_lt_Some in Hl. case_decide as E; [subst; lia|done].
  - apply lookup_ge_None in Hl. case_decide as E.
    + subst k'. replace (Z.to_nat (Seq k - 1) - _)%nat with O by lia. done.
    + apply lookup_ge_None_2. simpl.
      enough (Seq k' <> Seq k) by lia. intros E2. apply E.
      destruct k, k'. unfold stream_of in Hs. simpl in *. congruence.
Qed.

Lemma blob_at_delete a s k :
  blob_at (delete s a) k = if decide (stream_of k = s) then None else blob_at a k.
Proof.
  unfold blob_at. rewrite log_of_delete. case_bool_decide; [|by case_decide].
  repeat case_decide; congruence || done.
Qed.

Lemma blob_at_delete_account a p k :
  blob_at (spec_delete_account a p).1 k
  = if decide (Pseudonym k = p) then None else blob_at a k.
Proof.
  unfold blob_at, spec_delete_account, log_of. simpl. rewrite map_lookup_filter.
  destruct (a !! stream_of k) as [l|]; simpl; [|case_bool_decide; by case_decide].
  repeat case_guard; repeat case_bool_decide; repeat case_decide; done || naive_solver.
Qed.

(** * Newest generation *)

Lemma elem_of_generations a p d g :
  g ∈ generations_of a p d <-> is_Some (a !! (p, d, g)).
Proof.
  unfold generations_of. rewrite list_elem_of_fmap. split.
  - intros ([[[p' d'] g'] l] & -> & [E Hin%elem_of_map_to_list]%list_elem_of_filter).
    simpl in *. simplify_eq. by exists l.
  - intros [l Hl]. exists ((p, d, g), l). split; [done|].
    apply list_elem_of_filter. split; [done|]. by apply elem_of_map_to_list.
Qed.

Lemma foldr_max_spec init (l : list Z) :
  (forall x, x ∈ l -> x <= foldr Z.max init l) /\ init <= foldr Z.max init l /\ (foldr Z.max init l = init \/ foldr Z.max init l ∈ l).
Proof.
  induction l as [|x l (H1 & H2 & H3)]; simpl; [split; [set_solver|]; split; [lia|by left]|].
  split; [intros y [->|Hy]%elem_of_cons; [lia|]; specialize (H1 y Hy); lia|].
  split; [lia|]. destruct (Z.max_spec x (foldr Z.max init l)) as [[? ->]|[? ->]]; [|set_solver].
  destruct H3 as [->|H3]; [by left|set_solver].
Qed.

Lemma newest_of_ge a p d g : is_Some (a !! (p, d, g)) -> g <= newest_of a p d.
Proof. intros Hg%elem_of_generations. by apply foldr_max_spec. Qed.

Lemma newest_of_present a p d :
  alog_ok a -> generations_of a p d <> [] -> is_Some (a !! (p, d, newest_of a p d)).
Proof.
  intros Ha Hne. destruct (foldr_max_spec 0 (generations_of a p d)) as (H1 & _ & H3).
  apply elem_of_generations. destruct H3 as [H0|?]; [|done].
  destruct (generations_of a p d) as [|g l] eqn:E; [done|].
  assert (is_Some (a !! (p, d, g))) as [lg Hg] by (apply elem_of_generations; rewrite E; set_solver).
  destruct (alog_ok_lookup a _ lg Ha Hg) as ((_ & _ & Hr) & _). simpl in Hr.
  specialize (H1 g). rewrite H0 in H1. specialize (H1 ltac:(set_solver)). lia.
Qed.

Lemma newest_range a p d : alog_ok a -> 0 <= newest_of a p d <= 2 ^ 30.
Proof.
  intros Ha. destruct (foldr_max_spec 0 (generations_of a p d)) as (_ & H2 & [E|[l Hl]%elem_of_generations]).
  - unfold newest_of in *. lia.
  - fold (newest_of a p d) in *. destruct (alog_ok_lookup a _ _ Ha Hl) as ((_ & _ & ?) & _). simpl in *. lia.
Qed.

(** * Listings *)

Lemma stream_rows_snd sl : (stream_rows sl).*2 = sl.2.
Proof.
  unfold stream_rows. rewrite fmap_imap. generalize sl.2. intros l.
  rewrite <- (list_fmap_id l) at 2. apply (imap_const id).
Qed.

Lemma last_stream_rows s l :
  last (stream_rows (s, l)) = (fun b => (key_in s (length l - 1), b)) <$> last l.
Proof.
  rewrite !last_lookup, length_stream_rows. unfold stream_rows. rewrite list_lookup_imap. simpl.
  destruct l as [|b l]; [done|]. simpl. by rewrite Nat.sub_0_r.
Qed.

(** Two summaries of one account about the same device and generation are the
    same summary. *)
Lemma summaries_antisym a p x y :
  x ∈ spec_summary <$> filter (fun sl => sl.1.1.1 = p) (map_to_list a) ->
  y ∈ spec_summary <$> filter (fun sl => sl.1.1.1 = p) (map_to_list a) ->
  summary_le x y -> summary_le y x -> x = y.
Proof.
  intros ([[[p1 d1] g1] l1] & -> & [E1 H1]%list_elem_of_filter)%list_elem_of_fmap.
  intros ([[[p2 d2] g2] l2] & -> & [E2 H2]%list_elem_of_filter)%list_elem_of_fmap.
  apply elem_of_map_to_list in H1, H2. simpl in *. subst. unfold summary_le. simpl.
  intros Hxy Hyx. assert (d1 = d2) as ->.
  { repeat case_decide; try congruence. by apply (anti_symm String.le). }
  rewrite !decide_True in Hxy, Hyx by done. assert (g1 = g2) as -> by lia.
  rewrite H1 in H2. by injection H2 as ->.
Qed.

(** Two entries of one stream with the same number are the same entry. *)
Lemma entries_antisym (P : Entry -> Prop) `{forall e, Decision (P e)} l x y :
  x ∈ filter P (imap spec_entry l) -> y ∈ filter P (imap spec_entry l) ->
  entry_le x y -> entry_le y x -> x = y.
Proof.
  intros [_ (i & b & -> & Hi)%elem_of_lookup_imap]%list_elem_of_filter
    [_ (j & c & -> & Hj)%elem_of_lookup_imap]%list_elem_of_filter.
  unfold entry_le. simpl. intros. assert (i = j) as -> by lia. by simplify_eq.
Qed.

#[export] Instance entry_le_trans : Transitive entry_le.
Proof. intros x y z. unfold entry_le. lia. Qed.

#[export] Instance entry_le_total : Total entry_le.
Proof. intros x y. unfold entry_le. lia. Qed.

#[export] Instance summary_le_trans : Transitive summary_le.
Proof.
  intros x y z. unfold summary_le. repeat case_decide; try congruence; intros Hxy Hyz.
  - lia.
  - assert (Summary_DeviceID x = Summary_DeviceID y) by (apply (anti_symm String.le); congruence).
    congruence.
  - by etrans.
Qed.

#[export] Instance summary_le_total : Total summary_le.
Proof.
  intros x y. unfold summary_le. repeat case_decide; try congruence; [lia|].
  apply (total String.le).
Qed.
