(* ===== verification/Trace.v ===== *)
(** Sequences of store calls and what a caller observes of them, for any
    implementation of the [BlobStore] interface and for the abstract log; and
    the properties of the abstract log that make the service correct
    (append-only growth, isolation of accounts, retention, erasure, paging).
    The stores inherit them through [BlobStoreOk]. *)
From stdpp Require Import sorting.
From S2P Require Import Prelude GoStrings GoError Sha256 GoIO BlobStore LogFacts.
Local Open Scope Z_scope.

(** * Calls and observations *)

Inductive op :=
  | OpAppend (now : Z) (k : BlobKey) (prev : string) (body : source)
  | OpGet (k : BlobKey)
  | OpIndex (p d : string) (g from limit : Z)
  | OpManifest (p : string)
  | OpDeleteGeneration (p d : string) (g : Z)
  | OpDeleteAccount (p : string).

(** [ObsGet] is the downloaded content (the reader drained to its end) and
    the announced size. *)
Inductive obs :=
  | ObsAppend (r : result (string * Z))
  | ObsGet (r : result (bytes * Z))
  | ObsIndex (r : result (list Entry))
  | ObsManifest (r : result (list DeviceSummary))
  | ObsDelete (r : result Z).

(** The account an operation acts for. *)
Definition op_account (o : op) : string :=
  match o with
  | OpAppend _ k _ _ | OpGet k => Pseudonym k
  | OpIndex p _ _ _ _ | OpManifest p | OpDeleteGeneration p _ _ | OpDeleteAccount p => p
  end.

(** The arguments the handlers pass on. *)
Definition op_ok (ends : error -> Prop) (o : op) : Prop :=
  match o with
  | OpAppend now k _ body => key_ok k /\ time_zero <= now /\ ends (rd_err body) /\ stream_fits body
  | OpGet k => key_ok k
  | OpIndex p d g _ limit => stream_ok (p, d, g) /\ 1 <= limit
  | OpManifest p | OpDeleteAccount p => name_ok p
  | OpDeleteGeneration p d g => stream_ok (p, d, g)
  end.

(** Reading a download to its end. *)
Definition drained {R} `{Reader R} (res : result (R * Z)) : result (bytes * Z) :=
  match res with
  | Ok (r, n) =>
      match (ReadAll r).2 with
      | (b, None) => Ok (b, n)
      | (_, Some e) => Err e
      end
  | Err e => Err e
  end.

Definition apply_op {St} `{BlobStore St} (st : St) (o : op) : St * obs :=
  match o with
  | OpAppend now k prev body =>
      let '(st', _, res) := Append now st k prev body in (st', ObsAppend res)
  | OpGet k => let '(st', res) := Get st k in (st', ObsGet (drained res))
  | OpIndex p d g from limit =>
      let '(st', res) := Index st p d g from limit in (st', ObsIndex res)
  | OpManifest p => let '(st', res) := Manifest st p in (st', ObsManifest res)
  | OpDeleteGeneration p d g =>
      let '(st', res) := DeleteGeneration st p d g in (st', ObsDelete res)
  | OpDeleteAccount p => let '(st', res) := DeleteAccount st p in (st', ObsDelete res)
  end.

Fixpoint run {St} `{BlobStore St} (st : St) (os : list op) : St * list obs :=
  match os with
  | [] => (st, [])
  | o :: os' =>
      let '(st', ob) := apply_op st o in
      let '(st'', obs) := run st' os' in (st'', ob :: obs)
  end.

Definition spec_op (a : alog) (o : op) : alog * obs :=
  match o with
  | OpAppend now k prev body =>
      let '(a', res) := spec_append now a k prev (body_outcome body) in (a', ObsAppend res)
  | OpGet k =>
      (a, ObsGet (match blob_at a k with
                  | Some b => Ok (ab_data b, Z.of_nat (length (ab_data b)))
                  | None => Err ErrNotFound
                  end))
  | OpIndex p d g from limit => (a, ObsIndex (Ok (spec_index a p d g from limit)))
  | OpManifest p => (a, ObsManifest (Ok (spec_manifest a p)))
  | OpDeleteGeneration p d g =>
      let '(a', res) := spec_delete_generation a p d g in (a', ObsDelete res)
  | OpDeleteAccount p => let '(a', res) := spec_delete_account a p in (a', ObsDelete res)
  end.

Fixpoint spec_run (a : alog) (os : list op) : alog * list obs :=
  match os with
  | [] => (a, [])
  | o :: os' =>
      let '(a', ob) := spec_op a o in
      let '(a'', obs) := spec_run a' os' in (a'', ob :: obs)
  end.

Definition obs_infra (ob : obs) : Prop :=
  match ob with
  | ObsAppend (Err e) | ObsGet (Err e) | ObsIndex (Err e) | ObsManifest (Err e)
  | ObsDelete (Err e) => infra e
  | _ => False
  end.

(** * Every implementation acts as the abstract log, or fails safely *)

Lemma drained_ok {R} `{ReaderLaws R} (r : R) n :
  rd_err r = EOF -> drained (Ok (r, n)) = Ok (rd_bytes r, n).
Proof.
  intros He. unfold drained. destruct (ReadAll_ok r) as (r' & bs & -> & Hbs & _). simpl.
  rewrite bool_decide_eq_true_2 by done. by rewrite Hbs.
Qed.

Lemma drained_err {R} `{ReaderLaws R} (r : R) n :
  rd_err r <> EOF -> drained (Ok (r, n)) = Err (rd_err r).
Proof.
  intros He. unfold drained. destruct (ReadAll_ok r) as (r' & bs & -> & _). simpl.
  by rewrite bool_decide_eq_false_2.
Qed.

Lemma infra_not_EOF e : infra e -> e <> EOF.
Proof. intros Hi ->. specialize (Hi EOF). by rewrite Is_Sentinel in Hi. Qed.

(** When an operation may report trouble below the service. *)
Definition op_excused {St} `{BlobStoreOk St} (st : St) (a : alog) (o : op) : Prop :=
  faulty st \/
  match o with
  | OpAppend _ _ prev _ => ~ text_ok prev
  | OpIndex _ _ _ from _ => ~ int_ok from
  | OpManifest p => ~ totals_ok a p
  | _ => False
  end.

Lemma apply_op_ok {St} `{BlobStoreOk St} (st : St) a o :
  refines st a -> op_ok end_ok o ->
  let '(st', ob) := apply_op st o in
  let '(a', ob') := spec_op a o in
  (refines st' a' /\ ob = ob') \/ (op_excused st a o /\ obs_infra ob /\ (refines st' a \/ refines st' a')).
Proof.
  unfold op_excused. intros Hr Ho. destruct o as [now k prev body|k|p d g from limit|p|p d g|p]; simpl in *.
  - destruct Ho as (Hk & Hnow & Hc & Hf). destruct (Append now st k prev body) as [[st' r'] res] eqn:E.
    destruct (Append_ok now st a k prev body st' r' res Hr Hk Hnow Hc Hf E) as [Hop _].
    destruct (spec_append now a k prev (body_outcome body)) as [a' sp].
    simpl in Hop. destruct Hop as [[? ->]|(? & e & -> & ? & ?)]; [by left|right; simpl; auto 6].
  - destruct (Get st k) as [st' res] eqn:E. destruct (Get_ok st a k st' res Hr Ho E) as [Hr' Hres].
    destruct res as [[r n]|e].
    + destruct Hres as (b & -> & -> & [[He Hb]|(Hf & Hi & _)]).
      * left. by rewrite drained_ok, Hb.
      * right. rewrite drained_err by (by apply infra_not_EOF). simpl; auto 6.
    + destruct Hres as [[-> ->]|[Hf Hi]]; [by left|right; simpl; auto 6].
  - destruct (Index st p d g from limit) as [st' res] eqn:E. destruct Ho as [Hs Hl].
    destruct (Index_ok st a p d g from limit st' res Hr Hs Hl E) as [[? ->]|(? & e & -> & ? & ?)];
      [by left|right; simpl; auto 6].
  - destruct (Manifest st p) as [st' res] eqn:E.
    destruct (Manifest_ok st a p st' res Hr Ho E) as [[? ->]|(? & e & -> & ? & ?)]; [by left|right; simpl; auto 6].
  - destruct (DeleteGeneration st p d g) as [st' res] eqn:E.
    pose proof (DeleteGeneration_ok st a p d g st' res Hr Ho E) as Hop.
    destruct (spec_delete_generation a p d g) as [a' sp].
    simpl in Hop. destruct Hop as [[? ->]|(? & e & -> & ? & ?)]; [by left|right; simpl; auto 6].
  - destruct (DeleteAccount st p) as [st' res] eqn:E.
    destruct (DeleteAccount_ok st a p st' res Hr Ho E) as [[? ->]|(? & e & -> & ? & ?)];
      [by left|right; simpl; auto 6].
Qed.

(** A store whose every call acts as the abstract log has, on every sequence of
    calls, the observations of the abstract log. *)
Lemma run_exact {St} `{BlobStore St} (ends : error -> Prop)
    (rel : St -> alog -> Prop) (st : St) a os :
  (forall st a o, rel st a -> op_ok ends o ->
     rel (apply_op st o).1 (spec_op a o).1 /\ (apply_op st o).2 = (spec_op a o).2) ->
  rel st a -> Forall (op_ok ends) os ->
  rel (run st os).1 (spec_run a os).1 /\ (run st os).2 = (spec_run a os).2.
Proof.
  intros Hstep Hr Hos. revert st a Hr. induction Hos as [|o os Ho Hos IH]; intros st a Hr; [done|].
  simpl. destruct (Hstep st a o Hr Ho) as [Hr' Hob].
  destruct (apply_op st o) as [st' ob], (spec_op a o) as [a' ob']. simpl in *. subst ob'.
  destruct (IH st' a' Hr') as [IH1 IH2].
  destruct (run st' os) as [st'' obs1], (spec_run a' os) as [a'' obs2]. simpl in *. by subst.
Qed.

(** Whatever fails, the store still holds some well-formed log. *)
Lemma run_refines {St} `{BlobStoreOk St} (st : St) a os :
  refines st a -> Forall (op_ok end_ok) os -> exists a', refines (run st os).1 a'.
Proof.
  intros Hr Hos. revert st a Hr. induction Hos as [|o os Ho Hos IH]; intros st a Hr; [eauto|].
  simpl. pose proof (apply_op_ok st a o Hr Ho) as Hstep.
  destruct (apply_op st o) as [st' ob], (spec_op a o) as [a' ob'].
  assert (exists a1, refines st' a1) as [a1 Hr1] by naive_solver.
  destruct (IH st' a1 Hr1) as [a2 Hr2]. destruct (run st' os) as [st'' obs']. eauto.
Qed.

(** * Isolation of accounts *)

(** The part of the log one account can address. *)
Definition same_account (p : string) (a a' : alog) : Prop :=
  forall s, s.1.1 = p -> a !! s = a' !! s.

Lemma same_account_refl p a : same_account p a a.
Proof. done. Qed.

Lemma spec_append_isolated now a k prev body q :
  Pseudonym k <> q -> same_account q a (spec_append now a k prev body).1.
Proof.
  intros Hq s Hs. unfold spec_append. case_bool_decide; [|done].
  destruct body as [[|c data]|e]; try done. simpl.
  rewrite lookup_insert_ne; [done|]. intros <-. by destruct k.
Qed.

Lemma spec_append_local now a a' k prev body :
  same_account (Pseudonym k) a a' ->
  (spec_append now a k prev body).2 = (spec_append now a' k prev body).2.
Proof.
  intros Hs. unfold spec_append, spec_next, log_of. rewrite (Hs (stream_of k)) by done.
  case_bool_decide; [|done]. by destruct body as [[|c data]|e].
Qed.

Lemma spec_op_isolated a o q :
  op_account o <> q -> same_account q a (spec_op a o).1.
Proof.
  intros Hq s Hs.
  destruct o as [now k prev body|k|p d g from limit|p|p d g|p]; simpl in *; try done.
  - pose proof (spec_append_isolated now a k prev (body_outcome body) q Hq s Hs) as E.
    by destruct (spec_append _ _ _ _ _).
  - unfold spec_delete_generation. case_bool_decide; [done|]. simpl.
    rewrite lookup_delete_ne; [done|]. intros <-. done.
  - rewrite map_lookup_filter. destruct (a !! s) as [l|]; [|done]. simpl.
    case_guard; [done|]. naive_solver.
Qed.

Lemma same_account_streams p a a' :
  same_account p a a' ->
  filter (fun sl : stream * list ablob => sl.1.1.1 = p) (map_to_list a)
  ≡ₚ filter (fun sl => sl.1.1.1 = p) (map_to_list a').
Proof.
  intros Hs. apply NoDup_Permutation; [apply NoDup_filter, NoDup_map_to_list..|].
  intros [s l]. rewrite !list_elem_of_filter, !elem_of_map_to_list. simpl. 
  split; intros [E Hl]; (split; [done|]); [by rewrite <- Hs|by rewrite Hs].
Qed.

(** What an account observes depends on its own streams only. *)
Lemma spec_op_local a a' o :
  same_account (op_account o) a a' -> (spec_op a o).2 = (spec_op a' o).2.
Proof.
  intros Hs.
  assert (forall s, s.1.1 = op_account o -> log_of a s = log_of a' s) as Hlog.
  { intros s E. unfold log_of. by rewrite Hs. }
  destruct o as [now k prev body|k|p d g from limit|p|p d g|p]; simpl in *.
  - pose proof (spec_append_local now a a' k prev (body_outcome body) Hs) as E.
    destruct (spec_append _ a _ _ _), (spec_append _ a' _ _ _). simpl in *. by rewrite E.
  - unfold blob_at. by rewrite (Hlog (stream_of k)).
  - unfold spec_index. by rewrite (Hlog (p, d, g)).
  - do 2 f_equal. apply merge_sort_unique; [apply _..| |].
    + intros x y. apply summaries_antisym.
    + by apply fmap_Permutation, same_account_streams.
  - unfold spec_delete_generation.
    assert (generations_of a p d ≡ₚ generations_of a' p d) as Hg.
    { pose proof (same_account_streams p a a' Hs) as Hp.
      apply (filter_Permutation (fun sl : stream * list ablob => sl.1.1 = (p, d))) in Hp.
      rewrite !list_filter_filter_l in Hp by (by intros ? ->).
      unfold generations_of. by apply fmap_Permutation. }
    assert (newest_of a p d = newest_of a' p d) as ->.
    { unfold newest_of. apply (zmax_perm id 0) in Hg. done. }
    rewrite (bool_decide_ext _ (generations_of a' p d <> [] /\ newest_of a' p d - RetainedGenerations < g)).
    2:{ assert (generations_of a p d = [] <-> generations_of a' p d = []) as E; [|tauto].
        split; intros E; rewrite E in Hg; [by apply Permutation_nil in Hg|by apply Permutation_nil_r in Hg]. }
    case_bool_decide; [done|]. simpl. by rewrite (Hlog (p, d, g)).
  - unfold spec_delete_account, account_blobs. simpl. do 3 f_equal.
    by rewrite (same_account_streams p a a' Hs).
Qed.

(** The observations made by the account [q] in a run. *)
Fixpoint account_obs (q : string) (os : list op) (seen : list obs) : list obs :=
  match os, seen with
  | o :: os', ob :: seen' =>
      if decide (op_account o = q) then ob :: account_obs q os' seen' else account_obs q os' seen'
  | _, _ => []
  end.

Lemma spec_op_same_account q a a' o :
  same_account q a a' -> op_account o = q ->
  same_account q (spec_op a o).1 (spec_op a' o).1.
Proof.
  intros Hs Hq s E. pose proof (spec_op_local a a' o ltac:(by rewrite Hq)) as Hobs.
  assert (forall s, s.1.1 = q -> log_of a s = log_of a' s) as Hlog.
  { intros s' E'. unfold log_of. by rewrite Hs. }
  destruct o as [now k prev body|k|p d g from limit|p|p d g|p]; simpl in *; subst q; try by apply Hs.
  - revert Hobs. unfold spec_append, spec_next. rewrite (Hlog (stream_of k)) by done.
    case_bool_decide; [|intros; by apply Hs].
    destruct (body_outcome body) as [[|c data]|e]; try (intros; by apply Hs). intros _. simpl.
    rewrite !lookup_insert. case_decide; [done|by apply Hs].
  - revert Hobs. unfold spec_delete_generation. repeat case_bool_decide; try done;
      intros _; simpl; [by apply Hs|].
    rewrite !lookup_delete. case_decide; [done|by apply Hs].
  - rewrite !map_lookup_filter. by rewrite (Hs s E).
Qed.

(** The operations of other accounts could as well not have happened. *)
Lemma spec_run_noninterference q a a' os :
  same_account q a a' ->
  account_obs q os (spec_run a os).2
  = (spec_run a' (filter (fun o => op_account o = q) os)).2.
Proof.
  revert a a'. induction os as [|o os IH]; intros a a' Hs; [done|].
  rewrite filter_cons. simpl.
  pose proof (spec_op_isolated a o q) as Hiso. pose proof (spec_op_local a a' o) as Hloc.
  pose proof (spec_op_same_account q a a' o Hs) as Hsame.
  destruct (spec_op a o) as [a1 ob]. simpl in *.
  destruct (spec_run a1 os) as [a2 obs] eqn:Er.
  case_decide as Hq; simpl.
  - subst q. specialize (Hloc Hs). specialize (Hsame eq_refl).
    destruct (spec_op a' o) as [a1' ob']. simpl in *. subst ob'.
    specialize (IH a1 a1' Hsame). rewrite Er in IH. simpl in IH. rewrite IH.
    by destruct (spec_run a1' _).
  - specialize (IH a1 a'). rewrite Er in IH. apply IH. intros s E.
    rewrite <- (Hiso Hq s E). by apply Hs.
Qed.

(** * Pages of the index *)

Lemma filter_imap_from (l : list ablob) (j i : nat) :
  filter (fun e => Z.of_nat i + 1 <= Entry_Seq e) (imap (fun x => spec_entry (j + x)) l)
  = imap (fun x => spec_entry (j + ((i - j) + x))) (drop (i - j) l).
Proof.
  revert j. induction l as [|b l IH]; intros j; [by rewrite drop_nil|].
  rewrite imap_cons, filter_cons. unfold spec_entry at 1. simpl.
  rewrite (imap_ext _ (fun x => spec_entry (S j + x))) by (intros; simpl; f_equal; lia).
  rewrite IH. case_decide as Hd.
  - replace (i - j)%nat with O by lia. replace (i - S j)%nat with O by lia.
    rewrite !drop_0, imap_cons. f_equal.
    apply imap_ext. intros. simpl. f_equal. lia.
  - replace (i - j)%nat with (S (i - S j)) by lia. simpl.
    apply imap_ext. intros. f_equal. lia.
Qed.

Lemma spec_index_drop a p d g (i : nat) limit :
  spec_index a p d g (Z.of_nat i + 1) limit
  = take (Z.to_nat limit) (drop i (imap spec_entry (log_of a (p, d, g)))).
Proof.
  unfold spec_index. f_equal.
  pose proof (filter_imap_from (log_of a (p, d, g)) 0 i) as E. rewrite Nat.sub_0_r in E.
  etrans; [exact E|]. clear E. generalize (log_of a (p, d, g)). intros l.
  apply list_eq. intros x. rewrite lookup_drop, !list_lookup_imap, lookup_drop. done.
Qed.

(** Consecutive pages join without gap or overlap. *)
Lemma spec_index_pages a p d g from n1 n2 :
  1 <= from -> 0 <= n1 -> 0 <= n2 ->
  spec_index a p d g from n1 ++ spec_index a p d g (from + n1) n2
  = spec_index a p d g from (n1 + n2).
Proof.
  intros Hf H1 H2. set (i := Z.to_nat (from - 1)).
  replace from with (Z.of_nat i + 1) by lia.
  replace (Z.of_nat i + 1 + n1) with (Z.of_nat (i + Z.to_nat n1) + 1) by lia.
  rewrite !spec_index_drop, <- drop_drop, Z2Nat.inj_add by lia.
  apply take_take_drop.
Qed.
