(* ===== verification/Tracing.v ===== *)
(** [internal/blobstore/tracing.go]: [WithTracing] wraps a store so that every
    call runs in a span.  A span is what is handed to the telemetry backend
    when it ends: its name, the sizes and counts set on it, and the error
    recorded. *)
From S2P Require Import Prelude GoStrings GoError GoIO BlobStore LogFacts Trace.
Local Open Scope Z_scope.

Record span := mkSpan {
  span_name : string;
  span_attribute : string * Z;
  span_error : option error;
}.

Record tracingStore (St : Type) := mkTracingStore {
  next : St;
  spans : list span;
}.
Arguments mkTracingStore {St} _ _.
Arguments next {St} _.
Arguments spans {St} _.

Section tracing.
Context {St : Type} {bs : BlobStore St}.
Abbreviation tracingStore := (tracingStore St).

Definition WithTracing (st : St) : tracingStore := mkTracingStore st [].

(** [recordErr] *)
Definition recordErr {A} (res : result A) : option error :=
  match res with Ok _ => None | Err e => Some e end.

(** The span around a call that left the store at [st] with the outcome
    [res]; [size] is the number its attribute reports, 0 beside an error. *)
Definition ended {A} (name attribute : string) (size : A -> Z) (t : tracingStore) (st : St) (res : result A)
    : tracingStore :=
  let n := match res with Ok a => size a | Err _ => 0 end in
  mkTracingStore st (spans t ++ [mkSpan name (attribute, n) (recordErr res)]).

Definition tr_Append {R : Type} {rr : Reader R} (now : Z) (t : tracingStore) (k : BlobKey) (prev : string) (body : R)
    : tracingStore * R * result (string * Z) :=
  let '(st, r, res) := Append now (next t) k prev body in
  (ended "blobstore.Append" "blob.bytes" snd t st res, r, res).

Definition tr_Get (t : tracingStore) (k : BlobKey) : tracingStore * result (BlobReader * Z) :=
  let '(st, res) := Get (next t) k in
  (ended "blobstore.Get" "blob.bytes" snd t st res, res).

Definition tr_Index (t : tracingStore) (p d : string) (g from limit : Z) : tracingStore * result (list Entry) :=
  let '(st, res) := Index (next t) p d g from limit in
  (ended "blobstore.Index" "entries" (fun l => Z.of_nat (length l)) t st res, res).

Definition tr_Manifest (t : tracingStore) (p : string) : tracingStore * result (list DeviceSummary) :=
  let '(st, res) := Manifest (next t) p in
  (ended "blobstore.Manifest" "devices" (fun l => Z.of_nat (length l)) t st res, res).

Definition tr_DeleteGeneration (t : tracingStore) (p d : string) (g : Z) : tracingStore * result Z :=
  let '(st, res) := DeleteGeneration (next t) p d g in
  (ended "blobstore.DeleteGeneration" "rows" id t st res, res).

Definition tr_DeleteAccount (t : tracingStore) (p : string) : tracingStore * result Z :=
  let '(st, res) := DeleteAccount (next t) p in
  (ended "blobstore.DeleteAccount" "rows" id t st res, res).

Definition tr_Ping (t : tracingStore) : tracingStore * result unit :=
  let '(st, res) := Ping (next t) in (mkTracingStore st (spans t), res).

#[export] Instance tracingStore_BlobStore : BlobStore tracingStore := {|
  BlobReader := BlobReader;
  Append := fun R rr => tr_Append;
  Get := tr_Get;
  Index := tr_Index;
  Manifest := tr_Manifest;
  DeleteGeneration := tr_DeleteGeneration;
  DeleteAccount := tr_DeleteAccount;
  Ping := tr_Ping;
|}.

(** * The wrapper keeps every promise of the store *)

Lemma op_outcome_ended {A X : Type} (refines : St -> alog -> Prop) (P : Prop) a a' (spec : result A) name attr
    (size : X -> Z) t st (res' : result X) (res : result A) :
  op_outcome refines P a a' spec st res ->
  op_outcome (fun t => refines (next t)) P a a' spec (ended name attr size t st res') res.
Proof. done. Qed.

#[export] Program Instance tracingStore_Ok {ok : BlobStoreOk St} : BlobStoreOk tracingStore := {|
  refines t := refines (next t);
  faulty t := faulty (next t);
  end_ok := end_ok;
  text_ok := text_ok;
  int_ok := int_ok;
  totals_ok := totals_ok;
|}.
Next Obligation. intros ok. apply end_ok_clean. Qed.
Next Obligation. intros ok. exact (@BlobReader_Laws St bs ok). Qed.
Next Obligation. intros ok t a. apply (refines_alog_ok (next t)). Qed.
Next Obligation.
  intros ok R rr rs rl now t a k prev r t' r' res Hr Hk Hnow He Hf. simpl. unfold tr_Append.
  destruct (Append now (next t) k prev r) as [[st r1] res1] eqn:E. intros [= <- <- <-].
  destruct (Append_ok now (next t) a k prev r st r1 res1 Hr Hk Hnow He Hf E). split; [by apply op_outcome_ended|done].
Qed.
Next Obligation.
  intros ok t a k t' res Hr Hk. simpl. unfold tr_Get. destruct (Get (next t) k) as [st res1] eqn:E.
  intros [= <- <-]. by apply (Get_ok (next t)).
Qed.
Next Obligation.
  intros ok t a p d g from limit t' res Hr Hs Hl. simpl. unfold tr_Index.
  destruct (Index _ _ _ _ _ _) as [st res1] eqn:E. intros [= <- <-]. by eapply op_outcome_ended, Index_ok.
Qed.
Next Obligation.
  intros ok t a p t' res Hr Hp. simpl. unfold tr_Manifest.
  destruct (Manifest _ _) as [st res1] eqn:E. intros [= <- <-]. by eapply op_outcome_ended, Manifest_ok.
Qed.
Next Obligation.
  intros ok t a p d g t' res Hr Hs. simpl. unfold tr_DeleteGeneration.
  destruct (DeleteGeneration _ _ _ _) as [st res1] eqn:E. intros [= <- <-].
  by eapply op_outcome_ended, DeleteGeneration_ok.
Qed.
Next Obligation.
  intros ok t a p t' res Hr Hp. simpl. unfold tr_DeleteAccount.
  destruct (DeleteAccount _ _) as [st res1] eqn:E. intros [= <- <-]. by eapply op_outcome_ended, DeleteAccount_ok.
Qed.
Next Obligation.
  intros ok t a t' res Hr. simpl. unfold tr_Ping. destruct (Ping (next t)) as [st res1] eqn:E. intros [= <- <-].
  exact (Ping_ok (next t) a st res1 Hr E).
Qed.

(** * What the telemetry backend learns *)

Definition op_name (o : op) : string :=
  match o with
  | OpAppend _ _ _ _ => "blobstore.Append"
  | OpGet _ => "blobstore.Get"
  | OpIndex _ _ _ _ _ => "blobstore.Index"
  | OpManifest _ => "blobstore.Manifest"
  | OpDeleteGeneration _ _ _ => "blobstore.DeleteGeneration"
  | OpDeleteAccount _ => "blobstore.DeleteAccount"
  end.

Definition reports_result {A} (attr : string) (size : A -> Z) (res : result A) (sp : span) : Prop :=
  match res with
  | Ok a => span_attribute sp = (attr, size a) /\ span_error sp = None
  | Err e => span_attribute sp = (attr, 0) /\ span_error sp = Some e
  end.

(** What a span tells of a call: which operation it was, one size or count,
    and the error. A download whose reader fails later is reported as the
    successful lookup it was. *)
Definition reports (call : op * obs) (sp : span) : Prop :=
  span_name sp = op_name call.1 /\
  match call.2 with
  | ObsAppend res => reports_result "blob.bytes" snd res sp
  | ObsGet res => reports_result "blob.bytes" snd res sp \/
      (is_ok res = false /\ exists n, span_attribute sp = ("blob.bytes", n) /\ span_error sp = None)
  | ObsIndex res => reports_result "entries" (fun l => Z.of_nat (length l)) res sp
  | ObsManifest res => reports_result "devices" (fun l => Z.of_nat (length l)) res sp
  | ObsDelete res => reports_result "rows" id res sp
  end.

Lemma apply_op_traced (t : tracingStore) o :
  let '(t', ob) := apply_op t o in
  let '(st', ob') := apply_op (next t) o in
  next t' = st' /\ ob = ob' /\ exists sp, spans t' = spans t ++ [sp] /\ reports (o, ob) sp.
Proof.
  destruct o as [now k prev body|k|p d g from limit|p|p d g|p]; simpl.
  - unfold tr_Append. destruct (Append now (next t) k prev body) as [[st r] res].
    split; [done|]. split; [done|]. eexists. split; [done|]. by destruct res as [[]|].
  - unfold tr_Get. destruct (Get (next t) k) as [st res].
    split; [done|]. split; [done|]. eexists. split; [done|]. split; [done|].
    destruct res as [[r n]|e]; [|by left]. simpl.
    destruct (ReadAll r) as [r' [b [e|]]]; [right; eauto|by left].
  - unfold tr_Index. destruct (Index _ _ _ _ _ _) as [st res].
    split; [done|]. split; [done|]. eexists. split; [done|]. by destruct res.
  - unfold tr_Manifest. destruct (Manifest _ _) as [st res].
    split; [done|]. split; [done|]. eexists. split; [done|]. by destruct res.
  - unfold tr_DeleteGeneration. destruct (DeleteGeneration _ _ _ _) as [st res].
    split; [done|]. split; [done|]. eexists. split; [done|]. by destruct res.
  - unfold tr_DeleteAccount. destruct (DeleteAccount _ _) as [st res].
    split; [done|]. split; [done|]. eexists. split; [done|]. by destruct res.
Qed.


End tracing.
