(* ===== verification/Handlers.v ===== *)
(** [internal/server/handlers]: the endpoints, one definition per handler.

    The blob store is any implementation of the [BlobStore] interface.  Times
    in a response are rendered by [time.Time.MarshalJSON], which depends on
    the zone of the process, so the rendering is a parameter. *)
From S2P Require Import Prelude GoStrings GoError Json Url AuthProof GoIO BlobStore Bodies Http.
Local Open Scope Z_scope.

(** [time.Time.MarshalJSON] in the process's zone. *)
Class TimeFormat := { MarshalTime : Z -> bytes }.

(** * Parameters *)

Definition ContentTypeOctetStream : string := "application/octet-stream".
Definition DefaultIndexLimit : Z := 500.

(** [parsePathInt]: the loop over the characters; a byte outside ASCII is
    part of a rune that is no digit. *)
Fixpoint parsePathInt_loop (raw : bytes) (n : Z) : option Z :=
  match raw with
  | [] => if n <? 1 then None else Some n
  | c :: raw' =>
      if (byte_val c <? 48) || (57 <? byte_val c) then None
      else
        let n := wrap64 (wrap64 (n * 10) + (byte_val c - 48)) in
        if Z.shiftl 1 30 <? n then None else parsePathInt_loop raw' n
  end.

Definition parsePathInt (raw : string) : option Z :=
  if bool_decide (raw = "") then None else parsePathInt_loop (bytes_of_string raw) 0.

Section handlers.
Context {crypto : Crypto} {tf : TimeFormat} {St NSt : Type} {bs : BlobStore St}.
Abbreviation world := (world St NSt).
Abbreviation ResponseWriter := (ResponseWriter St NSt).
Abbreviation handler := (handler St NSt).

Definition positiveIntParam (r : request) (name : string) : option Z :=
  match Atoi (Query_Get (ReqURL r) name) with
  | None => None
  | Some v => if (v <? 1) || (Z.shiftl 1 30 <? v) then None else Some v
  end.

Definition optionalIntParam (r : request) (name : string) (fallback : Z) : Z :=
  match Atoi (Query_Get (ReqURL r) name) with None => fallback | Some v => v end.

(** The account: the authenticated identity, and nothing else. *)
Definition pseudonym (w : ResponseWriter) (r : request) (s : world) : world * string :=
  match GetIdentityKey r with
  | None => (WriteError w 401 "ERR_AUTH_REQUIRED" "Authentication required." s, "")
  | Some key => (s, ToDERHex key)
  end.

Definition deviceID (w : ResponseWriter) (raw : string) (s : world) : world * option string :=
  if negb (match_lower_hex 32 raw) then
    (WriteError w 400 "ERR_INVALID_DEVICE_ID"
       "Device id must be 32 lowercase hexadecimal characters." s, None)
  else (s, Some raw).

(** * Append *)

Definition append_json (seq size : Z) (sha : string) : json :=
  JObj [ (bytes_of_string "seq", JInt seq);
         (bytes_of_string "sha256", JString sha);
         (bytes_of_string "size", JInt size);
         (bytes_of_string "status", JString "success") ].

Definition handle_Append : handler := fun w r s =>
  let '(s, account) := pseudonym w r s in
  if bool_decide (account = "") then s
  else if negb (bool_decide (Header_Get r "Content-Type" = ContentTypeOctetStream)) then
    WriteError w 415 "ERR_UNSUPPORTED_MEDIA_TYPE" "Body must be application/octet-stream." s
  else
    match deviceID w (URLParam r "deviceId") s with
    | (s, None) => s
    | (s, Some device) =>
        match positiveIntParam r "seq", positiveIntParam r "generation" with
        | Some seq, Some generation =>
            let key := mkBlobKey account device generation seq in
            let '(st, body, res) := Append (t_store (w_times s)) (w_store s) key
              (Query_Get (ReqURL r) "prevSha256") (w_body s) in
            let s := set_body body (set_store st s) in
            match res with
            | Ok (sha, size) => WriteJSON w 201 (append_json seq size sha) s
            | Err e =>
                if Is e ErrSeqConflict then WriteError w 409 "ERR_SEQ_CONFLICT" (Error e) s
                else if Is e ErrEmptyBlob then
                  WriteError w 400 "ERR_EMPTY_BLOB" "Blob must not be empty." s
                else if Is e ErrBodyDigestMismatch then
                  WriteError w 400 "ERR_BODY_DIGEST_MISMATCH"
                    "Body does not hash to the digest the auth proof signed. Nothing was stored." s
                else WriteError w 500 "ERR_INTERNAL" "Could not store the blob." s
            end
        | _, _ =>
            WriteError w 400 "ERR_INVALID_PARAMS"
              "Query parameters seq and generation must be positive integers." s
        end
    end.

(** * Manifest, Index, Blob *)

Definition JTime (t : Z) : json := JStr (MarshalTime t).

Definition summary_json (d : DeviceSummary) : json :=
  JObj [ (bytes_of_string "deviceId", JString (Summary_DeviceID d));
         (bytes_of_string "generation", JInt (Summary_Generation d));
         (bytes_of_string "headSeq", JInt (Summary_HeadSeq d));
         (bytes_of_string "headSha256", JString (Summary_HeadSha256 d));
         (bytes_of_string "totalBytes", JInt (Summary_TotalBytes d));
         (bytes_of_string "updatedAt", JTime (Summary_UpdatedAt d)) ].

(** [prevSha256] is omitted when empty. *)
Definition entry_json (e : Entry) : json :=
  JObj ([ (bytes_of_string "seq", JInt (Entry_Seq e));
          (bytes_of_string "sha256", JString (Entry_Sha256 e)) ] ++
        (if bool_decide (Entry_PrevSha256 e = "") then []
         else [ (bytes_of_string "prevSha256", JString (Entry_PrevSha256 e)) ]) ++
        [ (bytes_of_string "size", JInt (Entry_Size e));
          (bytes_of_string "createdAt", JTime (Entry_CreatedAt e)) ]).

Definition manifest_json (devices : list DeviceSummary) : json :=
  JObj [ (bytes_of_string "devices", JArr (summary_json <$> devices));
         (bytes_of_string "status", JString "success") ].

Definition index_json (entries : list Entry) : json :=
  JObj [ (bytes_of_string "entries", JArr (entry_json <$> entries));
         (bytes_of_string "status", JString "success") ].

Definition handle_Manifest : handler := fun w r s =>
  let '(s, account) := pseudonym w r s in
  if bool_decide (account = "") then s
  else
    let '(st, res) := Manifest (w_store s) account in
    let s := set_store st s in
    match res with
    | Err _ => WriteError w 500 "ERR_INTERNAL" "Could not read the manifest." s
    | Ok devices => WriteJSON w 200 (manifest_json devices) s
    end.

Definition index_limit (r : request) : Z :=
  let limit := optionalIntParam r "limit" DefaultIndexLimit in
  if (limit <? 1) || (DefaultIndexLimit <? limit) then DefaultIndexLimit else limit.

Definition handle_Index : handler := fun w r s =>
  let '(s, account) := pseudonym w r s in
  if bool_decide (account = "") then s
  else
    match deviceID w (URLParam r "deviceId") s with
    | (s, None) => s
    | (s, Some device) =>
        match positiveIntParam r "generation" with
        | None =>
            WriteError w 400 "ERR_INVALID_PARAMS"
              "Query parameter generation must be a positive integer." s
        | Some generation =>
            let from := optionalIntParam r "from" 1 in
            let limit := index_limit r in
            let '(st, res) := Index (w_store s) account device generation from limit in
            let s := set_store st s in
            match res with
            | Err _ => WriteError w 500 "ERR_INTERNAL" "Could not read the log index." s
            | Ok entries => WriteJSON w 200 (index_json entries) s
            end
        end
    end.

(** The error of [io.Copy] only goes to the log. *)
Definition handle_Blob : handler := fun w r s =>
  let '(s, account) := pseudonym w r s in
  if bool_decide (account = "") then s
  else
    match deviceID w (URLParam r "deviceId") s with
    | (s, None) => s
    | (s, Some device) =>
        match positiveIntParam r "generation", parsePathInt (URLParam r "seq") with
        | Some generation, Some seq =>
            let '(st, res) := Get (w_store s) (mkBlobKey account device generation seq) in
            let s := set_store st s in
            match res with
            | Err e =>
                if Is e ErrNotFound then WriteError w 404 "ERR_BLOB_NOT_FOUND" "No such blob." s
                else WriteError w 500 "ERR_INTERNAL" "Could not read the blob." s
            | Ok (body, size) =>
                let s := Header_Set "Content-Type" ContentTypeOctetStream s in
                let s := Header_Set "Content-Length" (FormatInt size) s in
                let s := rw_WriteHeader w 200 s in
                (Copy (fun s p => rw_Write w p s) s body).1.2
            end
        | _, _ =>
            WriteError w 400 "ERR_INVALID_PARAMS" "Sequence and generation must be positive integers." s
        end
    end.

(** * PruneGeneration, DeleteAccount *)

Definition handle_PruneGeneration : handler := fun w r s =>
  let '(s, account) := pseudonym w r s in
  if bool_decide (account = "") then s
  else
    match deviceID w (URLParam r "deviceId") s with
    | (s, None) => s
    | (s, Some device) =>
        match parsePathInt (URLParam r "generation") with
        | None => WriteError w 400 "ERR_INVALID_PARAMS" "Generation must be a positive integer." s
        | Some generation =>
            let '(st, res) := DeleteGeneration (w_store s) account device generation in
            let s := set_store st s in
            match res with
            | Err e =>
                if Is e ErrRetentionGuard then WriteError w 409 "ERR_RETENTION_GUARD" (Error e) s
                else WriteError w 500 "ERR_INTERNAL" "Could not prune the generation." s
            | Ok n =>
                if bool_decide (n = 0) then
                  WriteError w 404 "ERR_GENERATION_NOT_FOUND" "No such generation." s
                else rw_WriteHeader w 204 s
            end
        end
    end.

Definition deleted_json (n : Z) : json := JObj [ (bytes_of_string "deleted", JInt n) ].

Definition handle_DeleteAccount : handler := fun w r s =>
  let '(s, account) := pseudonym w r s in
  if bool_decide (account = "") then s
  else
    let '(st, res) := DeleteAccount (w_store s) account in
    let s := set_store st s in
    match res with
    | Err _ => WriteError w 500 "ERR_INTERNAL" "Could not erase the account." s
    | Ok n => WriteJSON w 200 (deleted_json n) s
    end.

(** * Limits, Health *)

Definition limits_json (maxBlobBytes : Z) (serverIdentityKey : string) : json :=
  JObj [ (bytes_of_string "maxBlobBytes", JInt maxBlobBytes);
         (bytes_of_string "maxBodyBytes", JInt maxBlobBytes);
         (bytes_of_string "serverIdentityKey", JString serverIdentityKey);
         (bytes_of_string "status", JString "success") ].

Definition handle_Limits (maxBlobBytes : Z) (serverIdentityKey : string) : handler := fun w _ s =>
  WriteJSON w 200 (limits_json maxBlobBytes serverIdentityKey) s.

Definition health_json (status store : string) : json :=
  JObj [ (bytes_of_string "details", JObj [ (bytes_of_string "store", JString store) ]);
         (bytes_of_string "status", JString status) ].

Definition handle_Health : handler := fun w _ s =>
  let '(st, res) := Ping (w_store s) in
  let s := set_store st s in
  match res with
  | Err _ => WriteJSON w 503 (health_json "degraded" "unreachable") s
  | Ok _ => WriteJSON w 200 (health_json "ok" "ok") s
  end.

End handlers.
