(* ===== verification/Api.v ===== *)
(** The HTTP API as a function on the abstract log: what each endpoint
    answers to an authenticated request, and what it does to the log.  The
    handlers of [Handlers], over any store that keeps the promise of
    [BlobStoreOk], implement it ([api_refines]). *)
From S2P Require Import Prelude GoStrings GoError Sha256 Json JsonFacts Url AuthProof GoIO BlobStore.
From S2P Require Import LogFacts Bodies Http WriterFacts Handlers.
Local Open Scope Z_scope.

(** * The abstract API *)

Inductive endpoint := EManifest | EAppend | EIndex | EBlob | EPrune | EErase.

Definition bad_device : reply :=
  error_reply 400 "ERR_INVALID_DEVICE_ID" "Device id must be 32 lowercase hexadecimal characters.".
Definition bad_params (what : string) : reply := error_reply 400 "ERR_INVALID_PARAMS" what.
Definition internal (what : string) : reply := error_reply 500 "ERR_INTERNAL" what.

(** The blob itself, with its length announced. *)
Definition blob_reply (data : bytes) : reply :=
  mkReply 200 (Some ContentTypeOctetStream) (Some (FormatInt (Z.of_nat (length data)))) data.

Definition append_reply (limit seq : Z) (res : result (string * Z)) : reply :=
  match res with
  | Ok (sha, size) => json_reply 201 (append_json seq size sha)
  | Err e =>
      if Is e ErrSeqConflict then error_reply 409 "ERR_SEQ_CONFLICT" (Error e)
      else if Is e ErrEmptyBlob then error_reply 400 "ERR_EMPTY_BLOB" "Blob must not be empty."
      else if Is e ErrBodyDigestMismatch then
        error_reply 400 "ERR_BODY_DIGEST_MISMATCH"
          "Body does not hash to the digest the auth proof signed. Nothing was stored."
      else if Is e ErrBodyTooLarge then too_large_reply limit
      else internal "Could not store the blob."
  end.

Definition prune_reply (res : result Z) : reply :=
  match res with
  | Ok n => if bool_decide (n = 0) then error_reply 404 "ERR_GENERATION_NOT_FOUND" "No such generation."
            else empty_reply 204
  | Err e => error_reply 409 "ERR_RETENTION_GUARD" (Error e)
  end.

Definition erase_reply (res : result Z) : reply :=
  match res with
  | Ok n => json_reply 200 (deleted_json n)
  | Err _ => internal "Could not erase the account."
  end.

Section spec.
Context {crypto : Crypto} {tf : TimeFormat}.

(** The numbers a stream is addressed with. *)
Definition addressable (o : option Z) : option Z :=
  match o with Some v => if bool_decide (1 <= v <= 2 ^ 30) then Some v else None | None => None end.

(** In a path they are plain decimals, in a query anything [Atoi] reads. *)
Definition decimal_number (raw : string) : option Z := addressable (parse_digits (bytes_of_string raw)).

Definition query_number (r : request) (name : string) : option Z :=
  addressable (Atoi (Query_Get (ReqURL r) name)).

(** The page of an index: 500 entries, or fewer when the query asks for a
    number between 1 and 500. *)
Definition page_size (r : request) : Z :=
  match Atoi (Query_Get (ReqURL r) "limit") with
  | Some n => if bool_decide (1 <= n <= 500) then n else 500
  | None => 500
  end.

(** [account], [now] and [body] come from the authentication, the clock and
    the network; everything else is read off the request. *)
Definition spec_api (limit : Z) (e : endpoint) (account : string) (r : request) (now : Z)
    (body : result bytes) (a : alog) : alog * reply :=
  let device := URLParam r "deviceId" in
  match e with
  | EManifest => (a, json_reply 200 (manifest_json (spec_manifest a account)))
  | EErase =>
      let '(a', res) := spec_delete_account a account in (a', erase_reply res)
  | EAppend =>
      if negb (bool_decide (Header_Get r "Content-Type" = ContentTypeOctetStream)) then
        (a, error_reply 415 "ERR_UNSUPPORTED_MEDIA_TYPE" "Body must be application/octet-stream.")
      else if negb (match_lower_hex 32 device) then (a, bad_device)
      else match query_number r "seq", query_number r "generation" with
           | Some seq, Some g =>
               let '(a', res) := spec_append now a (mkBlobKey account device g seq)
                 (Query_Get (ReqURL r) "prevSha256") body in
               (a', append_reply limit seq res)
           | _, _ => (a, bad_params "Query parameters seq and generation must be positive integers.")
           end
  | EIndex =>
      if negb (match_lower_hex 32 device) then (a, bad_device)
      else match query_number r "generation" with
           | Some g =>
               (a, json_reply 200 (index_json (spec_index a account device g
                     (default 1 (Atoi (Query_Get (ReqURL r) "from"))) (page_size r))))
           | None => (a, bad_params "Query parameter generation must be a positive integer.")
           end
  | EBlob =>
      if negb (match_lower_hex 32 device) then (a, bad_device)
      else match query_number r "generation", decimal_number (URLParam r "seq") with
           | Some g, Some seq =>
               (a, match spec_get a (mkBlobKey account device g seq) with
                   | Ok data => blob_reply data
                   | Err _ => error_reply 404 "ERR_BLOB_NOT_FOUND" "No such blob."
                   end)
           | _, _ => (a, bad_params "Sequence and generation must be positive integers.")
           end
  | EPrune =>
      if negb (match_lower_hex 32 device) then (a, bad_device)
      else match decimal_number (URLParam r "generation") with
           | Some g =>
               let '(a', res) := spec_delete_generation a account device g in (a', prune_reply res)
           | None => (a, bad_params "Generation must be a positive integer.")
           end
  end.

Definition endpoint_handler {St NSt} `{BlobStore St} (e : endpoint) : handler St NSt :=
  match e with
  | EManifest => handle_Manifest
  | EAppend => handle_Append
  | EIndex => handle_Index
  | EBlob => handle_Blob
  | EPrune => handle_PruneGeneration
  | EErase => handle_DeleteAccount
  end.
End spec.

(** * Integers in paths and queries *)

(** The loop computes the decimal value, refusing it once past the bound; the
    64-bit arithmetic never wraps. *)
Lemma parsePathInt_loop_ok raw n :
  0 <= n <= 2 ^ 30 ->
  parsePathInt_loop raw n =
  if forallb is_digit raw then
    let v := foldl (fun acc c => 10 * acc + digit_val c) n raw in
    if (1 <=? v) && (v <=? 2 ^ 30) then Some v else None
  else None.
Proof.
  revert n. induction raw as [|c raw IH]; intros n Hn; simpl.
  - destruct (Z.ltb_spec n 1), (Z.leb_spec 1 n), (Z.leb_spec n (2 ^ 30)); simpl; done || lia.
  - unfold is_digit at 1. destruct (Z.ltb_spec (byte_val c) 48), (Z.leb_spec 48 (byte_val c)); try lia; [done|].
    destruct (Z.ltb_spec 57 (byte_val c)), (Z.leb_spec (byte_val c) 57); try lia; [done|]. simpl.
    rewrite !wrap64_id by (rewrite ?wrap64_id; unfold in64; lia).
    change (Z.shiftl 1 30) with (2 ^ 30). fold (digit_val c).
    replace (n * 10 + digit_val c) with (10 * n + digit_val c) by lia.
    assert (0 <= digit_val c) as Hd by (unfold digit_val; lia).
    destruct (Z.ltb_spec (2 ^ 30) (10 * n + digit_val c)); [|apply IH; lia].
    destruct (forallb is_digit raw) eqn:Hr; [|done].
    assert (forall l m, forallb is_digit l = true -> 0 <= m ->
      m <= foldl (fun acc c => 10 * acc + digit_val c) m l) as Hmono.
    { induction l as [|x l IHl]; simpl; intros m Hl Hm; [lia|]. apply andb_true_iff in Hl as [Hx Hl].
      assert (0 <= digit_val x).
      { unfold is_digit in Hx. apply andb_true_iff in Hx as [Hx%Z.leb_le _]. unfold digit_val. lia. }
      specialize (IHl (10 * m + digit_val x) Hl). lia. }
    specialize (Hmono raw (10 * n + digit_val c) Hr).
    destruct (Z.leb_spec (foldl (fun acc c0 => 10 * acc + digit_val c0) (10 * n + digit_val c) raw) (2 ^ 30));
      [lia|]. by rewrite andb_false_r.
Qed.

Lemma range_decide v : (1 <=? v) && (v <=? 2 ^ 30) = bool_decide (1 <= v <= 2 ^ 30).
Proof. case_bool_decide; [apply andb_true_iff|apply andb_false_iff]; rewrite ?Z.leb_le, ?Z.leb_gt; lia. Qed.

Lemma parsePathInt_eq raw : parsePathInt raw = decimal_number raw.
Proof.
  unfold decimal_number, addressable.
  unfold parsePathInt, parse_digits, digits_value. case_bool_decide as He; [by subst|].
  setoid_rewrite parsePathInt_loop_ok; [|lia..]. cbn zeta. rewrite range_decide. destruct raw as [|c raw]; [done|].
  cbn [bytes_of_string]. by destruct (forallb is_digit _).
Qed.

Lemma addressable_range o n : addressable o = Some n -> 1 <= n <= 2 ^ 30.
Proof. destruct o; simpl; [|done]. case_bool_decide; [|done]. by intros [= <-]. Qed.

Lemma parsePathInt_range raw n : parsePathInt raw = Some n -> 1 <= n <= 2 ^ 30.
Proof. rewrite parsePathInt_eq. apply addressable_range. Qed.

Lemma positiveIntParam_eq {crypto : Crypto} r name : positiveIntParam r name = query_number r name.
Proof.
  unfold positiveIntParam, query_number, addressable. destruct (Atoi _) as [v|]; [|done].
  change (Z.shiftl 1 30) with (2 ^ 30). rewrite <- range_decide, (Z.leb_antisym v 1), (Z.leb_antisym (2 ^ 30) v).
  by destruct (v <? 1), (2 ^ 30 <? v).
Qed.

Lemma index_limit_eq {crypto : Crypto} r : index_limit r = page_size r.
Proof.
  unfold index_limit, page_size, optionalIntParam, DefaultIndexLimit. destruct (Atoi _) as [v|]; [|done].
  case_bool_decide; destruct (Z.ltb_spec v 1), (Z.ltb_spec 500 v); simpl; done || lia.
Qed.

Lemma page_size_range {crypto : Crypto} r : 1 <= page_size r <= 500.
Proof. unfold page_size. destruct (Atoi _); [case_bool_decide|]; lia. Qed.

Lemma optionalIntParam_eq {crypto : Crypto} r name d :
  optionalIntParam r name d = default d (Atoi (Query_Get (ReqURL r) name)).
Proof. done. Qed.


Lemma positiveIntParam_range {crypto : Crypto} r name n :
  positiveIntParam r name = Some n -> 1 <= n <= 2 ^ 30.
Proof. rewrite positiveIntParam_eq. apply addressable_range. Qed.

(** [parsePathInt] accepts exactly the non-empty decimal texts whose value
    lies between 1 and 2^30, and returns that value: no sign, no space, no
    overflow however long the text. *)
Theorem parsePathInt_outcome raw n :
  parsePathInt raw = Some n <->
  parse_digits (bytes_of_string raw) = Some n /\ 1 <= n <= 2 ^ 30.
Proof.
  rewrite parsePathInt_eq. unfold decimal_number, addressable. destruct (parse_digits _) as [v|]; [|naive_solver].
  case_bool_decide; split; naive_solver lia.
Qed.

(** Every number a query parameter may carry can be addressed by the
    routes that read and prune: what [positiveIntParam] admits,
    [parsePathInt] parses from its decimal form. *)
Theorem positiveIntParam_addressable {crypto : Crypto} r name n :
  positiveIntParam r name = Some n -> parsePathInt (FormatInt n) = Some n.
Proof.
  intros H%positiveIntParam_range. rewrite parsePathInt_eq, FormatInt_nonneg by lia.
  unfold decimal_number, addressable. rewrite bytes_of_string_of_bytes, parse_digits_digits by lia.
  by rewrite bool_decide_eq_true_2.
Qed.

(** * The handlers implement the abstract API *)

Lemma hex_name n s : match_lower_hex n s = true -> name_ok s.
Proof. unfold match_lower_hex. by intros [_ ?]%andb_true_iff. Qed.

Section refinement.
Context {crypto : Crypto} {laws : CryptoLaws crypto} {tf : TimeFormat}.
Context {St NSt : Type} {bs : BlobStore St} {ok : BlobStoreOk St}.
Abbreviation world := (world St NSt).

(** The state in which the router calls a handler. *)
Record ready (s : world) (a : alog) : Prop := {
  ready_fresh : fresh s;
  ready_wrote : w_wrote s = false;
  ready_over : body_over (w_body s) = false;
  ready_inv : body_inv (w_body s);
  ready_src : Is (src_err (w_body s)) ErrBodyTooLarge = false;
  ready_end : end_ok (rd_err (w_body s));
  ready_fits : stream_fits (w_body s);
  ready_time : time_zero <= t_store (w_times s);
  ready_store : refines (w_store s) a;
}.

(** An answer that reports trouble below the service: a 500, a 413 when the
    cap was hit as well, or a download cut short. *)
Definition failure_reply (limit : Z) (over : bool) (rp rp' : reply) : Prop :=
  (exists what, rp' = internal what) \/ (over = true /\ rp' = too_large_reply limit) \/
  (exists data, rp = blob_reply data /\
     exists data', data' `prefix_of` data /\ rp' = mkReply 200 (rp_type rp) (rp_length rp) data').

(** When a request may meet trouble below the service: the infrastructure
    fails, or the store cannot take an argument it is passed as it came, or
    report a total as large as this. *)
Definition request_excused (e : endpoint) (p : string) (r : request) (a : alog) (st : St) : Prop :=
  faulty st \/
  match e with
  | EAppend => ~ text_ok (Query_Get (ReqURL r) "prevSha256")
  | EIndex => ~ int_ok (default 1 (Atoi (Query_Get (ReqURL r) "from")))
  | EManifest => ~ totals_ok a p
  | _ => False
  end.

(** What a handler leaves behind, for the abstract outcome [(a', rp)]. *)
Definition implements (limit : Z) (ex : Prop) (s s' : world) (a a' : alog) (rp : reply) : Prop :=
  w_wrote s' = true /\ recorded s' /\
  w_nonces s' = w_nonces s /\ w_route s' = w_route s /\ w_signals s' = w_signals s /\ w_times s' = w_times s /\
  (body_over (w_body s') = true -> rd_err (w_body s) = ErrBodyTooLarge) /\
  ((refines (w_store s') a' /\ response_is s' (reply_through limit s' rp)) \/
   (ex /\ (refines (w_store s') a \/ refines (w_store s') a') /\
    exists rp', failure_reply limit (body_over (w_body s')) rp rp' /\ response_is s' rp')).

(** Answering without the store. *)
Lemma implements_reply limit ex s s' a rp :
  ready s a -> replied limit s s' rp -> implements limit ex s s' a a rp.
Proof.
  intros Hr (Hresp & (Eb & Es & En & Et & Er & El) & Hc & Hw).
  pose proof (ready_over s a Hr) as Ho. unfold implements, reply_through. rewrite Eb, Es, Ho.
  unfold reply_through in Hresp. rewrite Ho in Hresp.
  split_and!; try done. left. split; [apply Hr|done].
Qed.

(** Answering after a store operation that did not touch the body. *)
Lemma implements_after limit (ex : Prop) s s' a st' a' rp rp0 :
  ready s a -> replied limit (set_store st' s) s' rp0 ->
  (refines st' a' /\ rp0 = rp) \/ (ex /\ (refines st' a \/ refines st' a') /\ failure_reply limit false rp rp0) ->
  implements limit ex s s' a a' rp.
Proof.
  intros Hr (Hresp & (Eb & Es & En & Et & Er & El) & Hc & Hw) Hst.
  pose proof (ready_over s a Hr) as Ho. unfold implements, reply_through in *.
  change (w_body (set_store st' s)) with (w_body s) in *.
  change (w_store (set_store st' s)) with st' in *. rewrite Eb, Es, Ho in *.
  split_and!; try done.
  destruct Hst as [[? <-]|(? & ? & ?)]; [by left|]. right. do 2 (split; [done|]). by exists rp0.
Qed.

Lemma ready_replied_store limit st' s a code desc e :
  ready s a -> code <> 0 ->
  replied limit (set_store st' s) (WriteError (api_writer limit) code desc e (set_store st' s))
    (error_reply code desc e).
Proof. intros Hr Hc. apply api_WriteError; [apply Hr|apply Hr|done]. Qed.

Lemma ready_replied_json limit st' s a code payload :
  ready s a -> code <> 0 ->
  replied limit (set_store st' s) (WriteJSON (api_writer limit) code payload (set_store st' s))
    (json_reply code payload).
Proof. intros Hr Hc. apply api_WriteJSON; [apply Hr|apply Hr|done]. Qed.

(** The account is the hexadecimal form of the authenticated key. *)
Lemma account_ne k : ToDERHex k <> "".
Proof. intros E. pose proof (ToDERHex_hex k) as H. by rewrite E in H. Qed.

Lemma account_name k : name_ok (ToDERHex k).
Proof. eapply hex_name, ToDERHex_hex. Qed.

Lemma device_cases w raw (s : world) :
  (match_lower_hex 32 raw = true /\ deviceID w raw s = (s, Some raw)) \/
  (match_lower_hex 32 raw = false /\ deviceID w raw s =
     (WriteError w 400 "ERR_INVALID_DEVICE_ID"
       "Device id must be 32 lowercase hexadecimal characters." s, None)).
Proof. unfold deviceID. destruct (match_lower_hex 32 raw); simpl; auto. Qed.


Section one_request.
Context (limit : Z) (s : world) (a : alog) (r : request) (k : PublicKey).
Hypothesis Hready : ready s a.
Hypothesis Hid : ctx_identity r = Some k.

Let now := t_store (w_times s).
Let body := body_outcome (w_body s).

Lemma pseudonym_ok w : pseudonym w r s = (s, ToDERHex k).
Proof. unfold pseudonym, GetIdentityKey. by rewrite Hid. Qed.

Lemma refused (ex : Prop) code ecode desc :
  code <> 0 -> implements limit ex s (WriteError (api_writer limit) code ecode desc s) a a (error_reply code ecode desc).
Proof. intros Hc. apply implements_reply; [done|]. by apply api_WriteError; [apply Hready|apply Hready|]. Qed.

Lemma handle_Manifest_ok :
  implements limit (request_excused EManifest (ToDERHex k) r a (w_store s)) s (handle_Manifest (api_writer limit) r s) a
    (spec_api limit EManifest (ToDERHex k) r now body a).1
    (spec_api limit EManifest (ToDERHex k) r now body a).2.
Proof.
  unfold handle_Manifest, spec_api. cbn [fst snd]. rewrite pseudonym_ok, bool_decide_eq_false_2 by apply account_ne.
  destruct (Manifest (w_store s) (ToDERHex k)) as [st' res] eqn:E.
  apply (Manifest_ok _ a) in E; [|apply Hready|apply account_name].
  destruct E as [[Hst ->]|(Hf & e & -> & _ & Hst)].
  - eapply implements_after; [done|by eapply ready_replied_json|]. by left.
  - eapply implements_after; [done|by eapply ready_replied_store|]. right. split; [first [exact Hf|by left]|]. split; [done|]. left. eauto.
Qed.

Lemma handle_DeleteAccount_ok :
  implements limit (request_excused EErase (ToDERHex k) r a (w_store s)) s (handle_DeleteAccount (api_writer limit) r s) a
    (spec_api limit EErase (ToDERHex k) r now body a).1
    (spec_api limit EErase (ToDERHex k) r now body a).2.
Proof.
  unfold handle_DeleteAccount, spec_api. cbn [fst snd]. rewrite pseudonym_ok, bool_decide_eq_false_2 by apply account_ne.
  destruct (DeleteAccount (w_store s) (ToDERHex k)) as [st' res] eqn:E.
  apply (DeleteAccount_ok _ a) in E; [|apply Hready|apply account_name].
  destruct E as [[Hst ->]|(Hf & e & -> & _ & Hst)].
  - eapply implements_after; [done|by eapply ready_replied_json|]. by left.
  - eapply implements_after; [done|by eapply ready_replied_store|]. right. split; [first [exact Hf|by left]|]. split; [done|]. left. eauto.
Qed.

Lemma handle_Index_ok :
  implements limit (request_excused EIndex (ToDERHex k) r a (w_store s)) s (handle_Index (api_writer limit) r s) a
    (spec_api limit EIndex (ToDERHex k) r now body a).1
    (spec_api limit EIndex (ToDERHex k) r now body a).2.
Proof.
  unfold handle_Index, spec_api. rewrite pseudonym_ok, bool_decide_eq_false_2 by apply account_ne.
  destruct (device_cases (api_writer limit) (URLParam r "deviceId") s) as [[Hd ->]|[Hd ->]]; rewrite Hd;
    cbn [negb fst snd]; [|by apply refused].
  rewrite positiveIntParam_eq, optionalIntParam_eq, index_limit_eq.
  destruct (query_number r "generation") as [g|] eqn:Eg; [|by apply refused].
  destruct (Index _ _ _ _ _ _) as [st' res] eqn:E.
  apply (Index_ok _ a) in E; [|apply Hready| |apply page_size_range].
  2:{ apply addressable_range in Eg. split_and!; simpl; [apply account_name|by eapply hex_name|lia..]. }
  destruct E as [[Hst ->]|(Hf & e & -> & _ & Hst)].
  - eapply implements_after; [done|by eapply ready_replied_json|]. by left.
  - eapply implements_after; [done|by eapply ready_replied_store|]. right. split; [first [exact Hf|by left]|]. split; [done|]. left. eauto.
Qed.

Lemma handle_PruneGeneration_ok :
  implements limit (request_excused EPrune (ToDERHex k) r a (w_store s)) s (handle_PruneGeneration (api_writer limit) r s) a
    (spec_api limit EPrune (ToDERHex k) r now body a).1
    (spec_api limit EPrune (ToDERHex k) r now body a).2.
Proof.
  unfold handle_PruneGeneration, spec_api. rewrite pseudonym_ok, bool_decide_eq_false_2 by apply account_ne.
  destruct (device_cases (api_writer limit) (URLParam r "deviceId") s) as [[Hd ->]|[Hd ->]]; rewrite Hd;
    cbn [negb fst snd]; [|by apply refused].
  rewrite parsePathInt_eq. destruct (decimal_number (URLParam r "generation")) as [g|] eqn:Eg; [|by apply refused].
  destruct (DeleteGeneration _ _ _ _) as [st' res] eqn:E.
  apply (DeleteGeneration_ok _ a) in E; [|apply Hready|].
  2:{ apply addressable_range in Eg. split_and!; simpl; [apply account_name|by eapply hex_name|lia..]. }
  destruct (spec_delete_generation _ _ _ _) as [a' spec] eqn:Es. cbn [fst snd] in *.
  destruct E as [[Hst ->]|(Hf & e & -> & Hi & Hst)].
  - destruct spec as [n|e]; cbn [prune_reply fst snd].
    + case_bool_decide.
      * eapply implements_after; [done|by eapply ready_replied_store|]. by left.
      * eapply implements_after; [done|apply api_WriteHeader; [apply Hready|apply Hready|done]|]. by left.
    + assert (Is e ErrRetentionGuard = true) as ->.
      { revert Es. unfold spec_delete_generation. case_bool_decide; intros [= <- <-]. done. }
      eapply implements_after; [done|by eapply ready_replied_store|]. by left.
  - rewrite Hi. eapply implements_after; [done|by eapply ready_replied_store|].
    right. split; [first [exact Hf|by left]|]. split; [done|]. left. eauto.
Qed.

(** Streaming a blob: the bytes written are those read. *)
Lemma stream_blob {R} `{ReaderLaws R} st' (rdr : R) n :
  exists data', 
    let s1 := Header_Set "Content-Length" (FormatInt n)
      (Header_Set "Content-Type" ContentTypeOctetStream (set_store st' s)) in
    let s2 := (Copy (fun s p => rw_Write (api_writer limit) p s) (rw_WriteHeader (api_writer limit) 200 s1) rdr).1.2 in
    response_is s2 (mkReply 200 (Some ContentTypeOctetStream) (Some (FormatInt n)) data') /\
    same_state (set_store st' s) s2 /\ recorded s2 /\ w_wrote s2 = true /\
    data' `prefix_of` rd_bytes rdr /\ (rd_err rdr = EOF -> data' = rd_bytes rdr).
Proof.
  cbn zeta. set (s1 := Header_Set "Content-Length" _ _).
  assert (w_wrote s1 = false) as Hw by apply Hready.
  assert (body_over (w_body s1) = false) as Ho by apply Hready.
  rewrite api_WriteHeader_pass by done.
  destruct (recorder_WriteHeader 200 (set_wrote true s1)) as (Hr & Hs & Hc & Hw1);
    [apply Hready|done|]. set (s2 := rw_WriteHeader recorder_writer 200 (set_wrote true s1)) in *.
  assert (response_is s2 (mkReply 200 (Some ContentTypeOctetStream) (Some (FormatInt n)) [])) as Hr2.
  { revert Hr. change (rs_header (w_resp (set_wrote true s1))) with
      (<["Content-Length" := FormatInt n]> (<["Content-Type" := ContentTypeOctetStream]> (rs_header (w_resp s)))).
    by rewrite lookup_insert_eq, lookup_insert_ne, lookup_insert_eq by done. }
  pose (I := fun w : world => exists data, response_is w (mkReply 200 (Some ContentTypeOctetStream)
    (Some (FormatInt n)) data) /\ same_state (set_store st' s) w /\ recorded w /\ w_wrote w = true).
  destruct (Copy_ok (fun s p => rw_Write (api_writer limit) p s) (fun w => rs_body (w_resp w)) I) with (w := s2) (r := rdr)
    as (r' & w' & out & -> & (data & Hd & Hss & Hcc & Hww) & Hout & Hpre & Hend).
  - intros w p (data & Hd & Hss & Hcc & Hww).
    rewrite api_Write_pass by (done || (destruct Hss as (-> & _); apply Hready)).
    destruct (recorder_Write p w _ Hd Hcc) as (Hd' & Hs' & Hc' & Hw'). split.
    + exists (data ++ p). split_and!; [done|by etrans|done|by rewrite Hw'].
    + destruct Hd as (_ & _ & _ & ->), Hd' as (_ & _ & _ & ->). done.
  - exists []. split_and!; done.
  - exists data. cbn [fst snd]. destruct Hd as (? & ? & ? & Hd), Hr2 as (_ & _ & _ & Hr2). rewrite Hd, Hr2 in Hout.
    cbn [rp_body app] in Hout. subst out. done.
Qed.

Lemma handle_Blob_ok :
  implements limit (request_excused EBlob (ToDERHex k) r a (w_store s)) s (handle_Blob (api_writer limit) r s) a
    (spec_api limit EBlob (ToDERHex k) r now body a).1
    (spec_api limit EBlob (ToDERHex k) r now body a).2.
Proof.
  unfold handle_Blob, spec_api. rewrite pseudonym_ok, bool_decide_eq_false_2 by apply account_ne.
  destruct (device_cases (api_writer limit) (URLParam r "deviceId") s) as [[Hd ->]|[Hd ->]]; rewrite Hd;
    cbn [negb fst snd]; [|by apply refused].
  rewrite positiveIntParam_eq, parsePathInt_eq.
  destruct (query_number r "generation") as [g|] eqn:Eg; [|by apply refused].
  destruct (decimal_number (URLParam r "seq")) as [q|] eqn:Eq; [|by apply refused].
  set (key := mkBlobKey (ToDERHex k) (URLParam r "deviceId") g q).
  destruct (Get (w_store s) key) as [st' res] eqn:E.
  apply (Get_ok _ a) in E as [Hst E]; [|apply Hready|].
  2:{ apply addressable_range in Eq. apply addressable_range in Eg.
      split_and!; simpl; [apply account_name|by eapply hex_name|lia..]. }
  unfold spec_get. cbn [fst snd]. destruct res as [[rdr n]|e].
  - destruct E as (b & -> & -> & Hrd).
    destruct (stream_blob st' rdr (Z.of_nat (length (ab_data b)))) as (data' & Hresp & Hss & Hc & Hw & Hpre & Hend).
    unfold implements. destruct Hss as (Eb & Es & En & Et & Er & El). rewrite Eb, Es.
    do 6 (split; [done|]).
    split; [intros Ho; change (body_over (w_body s) = true) in Ho; by rewrite (ready_over s a Hready) in Ho|].
    unfold reply_through. rewrite Eb. change (w_body (set_store st' s)) with (w_body s).
    rewrite (ready_over s a Hready). destruct Hrd as [[He Hb]|(Hf & Hi & Hb)].
    + left. split; [done|]. rewrite Hend, Hb in Hresp by done. done.
    + right. split; [by left|]. split; [by left|]. eexists. split; [|exact Hresp]. right. right.
      eexists. split; [done|]. eexists. split; [by etrans|done].
  - destruct E as [[-> ->]|[Hf Hi]].
    + change (Is ErrNotFound ErrNotFound) with true. cbn iota.
      eapply implements_after; [done|by eapply ready_replied_store|]. by left.
    + rewrite Hi. eapply implements_after; [done|by eapply ready_replied_store|].
      right. split; [by left|]. split; [by left|]. left. eauto.
Qed.

(** Answering an upload: the body was read, up to the store. *)
Lemma implements_append (ex : Prop) st' b' e0 s' a' rp rp0 :
  reads_to (w_body s) b' e0 ->
  replied limit (set_body b' (set_store st' s)) s' rp0 ->
  (refines st' a' /\ (rp0 = rp \/ (body_over b' = true /\ rp = too_large_reply limit))) \/
  (ex /\ (refines st' a \/ refines st' a') /\ exists what, rp0 = internal what) ->
  implements limit ex s s' a a' rp.
Proof.
  intros Hreads (Hresp & (Eb & Es & En & Et & Er & El) & Hc & Hw) Hst.
  unfold implements, reply_through in *.
  change (w_body (set_body b' (set_store st' s))) with b' in *.
  change (w_store (set_body b' (set_store st' s))) with st' in *. rewrite Eb, Es.
  split_and!; try done.
  - intros Ho. pose proof (reads_to_inv _ _ _ Hreads (ready_inv s a Hready)) as Hinv.
    rewrite <- (reads_to_err _ _ _ Hreads). by apply over_err.
  - destruct Hst as [[? Hrp]|(? & ? & what & ->)].
    + left. split; [done|]. destruct Hrp as [->|[Ho ->]]; [done|]. by rewrite Ho in *.
    + right. do 2 (split; [done|]). destruct (body_over b').
      * exists (too_large_reply limit). split; [right; left; done|done].
      * exists (internal what). split; [left; by eexists|done].
Qed.

(** A refused or failed append, answered with an error. *)
Lemma append_error (ex : Prop) st' b' e0 a' rp code ecode desc :
  reads_to (w_body s) b' e0 -> code <> 0 ->
  (refines st' a' /\ (error_reply code ecode desc = rp \/ (body_over b' = true /\ rp = too_large_reply limit))) \/
  (ex /\ (refines st' a \/ refines st' a') /\ exists what, error_reply code ecode desc = internal what) ->
  implements limit ex s
    (WriteError (api_writer limit) code ecode desc (set_body b' (set_store st' s))) a a' rp.
Proof.
  intros Hreads Hc Hst. eapply implements_append; [exact Hreads| |exact Hst].
  apply api_WriteError; [apply Hready|apply Hready|done].
Qed.

(** The handler's answer to what the store returned. *)
Definition answer_append (seq : Z) (res : result (string * Z)) (s : world) : world :=
  match res with
  | Ok (sha, size) => WriteJSON (api_writer limit) 201 (append_json seq size sha) s
  | Err e =>
      if Is e ErrSeqConflict then WriteError (api_writer limit) 409 "ERR_SEQ_CONFLICT" (Error e) s
      else if Is e ErrEmptyBlob then
        WriteError (api_writer limit) 400 "ERR_EMPTY_BLOB" "Blob must not be empty." s
      else if Is e ErrBodyDigestMismatch then
        WriteError (api_writer limit) 400 "ERR_BODY_DIGEST_MISMATCH"
          "Body does not hash to the digest the auth proof signed. Nothing was stored." s
      else WriteError (api_writer limit) 500 "ERR_INTERNAL" "Could not store the blob." s
  end.

Lemma answer_append_ok (ex : Prop) seq st' b' e0 a' spec res :
  reads_to (w_body s) b' e0 -> (forall e, res = Err (read_body_error e) -> e0 = Some e) ->
  op_outcome refines ex a a' spec st' res ->
  (forall e, spec = Err e -> Is e ErrBodyTooLarge = true -> e = read_body_error ErrBodyTooLarge) ->
  implements limit ex s (answer_append seq res (set_body b' (set_store st' s))) a a' (append_reply limit seq spec).
Proof.
  intros Hreads He0 Hout Htl. destruct Hout as [[Hst ->]|(Hf & e & -> & Hi & Hst)].
  2:{ unfold answer_append. rewrite !Hi. eapply append_error; [exact Hreads|done|]. right. do 2 (split; [done|]). by eexists. }
  destruct spec as [[sha size]|e]; unfold append_reply, answer_append.
  - eapply implements_append; [exact Hreads|apply api_WriteJSON; [apply Hready|apply Hready|done]|]. left. auto.
  - destruct (Is e ErrSeqConflict) eqn:E1; [eapply append_error; [exact Hreads|done|left; auto]|].
    destruct (Is e ErrEmptyBlob) eqn:E2; [eapply append_error; [exact Hreads|done|left; auto]|].
    destruct (Is e ErrBodyDigestMismatch) eqn:E3; [eapply append_error; [exact Hreads|done|left; auto]|].
    destruct (Is e ErrBodyTooLarge) eqn:E4; (eapply append_error; [exact Hreads|done|left; split; [done|]]).
    + right. split; [|done]. specialize (Htl e eq_refl E4). subst e. specialize (He0 _ eq_refl).
      apply (reads_too_large _ _ _ Hreads); [|done].
      intros Hsrc. pose proof (ready_src s a Hready) as Hs. by rewrite Hsrc in Hs.
    + by left.
Qed.

Lemma spec_append_too_large t key prev e :
  (spec_append t a key prev body).2 = Err e -> Is e ErrBodyTooLarge = true ->
  e = read_body_error ErrBodyTooLarge.
Proof.
  unfold spec_append, body, body_outcome. case_bool_decide; [|by intros [= <-]].
  case_bool_decide as Heof; [destruct (rd_bytes _); [by intros [= <-]|done]|].
  intros [= <-]. unfold read_body_error. rewrite Is_Wrapf. intros Hi.
  destruct (body_err_cases (w_body s)) as [->|[E|E]]; [done| |]; rewrite E in Hi; [done|].
  by rewrite (ready_src s a Hready) in Hi.
Qed.

Lemma handle_Append_ok :
  implements limit (request_excused EAppend (ToDERHex k) r a (w_store s)) s (handle_Append (api_writer limit) r s) a
    (spec_api limit EAppend (ToDERHex k) r now body a).1
    (spec_api limit EAppend (ToDERHex k) r now body a).2.
Proof.
  unfold handle_Append, spec_api. rewrite pseudonym_ok, bool_decide_eq_false_2 by apply account_ne.
  destruct (bool_decide (Header_Get r "Content-Type" = ContentTypeOctetStream));
    cbn [negb fst snd]; [|by apply refused].
  destruct (device_cases (api_writer limit) (URLParam r "deviceId") s) as [[Hd ->]|[Hd ->]]; rewrite Hd;
    cbn [negb fst snd]; [|by apply refused].
  rewrite !positiveIntParam_eq. destruct (query_number r "seq") as [q|] eqn:Eq; [|by apply refused].
  destruct (query_number r "generation") as [g|] eqn:Eg; [|by apply refused].
  set (key := mkBlobKey (ToDERHex k) (URLParam r "deviceId") g q).
  set (prev := Query_Get (ReqURL r) "prevSha256").
  destruct (Append (t_store (w_times s)) (w_store s) key prev (w_body s)) as [[st' b'] res] eqn:E.
  apply (Append_ok _ _ a) in E; [|apply Hready| |apply Hready|apply Hready|apply Hready].
  2:{ apply addressable_range in Eq. apply addressable_range in Eg.
      split_and!; simpl; [apply account_name|by eapply hex_name|lia..]. }
  destruct E as (Hout & e0 & Hreads & He0). fold now in Hout. fold body in Hout.
  pose proof (spec_append_too_large now key prev) as Htl.
  destruct (spec_append now a key prev body) as [a' spec]. cbn [fst snd] in *.
  exact (answer_append_ok _ q st' b' e0 a' spec res Hreads He0 Hout Htl).
Qed.

Lemma endpoint_implements e :
  implements limit (request_excused e (ToDERHex k) r a (w_store s)) s (endpoint_handler e (api_writer limit) r s) a
    (spec_api limit e (ToDERHex k) r now body a).1
    (spec_api limit e (ToDERHex k) r now body a).2.
Proof.
  destruct e; [apply handle_Manifest_ok|apply handle_Append_ok|apply handle_Index_ok|apply handle_Blob_ok
    |apply handle_PruneGeneration_ok|apply handle_DeleteAccount_ok].
Qed.

(** C20. The HTTP API is the abstract API: on an authenticated request, over
    any store that keeps its promise, every endpoint takes the log where the
    abstract API takes it and answers what that answers, on every branch
    (malformed parameters, conflicts, refusals and absences included).  Only
    where the infrastructure may fail, or the store cannot take an argument
    that is passed on unchecked ([prevSha256], [from]), the answer may be an internal
    error instead (or a download cut short), and then the log is where it was
    or where the abstract API takes it.  A body that overran the cap turns the answer into
    the 413. *)
Theorem api_refines e :
  implements limit (request_excused e (ToDERHex k) r a (w_store s)) s (endpoint_handler e (api_writer limit) r s) a
    (spec_api limit e (ToDERHex k) r now body a).1
    (spec_api limit e (ToDERHex k) r now body a).2.
Proof. apply endpoint_implements. Qed.

End one_request.
End refinement.
