(* ===== verification/Middlewares.v ===== *)
(** [internal/server/middlewares/authproof.go]: the authentication of a
    request from one header, before its body is read. *)
From S2P Require Import Prelude GoStrings GoError GoTime Json Url Nonce AuthProof GoIO Bodies Http.
Local Open Scope Z_scope.

Definition refusalReason (e : error) : string :=
  if Is e ErrExpired then "proof expired."
  else if Is e ErrTooFarFuture then "proof expiry too far in the future."
  else if Is e ErrActionMismatch then "proof does not describe this request."
  else "proof signature invalid.".

Definition auth_required (reason : string) : string := "Authentication required: " +:+ reason.

Section auth.
Context {crypto : Crypto} {St NSt : Type} {ns : NonceStore NSt}.
Abbreviation world := (world St NSt).
Abbreviation handler := (handler St NSt).

(** [r.URL.RequestURI()] as a string. *)
Definition request_uri (r : request) : string := string_of_bytes (RequestURI (ReqURL r)).

Definition AuthProof (wallet : Wallet) (next : handler) : handler := fun rw r s =>
  let headerValue := Header_Get r Header in
  if bool_decide (headerValue = "") then
    WriteError rw 401 "ERR_AUTH_REQUIRED" (auth_required ("missing " +:+ Header +:+ " header.")) s
  else
    match Decode headerValue with
    | Err _ => WriteError rw 401 "ERR_AUTH_REQUIRED" (auth_required "proof is malformed.") s
    | Ok proof =>
        let digest := BodySha256 (Proof_Action proof) in
        if negb (bool_decide (digest = "")) && negb (match_lower_hex 64 digest) then
          WriteError rw 401 "ERR_AUTH_REQUIRED" (auth_required "body digest is not a sha256 hex.") s
        else if bool_decide (Method r = "POST") && bool_decide (digest = "") then
          WriteError rw 401 "ERR_AUTH_REQUIRED"
            (auth_required "an upload proof must bind the body digest.") s
        else
          let expected := Action (Method r) (request_uri r) digest in
          match Verify wallet proof expected (t_verify (w_times s)) with
          | Err e => WriteError rw 401 "ERR_AUTH_REQUIRED" (auth_required (refusalReason e)) s
          | Ok caller =>
              let '(n, res) := Consume (t_nonce (w_times s)) (w_nonces s) (AuthProof.Nonce proof)
                (time_UnixMilli (ExpiresAt proof)) in
              let s := set_nonces n s in
              match res with
              | Err _ =>
                  WriteError rw 500 "ERR_INTERNAL" "Could not check the proof for reuse." s
              | Ok false =>
                  WriteError rw 401 "ERR_AUTH_REQUIRED" (auth_required "proof already used.") s
              | Ok true =>
                  let s := if bool_decide (digest = "") then s
                           else set_body (verify_body digest (w_body s)) s in
                  next rw (WithIdentityKey r caller) s
              end
          end
    end.

End auth.
