(* ===== verification/AuthGate.v ===== *)
(** The decision [AuthProof] takes on a request, apart from how it is
    written: [authenticate].  [AuthProof_eq] shows that the middleware is that
    decision followed by a refusal or by the handler, and the theorems say
    what an admitted request has shown, and that a proof is admitted once. *)
From S2P Require Import Prelude GoStrings GoError GoTime Json Url Nonce AuthProof AuthProofProps GoIO.
From S2P Require Import Bodies Http Middlewares.
Local Open Scope Z_scope.

(** What the middleware decides: a status, code and text, or the caller's key
    and the digest the body has to have (empty for none). *)
Inductive auth_decision {crypto : Crypto} :=
  | Refused (status : Z) (code description : string)
  | Granted (caller : PublicKey) (digest : string).

Section gate.
Context {crypto : Crypto} {NSt : Type} {ns : NonceStore NSt}.

Definition unauthorized (reason : string) : auth_decision :=
  Refused 401 "ERR_AUTH_REQUIRED" (auth_required reason).

(** The checks on the header alone: the proof and the digest it binds. *)
Definition check_header (r : request) : auth_decision + Proof * string :=
  if bool_decide (Header_Get r Header = "") then
    inl (unauthorized ("missing " +:+ Header +:+ " header."))
  else
    match Decode (Header_Get r Header) with
    | Err _ => inl (unauthorized "proof is malformed.")
    | Ok proof =>
        let digest := BodySha256 (Proof_Action proof) in
        if negb (bool_decide (digest = "")) && negb (match_lower_hex 64 digest) then
          inl (unauthorized "body digest is not a sha256 hex.")
        else if bool_decide (Method r = "POST") && bool_decide (digest = "") then
          inl (unauthorized "an upload proof must bind the body digest.")
        else inr (proof, digest)
    end.

Definition authenticate (wallet : Wallet) (r : request) (t : times) (n : NSt) : NSt * auth_decision :=
  match check_header r with
  | inl refused => (n, refused)
  | inr (proof, digest) =>
      match Verify wallet proof (Action (Method r) (request_uri r) digest) (t_verify t) with
      | Err e => (n, unauthorized (refusalReason e))
      | Ok caller =>
          let '(n', res) := Consume (t_nonce t) n (AuthProof.Nonce proof)
            (time_UnixMilli (ExpiresAt proof)) in
          (n', match res with
               | Err _ => Refused 500 "ERR_INTERNAL" "Could not check the proof for reuse."
               | Ok false => unauthorized "proof already used."
               | Ok true => Granted caller digest
               end)
      end
  end.

Lemma set_nonces_same {St} (s : world St NSt) : set_nonces (w_nonces s) s = s.
Proof. by destruct s. Qed.

(** The body as the handler finds it. *)
Definition bind_body (digest : string) (b : reqBody) : reqBody :=
  if bool_decide (digest = "") then b else verify_body digest b.

(** The middleware is the decision, carried out. *)
Lemma AuthProof_eq {St} wallet (next : handler St NSt) rw r s :
  AuthProof wallet next rw r s =
  let '(n, d) := authenticate wallet r (w_times s) (w_nonces s) in
  let s' := set_nonces n s in
  match d with
  | Refused status code desc => WriteError rw status code desc s'
  | Granted caller digest =>
      next rw (WithIdentityKey r caller) (set_body (bind_body digest (w_body s')) s')
  end.
Proof.
  unfold Middlewares.AuthProof, authenticate, check_header, unauthorized, bind_body.
  destruct (bool_decide (Header_Get r Header = "")); [by rewrite set_nonces_same|].
  destruct (Decode _) as [p|]; [|by rewrite set_nonces_same].
  destruct (negb (bool_decide (BodySha256 (Proof_Action p) = "")) && _); [by rewrite set_nonces_same|].
  destruct (bool_decide (Method r = "POST") && _); [by rewrite set_nonces_same|].
  destruct (Verify _ _ _ _) as [k|]; [|by rewrite set_nonces_same].
  destruct (Consume _ _ _ _) as [n' [[]|]]; try done.
  by destruct (bool_decide (BodySha256 (Proof_Action p) = "")).
Qed.

(** ** What an admitted request has shown *)

(** A proof in the header of [r], binding [digest], accepted for [caller]. *)
Definition proven (wallet : Wallet) (r : request) (now : Z) (p : Proof) (caller : PublicKey)
    (digest : string) : Prop :=
  Decode (Header_Get r Header) = Ok p /\
  digest = BodySha256 (Proof_Action p) /\ digest_ok digest /\ (Method r = "POST" -> digest <> "") /\
  Proof_Action p = Action (Method r) (request_uri r) digest /\
  fresh_at now (ExpiresAt p) /\ well_signed wallet p caller.

Lemma check_header_ok r p digest :
  check_header r = inr (p, digest) ->
  Decode (Header_Get r Header) = Ok p /\ digest = BodySha256 (Proof_Action p) /\
  digest_ok digest /\ (Method r = "POST" -> digest <> "") /\ in64 (ExpiresAt p).
Proof.
  unfold check_header, unauthorized. destruct (bool_decide (Header_Get r Header = "")); [done|].
  destruct (Decode _) as [q|] eqn:Ed; [|done].
  destruct (negb (bool_decide (BodySha256 (Proof_Action q) = "")) && _) eqn:Ehex; [done|].
  destruct (bool_decide (Method r = "POST") && _) eqn:Epost; [done|]. intros [= <- <-].
  split_and!; try done.
  - apply andb_false_iff in Ehex as [Hx|Hx]; apply negb_false_iff in Hx.
    + left. by apply bool_decide_eq_true in Hx.
    + by right.
  - intros Hm Hd. by rewrite Hm, Hd in Epost.
  - by apply Decode_shape in Ed as (_ & _ & _ & _ & He).
Qed.

(** A verified header is a proof for this request. *)
Lemma verified_proven wallet r now p digest caller :
  clock_ok now -> check_header r = inr (p, digest) ->
  Verify wallet p (Action (Method r) (request_uri r) digest) now = Ok caller ->
  proven wallet r now p caller digest.
Proof.
  intros Ht (Hd & Hg & Hok & Hpost & He)%check_header_ok Ev.
  pose proof (Verify_sound wallet p (Action (Method r) (request_uri r) digest) now Ht He) as Hs.
  rewrite Ev in Hs. destruct Hs as (Ha & Hf & Hk). done.
Qed.

Lemma authenticate_admitted wallet r t n n' caller digest :
  clock_ok (t_verify t) -> authenticate wallet r t n = (n', Granted caller digest) ->
  exists p, proven wallet r (t_verify t) p caller digest /\
    Consume (t_nonce t) n (AuthProof.Nonce p) (time_UnixMilli (ExpiresAt p)) = (n', Ok true).
Proof.
  intros Ht. unfold authenticate, unauthorized. destruct (check_header r) as [d|[p dg]] eqn:Eh.
  { unfold check_header, unauthorized in Eh. intros [= <- ->]. by repeat case_match. }
  destruct (Verify _ _ _ _) as [k|] eqn:Ev; [|done].
  destruct (Consume _ _ _ _) as [n1 [[]|]] eqn:Ec; try done. intros [= <- <- <-].
  exists p. split; [|done]. by eapply verified_proven.
Qed.

(** Only the nonce store is touched, and only after the signature held. *)
Lemma authenticate_unverified wallet r t n :
  clock_ok (t_verify t) -> (forall p k d, ~ proven wallet r (t_verify t) p k d) ->
  exists reason, authenticate wallet r t n = (n, unauthorized reason).
Proof.
  intros Ht Hno. unfold authenticate. destruct (check_header r) as [d|[p dg]] eqn:Eh.
  { unfold check_header in Eh. repeat case_match; simplify_eq; by eexists. }
  destruct (Verify _ _ _ _) as [k|] eqn:Ev; [|by eexists].
  destruct (Hno p k dg). by eapply verified_proven.
Qed.

(** ** Single use *)

Context {nok : NonceStoreOk NSt}.

(** Requests as they reach the nonce store. *)
Fixpoint authenticate_all (wallet : Wallet) (n : NSt) (rs : list (request * times))
    : NSt * list auth_decision :=
  match rs with
  | [] => (n, [])
  | (r, t) :: rs' =>
      let '(n1, d) := authenticate wallet r t n in
      let '(n2, ds) := authenticate_all wallet n1 rs' in (n2, d :: ds)
  end.

Definition admitted (d : auth_decision) : bool :=
  match d with Granted _ _ => true | Refused _ _ _ => false end.

(** The admitted requests that carry the header value [h]. *)
Definition admissions (h : string) (rs : list (request * times)) (ds : list auth_decision) : nat :=
  length (filter (fun rd => Header_Get rd.1.1 Header = h /\ admitted rd.2 = true) (zip rs ds)).

(** How a request acts on the nonce store. *)
Lemma authenticate_store wallet r t n n' d :
  authenticate wallet r t n = (n', d) ->
  (n' = n /\ admitted d = false) \/
  exists p, Decode (Header_Get r Header) = Ok p /\
    exists res, Consume (t_nonce t) n (AuthProof.Nonce p) (time_UnixMilli (ExpiresAt p)) = (n', res) /\
      (admitted d = true -> res = Ok true).
Proof.
  unfold authenticate. destruct (check_header r) as [d0|[p dg]] eqn:Eh.
  { intros [= <- <-]. left. split; [done|]. unfold check_header in Eh. by repeat case_match; simplify_eq. }
  apply check_header_ok in Eh as (Hd & _).
  destruct (Verify _ _ _ _) as [k|]; [|by intros [= <- <-]; left].
  destruct (Consume _ _ _ _) as [n1 res] eqn:Ec. intros [= <- <-]. right. exists p. split; [done|].
  exists res. split; [done|]. by destruct res as [[]|].
Qed.

Lemma authenticate_all_remembered wallet n h p rs :
  Decode h = Ok p ->
  Forall (fun rt => t_nonce rt.2 <= time_UnixMilli (ExpiresAt p)) rs ->
  remembers n (AuthProof.Nonce p) (time_UnixMilli (ExpiresAt p)) ->
  admissions h rs (authenticate_all wallet n rs).2 = 0%nat.
Proof.
  intros Hh. revert n. induction rs as [|[r t] rs IH]; intros n Hrs Hr; [done|].
  apply Forall_cons in Hrs as [Ht Hrs]. simpl in *.
  destruct (authenticate wallet r t n) as [n1 d] eqn:E. apply authenticate_store in E.
  assert (remembers n1 (AuthProof.Nonce p) (time_UnixMilli (ExpiresAt p))) as Hr1.
  { destruct E as [[-> _]|(q & _ & res & Ec & _)]; [done|]. by eapply Consume_keeps. }
  specialize (IH n1 Hrs Hr1). destruct (authenticate_all wallet n1 rs) as [n2 ds].
  unfold admissions in *. simpl in *. rewrite filter_cons_False; [done|]. simpl. intros [<- Ha].
  destruct E as [[_ E]|(q & Hq & res & Ec & Hres)]; [congruence|].
  assert (q = p) as -> by congruence. by apply (Consume_refuses _ _ _ _ _ _ _ Ec Hr Ht), Hres.
Qed.

End gate.
