(* ===== verification/Server.v ===== *)
(** [internal/server/server.go] and [telemetry.go]: the middleware chain and
    the router.

    Routing is done by github.com/go-chi/chi, a parameter ([Chi]); the table
    of routes is the service's.  chi's [RequestID] and [Recoverer] do not
    change the requests and responses of handlers that do not panic and are
    left out.  OpenTelemetry is a sink: [Telemetry] appends to the state what
    it hands to it; the trace context it extracts from the headers only
    parents the span. *)
From S2P Require Import Prelude GoStrings GoError GoTime Json Url Nonce AuthProof GoIO BlobStore Bodies Http.
From S2P Require Import Handlers Middlewares.
Local Open Scope Z_scope.

(** * chi *)

(** What chi decides for a method and a path: the index of the route and its
    URL parameters, or one of the two refusals. *)
Inductive route_result :=
  | Found (i : nat) (params : list (string * string))
  | NoMethod
  | NoRoute.

Class Chi := {
  chi_route : list (string * string) -> string -> bytes -> route_result;
  (** the headers its default 405 answer sets *)
  chi_405_header : string -> bytes -> gmap string string -> gmap string string;
}.

(** The path chi routes on: [RawPath] when net/url kept one. *)
Definition route_path (u : URL) : bytes :=
  if bool_decide (RawPath u = []) then Path u else RawPath u.

(** ** Documented matching: segment by segment, a parameter takes one segment. *)
Fixpoint segments (p : bytes) : list bytes :=
  match p with
  | [] => [[]]
  | c :: p' =>
      if bool_decide (c = "/"%char) then [] :: segments p'
      else match segments p' with [] => [[c]] | x :: xs => (c :: x) :: xs end
  end.

(** [{name}] *)
Definition param_name (seg : bytes) : option string :=
  match seg with
  | "{"%char :: rest =>
      match last rest with
      | Some "}"%char => Some (string_of_bytes (removelast rest))
      | _ => None
      end
  | _ => None
  end.

Fixpoint match_segments (pat p : list bytes) : option (list (string * string)) :=
  match pat, p with
  | [], [] => Some []
  | x :: pat', y :: p' =>
      match match_segments pat' p' with
      | None => None
      | Some ps =>
          match param_name x with
          | Some name => Some ((name, string_of_bytes y) :: ps)
          | None => if bool_decide (x = y) then Some ps else None
          end
      end
  | _, _ => None
  end.

Definition match_pattern (pat : string) (p : bytes) : option (list (string * string)) :=
  match_segments (segments (bytes_of_string pat)) (segments p).

Class ChiLaws (C : Chi) := {
  (** a route is chosen only if its method and pattern match *)
  chi_found table m p i ps :
    chi_route table m p = Found i ps ->
    exists pat, table !! i = Some (m, pat) /\ match_pattern pat p = Some ps;
  (** a path that matches one route of the table, with no empty parameter, is routed there *)
  chi_match table m p i pat ps :
    table !! i = Some (m, pat) -> match_pattern pat p = Some ps ->
    Forall (fun kv => kv.2 <> "") ps ->
    (forall j m' pat', table !! j = Some (m', pat') -> is_Some (match_pattern pat' p) -> m' = m -> j = i) ->
    chi_route table m p = Found i ps;
}.

Section server.
Context {crypto : Crypto} {tf : TimeFormat} {chi : Chi} {St NSt : Type}.
Context {bs : BlobStore St} {ns : NonceStore NSt}.
Abbreviation world := (world St NSt).
Abbreviation handler := (handler St NSt).

(** * Middleware *)

(** [maxBody]: the cap is checked before anything below sees the request. *)
Definition maxBody (blobLimit : Z) (next : handler) : handler := fun w r s =>
  if blobLimit <? ContentLength r then writeTooLarge w blobLimit s
  else
    let g := sizeGuard blobLimit w in
    let s := set_body (count_body blobLimit (w_body s)) (set_wrote false s) in
    let s := next g r s in
    if body_over (w_body s) && negb (w_wrote s) then rw_WriteHeader g 413 s else s.

Definition corsMiddleware (next : handler) : handler := fun w r s =>
  let s := Header_Set "Access-Control-Allow-Origin" "*" s in
  let s := Header_Set "Access-Control-Allow-Headers" "*" s in
  let s := Header_Set "Access-Control-Allow-Methods" "GET, POST, DELETE, OPTIONS" s in
  if bool_decide (Method r = "OPTIONS") then rw_WriteHeader w 200 s else next w r s.

(** * Routes *)

Record Deps := mkDeps {
  dep_Wallet : Wallet;
  dep_MaxBlobBytes : Z;
  dep_Port : Z;
}.

(** The method and pattern of each route, in the order of [NewRouter], and
    whether it is in the authenticated group. *)
Definition routes (d : Deps) (serverIdentityKey : string) : list (string * string * handler) :=
  let auth := AuthProof (dep_Wallet d) in
  [ ("GET", "/health", handle_Health);
    ("GET", "/v1/limits", handle_Limits (dep_MaxBlobBytes d) serverIdentityKey);
    ("GET", "/v1/manifest", auth handle_Manifest);
    ("POST", "/v1/log/{deviceId}", auth handle_Append);
    ("GET", "/v1/log/{deviceId}", auth handle_Index);
    ("GET", "/v1/log/{deviceId}/{seq}", auth handle_Blob);
    ("DELETE", "/v1/generation/{deviceId}/{generation}", auth handle_PruneGeneration);
    ("DELETE", "/v1/account", auth handle_DeleteAccount) ].

Definition with_params (r : request) (ps : list (string * string)) : request :=
  mkRequest _ (Method r) (ReqURL r) (ReqHeader r) (ContentLength r) (ctx_identity r) ps.

Definition not_found : handler := fun w _ s => WriteError w 404 "ERR_NOT_FOUND" "No such route." s.

Definition method_not_allowed : handler := fun w r s =>
  rw_WriteHeader w 405 (Header_update (chi_405_header (Method r) (route_path (ReqURL r))) s).

Definition find_route (d : Deps) (key : string) (r : request) : route_result :=
  chi_route (fst <$> routes d key) (Method r) (route_path (ReqURL r)).

(** Routing records the pattern in chi's route context. *)
Definition mux (d : Deps) (key : string) : handler := fun w r s =>
  match find_route d key r with
  | NoRoute => not_found w r s
  | NoMethod => method_not_allowed w r s
  | Found i ps =>
      match routes d key !! i with
      | Some (_, pat, h) => h w (with_params r ps) (set_route pat s)
      | None => not_found w r s
      end
  end.

(** * Telemetry *)

(** [http.StatusText] of the statuses a span reports as errors. *)
Definition StatusText (status : Z) : string :=
  match status with
  | 500 => "Internal Server Error"
  | 501 => "Not Implemented"
  | 502 => "Bad Gateway"
  | 503 => "Service Unavailable"
  | 504 => "Gateway Timeout"
  | 505 => "HTTP Version Not Supported"
  | 506 => "Variant Also Negotiates"
  | 507 => "Insufficient Storage"
  | 508 => "Loop Detected"
  | 510 => "Not Extended"
  | 511 => "Network Authentication Required"
  | _ => ""
  end.

(** The labels of the span and of the metrics. *)
Definition request_attrs (method route : string) (status : Z) : list attribute :=
  [ ("http.request.method", AttrString method);
    ("http.route", AttrString route);
    ("http.response.status_code", AttrInt status) ].

(** What one request leaves behind: its span, renamed once the route is
    known, its duration, the error count and the summary line. *)
Definition signals (elapsed : Z) (method route : string) (status written : Z) : list signal :=
  let attrs := request_attrs method route status in
  let failed := 500 <=? status in
  [ SpanEnded (mkServerSpan (method +:+ " " +:+ route) attrs (if failed then Some (StatusText status) else None));
    DurationRecorded elapsed attrs ] ++
  (if failed then [ErrorCounted attrs] else []) ++
  [ LineLogged (mkLogLine failed method route status (Milliseconds elapsed) written) ].

(** Every request but health probes is traced, measured and logged; a request
    that never reached a route shares one label. *)
Definition Telemetry (next : handler) : handler := fun w r s =>
  if bool_decide (Path (ReqURL r) = bytes_of_string "/health") then next w r s
  else
    let s := set_recorder 0 0 s in
    let s := next (statusRecorder w) r s in
    let route := if bool_decide (w_route s = "") then "unmatched" else w_route s in
    let status := if w_status s =? 0 then 200 else w_status s in
    emit (signals (t_elapsed (w_times s)) (Method r) route status (w_written s)) s.

(** * The router *)

Definition NewRouter (d : Deps) : result handler :=
  match GetPublicKey (dep_Wallet d) with
  | Err e => Err (Wrapf "read server identity key: " e "")
  | Ok pub =>
      let key := ToDERHex pub in
      Ok (Telemetry (corsMiddleware (maxBody (dep_MaxBlobBytes d) (mux d key))))
  end.

(** ** server.New *)

Definition StreamTimeout : Z := 30 * Minute.

Record http_Server := mkServer {
  Addr : string;
  Handler : handler;
  ReadHeaderTimeout : Z;
  ReadTimeout : Z;
  WriteTimeout : Z;
  IdleTimeout : Z;
}.

Definition New (d : Deps) : result http_Server :=
  match NewRouter d with
  | Err e => Err e
  | Ok h => Ok (mkServer (":" +:+ FormatInt (dep_Port d)) h (10 * Second) StreamTimeout StreamTimeout (2 * Minute))
  end.

(** One request served on a connection whose body is [body]. *)
Definition serve (h : handler) (r : request) (body : source) (t : times) (st : St) (n : NSt) : world :=
  h base_writer r (mkWorld new_response 0 0 false (PlainBody (RawBody body)) st n t "" []).

(** The status the client receives: 200 when the handler wrote nothing. *)
Definition status_of (s : world) : Z := default 200 (rs_status (w_resp s)).

End server.
