(* ===== verification/ServerProps.v ===== *)
(** The whole server: from a request on the wire, through telemetry, CORS,
    the size cap, the router and the authentication, to the log. *)
From S2P Require Import Prelude GoStrings GoError GoTime Sha256 Json JsonFacts Url Nonce AuthProof AuthProofProps.
From S2P Require Import GoIO BlobStore LogFacts Trace Bodies Http WriterFacts Handlers Api Middlewares AuthGate Server.
Local Open Scope Z_scope.

(** * Writers touch nothing but the response *)

Section pure.
Context {St NSt : Type}.
Abbreviation world := (world St NSt).

Definition pure_writer (w : ResponseWriter St NSt) : Prop :=
  (forall code (s : world), same_state s (rw_WriteHeader w code s)) /\
  (forall p (s : world), same_state s (rw_Write w p s)).

Lemma same_state_refl (s : world) : same_state s s.
Proof. by split_and!. Qed.

Lemma pure_base : pure_writer base_writer.
Proof. by split. Qed.

Lemma pure_recorder w : pure_writer w -> pure_writer (statusRecorder w).
Proof.
  intros [Hh Hw]. split.
  - intros code s. simpl. etrans; [|apply Hh]. by destruct (w_status s =? 0).
  - intros p s. simpl. set (s1 := if w_status s =? 0 then _ else s).
    assert (same_state s s1) as H1 by (subst s1; by destruct (w_status s =? 0)).
    etrans; [exact H1|]. exact (Hw p s1).
Qed.

Lemma pure_WriteJSON w status payload (s : world) :
  pure_writer w -> same_state s (WriteJSON w status payload s).
Proof.
  intros [Hh Hw]. unfold WriteJSON. etrans; [|apply Hw]. etrans; [|apply Hh]. by split_and!.
Qed.

Lemma pure_guard limit w : pure_writer w -> pure_writer (sizeGuard limit w).
Proof.
  intros Hp. assert (forall code (s : world), same_state s (guard_WriteHeader w limit code s)) as Hh.
  { intros code s. unfold guard_WriteHeader. destruct (w_wrote s); [apply same_state_refl|].
    destruct (body_over _); [|by etrans; [|apply Hp]].
    unfold writeTooLarge, WriteError. etrans; [|by apply pure_WriteJSON]. by split_and!. }
  split; [exact Hh|]. intros p s. simpl. unfold guard_Write.
  set (s1 := if w_wrote s then s else _).
  assert (same_state s s1) as H1 by (subst s1; destruct (w_wrote s); [apply same_state_refl|apply Hh]).
  etrans; [exact H1|]. destruct (body_over _); [apply same_state_refl|apply Hp].
Qed.
End pure.

(** * The chain above the router *)

Section chain.
Context {crypto : Crypto} {tf : TimeFormat} {chi : Chi} {St NSt : Type}.
Context {bs : BlobStore St} {ns : NonceStore NSt}.
Abbreviation world := (world St NSt).

Definition cors_headers : gmap string string :=
  <["Access-Control-Allow-Methods" := "GET, POST, DELETE, OPTIONS"]>
    (<["Access-Control-Allow-Headers" := "*"]> (<["Access-Control-Allow-Origin" := "*"]> ∅)).

(** The state in which the router runs. *)
Definition at_router (limit : Z) (body : source) (t : times) (st : St) (n : NSt) : world :=
  mkWorld (mkResponse cors_headers None ∅ []) 0 0 false
    (count_body limit (PlainBody (RawBody body))) st n t "" [].

(** What [maxBody] does after the router. *)
Definition finish (limit : Z) (w : ResponseWriter St NSt) (s : world) : world :=
  if body_over (w_body s) && negb (w_wrote s) then rw_WriteHeader (sizeGuard limit w) 413 s else s.

(** The signals of telemetry. *)
Definition logged (r : request) (s : world) : world :=
  let route := if bool_decide (w_route s = "") then "unmatched" else w_route s in
  let status := if w_status s =? 0 then 200 else w_status s in
  emit (signals (t_elapsed (w_times s)) (Method r) route status (w_written s)) s.

Definition is_health (r : request) : bool := bool_decide (Path (ReqURL r) = bytes_of_string "/health").

Context (d : Deps) (pub : PublicKey) (h : handler St NSt).
Hypothesis Hpub : GetPublicKey (dep_Wallet d) = Ok pub.
Hypothesis Hrouter : NewRouter d = Ok h.

Let key := ToDERHex pub.
Let limit := dep_MaxBlobBytes d.

Lemma router_eq : h = Telemetry (corsMiddleware (maxBody limit (mux d key))).
Proof. unfold NewRouter in Hrouter. rewrite Hpub in Hrouter. by injection Hrouter as <-. Qed.

Lemma serve_chain r body t st n :
  is_health r = false -> Method r <> "OPTIONS" -> ContentLength r <= limit ->
  serve h r body t st n
  = logged r (finish limit recorder_writer (mux d key (api_writer limit) r (at_router limit body t st n))).
Proof.
  intros Hh Hm Hl. rewrite router_eq. unfold serve, Telemetry, corsMiddleware, maxBody.
  unfold is_health in Hh. rewrite Hh, bool_decide_eq_false_2 by done.
  rewrite (proj2 (Z.ltb_ge limit (ContentLength r))) by done. reflexivity.
Qed.

(** A length the client announces over the cap is refused first. *)
Lemma serve_announced r body t st n :
  is_health r = false -> Method r <> "OPTIONS" -> limit < ContentLength r ->
  serve h r body t st n
  = logged r (writeTooLarge recorder_writer limit
      (mkWorld (mkResponse cors_headers None ∅ []) 0 0 false (PlainBody (RawBody body)) st n t "" [])).
Proof.
  intros Hh Hm Hl. rewrite router_eq. unfold serve, Telemetry, corsMiddleware, maxBody.
  unfold is_health in Hh. rewrite Hh, bool_decide_eq_false_2 by done.
  rewrite (proj2 (Z.ltb_lt limit (ContentLength r))) by done. reflexivity.
Qed.

(** ** Endpoints and routes *)

Definition endpoint_route (e : endpoint) : nat :=
  match e with EManifest => 2 | EAppend => 3 | EIndex => 4 | EBlob => 5 | EPrune => 6 | EErase => 7 end.

Definition endpoint_pattern (e : endpoint) : string :=
  match e with
  | EManifest => "/v1/manifest"
  | EAppend | EIndex => "/v1/log/{deviceId}"
  | EBlob => "/v1/log/{deviceId}/{seq}"
  | EPrune => "/v1/generation/{deviceId}/{generation}"
  | EErase => "/v1/account"
  end.

Definition endpoint_method (e : endpoint) : string :=
  match e with EAppend => "POST" | EPrune | EErase => "DELETE" | _ => "GET" end.

Lemma endpoint_in_table e :
  routes d key !! endpoint_route e
  = Some (endpoint_method e, endpoint_pattern e, Middlewares.AuthProof (dep_Wallet d) (endpoint_handler e)).
Proof. by destruct e. Qed.

(** Every other route answers without authentication and without the log. *)
Lemma other_routes i m pat hd :
  routes d key !! i = Some (m, pat, hd) ->
  (exists e, i = endpoint_route e) \/ hd = handle_Health \/ hd = handle_Limits limit key.
Proof.
  destruct i as [|[|[|[|[|[|[|[|i]]]]]]]]; [| | | | | | | |done]; intros [= <- <- <-]; auto; left;
    [by exists EManifest|by exists EAppend|by exists EIndex|by exists EBlob|by exists EPrune|by exists EErase].
Qed.

Lemma mux_endpoint e ps w r s :
  find_route d key r = Found (endpoint_route e) ps ->
  mux d key w r s
  = Middlewares.AuthProof (dep_Wallet d) (endpoint_handler e) w (with_params r ps)
      (set_route (endpoint_pattern e) s).
Proof. intros Hf. unfold mux. by rewrite Hf, endpoint_in_table. Qed.
End chain.

(** * An admitted request *)

Section admitted.
Context {crypto : Crypto} {laws : CryptoLaws crypto} {tf : TimeFormat} {chi : Chi} {St NSt : Type}.
Context {bs : BlobStore St} {ok : BlobStoreOk St} {ns : NonceStore NSt}.
Context (d : Deps) (pub : PublicKey) (h : handler St NSt).
Hypothesis Hpub : GetPublicKey (dep_Wallet d) = Ok pub.
Hypothesis Hrouter : NewRouter d = Ok h.
Hypothesis Hlimit : 0 <= dep_MaxBlobBytes d.

Let key := ToDERHex pub.
Let limit := dep_MaxBlobBytes d.

(** The stream an endpoint reads. *)
Definition request_body (digest : string) (body : source) : reqBody :=
  bind_body digest (count_body limit (PlainBody (RawBody body))).

(** A connection: the network ends the body properly or with an error of its
    own, and the clocks are of this era. *)
Definition wire_ok (body : source) (t : times) : Prop :=
  end_ok (rd_err body) /\ Is (rd_err body) ErrBodyTooLarge = false /\ stream_fits body /\
  clock_ok (t_verify t) /\ time_zero <= t_store t.

Lemma request_body_facts digest body :
  end_ok (rd_err body) -> Is (rd_err body) ErrBodyTooLarge = false ->
  body_over (request_body digest body) = false /\ body_inv (request_body digest body) /\
  src_err (request_body digest body) = rd_err body /\ end_ok (rd_err (request_body digest body)).
Proof.
  intros Hc Hi. unfold request_body, bind_body. case_bool_decide.
  - assert ((0 <=? limit) = true) by (by apply Z.leb_le). split_and!; try done.
    + split; [|done]. simpl. symmetry. by apply Z.ltb_ge.
    + change (rd_err (count_body limit (PlainBody (RawBody body)))) with
        (inner_err (CountedBody (mkCountingBody body limit 0 false))). simpl.
      destruct (_ <? _); [by apply end_ok_clean; right|exact Hc].
  - pose proof (upload_body_inv limit digest body Hlimit). pose proof (upload_body_clean limit digest body end_ok end_ok_clean Hc).
    done.
Qed.

(** The router's state after the authentication let the request through. *)
Definition at_endpoint (e : endpoint) (digest : string) (body : source) (t : times) (st : St) (n : NSt)
    : world St NSt :=
  mkWorld (mkResponse cors_headers None ∅ []) 0 0 false (request_body digest body) st n t
    (endpoint_pattern e) [].

Lemma at_endpoint_ready e digest body t st n a :
  wire_ok body t -> refines st a -> ready (at_endpoint e digest body t st n) a.
Proof.
  intros (Hc & Hi & Hf & _ & Ht) Hr. destruct (request_body_facts digest body Hc Hi) as (Ho & Hinv & Hs & Hcl).
  split; try done; simpl; [by rewrite Hs|].
  unfold request_body, bind_body, stream_fits. by destruct (bool_decide _).
Qed.

(** A request for endpoint [e] that the router sees. *)
Definition reaches (e : endpoint) (r : request) (ps : list (string * string)) : Prop :=
  is_health r = false /\ Method r <> "OPTIONS" /\ ContentLength r <= limit /\
  find_route d key r = Found (endpoint_route e) ps.

(** The final state of a served request, against the abstract outcome. *)
Definition served (e : endpoint) (p digest : string) (body : source) (a a' : alog) (rp : reply)
    (r : request) (st : St) (n' : NSt) (s : world St NSt) : Prop :=
  w_nonces s = n' /\
  (body_over (w_body s) = true -> rd_err (request_body digest body) = ErrBodyTooLarge) /\
  ((refines (w_store s) a' /\ response_is s (reply_through limit s rp)) \/
   (request_excused e p r a st /\ (refines (w_store s) a \/ refines (w_store s) a') /\
    exists rp', failure_reply limit (body_over (w_body s)) rp rp' /\ response_is s rp')) /\
  exists code, rs_status (w_resp s) = Some code /\
    w_signals s = signals (t_elapsed (w_times s)) (Method r) (endpoint_pattern e) code
                    (Z.of_nat (length (rs_body (w_resp s)))).

(** The signals of an answered request. *)
Lemma logged_recorded r (s : world St NSt) pat :
  recorded s -> w_wrote s = true -> w_route s = pat -> pat <> "" -> w_signals s = [] ->
  is_Some (rs_status (w_resp s)) ->
  exists code, rs_status (w_resp s) = Some code /\
    w_signals (logged r (finish limit recorder_writer s))
    = signals (t_elapsed (w_times s)) (Method r) pat code (Z.of_nat (length (rs_body (w_resp s)))).
Proof.
  intros [Hs Hn] Hw Hr Hp Hl [code Hc]. exists code. split; [done|].
  unfold finish. rewrite Hw, andb_false_r. unfold logged, emit. cbn [w_signals w_route w_status w_written w_times].
  rewrite Hl, Hr, bool_decide_eq_false_2, Hn by done. rewrite Hc in Hs.
  destruct (w_status s =? 0); [done|]. by injection Hs as ->.
Qed.

Lemma serve_admitted e ps r body t st n n' caller digest a :
  wire_ok body t -> refines st a -> reaches e r ps ->
  authenticate (dep_Wallet d) r t n = (n', Granted caller digest) ->
  let r' := with_params r ps in
  let spec := spec_api limit e (ToDERHex caller) r' (t_store t) (body_outcome (request_body digest body)) a in
  served e (ToDERHex caller) digest body a spec.1 spec.2 r st n' (serve h r body t st n).
Proof.
  intros Hwire Hst (Hh & Hm & Hl & Hroute) Hauth r' spec.
  rewrite (serve_chain d pub h Hpub Hrouter) by done. rewrite (mux_endpoint d pub e ps) by done.
  fold limit. rewrite AuthProof_eq.
  change (authenticate (dep_Wallet d) (with_params r ps) _ _) with (authenticate (dep_Wallet d) r t n).
  rewrite Hauth. cbn zeta iota. fold r'.
  change (set_body _ _) with (at_endpoint e digest body t st n').
  pose proof (endpoint_implements limit (at_endpoint e digest body t st n') a (WithIdentityKey r' caller) caller
    (at_endpoint_ready e digest body t st n' a Hwire Hst) eq_refl e) as Himp.
  change (spec_api limit e (ToDERHex caller) (WithIdentityKey r' caller) _ _ a) with spec in Himp.
  set (s1 := endpoint_handler e (api_writer limit) (WithIdentityKey r' caller) _) in *.
  destruct Himp as (Hw & Hc & Hn & Hrt & Hlg & Htm & Hov & Hout).
  assert (is_Some (rs_status (w_resp s1))) as Hsome.
  { destruct Hout as [[_ (-> & _)]|(_ & _ & rp' & _ & (-> & _))]; by eexists. }
  destruct (logged_recorded r s1 (endpoint_pattern e) Hc Hw Hrt) as (code & Hcode & Hlog); [by destruct e|done|done|].
  unfold finish in *. rewrite Hw, andb_false_r in *. 
  split_and!; [exact Hn|exact Hov|exact Hout|by exists code].
Qed.

(** C1. The service end to end: a request that reaches an endpoint and is
    admitted for a key is answered, and changes the log, as the abstract API
    says for the account named by that key and by nothing in the request;
    its body is what the network delivered, within the cap and with the
    signed digest, or an error; and the telemetry of the request names
    the route pattern, the status and the number of bytes sent. *)
Theorem serve_refines_api e ps r body t st n n' caller digest a :
  wire_ok body t -> refines st a -> reaches e r ps ->
  authenticate (dep_Wallet d) r t n = (n', Granted caller digest) ->
  served e (ToDERHex caller) digest body a
    (spec_api limit e (ToDERHex caller) (with_params r ps) (t_store t)
       (body_outcome (request_body digest body)) a).1
    (spec_api limit e (ToDERHex caller) (with_params r ps) (t_store t)
       (body_outcome (request_body digest body)) a).2
    r st n' (serve h r body t st n).
Proof. intros. by apply (serve_admitted e ps). Qed.

(** ** Uploads *)

(** An append of the abstract API: one blob, in full, or nothing. *)
Lemma spec_api_append account r now body a :
  let spec := spec_api limit EAppend account r now body a in
  (rp_status spec.2 <> 201 /\ spec.1 = a) \/
  exists g q data,
    let k := mkBlobKey account (URLParam r "deviceId") g q in
    body = Ok data /\ data <> [] /\ q = spec_next a (stream_of k) /\
    1 <= g <= 2 ^ 30 /\ 1 <= q <= 2 ^ 30 /\ match_lower_hex 32 (URLParam r "deviceId") = true /\
    spec.1 = <[stream_of k := log_of a (stream_of k) ++
                [mkAblob data (Query_Get (ReqURL r) "prevSha256") now]]> a /\
    spec.2 = json_reply 201 (append_json q (Z.of_nat (length data)) (sha256_hex data)).
Proof.
  cbn zeta. unfold spec_api.
  destruct (bool_decide _); cbn [negb]; [|by left].
  destruct (match_lower_hex 32 _) eqn:Hd; cbn [negb]; [|by left].
  destruct (query_number r "seq") as [q|] eqn:Eq; [|by left].
  destruct (query_number r "generation") as [g|] eqn:Eg; [|by left].
  apply addressable_range in Eq. apply addressable_range in Eg.
  unfold spec_append. cbn [Seq]. case_bool_decide as Hq; [|by left].
  destruct body as [[|c data]|e]; [by left| |].
  - right. exists g, q, (c :: data). split_and!; done || lia.
  - left. split; [|done]. cbn [snd]. unfold append_reply. by repeat case_match.
Qed.

Lemma failure_not_201 over rp rp' : failure_reply limit over rp rp' -> rp_status rp' <> 201.
Proof. intros [[what ->]|[[_ ->]|(data & _ & data' & _ & ->)]]; done. Qed.

Lemma body_outcome_ok (b : reqBody) data :
  body_outcome b = Ok data -> rd_err b = EOF /\ data = rd_bytes b.
Proof. unfold body_outcome. case_bool_decide; [|done]. by intros [= <-]. Qed.

Context {claws : ChiLaws chi}.

Lemma reaches_method e r ps : reaches e r ps -> Method r = endpoint_method e.
Proof.
  intros (_ & _ & _ & Hf). unfold find_route in Hf. apply chi_found in Hf as (pat & Ht & _).
  rewrite list_lookup_fmap, (endpoint_in_table d pub e) in Ht. by injection Ht as <- _.
Qed.

Lemma admitted_digest r t n n' caller digest :
  clock_ok (t_verify t) -> Method r = "POST" ->
  authenticate (dep_Wallet d) r t n = (n', Granted caller digest) -> digest <> "".
Proof. intros Ht Hm Ha. apply authenticate_admitted in Ha as (p & (_ & _ & _ & Hd & _) & _); auto. Qed.

(** The signed upload, complete and within the cap, is the next blob of a
    stream of the caller's. *)
Definition upload_stored (caller : PublicKey) (digest : string) (r : request) (body : source)
    (t : times) (a : alog) (s : world St NSt) : Prop :=
  rd_err body = EOF /\ rd_bytes body <> [] /\
  Z.of_nat (length (rd_bytes body)) <= limit /\ sha256_hex (rd_bytes body) = digest /\
  exists k, Pseudonym k = ToDERHex caller /\ Seq k = spec_next a (stream_of k) /\
    refines (w_store s)
      (<[stream_of k := log_of a (stream_of k) ++
          [mkAblob (rd_bytes body) (Query_Get (ReqURL r) "prevSha256") (t_store t)]]> a).


(** C22. The size cap: an upload the client announces as longer than the cap is
    answered with the 413 before anything else looks at it; one that turns
    out to be longer is never stored, even in part, and the 413 is also its
    answer when the rest of the request is in order, unless the infrastructure
    fails. *)
Theorem oversize_upload r body t st n :
  is_health r = false -> Method r <> "OPTIONS" ->
  (limit < ContentLength r ->
     let s := serve h r body t st n in
     response_is s (too_large_reply limit) /\ w_store s = st /\ w_nonces s = n /\
     w_body s = PlainBody (RawBody body)) /\
  (forall ps n' caller digest a,
     wire_ok body t -> refines st a -> reaches EAppend r ps ->
     authenticate (dep_Wallet d) r t n = (n', Granted caller digest) ->
     limit < Z.of_nat (length (rd_bytes body)) ->
     let s := serve h r body t st n in
     refines (w_store s) a /\ status_of s <> 201 /\
     forall g q,
       Header_Get r "Content-Type" = ContentTypeOctetStream ->
       match_lower_hex 32 (URLParam (with_params r ps) "deviceId") = true ->
       positiveIntParam r "generation" = Some g -> positiveIntParam r "seq" = Some q ->
       q = spec_next a (ToDERHex caller, URLParam (with_params r ps) "deviceId", g) ->
       response_is s (too_large_reply limit) \/ (request_excused EAppend (ToDERHex caller) r a st /\ exists what, response_is s (internal what))).
Proof.
  intros Hh Hm. split.
  - intros Hl s. subst s. rewrite (serve_announced d pub h Hpub Hrouter) by done. fold limit.
    set (s0 := mkWorld _ _ _ _ _ _ _ _ _ _).
    destruct (writeTooLarge_ok limit s0) as (Hr & (Eb & Es & En & _) & _); [done|]. done.
  - intros ps n' caller digest a Hwire Hst Hreach Hauth Hlen s.
    pose proof (serve_admitted EAppend ps r body t st n n' caller digest a Hwire Hst Hreach Hauth) as Hs.
    cbn zeta in Hs. fold s in Hs. destruct Hs as (_ & Hov & Hout & _).
    assert (digest <> "") as Hdig.
    { eapply admitted_digest; [apply Hwire|by rewrite (reaches_method EAppend r ps)|done]. }
    assert (body_outcome (request_body digest body) = Err ErrBodyTooLarge) as Hb.
    { unfold request_body, bind_body. rewrite bool_decide_eq_false_2 by done. unfold body_outcome.
      fold (upload_body limit digest body). rewrite upload_body_err. by rewrite (proj2 (Z.ltb_lt _ _)). }
    rewrite Hb in Hout.
    pose proof (spec_api_append (ToDERHex caller) (with_params r ps) (t_store t) (Err ErrBodyTooLarge) a)
      as [[H201 Ha]|(? & ? & ? & [=] & _)].
    assert (refines (w_store s) a) as Hrs by (rewrite Ha in Hout; destruct Hout as [[? _]|(_ & [?|?] & _)]; done).
    split_and!; [done| |].
    + unfold status_of. destruct Hout as [[_ (-> & _)]|(_ & _ & rp' & Hf%failure_not_201 & (-> & _))]; [|done].
      unfold reply_through. by destruct (body_over _).
    + intros g q Hct Hdev Hg Hq Hnext. rewrite positiveIntParam_eq in Hg, Hq. destruct Hout as [[_ Hresp]|(Hfl & _ & rp' & Hf & Hresp)].
      * left. unfold reply_through in Hresp. destruct (body_over _); [done|]. revert Hresp. unfold spec_api.
        change (Header_Get (with_params r ps)) with (Header_Get r). rewrite Hct, Hdev.
        change (query_number (with_params r ps)) with (query_number r). rewrite Hg, Hq.
        rewrite bool_decide_eq_true_2 by done. cbn [negb]. unfold spec_append. cbn [Seq].
        by rewrite bool_decide_eq_true_2.
      * destruct Hf as [[what ->]|[[_ ->]|(data & E & _)]]; [right; split; [done|]; by eexists|by left|].
        exfalso. revert E. unfold spec_api.
        change (Header_Get (with_params r ps)) with (Header_Get r). rewrite Hct, Hdev.
        change (query_number (with_params r ps)) with (query_number r). rewrite Hg, Hq.
        rewrite bool_decide_eq_true_2 by done. cbn [negb]. unfold spec_append. cbn [Seq].
        by rewrite bool_decide_eq_true_2.
Qed.

(** ** Refused requests *)

Lemma serve_refused e ps r body t st n n' status code desc :
  reaches e r ps -> status <> 0 ->
  authenticate (dep_Wallet d) r t n = (n', Refused status code desc) ->
  let s := serve h r body t st n in
  response_is s (error_reply status code desc) /\ w_store s = st /\ w_nonces s = n' /\
  src_of (inner_of (w_body s)) = body /\ body_over (w_body s) = false.
Proof.
  intros (Hh & Hm & Hl & Hroute) Hst Hauth s. subst s.
  rewrite (serve_chain d pub h Hpub Hrouter) by done. rewrite (mux_endpoint d pub e ps) by done.
  fold limit. rewrite AuthProof_eq.
  change (authenticate (dep_Wallet d) (with_params r ps) _ _) with (authenticate (dep_Wallet d) r t n).
  rewrite Hauth. cbn zeta iota. set (s0 := set_nonces n' _).
  destruct (api_WriteError limit status code desc s0) as (Hr & (Eb & Es & En & _) & _ & Hw); [done..|].
  unfold reply_through in Hr. change (body_over (w_body s0)) with false in Hr. cbn iota in Hr.
  remember (WriteError (api_writer limit) status code desc s0) as s1 eqn:E1. clear E1.
  unfold finish. rewrite Hw, andb_false_r. unfold response_is, logged, emit.
  cbn [w_resp w_store w_nonces w_body]. rewrite Eb. done.
Qed.

(** Every refusal is a 401, or a 500 when the nonce store failed. *)
Lemma authenticate_status (r : request) t (n n' : NSt) status code desc :
  authenticate (dep_Wallet d) r t n = (n', Refused status code desc) -> status = 401 \/ status = 500.
Proof.
  unfold authenticate, check_header, unauthorized. intros E.
  repeat (case_match; simplify_eq/=; auto).
Qed.

End admitted.

(** * Nothing reaches the store around the authentication *)

Section gate.
Context {crypto : Crypto} {tf : TimeFormat} {chi : Chi} {St NSt : Type}.
Context {bs : BlobStore St} {ns : NonceStore NSt}.
Context (d : Deps) (pub : PublicKey) (h : handler St NSt).
Hypothesis Hpub : GetPublicKey (dep_Wallet d) = Ok pub.
Hypothesis Hrouter : NewRouter d = Ok h.

Let key := ToDERHex pub.
Let limit := dep_MaxBlobBytes d.

(** The request was admitted at an endpoint. *)
Definition let_through (r : request) (t : times) (n : NSt) : Prop :=
  exists e ps n' caller digest, find_route d key r = Found (endpoint_route e) ps /\
    authenticate (dep_Wallet d) r t n = (n', Granted caller digest).

(** The store was at most pinged, and the stream of the network not read. *)
Definition untouched (s s' : world St NSt) : Prop :=
  (w_store s' = w_store s \/ w_store s' = (Ping (w_store s)).1) /\
  src_of (inner_of (w_body s')) = src_of (inner_of (w_body s)).

Lemma same_untouched s s' : same_state s s' -> untouched s s'.
Proof. intros (Eb & Es & _). unfold untouched. rewrite Eb, Es. auto. Qed.

Lemma mux_gate w r s :
  pure_writer w -> untouched s (mux d key w r s) \/ let_through r (w_times s) (w_nonces s).
Proof.
  intros Hp. unfold mux. destruct (find_route d key r) as [i ps| |] eqn:Hf.
  - destruct (routes d key !! i) as [[[m pat] hd]|] eqn:Hi; [|left; by apply same_untouched, pure_WriteJSON].
    destruct (other_routes d pub i m pat hd Hi) as [[e ->]|[-> | ->]].
    + pose proof (eq_trans (eq_sym (endpoint_in_table d pub e)) Hi) as E. injection E as <- <- <-. rewrite AuthProof_eq.
      change (authenticate (dep_Wallet d) (with_params r ps) _ _)
        with (authenticate (dep_Wallet d) r (w_times s) (w_nonces s)).
      destruct (authenticate _ _ _ _) as [n' [code ec desc|caller digest]] eqn:Ha.
      * left. pose proof (pure_WriteJSON w code (ErrorBody ec desc)
          (set_nonces n' (set_route (endpoint_pattern e) s)) Hp) as (Eb & Es & _).
        unfold untouched, WriteError. rewrite Eb, Es. split; [by left|done].
      * right. by exists e, ps, n', caller, digest.
    + left. unfold handle_Health. destruct (Ping (w_store (set_route pat s))) as [st' res] eqn:Ep.
      assert (st' = (Ping (w_store s)).1) as -> by (change (w_store (set_route pat s)) with (w_store s) in Ep; by rewrite Ep).
      destruct res; match goal with |- untouched _ (WriteJSON w ?c ?p ?x) =>
        pose proof (pure_WriteJSON w c p x Hp) as (Eb & Es & _) end;
        unfold untouched; rewrite Eb, Es; (split; [by right|done]).
    + left. unfold handle_Limits.
      match goal with |- untouched _ (WriteJSON w ?c ?p ?x) =>
        pose proof (pure_WriteJSON w c p x Hp) as (Eb & Es & _) end.
      unfold untouched. rewrite Eb, Es. split; [by left|done].
  - left. apply same_untouched. unfold method_not_allowed. etrans; [|apply Hp]. by split_and!.
  - left. by apply same_untouched, pure_WriteJSON.
Qed.

Lemma maxBody_gate w r body t st n resp status written :
  pure_writer w ->
  let s := mkWorld resp status written false (PlainBody (RawBody body)) st n t "" [] in
  untouched s (maxBody limit (mux d key) w r s) \/ let_through r t n.
Proof.
  intros Hp s. unfold maxBody. destruct (limit <? ContentLength r).
  { left. apply same_untouched. by apply pure_WriteJSON. }
  set (s1 := set_body _ _).
  destruct (mux_gate (sizeGuard limit w) r s1 (pure_guard limit w Hp)) as [[Hs Hb]|Hl]; [|by right].
  left. set (s2 := mux d key _ r s1) in *.
  assert (same_state s2 (if body_over (w_body s2) && negb (w_wrote s2)
    then rw_WriteHeader (sizeGuard limit w) 413 s2 else s2)) as (Eb & Es & _).
  { destruct (_ && _); [by apply pure_guard|apply same_state_refl]. }
  unfold untouched. rewrite Eb, Es. split; [exact Hs|]. by rewrite Hb.
Qed.

(** C3. Storage is behind the authentication: whatever the method, the path,
    the headers and the body of a request, either it was admitted at an
    authenticated endpoint (its header holds a fresh, well-signed and unused
    proof for it), or the store was at most pinged, and not one byte of the
    body was read. *)
Theorem store_behind_auth r body t st n :
  let s := serve h r body t st n in
  let_through r t n \/
  ((w_store s = st \/ w_store s = (Ping st).1) /\ src_of (inner_of (w_body s)) = body).
Proof.
  assert (forall w resp status written, pure_writer w ->
    let s := mkWorld resp status written false (PlainBody (RawBody body)) st n t "" [] in
    let_through r t n \/ untouched s (corsMiddleware (maxBody limit (mux d key)) w r s)) as Hcors.
  { intros w resp status written Hp s. unfold corsMiddleware. case_bool_decide.
    - right. apply same_untouched. etrans; [|apply Hp]. by split_and!.
    - change (Header_Set "Access-Control-Allow-Methods" _ _) with
        (mkWorld (w_resp (Header_Set "Access-Control-Allow-Methods" "GET, POST, DELETE, OPTIONS"
          (Header_Set "Access-Control-Allow-Headers" "*" (Header_Set "Access-Control-Allow-Origin" "*" s))))
          status written false (PlainBody (RawBody body)) st n t "" []).
      destruct (maxBody_gate w r body t st n (w_resp (Header_Set "Access-Control-Allow-Methods"
        "GET, POST, DELETE, OPTIONS" (Header_Set "Access-Control-Allow-Headers" "*"
        (Header_Set "Access-Control-Allow-Origin" "*" s)))) status written Hp) as [Hu|Hl]; [by right|by left]. }
  cbn zeta. rewrite (router_eq d pub h Hpub Hrouter). fold limit key. unfold serve, Telemetry.
  destruct (bool_decide _); [by apply Hcors, pure_base|].
  destruct (Hcors (statusRecorder base_writer) new_response 0 0) as [Hl|Hu];
    [by apply pure_recorder, pure_base|by left|by right].
Qed.
End gate.

(** * Accounts on the wire *)

Section accounts.
Context {crypto : Crypto} {tf : TimeFormat}.

End accounts.
