(* ===== verification/Public.v ===== *)
(** What the server answers outside its authenticated endpoints: preflights,
    bodies announced as too large, the health probe, the limits, and routes
    that do not exist.  With [serve_refines_api] and the refusals of the
    authentication this covers every request there is. *)
From S2P Require Import Prelude GoStrings GoError GoTime Json Url Nonce AuthProof GoIO BlobStore Bodies Http WriterFacts.
From S2P Require Import Handlers Api Middlewares AuthGate Server ServerProps.
Local Open Scope Z_scope.

(** * Responses *)

(** A response as its client reads it. *)
Definition answer_is (rs : response) (rp : reply) : Prop :=
  rs_status rs = Some (rp_status rp) /\ rs_sent rs !! "Content-Type" = rp_type rp /\
  rs_sent rs !! "Content-Length" = rp_length rp /\ rs_body rs = rp_body rp.

Section responses.
Context {St NSt : Type}.
Abbreviation world := (world St NSt).

Lemma response_answer (s : world) rp : response_is s rp <-> answer_is (w_resp s) rp.
Proof. done. Qed.

(** A writer that passes everything on, whatever else it observes. *)
Record transparent (w : ResponseWriter St NSt) : Prop := {
  tw_pure : pure_writer w;
  tw_header code s : w_resp (rw_WriteHeader w code s) = resp_WriteHeader code (w_resp s);
  tw_write p s : w_resp (rw_Write w p s) = resp_Write p (w_resp s);
  tw_header_wrote code s : w_wrote (rw_WriteHeader w code s) = w_wrote s;
  tw_write_wrote p s : w_wrote (rw_Write w p s) = w_wrote s;
}.

Lemma transparent_base : transparent base_writer.
Proof. by split; [apply pure_base|..]. Qed.

Lemma transparent_recorder : transparent recorder_writer.
Proof.
  split; [apply pure_recorder, pure_base|..]; intros x s; destruct s as [[]]; simpl;
    (match goal with |- context [if ?b then _ else _] => by destruct b end).
Qed.

(** Nothing went out, and no entity header is set. *)
Definition clean (rs : response) : Prop :=
  rs_status rs = None /\ rs_body rs = [] /\ rs_header rs !! "Content-Length" = None.

Lemma json_written rs status payload :
  clean rs ->
  answer_is
    (resp_Write (encode payload ++ ["010"%char])
      (resp_WriteHeader status
        (mkResponse (<["Content-Type" := "application/json"]> (rs_header rs)) (rs_status rs) (rs_sent rs) (rs_body rs))))
    (json_reply status payload).
Proof.
  destruct rs as [h st sent b]. intros (Hs & Hb & Hl). simpl in *. subst. unfold resp_WriteHeader, resp_Write. simpl.
  split; [done|]. split; [simpl; by rewrite lookup_insert_eq|]. split; [|done]. simpl. by rewrite lookup_insert_ne.
Qed.

Lemma transparent_WriteJSON w status payload (s : world) :
  transparent w -> clean (w_resp s) ->
  let s' := WriteJSON w status payload s in
  answer_is (w_resp s') (json_reply status payload) /\ same_state s s' /\ w_wrote s' = w_wrote s.
Proof.
  intros Hw Hc. unfold WriteJSON. cbn zeta. split; [|split].
  - rewrite (tw_write w Hw), (tw_header w Hw). by apply json_written.
  - etrans; [|apply Hw]. etrans; [|apply Hw]. by split_and!.
  - by rewrite (tw_write_wrote w Hw), (tw_header_wrote w Hw).
Qed.

(** The guard lets a first answer through as long as the body did not overrun. *)
Lemma guarded_WriteHeader w limit code (s : world) :
  transparent w -> w_wrote s = false -> body_over (w_body s) = false ->
  let s' := rw_WriteHeader (sizeGuard limit w) code s in
  w_resp s' = resp_WriteHeader code (w_resp s) /\ same_state s s' /\ w_wrote s' = true.
Proof.
  intros Hw Hwr Ho. simpl. unfold guard_WriteHeader. rewrite Hwr.
  change (body_over (w_body (set_wrote true s))) with (body_over (w_body s)). rewrite Ho.
  rewrite (tw_header w Hw), (tw_header_wrote w Hw). split; [done|]. split; [|done].
  etrans; [|apply Hw]. by split_and!.
Qed.

Lemma guarded_WriteJSON w limit status payload (s : world) :
  transparent w -> clean (w_resp s) -> w_wrote s = false -> body_over (w_body s) = false ->
  let s' := WriteJSON (sizeGuard limit w) status payload s in
  answer_is (w_resp s') (json_reply status payload) /\ same_state s s' /\ w_wrote s' = true.
Proof.
  intros Hw Hc Hwr Ho. unfold WriteJSON. cbn zeta. set (s1 := Header_Set "Content-Type" "application/json" s).
  destruct (guarded_WriteHeader w limit status s1) as (Hr & Hs & Hwr1); [done..|].
  set (s2 := rw_WriteHeader _ _ s1) in *.
  assert (rw_Write (sizeGuard limit w) (encode payload ++ ["010"%char]) s2 = rw_Write w (encode payload ++ ["010"%char]) s2) as ->.
  { simpl. unfold guard_Write. rewrite Hwr1. assert (body_over (w_body s2) = false) as -> by (by rewrite (proj1 Hs)). done. }
  split; [|split].
  - rewrite (tw_write w Hw), Hr. by apply json_written.
  - etrans; [|apply Hw]. etrans; [|exact Hs]. by split_and!.
  - by rewrite (tw_write_wrote w Hw).
Qed.
End responses.

(** * Destinations *)

Section public.
Context {crypto : Crypto} {tf : TimeFormat} {chi : Chi} {St NSt : Type}.
Context {bs : BlobStore St} {ok : BlobStoreOk St} {ns : NonceStore NSt}.
Context (d : Deps) (pub : PublicKey) (h : handler St NSt).
Hypothesis Hpub : GetPublicKey (dep_Wallet d) = Ok pub.
Hypothesis Hrouter : NewRouter d = Ok h.

Let key := ToDERHex pub.
Let limit := dep_MaxBlobBytes d.
Abbreviation world := (world St NSt).

(** The authenticated endpoint of a route. *)
Definition endpoint_at (i : nat) : option endpoint :=
  match i with
  | 2 => Some EManifest | 3 => Some EAppend | 4 => Some EIndex | 5 => Some EBlob | 6 => Some EPrune | 7 => Some EErase
  | _ => None
  end%nat.

(** Where a request goes: to an endpoint, or no further than the public part. *)
Definition destination (r : request) : option (endpoint * list (string * string)) :=
  if bool_decide (Method r = "OPTIONS") || (limit <? ContentLength r) then None
  else
    match find_route (St := St) (NSt := NSt) d key r with
    | Found i ps => (fun e => (e, ps)) <$> endpoint_at i
    | _ => None
    end.

Lemma endpoint_at_route i e : endpoint_at i = Some e -> i = endpoint_route e.
Proof. destruct i as [|[|[|[|[|[|[|[|i]]]]]]]]; intros [= <-]; done. Qed.

Lemma destination_reaches r e ps :
  is_health r = false -> destination r = Some (e, ps) -> reaches (St := St) (NSt := NSt) d pub e r ps.
Proof.
  unfold destination, reaches. intros Hh. case_bool_decide as Hm; [done|]. cbn [orb].
  destruct (Z.ltb_spec limit (ContentLength r)) as [|Hl]; [done|]. fold key. destruct (find_route _ _ _) as [i ps'| |] eqn:E; try done.
  destruct (endpoint_at i) as [e'|] eqn:Ei; [|done]. intros [= -> ->]. apply endpoint_at_route in Ei as ->. done.
Qed.

(** What is answered there; only the probe can be told that the store is
    unreachable, and no more than that. *)
Definition answered_publicly (r : request) (unreachable : Prop) (rs : response) : Prop :=
  if bool_decide (Method r = "OPTIONS") then rs_status rs = Some 200 /\ rs_body rs = []
  else if limit <? ContentLength r then answer_is rs (too_large_reply limit)
  else
    match find_route (St := St) (NSt := NSt) d key r with
    | Found 0 _ =>
        answer_is rs (json_reply 200 (health_json "ok" "ok")) \/
        (unreachable /\ answer_is rs (json_reply 503 (health_json "degraded" "unreachable")))
    | Found 1 _ => answer_is rs (json_reply 200 (limits_json limit key))
    | NoMethod => rs_status rs = Some 405 /\ rs_body rs = []
    | _ => answer_is rs (error_reply 404 "ERR_NOT_FOUND" "No such route.")
    end.

(** The shared state, but for what a ping does to the store. *)
Definition kept (a : alog) (s s' : world) : Prop :=
  w_nonces s' = w_nonces s /\ w_body s' = w_body s /\ refines (w_store s') a.

Lemma same_kept a (s s' : world) : refines (w_store s) a -> same_state s s' -> kept a s s'.
Proof. intros Hr (E1 & E2 & E3 & _). unfold kept. by rewrite E1, E2, E3. Qed.

(** Behind the guard, before anything was written. *)
Lemma mux_public w r (s : world) a :
  transparent w -> clean (w_resp s) -> w_wrote s = false -> body_over (w_body s) = false -> refines (w_store s) a ->
  Method r <> "OPTIONS" -> ContentLength r <= limit -> destination r = None ->
  let s' := mux d key (sizeGuard limit w) r s in
  answered_publicly r (faulty (w_store s)) (w_resp s') /\ kept a s s' /\ w_wrote s' = true.
Proof.
  intros Hw Hc Hwr Ho Ha Hm Hl. unfold destination, answered_publicly, mux.
  rewrite bool_decide_eq_false_2 by done. rewrite (proj2 (Z.ltb_ge _ _)) by done. cbn [orb].
  assert (forall (s0 : world) status payload,
    clean (w_resp s0) -> w_wrote s0 = false -> body_over (w_body s0) = false -> same_state s s0 \/ kept a s s0 ->
    answer_is (w_resp (WriteJSON (sizeGuard limit w) status payload s0)) (json_reply status payload) /\
    kept a s (WriteJSON (sizeGuard limit w) status payload s0) /\
    w_wrote (WriteJSON (sizeGuard limit w) status payload s0) = true) as Hjson.
  { intros s0 status payload Hc0 Hw0 Ho0 Hk0.
    destruct (guarded_WriteJSON w limit status payload s0 Hw Hc0 Hw0 Ho0) as (H1 & H2 & H3).
    split; [done|]. split; [|done]. destruct Hk0 as [Hk0|(En & Eb & Er)]; [apply same_kept; [done|by etrans]|].
    destruct H2 as (E1 & E2 & E3 & _). unfold kept. rewrite E1, E2, E3. done. }
  intros Hd. destruct (find_route d key r) as [i ps| |] eqn:Hf.
  - destruct i as [|[|[|[|[|[|[|[|i]]]]]]]]; try discriminate Hd; cbn [routes lookup list_lookup].
    + unfold handle_Health. destruct (Ping _) as [st' res] eqn:Ep.
      change (w_store (set_route "/health" s)) with (w_store s) in Ep.
      destruct (Ping_ok _ a _ _ Ha Ep) as [[Hr ->]|(Hf' & e & -> & _ & Hr)].
      * destruct (Hjson (set_store st' (set_route "/health" s)) 200 (health_json "ok" "ok")) as (? & ? & ?); try done; [|by split; [left|]].
        by right.
      * destruct (Hjson (set_store st' (set_route "/health" s)) 503 (health_json "degraded" "unreachable")) as (? & ? & ?);
          try done; [|by split; [by right|]]. right. split_and!; try done. by destruct Hr.
    + apply Hjson; try done. right. by split_and!.
    + apply Hjson; try done. left. by split_and!.
  - unfold method_not_allowed.
    set (s1 := Header_update _ s). destruct (guarded_WriteHeader w limit 405 s1 Hw Hwr Ho) as (H1 & H2 & H3).
    rewrite H1. destruct Hc as (Hs & Hb & _). split.
    + unfold resp_WriteHeader. change (rs_status (w_resp s1)) with (rs_status (w_resp s)). rewrite Hs.
      split; [done|]. exact Hb.
    + split; [|done]. apply same_kept; [done|]. etrans; [|exact H2]. by split_and!.
  - apply Hjson; try done. left. by split_and!.
Qed.

(** Telemetry leaves what it wraps alone. *)
Lemma serve_through r body t st n :
  exists w, transparent w /\
    let s0 := mkWorld new_response 0 0 false (PlainBody (RawBody body)) st n t "" [] in
    let s1 := corsMiddleware (maxBody limit (mux d key)) w r s0 in
    let s := serve h r body t st n in
    w_resp s = w_resp s1 /\ w_nonces s = w_nonces s1 /\ w_body s = w_body s1 /\ w_store s = w_store s1.
Proof.
  rewrite (router_eq d pub h Hpub Hrouter). unfold serve, Telemetry. case_bool_decide.
  - exists base_writer. by split; [apply transparent_base|].
  - exists recorder_writer. by split; [apply transparent_recorder|].
Qed.

(** What the client of a public route gets: an answer made without its body
    and without the nonces, from a store that was at most pinged. *)
Lemma public_served r body t st n a :
  refines st a -> destination r = None ->
  let s := serve h r body t st n in
  answered_publicly r (faulty st) (w_resp s) /\ w_nonces s = n /\ src_of (inner_of (w_body s)) = body /\
  refines (w_store s) a.
Proof.
  intros Ha Hd. cbn zeta. destruct (serve_through r body t st n) as (w & Hw & -> & -> & -> & ->).
  unfold corsMiddleware. set (s1 := Header_Set "Access-Control-Allow-Methods" _ _).
  assert (clean (w_resp s1)) as Hc by (by split_and!).
  unfold answered_publicly. case_bool_decide as Hm.
  { rewrite (tw_header w Hw). destruct (tw_pure w Hw) as [Hp _]. destruct (Hp 200 s1) as (-> & -> & -> & _). done. }
  unfold maxBody. destruct (Z.ltb_spec limit (ContentLength r)) as [Hl|Hl].
  { destruct (transparent_WriteJSON w 413 (ErrorBody "ERR_BLOB_TOO_LARGE" (too_large_description limit)) s1 Hw Hc)
      as (Hr & (Eb & Es & En & _) & _).
    unfold writeTooLarge, WriteError. rewrite Eb, Es, En. done. }
  set (s2 := set_body _ _).
  destruct (mux_public w r s2 a Hw Hc eq_refl eq_refl Ha Hm Hl Hd) as (Hans & (Hn & Hb & Hr) & Hwr).
  rewrite Hwr, andb_false_r, Hb, Hn. revert Hans. unfold answered_publicly.
  rewrite bool_decide_eq_false_2 by done. rewrite (proj2 (Z.ltb_ge _ _)) by done. done.
Qed.

(** C16. Outside the endpoints. A request that goes to no authenticated
    endpoint is answered without its body and without the nonces, and leaves
    the log as it is: a preflight with 200, a body announced as too large with
    the 413, the limits with the cap and the identity key of the server, a
    method a route does not have with 405, any other path with 404; and a
    health probe with 200, or, only if what the store runs on fails, with a
    503 that says no more than that. *)
Theorem public_answered r body t st n a :
  refines st a -> destination r = None ->
  let s := serve h r body t st n in
  answered_publicly r (faulty st) (w_resp s) /\ w_nonces s = n /\ src_of (inner_of (w_body s)) = body /\
  refines (w_store s) a.
Proof. exact (public_served r body t st n a). Qed.
End public.
