(* ===== verification/HandlerFacts.v ===== *)
(** Invariants of a response under construction, for any handler: a property
    of the state that no change of headers, body, store or guard disturbs, and
    that the writer keeps, is kept by every handler, by the authentication and
    by the middleware around the router. *)
From S2P Require Import Prelude GoStrings GoError GoTime Json Url Nonce AuthProof GoIO BlobStore Bodies Http WriterFacts.
From S2P Require Import Handlers Api Middlewares AuthGate Server ServerProps.
Local Open Scope Z_scope.

Section invariant.
Context {St NSt : Type}.
Abbreviation world := (world St NSt).

(** Only the response that went out, and what the writer observes, matters. *)
Class Stable (I : world -> Prop) : Prop := {
  stable_header f s : I s -> I (Header_update f s);
  stable_body b s : I s -> I (set_body b s);
  stable_store st s : I s -> I (set_store st s);
  stable_wrote b s : I s -> I (set_wrote b s);
}.

(** A writer keeps an invariant; no handler writes the status 0. *)
Definition keeps (I : world -> Prop) (w : ResponseWriter St NSt) : Prop :=
  (forall code s, code <> 0 -> I s -> I (rw_WriteHeader w code s)) /\ (forall p s, I s -> I (rw_Write w p s)).

Lemma stable_Header_Set (I : world -> Prop) `{!Stable I} k v s : I s -> I (Header_Set k v s).
Proof. apply stable_header. Qed.
End invariant.

Create HintDb keeps discriminated.

Section handlers.
Context {crypto : Crypto} {tf : TimeFormat} {chi : Chi} {St NSt : Type}.
Context {bs : BlobStore St} {ns : NonceStore NSt}.
Context (I : world St NSt -> Prop) {HI : Stable I}.

Hint Extern 2 (I (Header_update _ _)) => apply stable_header : keeps.
Hint Extern 2 (I (Header_Set _ _ _)) => apply stable_Header_Set : keeps.
Hint Extern 2 (I (set_body _ _)) => apply stable_body : keeps.
Hint Extern 2 (I (set_store _ _)) => apply stable_store : keeps.
Hint Extern 2 (I (set_wrote _ _)) => apply stable_wrote : keeps.

Lemma keeps_WriteHeader w code s : keeps I w -> code <> 0 -> I s -> I (rw_WriteHeader w code s).
Proof. intros [H _]. apply H. Qed.

Lemma keeps_WriteJSON w status payload s : keeps I w -> status <> 0 -> I s -> I (WriteJSON w status payload s).
Proof. intros [Hh Hw] Hs0 Hs. unfold WriteJSON, Header_Set. by apply Hw, Hh, stable_header. Qed.

Lemma keeps_WriteError w status code desc s : keeps I w -> status <> 0 -> I s -> I (WriteError w status code desc s).
Proof. apply keeps_WriteJSON. Qed.

Lemma keeps_Copy {R : Type} `{Reader R} w (r : R) s :
  keeps I w -> I s -> I (Copy (fun s p => rw_Write w p s) s r).1.2.
Proof. intros [_ Hw]. apply Copy_keeps. intros p s'. apply Hw. Qed.

Hint Resolve keeps_WriteHeader keeps_WriteJSON keeps_WriteError keeps_Copy : keeps.
Hint Extern 1 (_ <> 0) => discriminate : keeps.

Lemma keeps_guard limit w : keeps I w -> keeps I (sizeGuard limit w).
Proof.
  intros Hk. assert (forall code s, code <> 0 -> I s -> I (guard_WriteHeader w limit code s)) as Hh.
  { intros code s Hc Hs. unfold guard_WriteHeader, writeTooLarge. repeat case_match; eauto with keeps. }
  split; [exact Hh|]. intros p s Hs. simpl. unfold guard_Write.
  assert (I (if w_wrote s then s else guard_WriteHeader w limit 200 s)) as Hs'.
  { destruct (w_wrote s); [done|by apply Hh]. }
  destruct (body_over _); [done|by apply Hk].
Qed.

(** What every handler does to the state it is called in. *)
Definition keeping (hd : handler St NSt) : Prop := forall w r s, keeps I w -> I s -> I (hd w r s).

Ltac keeps_all := intros w r s Hw Hs; unfold pseudonym, deviceID; repeat case_match; simplify_eq; eauto 6 with keeps.

Lemma keeping_endpoint e : keeping (endpoint_handler e).
Proof.
  destruct e; cbn [endpoint_handler]; unfold handle_Manifest, handle_Append, handle_Index, handle_Blob,
    handle_PruneGeneration, handle_DeleteAccount; keeps_all.
Qed.

(** For what the nonces do not matter to. *)
Definition nonce_free : Prop := forall n s, I s -> I (set_nonces n s).

Lemma keeping_AuthProof wallet hd : nonce_free -> keeping hd -> keeping (Middlewares.AuthProof wallet hd).
Proof.
  intros Hn Hhd w r s Hw Hs. rewrite AuthProof_eq. destruct (authenticate _ _ _ _) as [n' [code ec desc|caller digest]] eqn:E.
  - apply keeps_WriteError; [done| |by apply Hn]. apply (authenticate_status (mkDeps wallet 0 0)) in E. lia.
  - apply Hhd; [done|]. apply stable_body, Hn, Hs.
Qed.

Context (d : Deps) (key : string).

Lemma keeping_routes i m pat hd : nonce_free -> routes d key !! i = Some (m, pat, hd) -> keeping hd.
Proof.
  intros Hn. assert (forall e, keeping (Middlewares.AuthProof (dep_Wallet d) (endpoint_handler e))) as He
    by (intros e; apply keeping_AuthProof; [done|apply keeping_endpoint]).
  destruct i as [|[|[|[|[|[|[|[|i]]]]]]]]; [| | | | | | | |done]; intros [= <- <- <-];
    [unfold handle_Health; keeps_all|unfold handle_Limits; keeps_all|apply (He EManifest)|apply (He EAppend)
    |apply (He EIndex)|apply (He EBlob)|apply (He EPrune)|apply (He EErase)].
Qed.

(** The pattern of the route that was found is recorded. *)
Definition route_free : Prop :=
  forall i m pat hd s, routes (St := St) (NSt := NSt) d key !! i = Some (m, pat, hd) -> I s -> I (set_route pat s).

Lemma keeping_mux : nonce_free -> route_free -> keeping (mux d key).
Proof.
  intros Hn Hroute w r s Hw Hs. unfold mux, not_found, method_not_allowed. destruct (find_route d key r) as [i ps| |]; [|auto with keeps..].
  destruct (routes d key !! i) as [[[m pat] hd]|] eqn:E; [|auto with keeps].
  eapply keeping_routes; [exact Hn|exact E|exact Hw|]. by eapply Hroute.
Qed.

Lemma keeping_maxBody limit hd : keeping hd -> keeping (maxBody limit hd).
Proof.
  intros Hhd w r s Hw Hs. unfold maxBody, writeTooLarge. destruct (limit <? _); [auto with keeps|].
  pose proof (keeps_guard limit w Hw) as Hg.
  assert (I (hd (sizeGuard limit w) r (set_body (count_body limit (w_body s)) (set_wrote false s)))) as Hs' by (apply Hhd; auto with keeps).
  destruct (_ && _); [|exact Hs']. by apply Hg.
Qed.

Lemma keeping_cors hd : keeping hd -> keeping (corsMiddleware hd).
Proof.
  intros Hhd w r s Hw Hs. unfold corsMiddleware. destruct (bool_decide _); [auto 6 with keeps|]. apply Hhd; auto with keeps.
Qed.
End handlers.
