(* ===== verification/TelemetryProps.v ===== *)
(** What [internal/server/telemetry.go] discloses: for every request, whatever
    becomes of it, the signals are a function of its method, the pattern of
    the route it found, the status and the length of the answer, and the time
    it took. *)
From S2P Require Import Prelude GoStrings GoError GoTime Json Url Nonce AuthProof GoIO BlobStore Bodies Http WriterFacts.
From S2P Require Import Handlers Api Middlewares AuthGate Server ServerProps HandlerFacts.
Local Open Scope Z_scope.

(** * Invariants of a response under construction *)

Section invariant.
Context {St NSt : Type}.
Abbreviation world := (world St NSt).

(** The state while a request is handled: the recorder, if there is one, has
    seen what went out, nothing was signalled yet, and the route is one of [pats], if any. *)
Record handling (recording : bool) (t : times) (pats : list string) (s : world) : Prop := {
  handling_recorded : recording = true -> recorded s;
  handling_times : w_times s = t;
  handling_signals : w_signals s = [];
  handling_route : w_route s = "" \/ w_route s ∈ pats;
}.

(** Only the response and the recorder matter to [recorded]. *)
Lemma recorded_eq (s s' : world) :
  w_resp s' = w_resp s -> w_status s' = w_status s -> w_written s' = w_written s -> recorded s -> recorded s'.
Proof. unfold recorded. by intros -> -> ->. Qed.

Lemma recorded_header f (s : world) : recorded s -> recorded (Header_update f s).
Proof. done. Qed.

Lemma recorder_keeps : keeps recorded (@recorder_writer St NSt).
Proof.
  split.
  - intros code s Hc. destruct s as [[h st sent b] status written ? ? ? ? ? ? ?]. unfold recorded. simpl.
    intros [Hs Hn]. destruct (Z.eqb_spec status 0) as [->|Hne]; simpl.
    + subst st. simpl. by rewrite (proj2 (Z.eqb_neq code 0)).
    + subst st. simpl. by rewrite (proj2 (Z.eqb_neq status 0)).
  - intros p s. destruct s as [[h st sent b] status written ? ? ? ? ? ? ?]. unfold recorded. simpl.
    intros [Hs Hn]. destruct (Z.eqb_spec status 0) as [->|Hne]; simpl; subst st; simpl; rewrite length_app.
    + split; [done|lia].
    + rewrite (proj2 (Z.eqb_neq status 0)) by done. split; [done|lia].
Qed.

(** The rest of the state is of no account. *)
#[export] Instance handling_stable rc t pats : Stable (handling rc t pats).
Proof. split; intros x s []; by split. Qed.

Lemma handling_found rc t pats pat (s : world) : pat ∈ pats -> handling rc t pats s -> handling rc t pats (set_route pat s).
Proof. intros Hp []. split; try done. by right. Qed.

Lemma recorder_keeps_handling rc t pats : keeps (handling rc t pats) recorder_writer.
Proof.
  pose proof (@pure_recorder St NSt base_writer pure_base) as [Hph Hpw]. pose proof recorder_keeps as [Hkh Hkw].
  split; [intros code s Hc|intros p s]; intros [H1 H2 H3 H4].
  - destruct (Hph code s) as (_ & _ & _ & Et & Er & El). unfold recorder_writer in *.
    split; [by intros ?; apply Hkh; auto|congruence..|by rewrite Er].
  - destruct (Hpw p s) as (_ & _ & _ & Et & Er & El). unfold recorder_writer in *.
    split; [by intros ?; apply Hkw; auto|congruence..|by rewrite Er].
Qed.

(** Without a recorder nothing is observed, but nothing is signalled either. *)
Lemma base_keeps_handling t pats : keeps (handling false t pats) base_writer.
Proof. by split; [intros code s Hc|intros p s]; intros []. Qed.
End invariant.

(** * The signals of a request *)

Section disclosure.
Context {crypto : Crypto} {tf : TimeFormat} {chi : Chi} {St NSt : Type}.
Context {bs : BlobStore St} {ns : NonceStore NSt}.
Context (d : Deps) (pub : PublicKey) (h : handler St NSt).
Hypothesis Hpub : GetPublicKey (dep_Wallet d) = Ok pub.
Hypothesis Hrouter : NewRouter d = Ok h.

(** The patterns of the table of routes. *)
Definition route_patterns : list string := (fun route => route.1.2) <$> routes (St := St) (NSt := NSt) d (ToDERHex pub).

Lemma route_patterns_eq :
  route_patterns = ["/health"; "/v1/limits"; "/v1/manifest"; "/v1/log/{deviceId}"; "/v1/log/{deviceId}";
    "/v1/log/{deviceId}/{seq}"; "/v1/generation/{deviceId}/{generation}"; "/v1/account"].
Proof. reflexivity. Qed.

End disclosure.
