(* ===== verification/Systems.v ===== *)
(** Concurrent systems: executions of a labelled step relation and the
    histories of events they leave, forward simulations, invariants, and
    families of threads. *)
From S2P Require Import Prelude.

(** * Labelled systems *)

Section systems.
Context {L : Type}.

(** The events of an execution; the other steps are internal. *)
Inductive execution {S : Type} (step : S -> option L -> S -> Prop) : S -> list L -> S -> Prop :=
  | exec_nil s : execution step s [] s
  | exec_internal s1 s2 s3 h : step s1 None s2 -> execution step s2 h s3 -> execution step s1 h s3
  | exec_event s1 s2 s3 l h : step s1 (Some l) s2 -> execution step s2 h s3 -> execution step s1 (l :: h) s3.

Definition event_of (l : option L) : list L := match l with Some x => [x] | None => [] end.

Lemma execution_app {S : Type} (step : S -> option L -> S -> Prop) s1 s2 s3 h1 h2 :
  execution step s1 h1 s2 -> execution step s2 h2 s3 -> execution step s1 (h1 ++ h2) s3.
Proof. induction 1; intros; [done|by eapply exec_internal; eauto|simpl; by eapply exec_event; eauto]. Qed.

Lemma execution_one {S : Type} (step : S -> option L -> S -> Prop) s1 s2 l :
  step s1 l s2 -> execution step s1 (event_of l) s2.
Proof. destruct l; intros H; [eapply exec_event|eapply exec_internal]; try exact H; constructor. Qed.

(** A relation between the states of two systems that every step of the first
    keeps, the second answering with the same event. *)
Lemma forward_simulation {S T : Type} (step : S -> option L -> S -> Prop) (step' : T -> option L -> T -> Prop)
    (R : S -> T -> Prop) :
  (forall s1 l s2 t1, R s1 t1 -> step s1 l s2 -> exists t2, execution step' t1 (event_of l) t2 /\ R s2 t2) ->
  forall s1 h s2 t1, R s1 t1 -> execution step s1 h s2 -> exists t2, execution step' t1 h t2 /\ R s2 t2.
Proof.
  intros Hsim s1 h s2 t1 HR He. revert t1 HR.
  induction He as [s|s1 s2 s3 h Hs He IH|s1 s2 s3 l h Hs He IH]; intros t1 HR.
  - exists t1. split; [constructor|done].
  - destruct (Hsim _ _ _ _ HR Hs) as (t2 & H1 & HR2). destruct (IH _ HR2) as (t3 & H2 & HR3).
    exists t3. split; [exact (execution_app _ _ _ _ _ _ H1 H2)|done].
  - destruct (Hsim _ _ _ _ HR Hs) as (t2 & H1 & HR2). destruct (IH _ HR2) as (t3 & H2 & HR3).
    exists t3. split; [exact (execution_app _ _ _ _ _ _ H1 H2)|done].
Qed.

(** What holds of every state, and of every event from the moment it happens. *)
Lemma execution_invariant {S : Type} (step : S -> option L -> S -> Prop) (I : S -> Prop) (P : L -> S -> Prop) :
  (forall s1 l s2, step s1 l s2 -> I s1 ->
     I s2 /\ (forall e, l = Some e -> P e s2) /\ (forall e, P e s1 -> P e s2)) ->
  forall s1 h s2, execution step s1 h s2 -> I s1 ->
    I s2 /\ (forall e, e ∈ h -> P e s2) /\ (forall e, P e s1 -> P e s2).
Proof.
  intros Hstep s1 h s2 He. induction He as [s|s1 s2 s3 h Hs _ IH|s1 s2 s3 l h Hs _ IH]; intros HI.
  - split; [done|]. split; [|done]. intros e He. by apply not_elem_of_nil in He.
  - destruct (Hstep _ _ _ Hs HI) as (HI2 & _ & Hm). destruct (IH HI2) as (HI3 & Hh & Hm3). auto.
  - destruct (Hstep _ _ _ Hs HI) as (HI2 & Hl & Hm). destruct (IH HI2) as (HI3 & Hh & Hm3). split; [done|].
    split; [|auto]. intros e [->|He]%elem_of_cons; auto.
Qed.
End systems.

(** * Threads

    Two families of threads related thread by thread. *)

Lemma pointwise_insert {A B : Type} (R : option A -> option B -> Prop) (ts : gmap nat A) (us : gmap nat B) i x y :
  (forall j, R (ts !! j) (us !! j)) -> R (Some x) (Some y) -> forall j, R (<[i := x]> ts !! j) (<[i := y]> us !! j).
Proof. intros Hts Hxy j. rewrite !lookup_insert. by case_decide. Qed.

(** One thread moves, its counterpart waits. *)
Lemma pointwise_keep {A B : Type} (R : option A -> option B -> Prop) (ts : gmap nat A) (us : gmap nat B) i x y :
  (forall j, R (ts !! j) (us !! j)) -> us !! i = Some y -> R (Some x) (Some y) -> forall j, R (<[i := x]> ts !! j) (us !! j).
Proof. intros Hts Hi Hxy j. rewrite lookup_insert. case_decide; [by subst; rewrite Hi|done]. Qed.

Lemma pointwise_delete {A B : Type} (R : option A -> option B -> Prop) (ts : gmap nat A) (us : gmap nat B) i :
  (forall j, R (ts !! j) (us !! j)) -> R None None -> forall j, R (delete i ts !! j) (delete i us !! j).
Proof. intros Hts H0 j. rewrite !lookup_delete. by case_decide. Qed.
