(* ===== verification/MemoryStore.v ===== *)
(** [internal/blobstore/memory.go]: the in-memory [BlobStore].  The rows are
    a Go map from a composite key string to the row; every query scans the
    whole map, in whatever order [range] yields.  The file ends with the
    instance of the [BlobStoreOk] interface: the store implements the abstract
    log. *)
From stdpp Require Import sorting.
From S2P Require Import Prelude GoStrings GoError Sha256 GoIO BlobStore.
Local Open Scope Z_scope.

(** * State *)

Record row := mkRow {
  row_key : BlobKey;
  row_sha256 : string;
  row_prevSha256 : string;
  row_data : bytes;
  row_createdAt : Z;
}.

Record MemoryStore := mkMemoryStore { rows : gmap string row }.

Definition NewMemoryStore : MemoryStore := mkMemoryStore ∅.

Definition sep (s : string) : string := String nul s.

Definition rowKey (k : BlobKey) : string :=
  Pseudonym k +:+ sep (DeviceID k +:+ sep (FormatInt (Generation k) +:+ sep (FormatInt (Seq k)))).

(** * Operations *)

Section operations.
Context `{GoRange row}.

Definition all_rows (m : MemoryStore) : list row := (range (rows m)).*2.

Definition in_stream (p d : string) (g : Z) (r : row) : bool :=
  bool_decide (Pseudonym (row_key r) = p) && bool_decide (DeviceID (row_key r) = d)
  && bool_decide (Generation (row_key r) = g).

Definition in_device (p d : string) (r : row) : bool :=
  bool_decide (Pseudonym (row_key r) = p) && bool_decide (DeviceID (row_key r) = d).

Definition headSeqLocked (m : MemoryStore) (p d : string) (g : Z) : Z :=
  max_over (in_stream p d g) (fun r => Seq (row_key r)) 0 (all_rows m).

(** The sequence number an append to [k]'s stream must carry. *)
Definition mem_want (m : MemoryStore) (k : BlobKey) : Z :=
  wrap64 (headSeqLocked m (Pseudonym k) (DeviceID k) (Generation k) + 1).

(** The critical section of [Append]: the sequence check under the write
    lock and the insertion. *)
Definition mem_append_locked (now : Z) (m : MemoryStore) (k : BlobKey) (prev : string)
    (data : bytes) (sha : string) : MemoryStore * result (string * Z) :=
  let want := mem_want m k in
  if negb (bool_decide (Seq k = want)) then (m, Err (conflict_error want (Seq k)))
  else (mkMemoryStore (<[rowKey k := mkRow k sha prev data now]> (rows m)),
        Ok (sha, Z.of_nat (length data))).

(** The advisory check under the read lock. *)
Definition mem_append_check (m : MemoryStore) (k : BlobKey) : option error :=
  let want := mem_want m k in
  if negb (bool_decide (Seq k = want)) then Some (conflict_error want (Seq k)) else None.

(** Draining the body, outside any lock. *)
Definition mem_drain {R} `{Reader R} (r : R) : R * result (bytes * string) :=
  let '(r', (data, err)) := ReadAll r in
  match err with
  | Some e => (r', Err (read_body_error e))
  | None =>
      match data with
      | [] => (r', Err ErrEmptyBlob)
      | _ => (r', Ok (data, sha256_hex data))
      end
  end.

Definition mem_Append {R} `{Reader R} (now : Z) (m : MemoryStore) (k : BlobKey) (prev : string)
    (body : R) : MemoryStore * R * result (string * Z) :=
  match mem_append_check m k with
  | Some e => (m, body, Err e)
  | None =>
      match mem_drain body with
      | (body', Err e) => (m, body', Err e)
      | (body', Ok (data, sha)) =>
          let '(m', res) := mem_append_locked now m k prev data sha in (m', body', res)
      end
  end.

Definition mem_Get (m : MemoryStore) (k : BlobKey) : MemoryStore * result (source * Z) :=
  match rows m !! rowKey k with
  | None => (m, Err ErrNotFound)
  | Some r => (m, Ok (bytes_reader (row_data r), Z.of_nat (length (row_data r))))
  end.

Definition row_entry (r : row) : Entry :=
  mkEntry (Seq (row_key r)) (row_sha256 r) (row_prevSha256 r)
    (Z.of_nat (length (row_data r))) (row_createdAt r).

Definition mem_Index (m : MemoryStore) (p d : string) (g from limit : Z)
    : MemoryStore * result (list Entry) :=
  let out := merge_sort entry_le
    (row_entry <$> filter (fun r => in_stream p d g r = true /\ ~ (Seq (row_key r) < from))
                     (all_rows m)) in
  (m, Ok (if bool_decide (0 < limit /\ limit < Z.of_nat (length out))
          then take (Z.to_nat limit) out else out)).

(** The accumulator of [Manifest] for one (device, generation). *)
Record agg := mkAgg {
  agg_head : option row;
  agg_total : Z;
  agg_updatedAt : Z;
}.

Definition agg_zero : agg := mkAgg None 0 time_zero.

Definition agg_add (a : agg) (r : row) : agg :=
  mkAgg
    (match agg_head a with
     | None => Some r
     | Some h => if Seq (row_key h) <? Seq (row_key r) then Some r else Some h
     end)
    (wrap64 (agg_total a + Z.of_nat (length (row_data r))))
    (if agg_updatedAt a <? row_createdAt r then row_createdAt r else agg_updatedAt a).

Definition devgen_key (r : row) : string :=
  DeviceID (row_key r) +:+ sep (FormatInt (Generation (row_key r))).

Definition manifest_step (p : string) (byDevGen : gmap string agg) (r : row) : gmap string agg :=
  if bool_decide (Pseudonym (row_key r) = p) then
    <[devgen_key r := agg_add (default agg_zero (byDevGen !! devgen_key r)) r]> byDevGen
  else byDevGen.

(** [a.head] is never nil when the summaries are built; the first case is
    the nil dereference. *)
Definition agg_summary (a : agg) : option DeviceSummary :=
  match agg_head a with
  | None => None
  | Some h =>
      Some (mkDeviceSummary (DeviceID (row_key h)) (Generation (row_key h)) (Seq (row_key h))
              (row_sha256 h) (agg_total a) (agg_updatedAt a))
  end.

Definition mem_Manifest `{GoRange agg} (m : MemoryStore) (p : string)
    : MemoryStore * result (list DeviceSummary) :=
  let byDevGen := foldl (manifest_step p) ∅ (all_rows m) in
  (m, Ok (merge_sort summary_le (omap (fun ia => agg_summary ia.2) (range byDevGen)))).

Definition mem_newest (m : MemoryStore) (p d : string) : Z :=
  max_over (in_device p d) (fun r => Generation (row_key r)) 0 (all_rows m).

Definition mem_found (m : MemoryStore) (p d : string) : bool :=
  existsb (in_device p d) (all_rows m).

Definition mem_DeleteGeneration (m : MemoryStore) (p d : string) (g : Z)
    : MemoryStore * result Z :=
  let newest := mem_newest m p d in
  if mem_found m p d && (wrap64 (newest - RetainedGenerations) <? g)
  then (m, Err (guard_error g newest))
  else let '(rows', n) := delete_where (in_stream p d g) (rows m) in (mkMemoryStore rows', Ok n).

Definition mem_DeleteAccount (m : MemoryStore) (p : string) : MemoryStore * result Z :=
  let '(rows', n) := delete_where (fun r => bool_decide (Pseudonym (row_key r) = p)) (rows m) in
  (mkMemoryStore rows', Ok n).

Definition mem_Ping (m : MemoryStore) : MemoryStore * result unit := (m, Ok ()).

End operations.

(** * Interleavings

    [Append] holds no lock while it drains the body, so any number of appends
    and deletions may interleave: an append in flight has passed the advisory
    check and holds its drained body until its critical section runs. *)
Record pending := mkPending {
  pd_key : BlobKey;
  pd_prev : string;
  pd_data : bytes;
}.

Inductive mem_step `{GoRange row} : MemoryStore * list pending -> MemoryStore * list pending -> Prop :=
  | ms_begin m ps k prev data :
      key_ok k -> data <> [] -> mem_append_check m k = None ->
      mem_step (m, ps) (m, mkPending k prev data :: ps)
  | ms_abort m ps1 ps2 pd :
      mem_step (m, ps1 ++ pd :: ps2) (m, ps1 ++ ps2)
  | ms_commit now m ps1 ps2 pd :
      time_zero <= now ->
      mem_step (m, ps1 ++ pd :: ps2)
        ((mem_append_locked now m (pd_key pd) (pd_prev pd) (pd_data pd)
            (sha256_hex (pd_data pd))).1, ps1 ++ ps2)
  | ms_delete_generation m ps p d g :
      mem_step (m, ps) ((mem_DeleteGeneration m p d g).1, ps)
  | ms_delete_account m ps p :
      mem_step (m, ps) ((mem_DeleteAccount m p).1, ps).

(** The stores an execution can produce. *)
Definition mem_reachable `{GoRange row} (m : MemoryStore) : Prop :=
  exists ps, rtc mem_step (NewMemoryStore, []) (m, ps).

#[export] Instance MemoryStore_BlobStore `{GoRange row} `{GoRange agg} : BlobStore MemoryStore := {|
  BlobReader := source;
  Append := fun R rr => mem_Append;
  Get := mem_Get;
  Index := mem_Index;
  Manifest := mem_Manifest;
  DeleteGeneration := mem_DeleteGeneration;
  DeleteAccount := mem_DeleteAccount;
  Ping := mem_Ping;
|}.
