(* ===== verification/MemoryStoreOk.v ===== *)
(** The in-memory store implements the abstract log: the instance of
    [BlobStoreOk] for [MemoryStore], for every iteration order of its maps. *)
From stdpp Require Import sorting.
From S2P Require Import Prelude GoStrings GoError Sha256 GoIO BlobStore LogFacts Trace MemoryStore.
Local Open Scope Z_scope.

(** * Row keys are unambiguous *)

Lemma FormatInt_nul n : nul ∉ bytes_of_string (FormatInt n).
Proof. by apply str_free_bytes, FormatInt_free. Qed.

Lemma bytes_of_sep s : bytes_of_string (sep s) = nul :: bytes_of_string s.
Proof. done. Qed.

Lemma bytes_of_rowKey k :
  bytes_of_string (rowKey k) =
    bytes_of_string (Pseudonym k) ++ nul :: bytes_of_string (DeviceID k) ++ nul ::
    bytes_of_string (FormatInt (Generation k)) ++ nul :: bytes_of_string (FormatInt (Seq k)).
Proof. unfold rowKey. by repeat rewrite bytes_of_string_app, bytes_of_sep. Qed.

Lemma rowKey_inj_free k k' :
  str_free nul (Pseudonym k) -> str_free nul (DeviceID k) ->
  str_free nul (Pseudonym k') -> str_free nul (DeviceID k') ->
  rowKey k = rowKey k' -> k = k'.
Proof.
  rewrite !str_free_bytes. intros H1 H2 H3 H4 E.
  apply (f_equal bytes_of_string) in E. rewrite !bytes_of_rowKey in E.
  apply split_at_sep in E as [Ep%(inj _) E]; [|done..].
  apply split_at_sep in E as [Ed%(inj _) E]; [|done..].
  apply split_at_sep in E as [Eg%(inj _)%(inj _) Es%(inj _)%(inj _)];
    [|apply FormatInt_nul..].
  destruct k, k'. simpl in *. congruence.
Qed.

Lemma rowKey_inj_ok k k' : key_ok k -> key_ok k' -> rowKey k = rowKey k' -> k = k'.
Proof. intros (? & ? & _) (? & ? & _). by apply rowKey_inj_free; apply name_free. Qed.

(** * The accumulator of the manifest *)

Lemma agg_fold_total l :
  agg_total (foldl agg_add agg_zero l) = wrap64 (zsum (fun r => Z.of_nat (length (row_data r))) l).
Proof.
  induction l as [|x l IH] using rev_ind; [done|]. rewrite foldl_app, zsum_app. simpl.
  rewrite IH, wrap64_add_l. f_equal. unfold zsum. simpl. lia.
Qed.

Lemma agg_fold_updatedAt l :
  agg_updatedAt (foldl agg_add agg_zero l) = zmax row_createdAt time_zero l.
Proof.
  induction l as [|x l IH] using rev_ind; [done|]. rewrite foldl_app, zmax_snoc. simpl.
  rewrite IH. destruct (Z.ltb_spec (zmax row_createdAt time_zero l) (row_createdAt x)); lia.
Qed.

Lemma agg_fold_head l :
  l <> [] ->
  exists h, agg_head (foldl agg_add agg_zero l) = Some h /\ h ∈ l /\
    forall x, x ∈ l -> Seq (row_key x) <= Seq (row_key h).
Proof.
  induction l as [|x l IH] using rev_ind; [done|]. intros _. rewrite foldl_app. simpl.
  destruct (decide (l = [])) as [->|Hne].
  - exists x. simpl. split; [done|]. split; [set_solver|]. intros y ->%list_elem_of_singleton. lia.
  - destruct (IH Hne) as (h & -> & Hin & Hmax).
    destruct (Z.ltb_spec (Seq (row_key h)) (Seq (row_key x)));
      eexists; (split; [done|]); split; [set_solver| |set_solver|];
      intros y [Hy| ->%list_elem_of_singleton]%elem_of_app; try lia; specialize (Hmax y Hy); lia.
Qed.

Definition agg_fold (l : list row) : option agg :=
  match l with [] => None | _ => Some (foldl agg_add agg_zero l) end.

Lemma agg_fold_snoc l x :
  agg_fold (l ++ [x]) = Some (agg_add (default agg_zero (agg_fold l)) x).
Proof. destruct l as [|y l]; [done|]. unfold agg_fold. simpl. by rewrite foldl_app. Qed.

(** The scan keeps one accumulator per (device, generation) of the account. *)
Lemma manifest_scan p rs id :
  foldl (manifest_step p) ∅ rs !! id
  = agg_fold (filter (fun r => Pseudonym (row_key r) = p /\ devgen_key r = id) rs).
Proof.
  induction rs as [|r rs IH] using rev_ind; [done|].
  rewrite foldl_app, filter_app, filter_cons, filter_nil. simpl.
  unfold manifest_step at 1. case_bool_decide as Hp.
  - rewrite lookup_insert. case_decide as Hid.
    + subst id. rewrite decide_True by done. by rewrite agg_fold_snoc, IH.
    + rewrite decide_False by tauto. by rewrite app_nil_r.
  - rewrite decide_False by tauto. by rewrite app_nil_r.
Qed.

(** * The refinement relation *)

Definition row_of (kb : BlobKey * ablob) : row :=
  mkRow kb.1 (sha256_hex (ab_data kb.2)) (ab_prev kb.2) (ab_data kb.2) (ab_at kb.2).

Definition mem_refines (m : MemoryStore) (a : alog) : Prop :=
  alog_ok a /\
  forall id r, rows m !! id = Some r <->
    exists k b, blob_at a k = Some b /\ id = rowKey k /\ r = row_of (k, b).

#[global] Instance row_of_inj : Inj (=) (=) row_of.
Proof. intros [k [d p t]] [k' [d' p' t']] E. unfold row_of in E. simpl in E. by simplify_eq. Qed.

Section refinement.
Context `{GoRange row} (m : MemoryStore) (a : alog) (Hm : mem_refines m a).

Lemma mem_lookup k : key_ok k -> rows m !! rowKey k = (fun b => row_of (k, b)) <$> blob_at a k.
Proof.
  intros Hk. destruct Hm as [Ha Hr]. destruct (blob_at a k) as [b|] eqn:Hb; simpl.
  - apply Hr. eauto.
  - apply eq_None_not_Some. intros [r (k' & b & Hb' & E & _)%Hr].
    apply rowKey_inj_ok in E as <-; [congruence|done|]. by apply (blob_at_key_ok a k' b).
Qed.

(** Every scan sees the rows of the abstract log, in some order. *)
Lemma all_rows_perm : all_rows m ≡ₚ row_of <$> log_rows a.
Proof.
  destruct Hm as [Ha Hr]. unfold all_rows. rewrite range_perm.
  apply NoDup_Permutation.
  - apply (NoDup_fmap_1 (fun r => rowKey (row_key r))).
    assert ((fun r => rowKey (row_key r)) <$> (map_to_list (rows m)).*2
            = (map_to_list (rows m)).*1) as ->; [|apply NoDup_fst_map_to_list].
    rewrite <- list_fmap_compose. apply list_fmap_ext. intros i [id r] Hi. simpl.
    apply list_elem_of_lookup_2, elem_of_map_to_list, Hr in Hi as (k & b & _ & -> & ->). done.
  - apply NoDup_fmap_2; [apply _|]. eapply NoDup_fmap_1, NoDup_log_rows.
  - intros r. rewrite !list_elem_of_fmap. split.
    + intros ([id r'] & -> & Hin%elem_of_map_to_list).
      apply Hr in Hin as (k & b & Hb & _ & ->). exists (k, b). split; [done|].
      by apply elem_of_log_rows.
    + intros ([k b] & -> & Hb%elem_of_log_rows). exists (rowKey k, row_of (k, b)).
      split; [done|]. apply elem_of_map_to_list, Hr. eauto.
Qed.

Lemma elem_of_all_rows r :
  r ∈ all_rows m <-> exists s i b, log_of a s !! i = Some b /\ r = row_of (key_in s i, b).
Proof.
  rewrite all_rows_perm, list_elem_of_fmap. split.
  - intros ([k b] & -> & (s & i & -> & Hi)%elem_of_log_rows%blob_at_Some). eauto.
  - intros (s & i & b & Hi & ->). exists (key_in s i, b). split; [done|].
    apply elem_of_log_rows, blob_at_Some. eauto.
Qed.

Lemma in_stream_row p d g s i b :
  in_stream p d g (row_of (key_in s i, b)) = true <-> s = (p, d, g).
Proof.
  destruct s as [[p' d'] g']. unfold in_stream. simpl.
  rewrite !andb_true_iff, !bool_decide_eq_true. naive_solver.
Qed.

Lemma in_device_row p d s i b :
  in_device p d (row_of (key_in s i, b)) = true <-> s.1 = (p, d).
Proof.
  destruct s as [[p' d'] g']. unfold in_device. simpl.
  rewrite !andb_true_iff, !bool_decide_eq_true. naive_solver.
Qed.

(** The head sequence is the length of the stream. *)
Lemma headSeqLocked_eq p d g :
  headSeqLocked m p d g = Z.of_nat (length (log_of a (p, d, g))).
Proof.
  apply max_over_eq. split; [lia|]. split.
  - intros r (s & i & b & Hi & ->)%elem_of_all_rows ->%in_stream_row.
    apply lookup_lt_Some in Hi. simpl. lia.
  - destruct (log_of a (p, d, g)) as [|b0 l] eqn:El; [by left|right].
    destruct (lookup_lt_is_Some_2 (log_of a (p, d, g)) (length l)) as [b Hb];
      [rewrite El; simpl; lia|].
    exists (row_of (key_in (p, d, g) (length l), b)). split_and!.
    + apply elem_of_all_rows. eauto.
    + by apply in_stream_row.
    + simpl. lia.
Qed.

Lemma mem_want_eq k : mem_want m k = spec_next a (stream_of k).
Proof.
  unfold mem_want. rewrite headSeqLocked_eq, wrap64_id; [done|].
  pose proof (log_of_length a (stream_of k) (proj1 Hm)). unfold in64, stream_of in *. lia.
Qed.

Lemma mem_append_locked_ok now k prev data :
  key_ok k -> time_zero <= now -> data <> [] ->
  let '(m', res) := mem_append_locked now m k prev data (sha256_hex data) in
  mem_refines m' (spec_append now a k prev (Ok data)).1 /\
  res = (spec_append now a k prev (Ok data)).2.
Proof.
  intros Hk Hnow Hdata. pose proof (spec_append_ok now a k prev (Ok data) (proj1 Hm) Hk Hnow) as Hok.
  unfold mem_append_locked, spec_append in *. rewrite mem_want_eq.
  case_bool_decide as Hseq; simpl; [|done].
  destruct data as [|c data]; [done|]. simpl in *. split; [|done].
  split; [done|]. intros id r. simpl. rewrite lookup_insert. destruct Hm as [Ha Hr].
  set (b := mkAblob (c :: data) prev now). split.
  - case_decide as E.
    + intros [= <-]. exists k, b. rewrite blob_at_append by done.
      by rewrite decide_True.
    + intros (k' & b' & Hb' & -> & ->)%Hr. exists k', b'. rewrite blob_at_append by done.
      rewrite decide_False by congruence. done.
  - intros (k' & b' & Hb' & -> & ->). rewrite blob_at_append in Hb' by done.
    destruct (decide (k' = k)) as [->|Hne].
    + simplify_eq. by rewrite decide_True.
    + rewrite decide_False; [apply Hr; eauto|]. intros E%rowKey_inj_ok; [congruence|done|].
      by apply (blob_at_key_ok a k' b').
Qed.

Lemma filter_stream_perm p d g :
  filter (fun r => in_stream p d g r = true) (all_rows m)
  ≡ₚ row_of <$> stream_rows ((p, d, g), log_of a (p, d, g)).
Proof.
  rewrite all_rows_perm, filter_fmap. apply fmap_Permutation.
  rewrite <- log_rows_stream. apply reflexive_eq, list_filter_iff.
  intros [[p' d' g' q] b]. unfold in_stream, stream_of. simpl.
  rewrite !andb_true_iff, !bool_decide_eq_true. naive_solver.
Qed.

Lemma filter_account_perm p :
  filter (fun r => bool_decide (Pseudonym (row_key r) = p) = true) (all_rows m)
  ≡ₚ row_of <$> filter (fun kb => (stream_of kb.1).1.1 = p) (log_rows a).
Proof.
  rewrite all_rows_perm, filter_fmap. apply fmap_Permutation, reflexive_eq, list_filter_iff.
  intros [k b]. simpl. by rewrite bool_decide_eq_true.
Qed.

(** ** Deletion *)

Lemma mem_delete_where_ok (p : row -> bool) a' :
  alog_ok a' ->
  (forall k, blob_at a' k =
     match blob_at a k with Some b => if p (row_of (k, b)) then None else Some b | None => None end) ->
  mem_refines (mkMemoryStore (filter (fun ir => p ir.2 = false) (rows m))) a'.
Proof.
  intros Ha' Hb. destruct Hm as [Ha Hr]. split; [done|]. intros id r. simpl.
  rewrite map_lookup_filter_Some, Hr. simpl. split.
  - intros [(k & b & Hk & -> & ->) Hp]. exists k, b. by rewrite Hb, Hk, Hp.
  - intros (k & b & Hk & -> & ->). rewrite Hb in Hk.
    destruct (blob_at a k) as [b'|] eqn:E; [|done].
    destruct (p (row_of (k, b'))) eqn:Ep; [done|]. simplify_eq. split; [eauto|done].
Qed.

Lemma mem_newest_eq p d : mem_newest m p d = newest_of a p d.
Proof.
  apply max_over_eq. destruct (foldr_max_spec 0 (generations_of a p d)) as (H1 & H2 & H3).
  fold (newest_of a p d) in H1, H2, H3. split; [done|]. split.
  - intros r (s & i & b & Hi & ->)%elem_of_all_rows Hs%in_device_row. simpl.
    apply newest_of_ge. apply log_of_lookup in Hi as (l & Hl & _). rewrite <- Hs.
    exists l. by destruct s.
  - destruct H3 as [->|[l Hl]%elem_of_generations]; [by left|right].
    destruct l as [|b l]; [by destruct (alog_ok_lookup a _ _ (proj1 Hm) Hl) as (_ & ? & _)|].
    exists (row_of (key_in (p, d, newest_of a p d) 0, b)). split_and!; [|by apply in_device_row|done].
    apply elem_of_all_rows. do 3 eexists. split; [|done]. by rewrite (log_of_Some _ _ _ Hl).
Qed.

Lemma mem_found_eq p d : mem_found m p d = bool_decide (generations_of a p d <> []).
Proof.
  apply eq_bool_prop_intro. rewrite !Is_true_true, bool_decide_eq_true.
  unfold mem_found. rewrite List.existsb_exists. split.
  - intros (r & Hin & Hd). apply list_elem_of_In, elem_of_all_rows in Hin as (s & i & b & Hi & ->).
    apply in_device_row in Hd. apply log_of_lookup in Hi as (l & Hl & _).
    destruct s as [pd g]. simpl in Hd. subst pd.
    intros E. assert (g ∈ generations_of a p d) as Hg by (apply elem_of_generations; eauto).
    rewrite E in Hg. by apply not_elem_of_nil in Hg.
  - intros Hne. destruct (newest_of_present a p d (proj1 Hm) Hne) as [l Hl].
    destruct l as [|b l]; [by destruct (alog_ok_lookup a _ _ (proj1 Hm) Hl) as (_ & ? & _)|].
    exists (row_of (key_in (p, d, newest_of a p d) 0, b)). split; [|by apply in_device_row].
    apply list_elem_of_In, elem_of_all_rows. do 3 eexists. split; [|done].
    by rewrite (log_of_Some _ _ _ Hl).
Qed.

Lemma mem_delete_stream_ok p d g :
  let '(rows', n) := delete_where (in_stream p d g) (rows m) in
  mem_refines (mkMemoryStore rows') (delete (p, d, g) a) /\
  n = Z.of_nat (length (log_of a (p, d, g))).
Proof.
  rewrite delete_where_spec. fold (all_rows m).
  split; [|by rewrite filter_stream_perm, length_fmap, length_stream_rows].
  apply mem_delete_where_ok; [by apply map_Forall_delete, Hm|]. intros k.
  rewrite blob_at_delete. destruct (blob_at a k) as [b|] eqn:E; [|by case_decide].
  apply blob_at_Some in E as (s & i & -> & _). rewrite stream_of_key_in.
  destruct (in_stream p d g _) eqn:Es; [apply in_stream_row in Es; by rewrite decide_True|].
  rewrite decide_False; [done|]. intros ->. by rewrite (proj2 (in_stream_row _ _ _ _ _ _)) in Es.
Qed.

Lemma mem_DeleteGeneration_ok p d g :
  let '(m', res) := mem_DeleteGeneration m p d g in
  mem_refines m' (spec_delete_generation a p d g).1 /\ res = (spec_delete_generation a p d g).2.
Proof.
  unfold mem_DeleteGeneration, spec_delete_generation.
  rewrite mem_newest_eq, mem_found_eq, wrap64_id
    by (pose proof (newest_range a p d (proj1 Hm)); unfold in64, RetainedGenerations; lia).
  assert (bool_decide (generations_of a p d <> []) && (newest_of a p d - RetainedGenerations <? g)
    = bool_decide (generations_of a p d <> [] /\ newest_of a p d - RetainedGenerations < g)) as ->.
  { rewrite bool_decide_and. f_equal. apply eq_bool_prop_intro.
    by rewrite !Is_true_true, bool_decide_eq_true, Z.ltb_lt. }
  case_bool_decide; [by split|].
  pose proof (mem_delete_stream_ok p d g) as Hd. destruct (delete_where _ _) as [rows' n].
  destruct Hd as [Hd ->]. by split.
Qed.

Lemma mem_DeleteAccount_ok p :
  let '(m', res) := mem_DeleteAccount m p in
  mem_refines m' (spec_delete_account a p).1 /\ res = (spec_delete_account a p).2.
Proof.
  unfold mem_DeleteAccount. set (q := fun r : row => bool_decide (Pseudonym (row_key r) = p)).
  rewrite delete_where_spec. fold (all_rows m). split.
  - apply (mem_delete_where_ok q); [by apply spec_delete_account_ok, Hm|]. intros k.
    rewrite blob_at_delete_account. destruct (blob_at a k) as [b|]; [|by case_decide].
    unfold q. simpl. rewrite bool_decide_decide. by case_decide.
  - unfold spec_delete_account. simpl. do 2 f_equal. rewrite account_blobs_rows.
    rewrite <- (length_fmap row_of). by apply Permutation_length, filter_account_perm.
Qed.

(** ** Append and Get *)

Lemma mem_Append_ok now k prev {R} `{ReaderLaws R} (r r' : R) m' res :
  key_ok k -> time_zero <= now -> mem_Append now m k prev r = (m', r', res) ->
  mem_refines m' (spec_append now a k prev (body_outcome r)).1 /\
  res = (spec_append now a k prev (body_outcome r)).2 /\
  exists e0, reads_to r r' e0 /\ (forall e, res = Err (read_body_error e) -> e0 = Some e).
Proof.
  intros Hk Hnow. unfold mem_Append, mem_append_check. rewrite mem_want_eq.
  destruct (bool_decide_reflect (Seq k = spec_next a (stream_of k))) as [Hseq|Hseq]; simpl.
  2:{ intros [= <- <- <-]. unfold spec_append. rewrite bool_decide_eq_false_2 by done.
      split_and!; [done|done|]. exists None. split; [constructor|done]. }
  unfold mem_drain. destruct (ReadAll_ok r) as (r1 & bs & Hra & Hbs & _).
  pose proof (ReadAll_reads _ _ _ _ Hra) as Hreads. rewrite Hra. unfold body_outcome.
  case_bool_decide as He.
  - rewrite Hbs in * by done. destruct (rd_bytes r) as [|c data] eqn:Eb.
    + intros [= <- <- <-]. unfold spec_append. rewrite bool_decide_eq_true_2 by done.
      split_and!; [done|done|]. exists (Some (rd_err r)). naive_solver.
    + pose proof (mem_append_locked_ok now k prev (c :: data) Hk Hnow ltac:(done)) as Hl.
      destruct (mem_append_locked _ _ _ _ _ _) as [m1 res1]. intros [= <- <- <-].
      destruct Hl as [Hl1 Hl2]. split_and!; [done|done|]. exists (Some (rd_err r)).
      split; [done|]. rewrite Hl2. unfold spec_append. rewrite bool_decide_eq_true_2 by done. naive_solver.
  - intros [= <- <- <-]. unfold spec_append. rewrite bool_decide_eq_true_2 by done.
    split_and!; [done|done|]. exists (Some (rd_err r)). naive_solver.
Qed.

Lemma mem_Get_ok k :
  key_ok k ->
  mem_Get m k = (m, match blob_at a k with
                    | Some b => Ok (bytes_reader (ab_data b), Z.of_nat (length (ab_data b)))
                    | None => Err ErrNotFound
                    end).
Proof. intros Hk. unfold mem_Get. rewrite mem_lookup by done. by destruct (blob_at a k). Qed.

(** ** Index *)

Lemma row_entry_key_in s i b : row_entry (row_of (key_in s i, b)) = spec_entry i b.
Proof. done. Qed.

Lemma mem_Index_ok p d g from limit :
  1 <= limit -> mem_Index m p d g from limit = (m, Ok (spec_index a p d g from limit)).
Proof.
  intros Hlimit. unfold mem_Index, spec_index. f_equal. f_equal.
  assert (merge_sort entry_le (row_entry <$> filter (fun r => in_stream p d g r = true /\
      ~ Seq (row_key r) < from) (all_rows m))
    = filter (fun e => from <= Entry_Seq e) (imap spec_entry (log_of a (p, d, g)))) as ->.
  { apply (merge_sort_sorted entry_le).
    - intros x y. apply entries_antisym.
    - apply StronglySorted_filter, StronglySorted_imap. intros i j x y Hij. unfold entry_le. simpl. lia.
    - transitivity (filter (fun e => from <= Entry_Seq e)
        (row_entry <$> filter (fun r => in_stream p d g r = true) (all_rows m))).
      + rewrite filter_fmap. apply fmap_Permutation, reflexive_eq.
        rewrite list_filter_filter. apply list_filter_iff. intros r. simpl. rewrite Z.nlt_ge. naive_solver.
      + apply filter_Permutation. rewrite filter_stream_perm. unfold stream_rows.
        by rewrite !fmap_imap. }
  case_bool_decide as Hl; [done|]. rewrite take_ge; [done|]. lia.
Qed.

(** ** Manifest *)

(** ** Manifest *)

Definition agg_of (sl : stream * list ablob) : agg :=
  mkAgg (row_of <$> last (stream_rows sl)) (wrap64 (log_bytes sl.2)) (log_updated sl.2).

Definition devgen_of (s : stream) : string := s.1.2 +:+ sep (FormatInt s.2).

Lemma devgen_of_inj s s' :
  stream_ok s -> stream_ok s' -> s.1.1 = s'.1.1 -> devgen_of s = devgen_of s' -> s = s'.
Proof.
  intros (_ & Hd%name_free%str_free_bytes & _) (_ & Hd'%name_free%str_free_bytes & _) Hp E.
  apply (f_equal bytes_of_string) in E. unfold devgen_of in E.
  rewrite !bytes_of_string_app, !bytes_of_sep in E.
  apply split_at_sep in E as [Ed%(inj _) Eg%(inj _)%(inj _)]; [|done..].
  destruct s as [[??]?], s' as [[??]?]. simpl in *. congruence.
Qed.

Lemma agg_fold_stream sl l :
  sl.2 <> [] -> l ≡ₚ row_of <$> stream_rows sl -> agg_fold l = Some (agg_of sl).
Proof.
  intros Hne Hp. assert (l <> []) as Hl.
  { intros ->. apply Permutation_nil in Hp. apply fmap_nil_inv in Hp.
    apply Hne. rewrite <- (stream_rows_snd sl). by rewrite Hp. }
  destruct (agg_fold_head l Hl) as (h & Hh & Hin & Hmax).
  unfold agg_fold. destruct l as [|x l]; [done|]. f_equal. revert Hh Hin Hmax Hp.
  generalize (x :: l). clear l Hl x. intros l Hh Hin Hmax Hp.
  pose proof (agg_fold_total l) as Ht. pose proof (agg_fold_updatedAt l) as Hu.
  destruct (foldl agg_add agg_zero l) as [hd t u]. simpl in *. unfold agg_of.
  rewrite Hh, Ht, Hu, (zsum_perm _ _ _ Hp), (zmax_perm _ _ _ _ Hp), zsum_fmap, zmax_fmap.
  unfold log_bytes, log_updated. rewrite <- (stream_rows_snd sl), zsum_fmap, zmax_fmap.
  f_equal. destruct sl as [s lb]. rewrite last_stream_rows. simpl in Hne.
  rewrite Hp in Hin. apply list_elem_of_fmap in Hin as ([k b] & -> & Hin).
  apply elem_of_stream_rows in Hin as (i & -> & Hi). simpl in Hi.
  pose proof (lookup_lt_Some _ _ _ Hi) as Hlt.
  destruct (lookup_lt_is_Some_2 lb (length lb - 1)) as [b' Hb']; [lia|].
  specialize (Hmax (row_of (key_in s (length lb - 1), b'))). simpl in Hmax.
  assert (i = length lb - 1)%nat as ->.
  { rewrite Hp in Hmax. enough (Z.of_nat (length lb - 1) + 1 <= Z.of_nat i + 1) by lia.
    apply Hmax. apply list_elem_of_fmap. eexists. split; [done|].
    apply elem_of_stream_rows. eauto. }
  rewrite last_lookup. replace (pred (length lb)) with (length lb - 1)%nat by lia. by rewrite Hi.
Qed.

Definition account_streams (p : string) : list (stream * list ablob) :=
  filter (fun sl => sl.1.1.1 = p) (map_to_list a).

Lemma elem_of_account_streams p s l :
  (s, l) ∈ account_streams p -> s.1.1 = p /\ a !! s = Some l /\ stream_ok s /\ l <> [].
Proof.
  intros [Hp Hs%elem_of_map_to_list]%list_elem_of_filter.
  destruct (alog_ok_lookup a s l (proj1 Hm) Hs) as (? & ? & _). done.
Qed.

Lemma account_keys_nodup p :
  NoDup ((fun sl => (devgen_of sl.1, agg_of sl)) <$> account_streams p).*1.
Proof.
  rewrite <- list_fmap_compose. apply NoDup_fmap_2_strong; [|apply NoDup_filter, NoDup_map_to_list].
  intros [s l] [s' l'] Hin Hin' E. simpl in E.
  apply elem_of_account_streams in Hin as (Hp & Hl & Hs & _), Hin' as (Hp' & Hl' & Hs' & _).
  assert (s = s') as <- by (apply devgen_of_inj; congruence). congruence.
Qed.

Lemma account_rows_of p id :
  filter (fun r => Pseudonym (row_key r) = p /\ devgen_key r = id) (all_rows m)
  ≡ₚ row_of <$> mjoin (stream_rows <$>
       filter (fun sl => sl.1.1.1 = p /\ devgen_of sl.1 = id) (map_to_list a)).
Proof.
  pose proof (log_rows_streams (fun s => s.1.1 = p /\ devgen_of s = id) a) as E.
  rewrite all_rows_perm, filter_fmap. apply fmap_Permutation, reflexive_eq. exact E.
Qed.

Lemma manifest_map p :
  foldl (manifest_step p) ∅ (all_rows m)
  = list_to_map ((fun sl => (devgen_of sl.1, agg_of sl)) <$> account_streams p).
Proof.
  apply map_eq. intros id. rewrite manifest_scan.
  set (F := filter (fun sl => sl.1.1.1 = p /\ devgen_of sl.1 = id) (map_to_list a)).
  pose proof (account_rows_of p id) as Hperm. fold F in Hperm.
  destruct F as [|[s l] F'] eqn:EF.
  - apply Permutation_nil_r in Hperm. rewrite Hperm. symmetry. apply not_elem_of_list_to_map_1.
    intros (kv & -> & ([s l] & -> & [Hp Hin]%list_elem_of_filter)%list_elem_of_fmap)%list_elem_of_fmap.
    apply (not_elem_of_nil (s, l)). rewrite <- EF. by apply list_elem_of_filter.
  - assert ((s, l) ∈ F) as Hsl by (rewrite EF; set_solver).
    apply list_elem_of_filter in Hsl as [[Hp Hid] Hin]. simpl in *.
    assert ((s, l) ∈ account_streams p) as Hacc by (by apply list_elem_of_filter).
    destruct (elem_of_account_streams p s l Hacc) as (_ & _ & Hs & Hl).
    assert ((s, l) :: F' = [(s, l)]) as E.
    { rewrite <- EF. apply NoDup_singleton_eq; [apply NoDup_filter, NoDup_map_to_list|rewrite EF; set_solver|].
      intros [s2 l2] [[Hp2 Hid2] Hin2]%list_elem_of_filter. simpl in *.
      destruct (elem_of_account_streams p s2 l2) as (_ & Hl2 & Hs2 & _); [by apply list_elem_of_filter|].
      assert (s2 = s) as -> by (apply devgen_of_inj; congruence).
      apply elem_of_map_to_list in Hin. congruence. }
    injection E as ->. change (mjoin (stream_rows <$> [(s, l)])) with (stream_rows (s, l) ++ []) in Hperm.
    rewrite app_nil_r in Hperm. rewrite (agg_fold_stream (s, l)) by done.
    symmetry. apply elem_of_list_to_map_1; [apply account_keys_nodup|].
    apply list_elem_of_fmap. exists (s, l). by rewrite <- Hid.
Qed.

Lemma mem_Manifest_ok `{GoRange agg} p : mem_Manifest m p = (m, Ok (spec_manifest a p)).
Proof.
  unfold mem_Manifest, spec_manifest. f_equal. f_equal. apply merge_sort_unique; [apply _..| |].
  - intros x y. apply summaries_antisym.
  - rewrite range_perm, manifest_map, map_to_list_to_map by apply account_keys_nodup.
    apply reflexive_eq, omap_fmap_some. intros [s l] Hin.
    destruct (elem_of_account_streams p s l Hin) as (_ & _ & _ & Hne).
    unfold agg_summary, agg_of. rewrite last_stream_rows.
    destruct s as [[p' d] g]. simpl in *.
    destruct (last l) as [b|] eqn:El; [|by apply last_None in El]. simpl. do 2 f_equal.
    destruct l as [|b0 l]; [done|]. simpl. lia.
Qed.

End refinement.

(** ** The interface *)

#[export] Program Instance MemoryStore_Ok `{GoRange row} `{GoRange agg} : BlobStoreOk MemoryStore := {|
  refines := mem_refines;
  faulty _ := False;
  end_ok _ := True;
  text_ok _ := True;
  int_ok _ := True;
  totals_ok _ _ := True;
|}.
Next Obligation. done. Qed.
Next Obligation. intros ?? m a Hm. apply Hm. Qed.
Next Obligation.
  intros ?? R rr rs laws now m a k prev r m' r' res Hm Hk Hnow _ _ E.
  destruct (mem_Append_ok m a Hm now k prev r r' m' res Hk Hnow E) as (? & ? & ?).
  split; [by left|done].
Qed.
Next Obligation.
  intros ?? m a k m' res Hm Hk E. rewrite (mem_Get_ok m a Hm) in E by done.
  destruct (blob_at a k) as [b|]; simplify_eq; (split; [done|]); [|by left].
  exists b. split_and!; [done|done|]. left. split; [done|]. apply bytes_reader_bytes.
Qed.
Next Obligation.
  intros ?? m a p d g from limit m' res Hm _ Hl E.
  unfold Index in E. simpl in E. rewrite (mem_Index_ok m a Hm) in E by done. simplify_eq. by left.
Qed.
Next Obligation.
  intros ?? m a p m' res Hm Hp E. unfold Manifest in E. simpl in E.
  rewrite (mem_Manifest_ok m a Hm) in E. simplify_eq. by left.
Qed.
Next Obligation.
  intros ?? m a p d g m' res Hm _ E. pose proof (mem_DeleteGeneration_ok m a Hm p d g) as Hd.
  unfold DeleteGeneration in E. simpl in E. rewrite E in Hd. by left.
Qed.
Next Obligation.
  intros ?? m a p m' res Hm _ E. pose proof (mem_DeleteAccount_ok m a Hm p) as Hd.
  unfold DeleteAccount in E. simpl in E. rewrite E in Hd. by left.
Qed.
Next Obligation. intros ?? m a m' res Hm [= <- <-]. by left. Qed.

(** ** Reachable stores hold a well-formed log *)

Lemma mem_refines_new : mem_refines NewMemoryStore ∅.
Proof.
  split; [apply alog_ok_empty|]. intros id r. simpl. rewrite lookup_empty. split; [done|].
  intros (k & b & (s & i & _ & Hi)%blob_at_Some & _). unfold log_of in Hi.
  by rewrite lookup_empty in Hi.
Qed.

Definition pending_ok (pd : pending) : Prop := key_ok (pd_key pd) /\ pd_data pd <> [].

Lemma mem_step_refines `{GoRange row} s s' :
  mem_step s s' -> (exists a, mem_refines s.1 a) -> Forall pending_ok s.2 ->
  (exists a, mem_refines s'.1 a) /\ Forall pending_ok s'.2.
Proof.
  intros Hs [a Hm] Hp. destruct Hs as [m ps k prev data Hk Hd _|m ps1 ps2 pd|now m ps1 ps2 pd Hnow
    |m ps p d g|m ps p]; simpl in *.
  - split; [eauto|]. by constructor.
  - apply Forall_app in Hp as [? [? ?]%Forall_cons]. split; [eauto|]. by apply Forall_app.
  - apply Forall_app in Hp as [? [[Hk Hd] ?]%Forall_cons].
    pose proof (mem_append_locked_ok m a Hm now (pd_key pd) (pd_prev pd) (pd_data pd) Hk Hnow Hd) as Hl.
    destruct (mem_append_locked _ _ _ _ _ _) as [m' res]. destruct Hl as [Hl _].
    split; [eauto|]. by apply Forall_app.
  - pose proof (mem_DeleteGeneration_ok m a Hm p d g) as Hl.
    destruct (mem_DeleteGeneration m p d g) as [m' res]. destruct Hl as [Hl _]. eauto.
  - pose proof (mem_DeleteAccount_ok m a Hm p) as Hl.
    destruct (mem_DeleteAccount m p) as [m' res]. destruct Hl as [Hl _]. eauto.
Qed.

Lemma mem_rtc_refines `{GoRange row} s :
  rtc mem_step (NewMemoryStore, []) s -> (exists a, mem_refines s.1 a) /\ Forall pending_ok s.2.
Proof.
  revert s. apply rtc_ind_r.
  - split; [|constructor]. exists ∅. apply mem_refines_new.
  - intros s1 s2 _ Hstep [IH1 IH2]. by apply (mem_step_refines _ _ Hstep).
Qed.

Lemma mem_reachable_refines `{GoRange row} m : mem_reachable m -> exists a, mem_refines m a.
Proof. intros [ps Hr%mem_rtc_refines]. apply Hr. Qed.

(** ** Every call acts exactly as the abstract log *)

Lemma mem_apply_op_ok `{GoRange row} `{GoRange agg} m a o :
  mem_refines m a -> op_ok (fun _ => True) o ->
  mem_refines (apply_op m o).1 (spec_op a o).1 /\ (apply_op m o).2 = (spec_op a o).2.
Proof.
  intros Hm Ho. destruct o as [now k prev body|k|p d g from limit|p|p d g|p]; cbn -[mem_Append mem_Get mem_Index mem_Manifest mem_DeleteGeneration mem_DeleteAccount spec_delete_account] in *.
  - destruct Ho as (Hk & Hnow & _ & _). destruct (mem_Append now m k prev body) as [[m' r'] res] eqn:E.
    destruct (mem_Append_ok m a Hm now k prev body r' m' res Hk Hnow E) as (Hm' & Hres & _).
    destruct (spec_append now a k prev (body_outcome body)) as [a' sp]. simpl in *. by subst.
  - rewrite (mem_Get_ok m a Hm) by done. destruct (blob_at a k) as [b|]; [|done].
    split; [done|]. pose proof (drained_ok (bytes_reader (ab_data b)) (Z.of_nat (length (ab_data b)))) as E.
    rewrite bytes_reader_bytes in E. simpl. f_equal. by apply E.
  - destruct Ho as [_ Hl]. by rewrite (mem_Index_ok m a Hm).
  - by rewrite (mem_Manifest_ok m a Hm).
  - pose proof (mem_DeleteGeneration_ok m a Hm p d g) as Hl.
    destruct (mem_DeleteGeneration m p d g) as [m' res], (spec_delete_generation a p d g) as [a' sp].
    simpl in *. destruct Hl as [Hl ->]. done.
  - pose proof (mem_DeleteAccount_ok m a Hm p) as Hl.
    destruct (mem_DeleteAccount m p) as [m' res], (spec_delete_account a p) as [a' sp].
    simpl in *. destruct Hl as [Hl ->]. done.
Qed.
