(* ===== verification/MemoryStoreProps.v ===== *)
(** What the in-memory store guarantees its callers, for every iteration
    order of its maps and every interleaving of appends and deletions. *)
From stdpp Require Import sorting.
From S2P Require Import Prelude GoStrings GoError Sha256 GoIO BlobStore LogFacts Trace.
From S2P Require Import MemoryStore MemoryStoreOk.
Local Open Scope Z_scope.

(** * Lemmas *)

Definition with_seq (k : BlobKey) (n : Z) : BlobKey :=
  mkBlobKey (Pseudonym k) (DeviceID k) (Generation k) n.

(** An earlier blob of the same stream. *)
Lemma blob_at_earlier a k b n :
  blob_at a k = Some b -> 1 <= n <= Seq k -> is_Some (blob_at a (with_seq k n)).
Proof.
  intros (s & i & -> & Hi)%blob_at_Some Hn. simpl in Hn.
  replace (with_seq (key_in s i) n) with (key_in s (Z.to_nat (n - 1))).
  2:{ unfold with_seq, key_in. simpl. f_equal. lia. }
  rewrite blob_at_key_in. apply lookup_lt_is_Some_2. apply lookup_lt_Some in Hi. lia.
Qed.

Section props.
Context `{GoRange row} `{GoRange agg}.

Lemma mem_rows_blob m a id r :
  mem_refines m a -> rows m !! id = Some r ->
  exists b, blob_at a (row_key r) = Some b /\ id = rowKey (row_key r) /\ r = row_of (row_key r, b)
    /\ key_ok (row_key r) /\ row_data r <> [].
Proof.
  intros [Ha Hr] (k & b & Hb & -> & ->)%Hr.
  destruct (blob_at_key_ok a k b Ha Hb) as (? & ? & _). eauto 10.
Qed.

(** * The log invariant under concurrency *)

(** C18. In every store that any interleaving of appends, generation deletions
    and account erasures can produce, each row is filed under its own key,
    is not empty, carries the digest of its bytes, and every earlier
    sequence number of its stream is present: a log never has a hole. *)
Theorem mem_log_contiguous m id r :
  mem_reachable m -> rows m !! id = Some r ->
  id = rowKey (row_key r) /\ row_data r <> [] /\ row_sha256 r = sha256_hex (row_data r) /\
  1 <= Seq (row_key r) /\
  forall n, 1 <= n <= Seq (row_key r) ->
    exists r', rows m !! rowKey (with_seq (row_key r) n) = Some r' /\
               row_key r' = with_seq (row_key r) n.
Proof.
  intros [a Hm]%mem_reachable_refines Hid.
  destruct (mem_rows_blob m a id r Hm Hid) as (b & Hb & Hkey & Er & Hok & Hd).
  assert (row_sha256 r = sha256_hex (row_data r)) by (by rewrite Er).
  split_and!; try done; [apply Hok|]. intros n Hn.
  destruct (blob_at_earlier a (row_key r) b n Hb Hn) as [b' Hb'].
  exists (row_of (with_seq (row_key r) n, b')). split; [|done]. apply Hm. eauto.
Qed.

(** * Append *)

(** What an append may answer and do. *)
Definition mem_append_outcome (now : Z) (m : MemoryStore) (k : BlobKey) (prev : string)
    (r : source) (m' : MemoryStore) (res : result (string * Z)) : Prop :=
  let next := headSeqLocked m (Pseudonym k) (DeviceID k) (Generation k) + 1 in
  match res with
  | Ok (sha, n) =>
      Seq k = next /\ rd_err r = EOF /\ rd_bytes r <> [] /\
      sha = sha256_hex (rd_bytes r) /\ n = Z.of_nat (length (rd_bytes r)) /\
      rows m !! rowKey k = None /\
      rows m' = <[rowKey k := mkRow k sha prev (rd_bytes r) now]> (rows m)
  | Err e =>
      m' = m /\
      ((Seq k <> next /\ e = conflict_error next (Seq k)) \/
       (Seq k = next /\ rd_err r <> EOF /\ e = read_body_error (rd_err r)) \/
       (Seq k = next /\ rd_err r = EOF /\ rd_bytes r = [] /\ e = ErrEmptyBlob))
  end.

(** [Append] on every branch: it stores the whole body, once, at the next
    sequence number of the stream and reports its digest and size; a wrong
    number is a conflict, a body that fails to read or is empty is refused;
    and a refused append leaves the store exactly as it was. *)
Theorem mem_Append_outcome now m k prev (r r' : source) m' res :
  mem_reachable m -> key_ok k -> time_zero <= now ->
  mem_Append now m k prev r = (m', r', res) -> mem_append_outcome now m k prev r m' res.
Proof.
  intros [a Hm]%mem_reachable_refines Hk Hnow. unfold mem_append_outcome.
  pose proof (mem_want_eq m a Hm k) as Hw. pose proof (headSeqLocked_eq m a Hm
    (Pseudonym k) (DeviceID k) (Generation k)) as Hh. fold (stream_of k) in Hh. rewrite Hh.
  fold (spec_next a (stream_of k)). unfold mem_Append, mem_append_check. rewrite Hw.
  destruct (bool_decide_reflect (Seq k = spec_next a (stream_of k))) as [Hseq|Hseq]; simpl;
    [|intros; simplify_eq; tauto].
  unfold mem_drain. destruct (ReadAll_ok r) as (r1 & bs & -> & Hbs & _).
  case_bool_decide as He; [|intros; simplify_eq; naive_solver].
  rewrite Hbs by done. destruct (rd_bytes r) as [|c data] eqn:Eb; [intros; simplify_eq; naive_solver|].
  unfold mem_append_locked. rewrite Hw, bool_decide_eq_true_2 by done. simpl.
  intros [= <- <- <-]. split_and!; try done.
  rewrite (mem_lookup m a Hm) by done. destruct (blob_at a k) as [b|] eqn:Hb; [|done].
  apply blob_at_Some in Hb as (s & i & -> & Hi). apply lookup_lt_Some in Hi.
  unfold spec_next in Hseq. rewrite stream_of_key_in in Hseq. simpl in Hseq. lia.
Qed.

(** Round trip: after a successful append the blob is read back byte for
    byte, with its announced size, and every other key reads as before. *)
Theorem mem_Append_Get now m k prev (r r' : source) m' sha n k' :
  mem_reachable m -> key_ok k -> key_ok k' -> time_zero <= now ->
  mem_Append now m k prev r = (m', r', Ok (sha, n)) ->
  drained (mem_Get m' k').2
  = if decide (k' = k) then Ok (rd_bytes r, n) else drained (mem_Get m k').2.
Proof.
  intros [a Hm]%mem_reachable_refines Hk Hk' Hnow E.
  destruct (mem_Append_ok m a Hm now k prev r r' m' _ Hk Hnow E) as (Hm' & Hres & _).
  rewrite (mem_Get_ok m' _ Hm'), (mem_Get_ok m a Hm) by done. revert Hres. simpl.
  unfold spec_append. case_bool_decide as Hseq; [|done]. unfold body_outcome.
  case_bool_decide as He; [|done]. destruct (rd_bytes r) as [|c data] eqn:Eb; [done|].
  simpl. intros [= -> ->]. rewrite blob_at_append by done. case_decide; [|done].
  pose proof (drained_ok (bytes_reader (c :: data)) (Z.of_nat (length (c :: data))) eq_refl) as Hd.
  by rewrite bytes_reader_bytes in Hd.
Qed.

(** * Pruning and erasure *)


(** Erasure: [DeleteAccount] always succeeds, removes every row of the
    account (the retained generations included) and no other, reports how
    many there were, and a second request removes nothing and succeeds. *)
Theorem mem_DeleteAccount_erases m p m' res m'' res' :
  mem_reachable m -> mem_DeleteAccount m p = (m', res) -> mem_DeleteAccount m' p = (m'', res') ->
  (forall id r, rows m' !! id = Some r <-> rows m !! id = Some r /\ Pseudonym (row_key r) <> p) /\
  res = Ok (Z.of_nat (length (filter (fun r => Pseudonym (row_key r) = p) (all_rows m)))) /\
  mem_Manifest m' p = (m', Ok []) /\
  m'' = m' /\ res' = Ok 0.
Proof.
  intros [a Hm]%mem_reachable_refines Hd Hd'.
  pose proof (mem_DeleteAccount_ok m a Hm p) as Hok. rewrite Hd in Hok. destruct Hok as [Hm' _].
  assert (forall id r, rows m' !! id = Some r <-> rows m !! id = Some r /\ Pseudonym (row_key r) <> p)
    as Hrows.
  { intros id r. unfold mem_DeleteAccount in Hd. rewrite delete_where_spec in Hd.
    injection Hd as <- _. simpl. rewrite map_lookup_filter_Some. simpl.
    by rewrite bool_decide_eq_false. }
  assert (filter (fun r => bool_decide (Pseudonym (row_key r) = p) = true) (range (rows m')).*2 = [])
    as Hnone.
  { apply list_filter_none. intros r ([id r'] & -> & Hin)%list_elem_of_fmap.
    rewrite range_perm, elem_of_map_to_list, Hrows in Hin. simpl. rewrite bool_decide_eq_true. naive_solver. }
  split_and!; [done| | | |].
  - unfold mem_DeleteAccount in Hd. rewrite delete_where_spec in Hd. injection Hd as _ <-.
    do 3 f_equal. apply list_filter_iff. intros r. apply bool_decide_eq_true.
  - rewrite (mem_Manifest_ok m' _ Hm'). do 2 f_equal. unfold spec_manifest.
    rewrite list_filter_none; [done|]. intros [s l] Hin%elem_of_map_to_list. simpl in *.
    apply map_lookup_filter_Some in Hin as [_ Hin]. done.
  - unfold mem_DeleteAccount in Hd'. rewrite delete_where_spec in Hd'. injection Hd' as <- _.
    destruct m' as [rs]. f_equal. simpl in *. apply map_filter_id. intros id r Hr.
    apply Hrows in Hr as [_ Hr]. by apply bool_decide_eq_false.
  - unfold mem_DeleteAccount in Hd'. rewrite delete_where_spec in Hd'. injection Hd' as _ <-.
    by rewrite Hnone.
Qed.

(** * Traces *)

(** C8. The in-memory store is the abstract log: on every sequence of calls,
    from the empty store and for every iteration order of its maps, callers
    observe exactly what the abstract log of streams would answer. *)
Theorem mem_trace_refines_log os :
  Forall (op_ok (fun _ => True)) os -> (run NewMemoryStore os).2 = (spec_run ∅ os).2.
Proof.
  intros Hos. apply (run_exact (fun _ => True) mem_refines NewMemoryStore ∅); [|apply mem_refines_new|done].
  intros m a o. apply mem_apply_op_ok.
Qed.

(** Isolation of accounts: in any sequence of calls by any number of
    accounts, what one account observes is what it would observe had the
    others made no call at all. *)
Theorem mem_accounts_isolated q os :
  Forall (op_ok (fun _ => True)) os ->
  account_obs q os (run NewMemoryStore os).2
  = (run NewMemoryStore (filter (fun o => op_account o = q) os)).2.
Proof.
  intros Hos. assert (forall os', Forall (op_ok (fun _ => True)) os' ->
    (run NewMemoryStore os').2 = (spec_run ∅ os').2) as Hrun.
  { intros os' Hos'. apply (run_exact (fun _ => True) mem_refines NewMemoryStore ∅); [|apply mem_refines_new|done].
    intros m a o. apply mem_apply_op_ok. }
  rewrite !Hrun; [|by apply list_filter_Forall|done]. by apply spec_run_noninterference.
Qed.

End props.

(** * Concrete executions *)

(** An append is one of the interleavings. *)
Lemma mem_reachable_Append `{GoRange row} now m k prev (r r' : source) m' res :
  mem_reachable m -> key_ok k -> time_zero <= now ->
  mem_Append now m k prev r = (m', r', res) -> mem_reachable m'.
Proof.
  intros [ps Hm] Hk Hnow. unfold mem_Append.
  destruct (mem_append_check m k) eqn:Hc; [intros; simplify_eq; by exists ps|].
  unfold mem_drain. destruct (ReadAll r) as [r1 [[|c data] [e|]]]; try (intros; simplify_eq; by exists ps).
  destruct (mem_append_locked _ _ _ _ _ _) as [m1 res1] eqn:El. intros; simplify_eq. exists ps.
  eapply rtc_r; [eapply rtc_r; [exact Hm|]|].
  - by apply (ms_begin m ps k prev (c :: data)).
  - pose proof (ms_commit now m [] ps (mkPending k prev (c :: data)) Hnow) as Hs.
    simpl in Hs. by rewrite El in Hs.
Qed.

Module MemoryStoreWitness.
#[local] Existing Instance default_range.

Definition key1 : BlobKey := mkBlobKey "0a" "1b" 1 1.
Definition key2 : BlobKey := mkBlobKey "0a" "1b" 1 2.
Definition foo : source := bytes_reader (bytes_of_string "foo").
Definition sha_foo : string := "2c26b46b68ffc68ff99b453c1d30413413422d706483bfa0f98a5e886266e7ae".
Definition store1 : MemoryStore :=
  mkMemoryStore {[ rowKey key1 := mkRow key1 sha_foo "" (bytes_of_string "foo") 5 ]}.

Lemma key1_ok : key_ok key1.
Proof. repeat split; vm_compute; done. Qed.

Lemma key2_ok : key_ok key2.
Proof. repeat split; vm_compute; done. Qed.

Lemma store0_reachable : mem_reachable NewMemoryStore.
Proof. exists []. apply rtc_refl. Qed.

Definition foo_drained : source := (ReadAll foo).1.

Lemma append1 :
  mem_Append 5 NewMemoryStore key1 "" foo = (store1, foo_drained, Ok (sha_foo, 3)).
Proof. vm_compute. reflexivity. Qed.

Lemma store1_reachable : mem_reachable store1.
Proof.
  apply (mem_reachable_Append 5 NewMemoryStore key1 "" foo foo_drained _ (Ok (sha_foo, 3))).
  - apply store0_reachable.
  - apply key1_ok.
  - by vm_compute.
  - apply append1.
Qed.

Lemma mem_log_contiguous_witness :
  exists r, rows store1 !! rowKey key1 = Some r /\ row_sha256 r = sha256_hex (row_data r) /\
    1 <= Seq (row_key r).
Proof.
  eexists. assert (rows store1 !! rowKey key1 = Some (mkRow key1 sha_foo "" (bytes_of_string "foo") 5))
    as E by (vm_compute; reflexivity).
  split; [exact E|]. destruct (mem_log_contiguous store1 _ _ store1_reachable E) as (_ & _ & H1 & H2 & _).
  split; [exact H1|exact H2].
Defined.

Lemma mem_Append_outcome_witness :
  mem_append_outcome 5 NewMemoryStore key1 "" foo store1 (Ok (sha_foo, 3)) /\
  mem_append_outcome 5 store1 key1 "" foo store1 (Err (conflict_error 2 1)).
Proof.
  split.
  - apply (mem_Append_outcome 5 NewMemoryStore key1 "" foo foo_drained store1 (Ok (sha_foo, 3))
      store0_reachable key1_ok); [by vm_compute|exact append1].
  - apply (mem_Append_outcome 5 store1 key1 "" foo foo store1 _ store1_reachable key1_ok);
      [by vm_compute|vm_compute; reflexivity].
Defined.

Lemma mem_Append_Get_witness :
  drained (mem_Get store1 key1).2 = Ok (bytes_of_string "foo", 3).
Proof.
  pose proof (mem_Append_Get 5 NewMemoryStore key1 "" foo foo_drained store1 sha_foo 3 key1
    store0_reachable key1_ok key1_ok) as H.
  rewrite H; [vm_compute; reflexivity|by vm_compute|exact append1].
Defined.


Lemma mem_DeleteAccount_erases_witness :
  mem_Manifest NewMemoryStore "0a" = (NewMemoryStore, Ok []).
Proof.
  assert (mem_DeleteAccount store1 "0a" = (NewMemoryStore, Ok 1)) as E1 by (vm_compute; reflexivity).
  assert (mem_DeleteAccount NewMemoryStore "0a" = (NewMemoryStore, Ok 0)) as E2
    by (vm_compute; reflexivity).
  apply (mem_DeleteAccount_erases store1 "0a" NewMemoryStore _ _ _ store1_reachable E1 E2).
Defined.

Definition ops1 : list op :=
  [OpAppend 5 key1 "" foo; OpGet key1; OpManifest "0a"; OpDeleteAccount "0a"].

Lemma ops1_ok : Forall (op_ok (fun _ => True)) ops1.
Proof. repeat constructor; (vm_compute; done) || (simpl; lia) || (by left) || (intros; vm_compute; done). Qed.

Lemma mem_trace_refines_log_witness :
  (run NewMemoryStore ops1).2 = (spec_run ∅ ops1).2.
Proof. apply (mem_trace_refines_log ops1), ops1_ok. Defined.

Lemma mem_accounts_isolated_witness :
  account_obs "ff" ops1 (run NewMemoryStore ops1).2
  = (run NewMemoryStore (filter (fun o => op_account o = "ff") ops1)).2.
Proof. apply (mem_accounts_isolated "ff" ops1), ops1_ok. Defined.

End MemoryStoreWitness.
