(* ===== verification/MemoryConcurrent.v ===== *)
(** [internal/blobstore/memory.go] under concurrent calls.  Every request is
    served by a goroutine of its own; the operations take the store's lock, and
    [Append] takes it twice: for the advisory check, and, after it drained the
    body with no lock held, for the checked insertion.  The store is
    linearizable: the calls and returns of any number of threads are those of
    an object that performs each operation of the abstract log at once, at
    some moment between its call and its return. *)
From S2P Require Import Prelude GoStrings GoError Sha256 GoIO BlobStore LogFacts Trace Systems MemoryStore MemoryStoreOk.
Local Open Scope Z_scope.

(** * Histories *)

Inductive event :=
  | Invoke (t : nat) (o : op)
  | Return (t : nat) (ob : obs).

(** ** The atomic object *)

Inductive atomic_thread :=
  | AtomicCalled (o : op)
  | AtomicDone (ob : obs).

Definition atomic_state : Type := alog * gmap nat atomic_thread.

(** An operation is called, performed on the abstract log at once, returned. *)
Inductive atomic_step : atomic_state -> option event -> atomic_state -> Prop :=
  | at_invoke a ts t o :
      ts !! t = None -> op_ok (fun _ => True) o ->
      atomic_step (a, ts) (Some (Invoke t o)) (a, <[t := AtomicCalled o]> ts)
  | at_perform a ts t o :
      ts !! t = Some (AtomicCalled o) ->
      atomic_step (a, ts) None ((spec_op a o).1, <[t := AtomicDone (spec_op a o).2]> ts)
  | at_return a ts t ob :
      ts !! t = Some (AtomicDone ob) ->
      atomic_step (a, ts) (Some (Return t ob)) (a, delete t ts).

(** ** The store *)

(** Where a goroutine is in its operation. *)
Inductive mem_thread :=
  | Calling (o : op)
  | Draining (now : Z) (k : BlobKey) (prev : string) (body : source)
  | Entering (now : Z) (k : BlobKey) (prev : string) (data : bytes) (sha : string)
  | Returning (ob : obs).

Definition mem_state : Type := MemoryStore * gmap nat mem_thread.

Definition is_append (o : op) : bool := match o with OpAppend _ _ _ _ => true | _ => false end.

Section concurrent.
Context `{GoRange row} `{GoRange agg}.

(** One step of one goroutine: a call, the whole of a critical section, the
    draining of a body, or a return. *)
Inductive mem_conc_step : mem_state -> option event -> mem_state -> Prop :=
  | mc_invoke m ts t o :
      ts !! t = None -> op_ok (fun _ => True) o ->
      mem_conc_step (m, ts) (Some (Invoke t o)) (m, <[t := Calling o]> ts)
  | mc_locked m ts t o :
      ts !! t = Some (Calling o) -> is_append o = false ->
      mem_conc_step (m, ts) None ((apply_op m o).1, <[t := Returning (apply_op m o).2]> ts)
  | mc_check_fails m ts t now k prev body e :
      ts !! t = Some (Calling (OpAppend now k prev body)) -> mem_append_check m k = Some e ->
      mem_conc_step (m, ts) None (m, <[t := Returning (ObsAppend (Err e))]> ts)
  | mc_check_passes m ts t now k prev body :
      ts !! t = Some (Calling (OpAppend now k prev body)) -> mem_append_check m k = None ->
      mem_conc_step (m, ts) None (m, <[t := Draining now k prev body]> ts)
  | mc_drain_fails m ts t now k prev body e :
      ts !! t = Some (Draining now k prev body) -> (mem_drain body).2 = Err e ->
      mem_conc_step (m, ts) None (m, <[t := Returning (ObsAppend (Err e))]> ts)
  | mc_drained m ts t now k prev body data sha :
      ts !! t = Some (Draining now k prev body) -> (mem_drain body).2 = Ok (data, sha) ->
      mem_conc_step (m, ts) None (m, <[t := Entering now k prev data sha]> ts)
  | mc_insert m ts t now k prev data sha :
      ts !! t = Some (Entering now k prev data sha) ->
      mem_conc_step (m, ts) None
        ((mem_append_locked now m k prev data sha).1,
         <[t := Returning (ObsAppend (mem_append_locked now m k prev data sha).2)]> ts)
  | mc_return m ts t ob :
      ts !! t = Some (Returning ob) ->
      mem_conc_step (m, ts) (Some (Return t ob)) (m, delete t ts).

(** * The simulation *)

(** What a body amounts to, and what draining it yields. *)
Lemma mem_drain_outcome (body : source) :
  (mem_drain body).2 = match body_outcome body with
                       | Ok [] => Err (Sentinel ErrEmptyBlob)
                       | Ok data => Ok (data, sha256_hex data)
                       | Err e => Err (read_body_error e)
                       end.
Proof.
  unfold mem_drain, body_outcome. destruct (ReadAll_ok body) as (r' & bs & -> & Hbs & _).
  case_bool_decide as He; [|done]. rewrite Hbs by done. by destruct (rd_bytes body).
Qed.

(** The threads of the two systems: an append takes effect at its advisory
    check when it is refused there or when its body will not do, and otherwise
    in its critical section. *)
Inductive thread_rel : option mem_thread -> option atomic_thread -> Prop :=
  | tr_none : thread_rel None None
  | tr_calling o : op_ok (fun _ => True) o -> thread_rel (Some (Calling o)) (Some (AtomicCalled o))
  | tr_draining_ok now k prev body c data :
      op_ok (fun _ => True) (OpAppend now k prev body) -> body_outcome body = Ok (c :: data) ->
      thread_rel (Some (Draining now k prev body)) (Some (AtomicCalled (OpAppend now k prev body)))
  | tr_draining_err now k prev body e :
      (mem_drain body).2 = Err e ->
      thread_rel (Some (Draining now k prev body)) (Some (AtomicDone (ObsAppend (Err e))))
  | tr_entering now k prev body data :
      op_ok (fun _ => True) (OpAppend now k prev body) -> body_outcome body = Ok data -> data <> [] ->
      thread_rel (Some (Entering now k prev data (sha256_hex data))) (Some (AtomicCalled (OpAppend now k prev body)))
  | tr_returning ob : thread_rel (Some (Returning ob)) (Some (AtomicDone ob)).

Definition conc_rel (s : mem_state) (t : atomic_state) : Prop :=
  mem_refines s.1 t.1 /\ forall i, thread_rel (s.2 !! i) (t.2 !! i).

(** A step of the atomic object that performs the operation of a thread. *)
Lemma performs a ats i o :
  ats !! i = Some (AtomicCalled o) ->
  execution atomic_step (a, ats) [] ((spec_op a o).1, <[i := AtomicDone (spec_op a o).2]> ats).
Proof. intros Hi. apply (execution_one atomic_step _ _ None). by apply at_perform. Qed.
(** The advisory check, against the abstract log. *)
Lemma check_fails m a k e now prev body :
  mem_refines m a -> mem_append_check m k = Some e ->
  spec_op a (OpAppend now k prev body) = (a, ObsAppend (Err e)).
Proof.
  intros Hm. unfold mem_append_check. rewrite (mem_want_eq m a Hm). case_bool_decide as Hk; [done|].
  intros [= <-]. cbn [spec_op]. unfold spec_append. by rewrite bool_decide_eq_false_2.
Qed.

Lemma check_passes m a k now prev body e :
  mem_refines m a -> mem_append_check m k = None -> (mem_drain body).2 = Err e ->
  spec_op a (OpAppend now k prev body) = (a, ObsAppend (Err e)).
Proof.
  intros Hm. unfold mem_append_check. rewrite (mem_want_eq m a Hm). case_bool_decide as Hk; [|done]. intros _.
  rewrite mem_drain_outcome. cbn [spec_op]. unfold spec_append. rewrite bool_decide_eq_true_2 by done.
  destruct (body_outcome body) as [[|c data]|e']; by intros [= <-].
Qed.

Lemma conc_simulation s1 l s2 t1 :
  conc_rel s1 t1 -> mem_conc_step s1 l s2 ->
  exists t2, execution atomic_step t1 (event_of l) t2 /\ conc_rel s2 t2.
Proof.
  destruct t1 as [a ats]. intros [Hm Hts] Hstep.
  destruct Hstep as [m ts t o Hi Ho|m ts t o Hi Ho|m ts t now k prev body e Hi Hc|m ts t now k prev body Hi Hc
    |m ts t now k prev body e Hi Hd|m ts t now k prev body data sha Hi Hd|m ts t now k prev data sha Hi|m ts t ob Hi];
    cbn [fst snd] in *; specialize (Hts t) as Ht; rewrite Hi in Ht; inversion Ht as
      [E|o' Ho' E1 E|now' k' prev' body' c data' Ho' Hb E1 E|now' k' prev' body' e' Hd' E1 E
      |now' k' prev' body' data' Ho' Hb Hne E1 E|ob' E1 E]; subst; clear Ht; symmetry in E.
  - eexists. split; [apply execution_one; by apply at_invoke|]. split; [done|].
    apply pointwise_insert; [done|by constructor].
  - eexists. split; [by apply performs|]. destruct (mem_apply_op_ok m a o Hm) as [Hm' ->]; [done|].
    split; [done|]. apply pointwise_insert; [done|constructor].
  - eexists. split; [by apply performs|]. erewrite check_fails by done. split; [done|].
    apply pointwise_insert; [done|constructor].
  - pose proof (mem_drain_outcome body) as Hdr. destruct (body_outcome body) as [[|c data]|e] eqn:Eb.
    2: { exists (a, ats). split; [constructor|]. split; [done|]. eapply pointwise_keep; [done|done|]. by eapply tr_draining_ok. }
    all: eexists; split; [by apply performs|]; erewrite check_passes by done; split; [done|];
      apply pointwise_insert; [done|by constructor].
  - rewrite mem_drain_outcome, Hb in Hd. done.
  - rewrite Hd in Hd'. injection Hd' as ->. exists (a, ats). split; [constructor|]. split; [done|].
    eapply pointwise_keep; [done|done|constructor].
  - rewrite mem_drain_outcome, Hb in Hd. injection Hd as <- <-. exists (a, ats). split; [constructor|]. split; [done|].
    eapply pointwise_keep; [done|done|]. by eapply tr_entering.
  - by rewrite Hd in Hd'.
  - eexists. split; [by apply performs|]. destruct Ho' as (Hk & Hnow & _).
    pose proof (mem_append_locked_ok m a Hm now k prev data Hk Hnow Hne) as Hl.
    destruct (mem_append_locked _ _ _ _ _ _) as [m' res]. destruct Hl as [Hm' ->].
    cbn [spec_op fst snd]. rewrite Hb. destruct (spec_append now a k prev (Ok data)) as [a' sp].
    split; [done|]. apply pointwise_insert; [done|constructor].
  - eexists. split; [apply execution_one; by apply at_return|]. split; [done|].
    intros j. cbn [snd]. rewrite !lookup_delete. case_decide; [constructor|done].
Qed.

(** C10. The in-memory store is linearizable. Whatever the scheduler does
    with any number of concurrent calls (appends that drain their bodies while
    others insert and delete, uploads racing for one sequence number,
    erasures, listings), the calls and their results are those of an object
    that performs each operation of the abstract log in one indivisible
    moment between the call and the return; and at the end the store holds the
    log of that object. *)
Theorem mem_linearizable h m ts :
  execution mem_conc_step (NewMemoryStore, ∅) h (m, ts) ->
  exists a ats, execution atomic_step (∅, ∅) h (a, ats) /\ mem_refines m a.
Proof.
  intros He. assert (conc_rel (NewMemoryStore, ∅) (∅, ∅)) as HR.
  { split; [apply mem_refines_new|]. intros i. cbn [snd]. rewrite !lookup_empty. constructor. }
  destruct (forward_simulation _ _ conc_rel conc_simulation _ _ _ _ HR He) as ([a ats] & Ha & Hr & _).
  by exists a, ats.
Qed.
End concurrent.

(** * Two uploads race *)

Module ConcurrentWitness.
#[local] Existing Instance default_range.

Definition key1 : BlobKey := mkBlobKey "0a" "1b" 1 1.
Definition foo : source := bytes_reader (bytes_of_string "foo").
Definition bar : source := bytes_reader (bytes_of_string "bar").
Definition sha_foo : string := "2c26b46b68ffc68ff99b453c1d30413413422d706483bfa0f98a5e886266e7ae".

(** Both pass the advisory check; the second one enters first. *)
Definition race : list event :=
  [ Invoke 1 (OpAppend 5 key1 "" bar); Invoke 2 (OpAppend 6 key1 "" foo);
    Return 2 (ObsAppend (Ok (sha_foo, 3))); Return 1 (ObsAppend (Err (conflict_error 2 1))) ].

Lemma append_ok now body :
  time_zero <= now -> stream_fits body -> op_ok (fun _ => True) (OpAppend now key1 "" body).
Proof. intros Hn Hf. split_and!; [..|exact Hn|done|exact Hf]; vm_compute; done. Qed.

Definition after_race : MemoryStore := (mem_append_locked 6 NewMemoryStore key1 "" (bytes_of_string "foo") sha_foo).1.

Lemma race_happens : exists ts, execution mem_conc_step (NewMemoryStore, ∅) race (after_race, ts).
Proof.
  eexists. unfold race.
  eapply exec_event; [apply mc_invoke; [reflexivity|by apply append_ok]|].
  eapply exec_event; [apply mc_invoke; [reflexivity|by apply append_ok]|].
  eapply exec_internal; [eapply (mc_check_passes _ _ 1%nat); [reflexivity|vm_compute; reflexivity]|].
  eapply exec_internal; [eapply (mc_check_passes _ _ 2%nat); [reflexivity|vm_compute; reflexivity]|].
  eapply exec_internal; [eapply (mc_drained _ _ 1%nat); [reflexivity|vm_compute; reflexivity]|].
  eapply exec_internal; [eapply (mc_drained _ _ 2%nat); [reflexivity|vm_compute; reflexivity]|].
  eapply exec_internal; [eapply (mc_insert _ _ 2%nat); vm_compute; reflexivity|].
  eapply exec_event; [eapply (mc_return _ _ 2%nat); vm_compute; reflexivity|].
  eapply exec_internal; [eapply (mc_insert _ _ 1%nat); vm_compute; reflexivity|].
  eapply exec_event; [eapply (mc_return _ _ 1%nat); vm_compute; reflexivity|].
  match goal with |- execution _ (?m, ?ts) [] _ => assert (m = after_race) as -> by (vm_compute; reflexivity) end.
  apply exec_nil.
Qed.

Lemma mem_linearizable_witness :
  exists a ats, execution atomic_step (∅, ∅) race (a, ats) /\ mem_refines after_race a.
Proof. destruct race_happens as [ts H]. exact (mem_linearizable race after_race ts H). Defined.
End ConcurrentWitness.
