(* ===== verification/Service.v ===== *)
(** The whole service under concurrent requests.  Each request is served by a
    goroutine of its own that touches what they share twice at most: the
    nonces, when its proof is consumed, and then the store, in the one
    operation of its handler.  Between the two any other request may do
    anything.  The answers and the log are those of an abstract service, in
    which a proof is consumed at one moment and the operation of the abstract
    log performed at another, and of the requests that present one proof in
    time only one is performed.

    An operation of the store is one step here.  For the in-memory store
    [MemoryConcurrent] shows that nothing else can be observed; for the
    database that is what its transactions are for, and [PostgresRace] shows
    where they fall short. *)
From S2P Require Import Prelude GoStrings GoError GoTime Json Url Nonce AuthProof GoIO BlobStore Bodies Http WriterFacts.
From S2P Require Import Handlers Api Middlewares AuthGate Server ServerProps Public Systems.
Local Open Scope Z_scope.

Section service.
Context {crypto : Crypto} {laws : CryptoLaws crypto} {tf : TimeFormat} {chi : Chi} {St NSt : Type}.
Context {bs : BlobStore St} {ok : BlobStoreOk St} {ns : NonceStore NSt} {nok : NonceStoreOk NSt}.
Context (d : Deps) (pub : PublicKey) (h : handler St NSt).
Hypothesis Hpub : GetPublicKey (dep_Wallet d) = Ok pub.
Hypothesis Hrouter : NewRouter d = Ok h.
Hypothesis Hlimit : 0 <= dep_MaxBlobBytes d.

Let limit := dep_MaxBlobBytes d.
Let wallet := dep_Wallet d.
Abbreviation destination := (destination (St := St) (NSt := NSt) d pub).
Abbreviation answered_publicly := (answered_publicly (St := St) (NSt := NSt) d pub).

(** * Requests *)

(** A request on its connection, with the readings of the clocks. *)
Record job := mkJob {
  jb_request : request;
  jb_body : source;
  jb_times : times;
}.

(** The network ends a body properly or with an error of its own; a URL whose
    path is /health is the probe's. *)
Definition job_ok (j : job) : Prop :=
  wire_ok (jb_body j) (jb_times j) /\ (is_health (jb_request j) = true -> destination (jb_request j) = None).

Inductive event :=
  | Arrive (i : nat) (j : job)
  | Answer (i : nat) (rs : response).

(** * The server *)

(** How far a goroutine is: behind the gate it remembers what it found there. *)
Inductive svc_thread :=
  | Arrived (j : job)
  | Gated (j : job) (n : NSt)
  | Performed (j : job) (n : NSt) (rs : response)
  | Answered (j : job) (n : NSt) (rs : response).

Record service := mkService {
  sv_store : St;
  sv_nonces : NSt;
  sv_threads : gmap nat svc_thread;
}.

Definition serve_job (j : job) (st : St) (n : NSt) : world St NSt := serve h (jb_request j) (jb_body j) (jb_times j) st n.

(** The requests that may come. *)
Context (arriving : job -> Prop).
Hypothesis Harriving : forall j, arriving j -> job_ok j.

(** The handler is one function of both stores.  Up to the gate it depends on
    the nonces it finds there, behind it on the store it finds then. *)
Inductive svc_step : service -> option event -> service -> Prop :=
  | sv_arrive s i j :
      sv_threads s !! i = None -> arriving j ->
      svc_step s (Some (Arrive i j)) (mkService (sv_store s) (sv_nonces s) (<[i := Arrived j]> (sv_threads s)))
  | sv_gate s i j :
      sv_threads s !! i = Some (Arrived j) ->
      svc_step s None
        (mkService (sv_store s) (w_nonces (serve_job j (sv_store s) (sv_nonces s)))
          (<[i := Gated j (sv_nonces s)]> (sv_threads s)))
  | sv_perform s i j n :
      sv_threads s !! i = Some (Gated j n) ->
      svc_step s None
        (mkService (w_store (serve_job j (sv_store s) n)) (sv_nonces s)
          (<[i := Performed j n (w_resp (serve_job j (sv_store s) n))]> (sv_threads s)))
  | sv_answer s i j n rs :
      sv_threads s !! i = Some (Performed j n rs) ->
      svc_step s (Some (Answer i rs)) (mkService (sv_store s) (sv_nonces s) (<[i := Answered j n rs]> (sv_threads s))).

Definition started (st : St) (n : NSt) : service := mkService st n ∅.

(** * The abstract service *)

Inductive spec_thread :=
  | SArrived (j : job)
  | SAdmitted (j : job) (e : endpoint) (ps : list (string * string)) (caller : PublicKey) (digest : string)
  | SRefused (rp : reply)
  | SPublic (j : job)
  | SReplied (rs : response)
  | SDone.

(** The abstract log, the nonces, the requests. *)
Definition spec_service : Type := alog * NSt * gmap nat spec_thread.

(** What an admitted request asks of the log. *)
Definition spec_outcome (j : job) (e : endpoint) (ps : list (string * string)) (caller : PublicKey) (digest : string)
    (a : alog) : alog * reply :=
  spec_api limit e (ToDERHex caller) (with_params (jb_request j) ps) (t_store (jb_times j))
    (body_outcome (request_body d digest (jb_body j))) a.

(** The guard speaks for a handler only when the body was too large. *)
Definition overran (over : bool) (digest : string) (j : job) : Prop :=
  over = true -> rd_err (request_body d digest (jb_body j)) = ErrBodyTooLarge.

(** Some store that holds the log may fail the request. *)
Definition excusable (e : endpoint) (account : string) (r : request) (a : alog) : Prop :=
  exists st : St, refines st a /\ request_excused e account r a st.

Inductive spec_step : spec_service -> option event -> spec_service -> Prop :=
  | sp_arrive a n ts i j :
      ts !! i = None -> arriving j -> spec_step (a, n, ts) (Some (Arrive i j)) (a, n, <[i := SArrived j]> ts)
  (* the gate *)
  | sp_admit a n ts i j e ps n' caller digest :
      ts !! i = Some (SArrived j) -> destination (jb_request j) = Some (e, ps) ->
      authenticate wallet (jb_request j) (jb_times j) n = (n', Granted caller digest) ->
      spec_step (a, n, ts) None (a, n', <[i := SAdmitted j e ps caller digest]> ts)
  | sp_refuse a n ts i j e ps n' status code desc :
      ts !! i = Some (SArrived j) -> destination (jb_request j) = Some (e, ps) ->
      authenticate wallet (jb_request j) (jb_times j) n = (n', Refused status code desc) ->
      spec_step (a, n, ts) None (a, n', <[i := SRefused (error_reply status code desc)]> ts)
  | sp_public a n ts i j :
      ts !! i = Some (SArrived j) -> destination (jb_request j) = None ->
      spec_step (a, n, ts) None (a, n, <[i := SPublic j]> ts)
  (* the operation *)
  | sp_perform a n ts i j e ps caller digest over rs :
      ts !! i = Some (SAdmitted j e ps caller digest) -> overran over digest j ->
      answer_is rs (if over then too_large_reply limit else (spec_outcome j e ps caller digest a).2) ->
      spec_step (a, n, ts) None ((spec_outcome j e ps caller digest a).1, n, <[i := SReplied rs]> ts)
  | sp_fail a n ts i j e ps caller digest over rp rs a' :
      ts !! i = Some (SAdmitted j e ps caller digest) -> overran over digest j ->
      excusable e (ToDERHex caller) (jb_request j) a ->
      failure_reply limit over (spec_outcome j e ps caller digest a).2 rp -> answer_is rs rp ->
      a' = a \/ a' = (spec_outcome j e ps caller digest a).1 ->
      spec_step (a, n, ts) None (a', n, <[i := SReplied rs]> ts)
  | sp_decline a n ts i rp rs :
      ts !! i = Some (SRefused rp) -> answer_is rs rp -> spec_step (a, n, ts) None (a, n, <[i := SReplied rs]> ts)
  | sp_serve a n ts i j rs :
      ts !! i = Some (SPublic j) -> answered_publicly (jb_request j) (exists st : St, refines st a /\ faulty st) rs ->
      spec_step (a, n, ts) None (a, n, <[i := SReplied rs]> ts)
  | sp_answer a n ts i rs :
      ts !! i = Some (SReplied rs) -> spec_step (a, n, ts) (Some (Answer i rs)) (a, n, <[i := SDone]> ts).

(** * The simulation *)

Definition job_of (t : svc_thread) : job :=
  match t with Arrived j | Gated j _ | Performed j _ _ | Answered j _ _ => j end.

(** What the abstract service makes of a request at the gate. *)
Definition gate (j : job) (n : NSt) : spec_thread :=
  match destination (jb_request j) with
  | None => SPublic j
  | Some (e, ps) =>
      match (authenticate wallet (jb_request j) (jb_times j) n).2 with
      | Granted caller digest => SAdmitted j e ps caller digest
      | Refused status code desc => SRefused (error_reply status code desc)
      end
  end.

Definition outside (t : svc_thread) : spec_thread :=
  match t with
  | Arrived j => SArrived j
  | Gated j n => gate j n
  | Performed _ _ rs => SReplied rs
  | Answered _ _ _ => SDone
  end.

Definition jobs_ok (s : service) : Prop := forall i t, sv_threads s !! i = Some t -> job_ok (job_of t).

Definition svc_rel (s : service) (t : spec_service) : Prop :=
  jobs_ok s /\ exists a, refines (sv_store s) a /\ t = (a, sv_nonces s, outside <$> sv_threads s).

Lemma jobs_ok_insert s st n i t :
  jobs_ok s -> job_ok (job_of t) -> jobs_ok (mkService st n (<[i := t]> (sv_threads s))).
Proof. intros Hs Ht k t'. simpl. rewrite lookup_insert. case_decide; [by intros [= <-]|apply Hs]. Qed.

Lemma refused_status (j : job) n n' status code desc :
  authenticate wallet (jb_request j) (jb_times j) n = (n', Refused status code desc) -> status = 401 \/ status = 500.
Proof. apply (authenticate_status d). Qed.

(** What a gate step does to the nonces. *)
Definition nonces_after (j : job) (n : NSt) : NSt :=
  match destination (jb_request j) with
  | None => n
  | Some _ => (authenticate wallet (jb_request j) (jb_times j) n).1
  end.

Lemma not_health j x : job_ok j -> destination (jb_request j) = Some x -> is_health (jb_request j) = false.
Proof. intros [_ Hh] Hx. destruct (is_health _); [|done]. rewrite Hh in Hx by done. done. Qed.

Lemma serve_nonces j st n a :
  job_ok j -> refines st a -> w_nonces (serve_job j st n) = nonces_after j n.
Proof.
  intros Hj Ha. unfold nonces_after, serve_job. destruct (destination _) as [[e ps]|] eqn:Hd.
  - pose proof (destination_reaches d pub _ _ _ (not_health j _ Hj Hd) Hd) as Hreach.
    destruct (authenticate wallet _ _ n) as [n' [status code desc|caller digest]] eqn:Hauth.
    + destruct (serve_refused d pub h Hpub Hrouter e ps (jb_request j) (jb_body j) (jb_times j) st n n' status code desc Hreach) as (_ & _ & Hn & _);
        [|done|done]. apply refused_status in Hauth. lia.
    + by destruct (serve_admitted d pub h Hpub Hrouter Hlimit e ps _ _ _ st n n' caller digest a (proj1 Hj) Ha Hreach Hauth).
  - by destruct (public_served d pub h Hpub Hrouter (jb_request j) (jb_body j) (jb_times j) st n a Ha Hd) as (_ & -> & _).
Qed.

(** One operation, as the abstract service allows it. *)
Lemma job_performs j st n a ts i :
  job_ok j -> refines st a -> ts !! i = Some (gate j n) -> 
  forall n0, exists a', refines (w_store (serve_job j st n)) a' /\
    spec_step (a, n0, ts) None (a', n0, <[i := SReplied (w_resp (serve_job j st n))]> ts).
Proof.
  intros Hj Ha Hi n0. unfold gate in Hi. unfold serve_job in *. destruct (destination _) as [[e ps]|] eqn:Hd.
  - pose proof (destination_reaches d pub _ _ _ (not_health j _ Hj Hd) Hd) as Hreach.
    destruct (authenticate wallet _ _ n) as [n' [status code desc|caller digest]] eqn:Hauth; cbn [snd] in Hi.
    + destruct (serve_refused d pub h Hpub Hrouter e ps (jb_request j) (jb_body j) (jb_times j) st n n' status code desc Hreach) as (Hr & Hst & _);
        [by apply refused_status in Hauth; lia|done|].
      exists a. split; [by rewrite Hst|]. by eapply sp_decline.
    + destruct (serve_admitted d pub h Hpub Hrouter Hlimit e ps _ _ _ st n n' caller digest a (proj1 Hj) Ha Hreach Hauth)
        as (_ & Hov & Hout & _).
      destruct Hout as [[Hr Hresp]|(Hex & Hr & rp' & Hf & Hresp)].
      * eexists. split; [exact Hr|]. eapply sp_perform; [exact Hi|exact Hov|exact Hresp].
      * assert (exists a', refines (w_store (serve h (jb_request j) (jb_body j) (jb_times j) st n)) a' /\
          (a' = a \/ a' = (spec_outcome j e ps caller digest a).1)) as (a' & Hr' & Ha') by (destruct Hr; eauto).
        exists a'. split; [exact Hr'|]. eapply sp_fail; [exact Hi|exact Hov|by exists st|exact Hf|exact Hresp|exact Ha'].
  - destruct (public_served d pub h Hpub Hrouter (jb_request j) (jb_body j) (jb_times j) st n a Ha Hd) as (Hans & _ & _ & Hr).
    exists a. split; [exact Hr|]. eapply sp_serve; [exact Hi|]. revert Hans. unfold Public.answered_publicly.
    destruct (bool_decide _); [done|]. destruct (_ <? _); [done|]. destruct (find_route _ _ _) as [[|[]]| |]; try done.
    intros [?|[? ?]]; [by left|right; eauto].
Qed.

Lemma svc_simulation s1 l s2 t1 :
  svc_rel s1 t1 -> svc_step s1 l s2 -> exists t2, execution spec_step t1 (event_of l) t2 /\ svc_rel s2 t2.
Proof.
  intros (Hjobs & a & Ha & ->) Hstep.
  assert (forall i, (outside <$> sv_threads s1) !! i = outside <$> (sv_threads s1 !! i)) as Hat by (intros; apply lookup_fmap).
  destruct Hstep as [s i j Hi Hj|s i j Hi|s i j n Hi|s i j n rs Hi].
  - exists (a, sv_nonces s, <[i := SArrived j]> (outside <$> sv_threads s)). split.
    + apply (execution_one spec_step _ _ (Some _)), sp_arrive; [by rewrite Hat, Hi|done].
    + split; [apply jobs_ok_insert; [done|by apply Harriving]|]. exists a. split; [done|]. simpl. by rewrite fmap_insert.
  - pose proof (Hjobs _ _ Hi) as Hj. simpl in Hj. specialize (Hat i). rewrite Hi in Hat. simpl in Hat.
    exists (a, nonces_after j (sv_nonces s), <[i := gate j (sv_nonces s)]> (outside <$> sv_threads s)). split.
    + apply (execution_one spec_step _ _ None). unfold nonces_after, gate.
      destruct (destination _) as [[e ps]|] eqn:Hd; [|by apply sp_public].
      destruct (authenticate wallet _ _ _) as [n' [status code desc|caller digest]] eqn:Hauth; cbn [fst snd];
        [by eapply sp_refuse|by eapply sp_admit].
    + split; [by apply jobs_ok_insert|]. exists a. split; [done|]. simpl. by rewrite fmap_insert, (serve_nonces j _ _ a).
  - pose proof (Hjobs _ _ Hi) as Hj. simpl in Hj. specialize (Hat i). rewrite Hi in Hat.
    destruct (job_performs j (sv_store s) n a _ i Hj Ha Hat (sv_nonces s)) as (a' & Hr & Hp). eexists. split.
    + by apply (execution_one spec_step _ _ None).
    + split; [by apply jobs_ok_insert|]. exists a'. split; [done|]. simpl. by rewrite fmap_insert.
  - specialize (Hat i). rewrite Hi in Hat. eexists. split.
    + apply (execution_one spec_step _ _ (Some _)), sp_answer. exact Hat.
    + split; [apply jobs_ok_insert; [done|exact (Hjobs _ _ Hi)]|]. exists a. split; [done|]. simpl. by rewrite fmap_insert.
Qed.


(** * Replays *)

Definition svc_ok (s : service) : Prop := jobs_ok s /\ exists a, refines (sv_store s) a.

Lemma svc_step_ok s l s' : svc_step s l s' -> svc_ok s -> svc_ok s'.
Proof.
  intros Hstep [Hj [a Ha]].
  destruct (svc_simulation s l s' (a, sv_nonces s, outside <$> sv_threads s)) as (t & _ & Hj' & a' & Ha' & _);
    [split; [done|by exists a]|done|]. split; [done|by exists a'].
Qed.

(** What a request behind the gate found there. *)
Definition found (t : svc_thread) : option (job * NSt) :=
  match t with Arrived _ => None | Gated j n | Performed j n _ | Answered j n _ => Some (j, n) end.

Definition answer_of (t : svc_thread) : option response :=
  match t with Performed _ _ rs | Answered _ _ rs => Some rs | _ => None end.

Definition granted (j : job) (n : NSt) : Prop :=
  destination (jb_request j) <> None /\ admitted (authenticate wallet (jb_request j) (jb_times j) n).2 = true.

(** A request refused at an endpoint is told so. *)
Lemma refused_answer j n st :
  job_ok j -> destination (jb_request j) <> None -> ~ granted j n ->
  rs_status (w_resp (serve_job j st n)) = Some 401 \/ rs_status (w_resp (serve_job j st n)) = Some 500.
Proof.
  intros Hj Hd Hg. unfold granted in Hg. destruct (destination (jb_request j)) as [[e ps]|] eqn:Ed; [|done].
  pose proof (destination_reaches d pub _ _ _ (not_health j _ Hj Ed) Ed) as Hreach.
  destruct (authenticate wallet _ _ n) as [n' [status code desc|caller digest]] eqn:Hauth; [|by destruct Hg].
  destruct (serve_refused d pub h Hpub Hrouter e ps (jb_request j) (jb_body j) (jb_times j) st n n' status code desc Hreach)
    as ((Hr & _) & _); [by apply refused_status in Hauth; lia|done|].
  unfold serve_job. rewrite Hr. apply refused_status in Hauth as [-> | ->]; [by left|by right].
Qed.

Section replay.
(** A proof, as a header value, and the requests that present it. *)
Context (hv : string) (p : Proof).
Hypothesis Hproof : Decode hv = Ok p.
(** The clock of the nonce store has not passed its expiry. *)
Hypothesis Htime : forall j, arriving j -> t_nonce (jb_times j) <= time_UnixMilli (ExpiresAt p).

Definition presents (j : job) : Prop := Header_Get (jb_request j) Header = hv.
Definition spent (n : NSt) : Prop := remembers n (AuthProof.Nonce p) (time_UnixMilli (ExpiresAt p)).

Record replay_ok (s : service) : Prop := {
  rp_service : svc_ok s;
  rp_arrived i t : sv_threads s !! i = Some t -> arriving (job_of t);
  rp_spent i t j n : sv_threads s !! i = Some t -> found t = Some (j, n) -> presents j -> granted j n -> spent (sv_nonces s);
  rp_single i1 t1 j1 n1 i2 t2 j2 n2 :
    sv_threads s !! i1 = Some t1 -> found t1 = Some (j1, n1) -> presents j1 -> granted j1 n1 ->
    sv_threads s !! i2 = Some t2 -> found t2 = Some (j2, n2) -> presents j2 -> granted j2 n2 -> i1 = i2;
  rp_answered i t j n rs :
    sv_threads s !! i = Some t -> found t = Some (j, n) -> answer_of t = Some rs ->
    destination (jb_request j) <> None -> rs_status rs <> Some 401 -> rs_status rs <> Some 500 -> granted j n;
}.

(** A request that passes the gate finds its nonce unspent, and leaves it spent. *)
Lemma gate_spends j n :
  presents j -> arriving j -> granted j n -> ~ spent n /\ spent (nonces_after j n).
Proof.
  intros Hp Ha [Hd Hg]. unfold nonces_after. destruct (destination _) as [x|]; [|done].
  destruct (authenticate wallet _ _ n) as [n' dec] eqn:E. cbn [fst snd] in *.
  apply authenticate_store in E as [[_ E]|(q & Hq & res & Ec & Hres)]; [congruence|].
  unfold presents in Hp. rewrite Hp in Hq. assert (q = p) as -> by congruence. specialize (Hres Hg). subst res. split.
  - intros Hs. exact (Consume_refuses _ _ _ _ _ _ _ Ec Hs (Htime _ Ha) eq_refl).
  - exact (Consume_true _ _ _ _ _ Ec).
Qed.

Lemma gate_keeps j n : arriving j -> spent n -> spent (nonces_after j n).
Proof.
  intros Ha Hs. unfold nonces_after. destruct (destination _); [|done].
  destruct (authenticate wallet _ _ n) as [n' dec] eqn:E. cbn [fst].
  apply authenticate_store in E as [[-> _]|(q & _ & res & Ec & _)]; [done|].
  eapply Consume_keeps; [exact Ec|exact Hs|by apply Htime].
Qed.

(** A thread that moves on behind the gate, or had not come to it. *)
Lemma replay_move s s' i t t' :
  replay_ok s -> svc_ok s' -> sv_nonces s' = sv_nonces s -> sv_threads s' = <[i := t']> (sv_threads s) ->
  sv_threads s !! i = t -> (match t with Some t0 => found t' = found t0 /\ job_of t' = job_of t0 | None => found t' = None end) ->
  arriving (job_of t') ->
  (forall j n rs, found t' = Some (j, n) -> answer_of t' = Some rs -> destination (jb_request j) <> None ->
     rs_status rs <> Some 401 -> rs_status rs <> Some 500 -> granted j n) ->
  replay_ok s'.
Proof.
  intros [H1 H2 H3 H4 H5] Hok Hn Hts Hi Hf Ha Hans.
  assert (forall k u j n, sv_threads s' !! k = Some u -> found u = Some (j, n) ->
    exists u0, sv_threads s !! k = Some u0 /\ found u0 = Some (j, n)) as Hback.
  { intros k u j n. rewrite Hts, lookup_insert. case_decide as E; [|eauto]. subst k. intros [= <-] Hu.
    destruct t as [t0|]; [|congruence]. exists t0. split; [done|]. destruct Hf. congruence. }
  split; [done|..].
  - intros k u. rewrite Hts, lookup_insert. case_decide; [by intros [= <-]|apply H2].
  - intros k u j n Hk Hu. rewrite Hn. destruct (Hback _ _ _ _ Hk Hu) as (u0 & ? & ?). by eapply H3.
  - intros k1 u1 j1 n1 k2 u2 j2 n2 Hk1 Hu1 Hp1 Hg1 Hk2 Hu2.
    destruct (Hback _ _ _ _ Hk1 Hu1) as (v1 & ? & ?). destruct (Hback _ _ _ _ Hk2 Hu2) as (v2 & ? & ?). by eapply H4.
  - intros k u j n rs. rewrite Hts, lookup_insert. case_decide; [intros [= <-]; apply Hans|apply H5].
Qed.

Lemma replay_step s l s' : svc_step s l s' -> replay_ok s -> replay_ok s'.
Proof.
  intros Hstep Hok. pose proof (svc_step_ok _ _ _ Hstep (rp_service _ Hok)) as Hok'.
  destruct Hstep as [s i j Hi Hj|s i j Hi|s i j n Hi|s i j n rs Hi].
  - by eapply (replay_move s _ i None (Arrived j)).
  - pose proof Hok as [[Hjobs [a Ha]] H2 H3 H4 H5]. pose proof (H2 _ _ Hi) as Harr. simpl in Harr.
    assert (w_nonces (serve_job j (sv_store s) (sv_nonces s)) = nonces_after j (sv_nonces s)) as En.
    { eapply serve_nonces; [exact (Hjobs _ _ Hi)|exact Ha]. }
    set (t' := Gated j (sv_nonces s)) in *.
    assert (forall k u j' n', sv_threads s !! k = Some u -> found u = Some (j', n') -> presents j' -> granted j' n' ->
      presents j -> granted j (sv_nonces s) -> False) as Hno.
    { intros k u j' n' Hk Hu Hp Hg Hpj Hgj. destruct (gate_spends j _ Hpj Harr Hgj) as [Hns _].
      by eapply Hns, (H3 k). }
    split; [done|..]; simpl; rewrite ?En.
    + intros k u. rewrite lookup_insert. case_decide; [by intros [= <-]|apply H2].
    + intros k u j' n'. rewrite lookup_insert. case_decide.
      * intros [= <-] [= <- <-] Hp Hg. by apply (gate_spends j).
      * intros Hk Hu Hp Hg. apply gate_keeps; [done|]. by eapply H3.
    + intros k1 u1 j1 n1 k2 u2 j2 n2. rewrite !lookup_insert. repeat case_decide; subst; try done.
      * intros [= <-] [= <- <-] Hp Hg Hk2 Hu2 Hp2 Hg2. destruct (Hno _ _ _ _ Hk2 Hu2 Hp2 Hg2 Hp Hg).
      * intros Hk1 Hu1 Hp1 Hg1 [= <-] [= <- <-] Hp Hg. destruct (Hno _ _ _ _ Hk1 Hu1 Hp1 Hg1 Hp Hg).
      * apply H4.
    + intros k u j' n' rs. rewrite lookup_insert. case_decide; [by intros [= <-]|apply H5].
  - eapply (replay_move s _ i (Some (Gated j n)) (Performed j n _)); try done.
    + exact (rp_arrived _ Hok _ _ Hi).
    + intros j' n' rs [= <- <-] [= <-] Hd H401 H500. 
      destruct (decide (admitted (authenticate wallet (jb_request j) (jb_times j) n).2 = true)) as [Hg|Hg]; [by split|].
      destruct (refused_answer j n (sv_store s) (proj1 (rp_service _ Hok) _ _ Hi) Hd) as [E|E]; [by intros [_ ?]|done..].
  - eapply (replay_move s _ i (Some (Performed j n rs)) (Answered j n rs)); try done.
    + exact (rp_arrived _ Hok _ _ Hi).
    + intros j' n' rs'. apply (rp_answered _ Hok i (Performed j n rs) j' n' rs' Hi).
Qed.

(** What the history says of the threads. *)
Definition witnessed (e : event) (s : service) : Prop :=
  match e with
  | Arrive i j => exists t, sv_threads s !! i = Some t /\ job_of t = j
  | Answer i rs => exists t, sv_threads s !! i = Some t /\ answer_of t = Some rs /\ found t <> None
  end.
Lemma witnessed_insert e s st n i t t' :
  sv_threads s !! i = Some t -> job_of t' = job_of t -> (forall rs, answer_of t = Some rs -> answer_of t' = Some rs) ->
  found t' <> None -> witnessed e s -> witnessed e (mkService st n (<[i := t']> (sv_threads s))).
Proof.
  intros Hi Hj Ha Hf. destruct e as [k j|k rs]; simpl; rewrite lookup_insert; case_decide as E; try done; subst k.
  - intros (u & Hu & Hk). exists t'. split; [done|]. congruence.
  - intros (u & Hu & Hk & _). exists t'. split; [done|]. split; [|done]. apply Ha. congruence.
Qed.

Lemma witnessed_step s l s' :
  svc_step s l s' -> (forall e, l = Some e -> witnessed e s') /\ (forall e, witnessed e s -> witnessed e s').
Proof.
  intros Hstep. destruct Hstep as [s i j Hi Hj|s i j Hi|s i j n Hi|s i j n rs Hi]; (split; [intros e [=]; subst|intros e]).
  - exists (Arrived j). split; [apply lookup_insert_eq|done].
  - destruct e as [k j'|k rs]; simpl; rewrite lookup_insert; case_decide as E; try done; subst k; intros (u & Hu & _); congruence.
  - by eapply witnessed_insert.
  - by eapply witnessed_insert.
  - exists (Answered j n rs). split; [apply lookup_insert_eq|done].
  - by eapply witnessed_insert.
Qed.
End replay.

(** C6. Replays among concurrent requests. While the clock of the nonce
    store has not passed the expiry of a proof, of all the requests to
    endpoints that present it, at any time and overtaking one another in any
    way, at most one gets an answer other than the 401 of a refusal or a 500. *)
Theorem service_replay hv p st n a hs s :
  Decode hv = Ok p -> (forall j, arriving j -> t_nonce (jb_times j) <= time_UnixMilli (ExpiresAt p)) ->
  refines st a -> execution svc_step (started st n) hs s ->
  forall i1 j1 rs1 i2 j2 rs2,
    Arrive i1 j1 ∈ hs -> Answer i1 rs1 ∈ hs -> Arrive i2 j2 ∈ hs -> Answer i2 rs2 ∈ hs ->
    destination (jb_request j1) <> None -> Header_Get (jb_request j1) Header = hv ->
    destination (jb_request j2) <> None -> Header_Get (jb_request j2) Header = hv ->
    rs_status rs1 <> Some 401 -> rs_status rs1 <> Some 500 ->
    rs_status rs2 <> Some 401 -> rs_status rs2 <> Some 500 -> i1 = i2.
Proof.
  intros Hp Ht Ha He.
  assert (replay_ok hv p (started st n)) as H0.
  { split; try (intros; simpl in *; by rewrite lookup_empty in *). split; [intros i t; simpl; by rewrite lookup_empty|by exists a]. }
  destruct (execution_invariant svc_step (replay_ok hv p) witnessed) with (s1 := started st n) (h := hs) (s2 := s)
    as (Hok & Hh & _); [|done|done|].
  { intros s1 l s2 Hs Hok. split; [by eapply replay_step|by apply witnessed_step]. }
  intros i1 j1 rs1 i2 j2 rs2 A1 B1 A2 B2 Hd1 Hh1 Hd2 Hh2 H11 H12 H21 H22.
  assert (forall i j rs, Arrive i j ∈ hs -> Answer i rs ∈ hs -> destination (jb_request j) <> None ->
    rs_status rs <> Some 401 -> rs_status rs <> Some 500 ->
    exists t n, sv_threads s !! i = Some t /\ found t = Some (j, n) /\ granted j n) as Hgr.
  { intros i j rs (t & Hi & Hj)%Hh (t' & Hi' & Hans & Hf)%Hh Hd H401 H500. rewrite Hi in Hi'. injection Hi' as <-.
    destruct (found t) as [[j' n']|] eqn:Ef; [|done]. assert (j' = j) as -> by (destruct t; simpl in *; congruence).
    exists t, n'. split; [done|]. split; [done|]. by eapply rp_answered. }
  destruct (Hgr i1 j1 rs1) as (t1 & n1 & T1 & F1 & G1); [done..|].
  destruct (Hgr i2 j2 rs2) as (t2 & n2 & T2 & F2 & G2); [done..|].
  by eapply (rp_single hv p s Hok i1 t1 j1 n1 i2 t2 j2 n2).
Qed.

End service.
