(* ===== verification/PostgresStore.v ===== *)
(** [internal/blobstore/postgres.go]: the database [BlobStore].  The two
    tables are maps from their primary keys; each SQL statement is a function
    on them, under the statement's arguments; the operations run the
    statements in the code's order, in the code's transactions, over a
    [session] whose every round trip may fail. *)
From stdpp Require Import sorting.
From S2P Require Import Prelude GoStrings GoError Sha256 GoIO BlobStore Sql.
Local Open Scope Z_scope.
Local Open Scope sql_scope.

#[global] Instance BlobKey_countable : Countable BlobKey.
Proof.
  refine (inj_countable' (fun k => (Pseudonym k, DeviceID k, Generation k, Seq k))
    (fun '(p, d, g, s) => mkBlobKey p d g s) _). by intros [].
Defined.

(** * The server

    What depends on the database's encoding and collation: the texts a TEXT
    value may hold, and the order of [ORDER BY device_id]. *)
Class PgServer := {
  text_valid : string -> bool;
  collate_le : relation string;
  collate_le_dec :: RelDecision collate_le;
}.

(** Hexadecimal names are valid in every encoding and sort by their digits in
    every collation; texts are compared by a total order. *)
Class PgServerLaws (pg : PgServer) := {
  text_valid_name s : name_ok s -> text_valid s = true;
  collate_trans :: Transitive collate_le;
  collate_total :: Total collate_le;
  collate_antisymm :: AntiSymm (=) collate_le;
  collate_name s t : name_ok s -> name_ok t -> (collate_le s t <-> String.le s t);
}.

(** * Schema *)

(** How much of a blob one [blob_chunks] row holds. *)
Definition ChunkBytes : Z := Z.shiftl 1 20.

(** The length of the upload buffer, [make([]byte, ChunkBytes)]. *)
Definition chunk_len : nat := Z.to_nat ChunkBytes.

Record log_row := mkLogRow {
  lr_sha256 : string;
  lr_prev_sha256 : option string;
  lr_size : Z;
  lr_created_at : Z;
}.

Record tables := mkTables {
  blob_log : gmap BlobKey log_row;
  blob_chunks : gmap (BlobKey * Z) bytes;
}.

Definition PostgresStore : Type := session tables.

(** The schema a boot finds: [blob_log] may be the table of the pre-streaming
    layout, and either table may be missing. *)
Inductive log_table :=
  | PreStreaming
  | Current (rows : gmap BlobKey log_row).

Record schema := mkSchema {
  sc_blob_log : option log_table;
  sc_blob_chunks : option (gmap (BlobKey * Z) bytes);
}.

Definition Migrations : list (schema -> result (schema * unit)) :=
  [ fun sc => Ok (match sc_blob_log sc with
                  | Some PreStreaming => mkSchema None (sc_blob_chunks sc)
                  | _ => sc
                  end, ());
    fun sc => Ok (match sc_blob_log sc with
                  | None => mkSchema (Some (Current ∅)) (sc_blob_chunks sc)
                  | Some _ => sc
                  end, ());
    fun sc => Ok (sc, ());
    fun sc => Ok (match sc_blob_chunks sc with
                  | None => mkSchema (sc_blob_log sc) (Some ∅)
                  | Some _ => sc
                  end, ()) ].

(** [sql.Open] only fails on a malformed DSN; [dsn] is its outcome. *)
Definition NewPostgresStore (dsn : option error) : DB schema unit := fun s =>
  match dsn with
  | Some e => (s, Err (Wrapf "open database: " e ""))
  | None =>
      match db_call s with
      | (s, Err e) => (s, Err (Wrapf "ping database: " e ""))
      | (s, Ok _) => migrate "migration " 0 Migrations s
      end
  end.

Section postgres.
Context {pg : PgServer}.

(** * Statements *)

Definition sql_args (texts : list string) (ints : list Z) : result unit :=
  if negb (forallb text_valid texts) then
    Err (PqError "22021" "invalid byte sequence for encoding")
  else if negb (forallb int4 ints) then
    Err (PqError "22003" "value out of range for type integer")
  else Ok ().

Definition key_args (k : BlobKey) : result unit :=
  sql_args [Pseudonym k; DeviceID k] [Generation k; Seq k].

Definition duplicate_key : error :=
  PqError unique_violation "duplicate key value violates unique constraint".

Definition log_rows_where (P : BlobKey -> bool) (t : tables) : list (BlobKey * log_row) :=
  filter (fun kr => P kr.1 = true) (map_to_list (blob_log t)).

Definition of_stream (p d : string) (g : Z) (k : BlobKey) : bool :=
  bool_decide (stream_of k = (p, d, g)).

Definition of_device (p d : string) (k : BlobKey) : bool :=
  bool_decide (Pseudonym k = p) && bool_decide (DeviceID k = d).

Definition of_account (p : string) (k : BlobKey) : bool := bool_decide (Pseudonym k = p).

(** [SELECT MAX(seq) FROM blob_log WHERE pseudonym=$1 AND device_id=$2 AND generation=$3] *)
Definition sql_head (p d : string) (g : Z) (t : tables) : result (option Z) :=
  res_bind (sql_args [p; d] [g]) (fun _ =>
  Ok (sql_max ((fun kr => Seq kr.1) <$> log_rows_where (of_stream p d g) t))).

(** [INSERT INTO blob_chunks ... VALUES ($1,$2,$3,$4,$5,$6)] *)
Definition sql_insert_chunk (k : BlobKey) (idx : Z) (chunk : bytes) (t : tables) : result (tables * unit) :=
  res_bind (key_args k) (fun _ =>
  res_bind (sql_args [] [idx]) (fun _ =>
  match blob_chunks t !! (k, idx) with
  | Some _ => Err duplicate_key
  | None => Ok (mkTables (blob_log t) (<[(k, idx) := chunk]> (blob_chunks t)), ())
  end)).

(** [nullable(prev)], the argument of a nullable column. *)
Definition nullable (s : string) : option string := if bool_decide (s = "") then None else Some s.

(** [INSERT INTO blob_log ... VALUES ($1,$2,$3,$4,$5,$6,$7)]; [now] is the
    [DEFAULT now()] of [created_at]. *)
Definition sql_insert_log (now : Z) (k : BlobKey) (sha : string) (prev : option string) (size : Z)
    (t : tables) : result (tables * unit) :=
  res_bind (key_args k) (fun _ =>
  res_bind (sql_args (sha :: option_list prev) []) (fun _ =>
  match blob_log t !! k with
  | Some _ => Err duplicate_key
  | None => Ok (mkTables (<[k := mkLogRow sha prev size now]> (blob_log t)) (blob_chunks t), ())
  end)).

(** [SELECT size FROM blob_log WHERE pseudonym=$1 AND ... AND seq=$4] *)
Definition sql_size (k : BlobKey) (t : tables) : result Z :=
  res_bind (key_args k) (fun _ =>
  match blob_log t !! k with Some r => Ok (lr_size r) | None => Err ErrNoRows end).

Definition idx_le (x y : Z * bytes) : Prop := x.1 <= y.1.
#[global] Instance idx_le_dec : RelDecision idx_le.
Proof. intros x y. unfold idx_le. apply _. Defined.

(** [SELECT chunk FROM blob_chunks WHERE ... ORDER BY idx ASC] *)
Definition sql_chunks (k : BlobKey) (t : tables) : result (list bytes) :=
  res_bind (key_args k) (fun _ =>
  Ok (snd <$> merge_sort idx_le
    ((fun kc => (kc.1.2, kc.2)) <$> filter (fun kc => kc.1.1 = k) (map_to_list (blob_chunks t))))).

(** [SELECT seq, sha256, COALESCE(prev_sha256,''), size, created_at ... LIMIT $5],
    scanned into an [Entry]. *)
Definition scan_entry (kr : BlobKey * log_row) : Entry :=
  mkEntry (Seq kr.1) (lr_sha256 kr.2) (default "" (lr_prev_sha256 kr.2)) (lr_size kr.2)
    (lr_created_at kr.2).

Definition sql_index (p d : string) (g from limit : Z) (t : tables) : result (list Entry) :=
  res_bind (sql_args [p; d] [g; from]) (fun _ =>
  if limit <? 0 then Err (PqError "2201W" "LIMIT must not be negative")
  else Ok (take (Z.to_nat limit) (merge_sort entry_le (scan_entry <$>
    filter (fun kr => from <= Seq kr.1) (log_rows_where (of_stream p d g) t))))).

(** The order of [ORDER BY device_id, generation, seq DESC]. *)
Definition manifest_le (x y : BlobKey * log_row) : Prop :=
  if decide (DeviceID x.1 = DeviceID y.1) then
    if decide (Generation x.1 = Generation y.1) then Seq y.1 <= Seq x.1
    else Generation x.1 <= Generation y.1
  else collate_le (DeviceID x.1) (DeviceID y.1).
#[global] Instance manifest_le_dec : RelDecision manifest_le.
Proof. intros x y. unfold manifest_le. repeat destruct (decide _); apply _. Defined.

(** [DISTINCT ON (device_id, generation)]: the first row of each run. *)
Definition same_group (x y : BlobKey * log_row) : Prop :=
  DeviceID x.1 = DeviceID y.1 /\ Generation x.1 = Generation y.1.
#[global] Instance same_group_dec : RelDecision same_group.
Proof. intros x y. unfold same_group. apply _. Defined.

Fixpoint distinct_on (last : option (BlobKey * log_row)) (l : list (BlobKey * log_row))
    : list (BlobKey * log_row) :=
  match l with
  | [] => []
  | x :: l' =>
      match last with
      | Some y => if decide (same_group y x) then distinct_on last l' else x :: distinct_on (Some x) l'
      | None => x :: distinct_on (Some x) l'
      end
  end.

(** A summary, with the window functions [SUM(size)] and [MAX(created_at)]
    over its partition; scanning a sum beyond 64 bits fails. *)
Definition scan_summary (rows : list (BlobKey * log_row)) (x : BlobKey * log_row) : result DeviceSummary :=
  let partition := filter (same_group x) rows in
  let total := zsum (fun kr => lr_size kr.2) partition in
  if bool_decide (in64 total) then
    Ok (mkDeviceSummary (DeviceID x.1) (Generation x.1) (Seq x.1) (lr_sha256 x.2) total
          (default (lr_created_at x.2) (sql_max ((fun kr => lr_created_at kr.2) <$> partition))))
  else Err (External "converting driver.Value type []uint8 to a int64: value out of range").

Definition sql_manifest (p : string) (t : tables) : result (list (result DeviceSummary)) :=
  res_bind (sql_args [p] []) (fun _ =>
  let rows := log_rows_where (of_account p) t in
  Ok (scan_summary rows <$> distinct_on None (merge_sort manifest_le rows))).

(** [SELECT MAX(generation) FROM blob_log WHERE pseudonym=$1 AND device_id=$2] *)
Definition sql_newest (p d : string) (t : tables) : result (option Z) :=
  res_bind (sql_args [p; d] []) (fun _ =>
  Ok (sql_max ((fun kr => Generation kr.1) <$> log_rows_where (of_device p d) t))).

(** [DELETE FROM blob_chunks WHERE ...] and [DELETE FROM blob_log WHERE ...],
    the latter with its number of rows. *)
Definition sql_delete_chunks (args : result unit) (P : BlobKey -> bool) (t : tables) : result (tables * unit) :=
  res_bind args (fun _ =>
  Ok (mkTables (blob_log t) (filter (fun kc => P kc.1.1 = false) (blob_chunks t)), ())).

Definition sql_delete_log (args : result unit) (P : BlobKey -> bool) (t : tables) : result (tables * Z) :=
  res_bind args (fun _ =>
  Ok (mkTables (filter (fun kr => P kr.1 = false) (blob_log t)) (blob_chunks t),
      Z.of_nat (length (log_rows_where P t)))).

(** * Append *)

(** [asSeqConflict], on an error that is not nil. *)
Definition asSeqConflict (e : error) : error :=
  if bool_decide (AsPqCode e = Some unique_violation)
  then Wrapf "" ErrSeqConflict ": another append holds this sequence"
  else e.

Section append.
Context {R : Type} `{Reader R}.

(** The loop that streams the body through the buffer: it returns the bytes
    hashed and the size. *)
Fixpoint pg_chunks (fuel : nat) (k : BlobKey) (idx : Z) (hasher : bytes) (size : Z)
    (s : PostgresStore) (body : R) : PostgresStore * R * result (bytes * Z) :=
  match fuel with
  | O => (s, body, Err out_of_fuel)
  | S f =>
      let '(body, (buf, readErr)) := ReadFull body chunk_len in
      let n := Z.of_nat (length buf) in
      let hasher := if 0 <? n then hasher ++ buf else hasher in
      let size := if 0 <? n then wrap64 (size + n) else size in
      let '(s, ins) := if 0 <? n then db_exec (sql_insert_chunk k idx buf) s else (s, Ok ()) in
      match ins with
      | Err e => (s, body, Err (asSeqConflict e))
      | Ok _ =>
          match readErr with
          | Some e =>
              if Is e EOF || Is e ErrUnexpectedEOF then (s, body, Ok (hasher, size))
              else (s, body, Err (read_body_error e))
          | None => pg_chunks f k (wrap64 (idx + 1)) hasher size s body
          end
      end
  end.

(** The work of the transaction. *)
Definition pg_append_work (now : Z) (k : BlobKey) (prev : string) (body : R) (s : PostgresStore)
    : PostgresStore * R * result (string * Z) :=
  match db_query_row (sql_head (Pseudonym k) (DeviceID k) (Generation k)) s with
  | (s, Err e) => (s, body, Err e)
  | (s, Ok head) =>
      let want := match head with Some h => wrap64 (h + 1) | None => 1 end in
      if negb (bool_decide (Seq k = want)) then (s, body, Err (conflict_error want (Seq k)))
      else
        match pg_chunks (S (rd_fuel body)) k 0 [] 0 s body with
        | (s, body, Err e) => (s, body, Err e)
        | (s, body, Ok (hasher, size)) =>
            if bool_decide (size = 0) then (s, body, Err ErrEmptyBlob)
            else
              let sha := sha256_hex hasher in
              match db_exec (sql_insert_log now k sha (nullable prev) size) s with
              | (s, Err e) => (s, body, Err (asSeqConflict e))
              | (s, Ok _) => (s, body, Ok (sha, size))
              end
        end
  end.

Definition pg_Append (now : Z) (s : PostgresStore) (k : BlobKey) (prev : string) (body : R)
    : PostgresStore * R * result (string * Z) :=
  transact body (pg_append_work now k prev body) asSeqConflict s.

End append.

(** * Get *)

(** [chunkReader]: the rows still to come, and what [rows.Err()] says after
    the last one.  A scan into a [[]byte] does not fail. *)
Record chunkReader := mkChunkReader {
  cr_rows : list bytes;
  cr_rows_err : option error;
  cr_buf : bytes;
  cr_err : option error;
}.

(** The loop over empty buffers; it ends with a buffer or an error. *)
Fixpoint chunk_fill (rows : list bytes) (rows_err : option error) (buf : bytes) (err : option error)
    : chunkReader :=
  match buf with
  | _ :: _ => mkChunkReader rows rows_err buf err
  | [] =>
      match err with
      | Some e => mkChunkReader rows rows_err [] (Some e)
      | None =>
          match rows with
          | [] => mkChunkReader [] rows_err [] (Some (default (Sentinel EOF) rows_err))
          | c :: rows' => chunk_fill rows' rows_err c None
          end
      end
  end.

Definition chunkReader_Read (r : chunkReader) (n : nat) : chunkReader * (bytes * option error) :=
  let r := chunk_fill (cr_rows r) (cr_rows_err r) (cr_buf r) (cr_err r) in
  match cr_buf r with
  | [] => (r, ([], cr_err r))
  | _ => (mkChunkReader (cr_rows r) (cr_rows_err r) (drop n (cr_buf r)) (cr_err r),
          (take n (cr_buf r), None))
  end.

(** The transaction of the snapshot stays open until the reader is closed;
    the rows do not change under it. *)
Definition pg_Get (s : PostgresStore) (k : BlobKey) : PostgresStore * result (chunkReader * Z) :=
  match db_call s with
  | (s, Err e) => (s, Err e)
  | (s, Ok _) =>
      match db_query_row (sql_size k) s with
      | (s, Err e) => (s, Err (if Is e ErrNoRows then Sentinel ErrNotFound else e))
      | (s, Ok size) =>
          match db_query (sql_chunks k) s with
          | (s, Err e) => (s, Err e)
          | (s, Ok (rows, rows_err)) => (s, Ok (mkChunkReader rows rows_err [] None, size))
          end
      end
  end.

(** * Index, Manifest *)

(** [for rows.Next() { rows.Scan(...) }; return out, rows.Err()] *)
Fixpoint scan_rows {A} (rows : list (result A)) (rows_err : option error) (out : list A) : result (list A) :=
  match rows with
  | [] => match rows_err with Some e => Err e | None => Ok out end
  | Ok a :: rows' => scan_rows rows' rows_err (out ++ [a])
  | Err e :: _ => Err e
  end.

Definition pg_Index (p d : string) (g from limit : Z) : DB tables (list Entry) :=
  query (rows, err) := db_query (sql_index p d g from limit) in
  fun s => (s, scan_rows (Ok <$> rows) err []).

Definition pg_Manifest (p : string) : DB tables (list DeviceSummary) :=
  query (rows, err) := db_query (sql_manifest p) in
  fun s => (s, scan_rows rows err []).

(** * Deletion *)

(** [res.RowsAffected()] does not fail: the driver has the count already. *)
Definition pg_delete_work (args : result unit) (P : BlobKey -> bool) (s : PostgresStore)
    : PostgresStore * unit * result Z :=
  let '(s, r) := (query _ := db_exec (sql_delete_chunks args P) in db_exec (sql_delete_log args P)) s in
  (s, (), r).

Definition pg_delete (args : result unit) (P : BlobKey -> bool) (s : PostgresStore)
    : PostgresStore * result Z :=
  let '(s, _, res) := transact () (pg_delete_work args P) id s in
  (s, res).

Definition pg_DeleteGeneration (p d : string) (g : Z) : DB tables Z :=
  query newest := db_query_row (sql_newest p d) in
  match newest with
  | Some n =>
      if wrap64 (n - RetainedGenerations) <? g then db_fail (guard_error g n)
      else pg_delete (sql_args [p; d] [g]) (of_stream p d g)
  | None => pg_delete (sql_args [p; d] [g]) (of_stream p d g)
  end.

Definition pg_DeleteAccount (p : string) : DB tables Z :=
  pg_delete (sql_args [p] []) (of_account p).

Definition pg_Ping : DB tables unit := db_call.

End postgres.

#[export] Instance chunkReader_Reader : Reader chunkReader := {|
  rd := chunkReader_Read;
  rd_fuel r := (length (cr_buf r) + sum_list ((fun c => S (length c)) <$> cr_rows r))%nat;
|}.

(** Once an error was reported it stays; before that the buffer and the rows
    are still to come. *)
Definition chunk_end (r : chunkReader) : error :=
  default (default (Sentinel EOF) (cr_rows_err r)) (cr_err r).

Definition chunk_content (r : chunkReader) : bytes :=
  cr_buf r ++ match cr_err r with Some _ => [] | None => mjoin (cr_rows r) end.

#[export] Instance chunkReader_Spec : ReaderSpec chunkReader := {|
  rd_err := chunk_end;
  rd_bytes := chunk_content;
|}.

#[export] Instance PostgresStore_BlobStore `{PgServer} : BlobStore PostgresStore := {|
  BlobReader := chunkReader;
  Append := fun R rr => pg_Append;
  Get := pg_Get;
  Index := fun s p d g from limit => pg_Index p d g from limit s;
  Manifest := fun s p => pg_Manifest p s;
  DeleteGeneration := fun s p d g => pg_DeleteGeneration p d g s;
  DeleteAccount := fun s p => pg_DeleteAccount p s;
  Ping := pg_Ping;
|}.
