(* ===== verification/PostgresFacts.v ===== *)
(** The tables of the database store against the abstract log: a blob cut into
    its chunk rows, the reader that streams them back, and what each SQL
    statement sees of the log. *)
From stdpp Require Import sorting.
From S2P Require Import Prelude GoStrings GoError Sha256 GoIO BlobStore LogFacts Trace Sql PostgresStore.
Local Open Scope Z_scope.

(** * Blobs as chunks *)

Lemma chunk_len_Z : Z.of_nat chunk_len = 2 ^ 20.
Proof. unfold chunk_len. apply Z2Nat.id. done. Qed.

Lemma chunk_len_pos : (0 < chunk_len)%nat.
Proof. pose proof chunk_len_Z. lia. Qed.

#[global] Opaque chunk_len.

(** Arithmetic with the size of a chunk. *)
Ltac chunk_lia := pose proof chunk_len_Z; pose proof chunk_len_pos; lia.

Fixpoint chunks_from (fuel : nat) (data : bytes) : list bytes :=
  match fuel, data with
  | S f, _ :: _ => take chunk_len data :: chunks_from f (drop chunk_len data)
  | _, _ => []
  end.

(** The content of a blob's rows in [blob_chunks], in the order of [idx]. *)
Definition chunks_of (data : bytes) : list bytes := chunks_from (length data) data.

Lemma chunks_from_fuel f f' data :
  (length data <= f)%nat -> (length data <= f')%nat -> chunks_from f data = chunks_from f' data.
Proof.
  revert f' data. induction f as [|f IH]; intros f' data Hf Hf'.
  - destruct data; [by destruct f'|simpl in Hf; lia].
  - destruct data as [|c data]; [by destruct f'|]. destruct f' as [|f']; [simpl in Hf'; lia|].
    simpl. f_equal. pose proof chunk_len_pos. apply IH; rewrite length_drop; simpl in *; lia.
Qed.

Lemma chunks_of_nil : chunks_of [] = [].
Proof. done. Qed.

Lemma chunks_of_cons data :
  data <> [] -> chunks_of data = take chunk_len data :: chunks_of (drop chunk_len data).
Proof.
  intros Hd. unfold chunks_of. destruct data as [|c data]; [done|]. cbn [length chunks_from]. f_equal.
  pose proof chunk_len_pos. apply chunks_from_fuel; rewrite length_drop; simpl; lia.
Qed.

(** A full chunk in front, or a last one. *)
Lemma chunks_of_app c data : length c = chunk_len -> chunks_of (c ++ data) = c :: chunks_of data.
Proof.
  intros Hc. pose proof chunk_len_pos. rewrite chunks_of_cons by (intros E%app_nil; destruct c; naive_solver lia).
  rewrite take_app_length', drop_app_length' by done. done.
Qed.

Lemma chunks_of_short c : c <> [] -> (length c <= chunk_len)%nat -> chunks_of c = [c].
Proof. intros Hc Hl. rewrite chunks_of_cons by done. by rewrite take_ge, drop_ge. Qed.

Lemma mjoin_chunks_of data : mjoin (chunks_of data) = data.
Proof.
  remember (length data) as n eqn:Hn. revert data Hn.
  induction n as [n IH] using lt_wf_ind. intros data ->.
  destruct (decide (data = [])) as [->|Hd]; [done|]. rewrite chunks_of_cons, mjoin_cons by done.
  rewrite (IH (length (drop chunk_len data))); [apply take_drop| |done].
  pose proof chunk_len_pos. rewrite length_drop. destruct data; [done|]. simpl. lia.
Qed.

(** The chunk rows of one blob, from index [idx] on. *)
Fixpoint put_chunks (k : BlobKey) (idx : Z) (cs : list bytes) (m : gmap (BlobKey * Z) bytes)
    : gmap (BlobKey * Z) bytes :=
  match cs with
  | [] => m
  | c :: cs' => put_chunks k (idx + 1) cs' (<[(k, idx) := c]> m)
  end.

Definition lookupZ {A} (l : list A) (i : Z) : option A :=
  if decide (0 <= i) then l !! Z.to_nat i else None.

Lemma lookupZ_cons {A} (x : A) l i : lookupZ (x :: l) i = if decide (i = 0) then Some x else lookupZ l (i - 1).
Proof.
  unfold lookupZ. repeat case_decide; subst; try done; try lia.
  by replace (Z.to_nat i) with (S (Z.to_nat (i - 1))) by lia.
Qed.

Lemma lookupZ_nil {A} i : lookupZ ([] : list A) i = None.
Proof. unfold lookupZ. by case_decide. Qed.

Lemma lookup_put_chunks k idx cs m k' j :
  (forall j, idx <= j -> m !! (k, j) = None) ->
  put_chunks k idx cs m !! (k', j)
  = if decide (k' = k /\ idx <= j) then lookupZ cs (j - idx) else m !! (k', j).
Proof.
  revert idx m. induction cs as [|c cs IH]; intros idx m Hm; simpl.
  - case_decide as Hd; [|done]. destruct Hd as [-> ?]. rewrite lookupZ_nil. by apply Hm.
  - rewrite IH.
    + rewrite lookupZ_cons. destruct (decide (k' = k /\ idx <= j)) as [[-> Hj]|Hn].
      * destruct (decide (j = idx)) as [->|Hne].
        -- rewrite decide_False by (intros []; lia). rewrite decide_True by lia. apply lookup_insert_eq.
        -- rewrite decide_True by (split; [done|lia]). rewrite decide_False by lia. f_equal. lia.
      * rewrite decide_False by naive_solver lia. apply lookup_insert_ne.
        intros [= <- <-]. apply Hn. split; [done|lia].
    + intros j' Hj. rewrite lookup_insert_ne; [apply Hm; lia|]. intros [= <-]. lia.
Qed.

(** * The reader of a blob *)

Definition chunk_fuel (r : chunkReader) : nat :=
  (length (cr_buf r) + sum_list ((fun c => S (length c)) <$> cr_rows r))%nat.

(** Skipping empty buffers changes neither the content nor the end. *)
Lemma chunk_fill_ok rows re buf err :
  let r := mkChunkReader rows re buf err in
  let r' := chunk_fill rows re buf err in
  chunk_end r' = chunk_end r /\ chunk_content r' = chunk_content r /\
  (chunk_fuel r' <= chunk_fuel r)%nat /\
  (cr_buf r' = [] -> cr_err r' = Some (chunk_end r) /\ chunk_content r' = []).
Proof.
  revert buf err. induction rows as [|c rows IH]; intros [|b buf] [e|]; try (by split_and!); simpl.
  destruct (IH c None) as (H1 & H2 & H3 & H4). split_and!; [done|done| |done].
  etrans; [exact H3|]. unfold chunk_fuel. cbn [cr_buf cr_rows length]. csimpl. lia.
Qed.

Lemma chunkReader_Read_ok r r' n bs e :
  chunkReader_Read r n = (r', (bs, e)) ->
  (length bs <= n)%nat /\ (chunk_fuel r' + length bs <= chunk_fuel r)%nat /\
  chunk_end r' = chunk_end r /\ chunk_content r = bs ++ chunk_content r' /\
  match e with
  | Some e' => e' = chunk_end r /\ chunk_content r' = []
  | None => (0 < n)%nat -> (chunk_fuel r' < chunk_fuel r)%nat
  end.
Proof.
  unfold chunkReader_Read. destruct r as [rows re buf err]. cbn [cr_rows cr_rows_err cr_buf cr_err].
  destruct (chunk_fill_ok rows re buf err) as (H1 & H2 & H3 & H4).
  destruct (chunk_fill rows re buf err) as [rows' re' [|b buf'] err']; cbn [cr_rows cr_rows_err cr_buf cr_err] in *.
  - intros [= <- <- <-]. destruct (H4 eq_refl) as [-> H5]. 
    split_and!; [simpl; lia|by rewrite Nat.add_0_r|done|by rewrite <- H2, H5|done|done].
  - intros [= <- <- <-]. unfold chunk_fuel in *. cbn [cr_rows cr_buf] in *. rewrite <- H1, <- H2.
    unfold chunk_end, chunk_content. cbn [cr_rows cr_rows_err cr_buf cr_err].
    rewrite length_take, length_drop. split_and!; [lia..|done| |].
    + by rewrite app_assoc, take_drop.
    + cbn [length] in *. lia.
Qed.

#[export] Instance chunkReader_Laws : ReaderLaws chunkReader.
Proof.
  split; intros r r' n bs; [intros e|intros e|intros Hn|intros e Hn]; intros E;
    destruct (chunkReader_Read_ok _ _ _ _ _ E) as (H1 & H2 & H3 & H4 & H5); try done.
  - split_and!; [by apply H5|done|done].
  - destruct H5 as [-> H5]. split_and!; done.
Qed.

(** * The refinement relation *)

Definition log_row_of (b : ablob) : log_row :=
  mkLogRow (sha256_hex (ab_data b)) (nullable (ab_prev b)) (Z.of_nat (length (ab_data b))) (ab_at b).

Definition tables_refine (t : tables) (a : alog) : Prop :=
  alog_ok a /\
  (forall k, blob_log t !! k = log_row_of <$> blob_at a k) /\
  (forall k i, blob_chunks t !! (k, i) = blob_at a k ≫= fun b => lookupZ (chunks_of (ab_data b)) i).

Definition pg_refines (s : PostgresStore) (a : alog) : Prop :=
  tables_refine (tables_of s) a /\ script_ok (script s).

Lemma default_nullable prev : default "" (nullable prev) = prev.
Proof. unfold nullable. by case_bool_decide; subst. Qed.

#[export] Instance idx_le_trans : Transitive idx_le.
Proof. intros x y z. unfold idx_le. lia. Qed.

#[export] Instance idx_le_total : Total idx_le.
Proof. intros x y. unfold idx_le. lia. Qed.

(** The chunk rows of one key, in the order of [idx]. *)
Lemma sorted_chunks (m : gmap (BlobKey * Z) bytes) k cs :
  (forall i, m !! (k, i) = lookupZ cs i) ->
  snd <$> merge_sort idx_le ((fun kc => (kc.1.2, kc.2)) <$> filter (fun kc => kc.1.1 = k) (map_to_list m)) = cs.
Proof.
  intros Hcs.
  rewrite (merge_sort_sorted idx_le _ (imap (fun i c => (Z.of_nat i, c)) cs)).
  - rewrite fmap_imap. rewrite <- (list_fmap_id cs) at 2. apply (imap_const id).
  - intros x y (i & c & -> & Hi)%elem_of_lookup_imap (j & c' & -> & Hj)%elem_of_lookup_imap.
    unfold idx_le. simpl. intros. assert (i = j) as -> by lia. congruence.
  - apply StronglySorted_imap. intros i j x y Hij. unfold idx_le. simpl. lia.
  - apply NoDup_Permutation.
    + apply NoDup_fmap_2_strong; [|apply NoDup_filter, NoDup_map_to_list].
      intros [[k1 i1] c1] [[k2 i2] c2] [E1 _]%list_elem_of_filter [E2 _]%list_elem_of_filter E. simpl in *. congruence.
    + apply NoDup_alt. intros i j [z c] Hi Hj. rewrite !list_lookup_imap in Hi, Hj.
      apply fmap_Some in Hi as (? & _ & [= -> ->]), Hj as (? & _ & [= E _]). lia.
    + intros [i c]. rewrite list_elem_of_fmap, elem_of_lookup_imap. split.
      * intros ([[k' i'] c'] & [= -> ->] & [Hk Hin%elem_of_map_to_list]%list_elem_of_filter). simpl in *. subst k'.
        rewrite Hcs in Hin. unfold lookupZ in Hin. case_decide; [|done].
        exists (Z.to_nat i'), c'. split; [f_equal; lia|done].
      * intros (j & c' & [= -> ->] & Hj). exists (k, Z.of_nat j, c'). split; [done|].
        apply list_elem_of_filter. split; [done|]. apply elem_of_map_to_list. rewrite Hcs. unfold lookupZ.
        rewrite decide_True by lia. by rewrite Nat2Z.id.
Qed.

Section rows.
Context (t : tables) (a : alog) (Ht : tables_refine t a).

Definition pg_row (kb : BlobKey * ablob) : BlobKey * log_row := (kb.1, log_row_of kb.2).

Lemma pg_rows_perm : map_to_list (blob_log t) ≡ₚ pg_row <$> log_rows a.
Proof.
  destruct Ht as (_ & Hl & _). apply NoDup_Permutation; [apply NoDup_map_to_list| |].
  - apply (NoDup_fmap_1 fst). rewrite <- list_fmap_compose. apply NoDup_log_rows.
  - intros [k r]. rewrite elem_of_map_to_list, Hl, list_elem_of_fmap. split.
    + intros (b & Hb & ->)%fmap_Some. exists (k, b). by rewrite elem_of_log_rows.
    + intros ([k' b] & [= -> ->] & Hb%elem_of_log_rows). by rewrite Hb.
Qed.

(** The rows a statement sees, for a condition on their key. *)
Lemma log_rows_where_perm (P : BlobKey -> bool) :
  log_rows_where P t ≡ₚ pg_row <$> filter (fun kb => P kb.1 = true) (log_rows a).
Proof. unfold log_rows_where. by rewrite pg_rows_perm, filter_fmap. Qed.

Lemma of_stream_perm p d g :
  log_rows_where (of_stream p d g) t ≡ₚ pg_row <$> stream_rows ((p, d, g), log_of a (p, d, g)).
Proof.
  rewrite log_rows_where_perm. apply fmap_Permutation. rewrite <- log_rows_stream.
  apply reflexive_eq, list_filter_iff. intros [k b]. unfold of_stream. simpl. apply bool_decide_eq_true.
Qed.

Lemma head_of_stream p d g :
  sql_max ((fun kr => Seq kr.1) <$> log_rows_where (of_stream p d g) t)
  = match log_of a (p, d, g) with [] => None | l => Some (Z.of_nat (length l)) end.
Proof.
  set (l := log_of a (p, d, g)).
  assert (forall z, z ∈ (fun kr => Seq kr.1) <$> log_rows_where (of_stream p d g) t <->
    1 <= z <= Z.of_nat (length l)) as Hin.
  { intros z. rewrite of_stream_perm, <- list_fmap_compose, list_elem_of_fmap. fold l. split.
    - intros ([k b] & -> & (i & -> & Hi)%elem_of_stream_rows). apply lookup_lt_Some in Hi. simpl in *. lia.
    - intros Hz. destruct (lookup_lt_is_Some_2 l (Z.to_nat (z - 1))) as [b Hb]; [lia|].
      exists (key_in (p, d, g) (Z.to_nat (z - 1)), b). split; [simpl; lia|].
      apply elem_of_stream_rows. eauto. }
  destruct l as [|b l'] eqn:El.
  - pose proof (sql_max_spec ((fun kr => Seq kr.1) <$> log_rows_where (of_stream p d g) t)) as Hs.
    destruct (sql_max _) as [m|]; [|done]. destruct Hs as [Hm%Hin _]. simpl in Hm. lia.
  - apply sql_max_eq; [apply Hin; simpl; lia|]. intros x Hx%Hin. lia.
Qed.

Lemma in_device k b p d : (k, b) ∈ log_rows a -> of_device p d k = true <-> (stream_of k).1 = (p, d).
Proof.
  intros _. unfold of_device, stream_of. simpl. rewrite andb_true_iff, !bool_decide_eq_true. naive_solver.
Qed.

Lemma newest_of_device p d :
  sql_max ((fun kr => Generation kr.1) <$> log_rows_where (of_device p d) t)
  = if decide (generations_of a p d = []) then None else Some (newest_of a p d).
Proof.
  assert (forall z, z ∈ (fun kr => Generation kr.1) <$> log_rows_where (of_device p d) t <->
    z ∈ generations_of a p d) as Hin.
  { intros z. rewrite log_rows_where_perm, <- list_fmap_compose, list_elem_of_fmap, elem_of_generations. split.
    - intros ([k b] & -> & [Hd Hin]%list_elem_of_filter). simpl in *. apply (in_device k b) in Hd; [|done].
      apply elem_of_log_rows, blob_at_Some in Hin as (s & i & -> & (l & Hl & _)%log_of_lookup).
      rewrite stream_of_key_in in Hd. destruct s as [pd g]. simpl in *. subst. by exists l.
    - intros [l Hl]. destruct Ht as (Ha & _). destruct (alog_ok_lookup a _ l Ha Hl) as (_ & Hne & _).
      destruct l as [|b l]; [done|]. exists (key_in (p, d, z) 0, b). split; [done|].
      apply list_elem_of_filter. simpl. assert ((key_in (p, d, z) 0, b) ∈ log_rows a) as Hrow.
      { apply elem_of_log_rows, blob_at_Some. do 2 eexists. split; [done|]. by rewrite (log_of_Some _ _ _ Hl). }
      split; [|done]. by apply (in_device _ b). }
  pose proof (sql_max_spec ((fun kr => Generation kr.1) <$> log_rows_where (of_device p d) t)) as Hs.
  case_decide as Hg.
  - destruct (sql_max _) as [m|]; [|done]. destruct Hs as [Hm%Hin _]. rewrite Hg in Hm.
    by apply not_elem_of_nil in Hm.
  - destruct Ht as (Ha & _). pose proof (newest_of_present a p d Ha Hg) as Hp.
    apply sql_max_eq; [by apply Hin, elem_of_generations|].
    intros x Hx%Hin%elem_of_generations. by apply newest_of_ge.
Qed.

(** The chunks of a blob, in the order the reader gets them. *)
Lemma chunks_of_key k :
  snd <$> merge_sort idx_le
    ((fun kc => (kc.1.2, kc.2)) <$> filter (fun kc => kc.1.1 = k) (map_to_list (blob_chunks t)))
  = match blob_at a k with Some b => chunks_of (ab_data b) | None => [] end.
Proof.
  apply sorted_chunks. intros i. destruct Ht as (_ & _ & Hc). rewrite Hc.
  destruct (blob_at a k); [done|]. simpl. by rewrite lookupZ_nil.
Qed.
End rows.

(** What a change of the tables has to do for the log to follow. *)
Lemma tables_refine_filter t a a' (P : BlobKey -> bool) :
  tables_refine t a -> alog_ok a' ->
  (forall k, blob_at a' k = if P k then None else blob_at a k) ->
  tables_refine (mkTables (filter (fun kr => P kr.1 = false) (blob_log t))
    (filter (fun kc => P kc.1.1 = false) (blob_chunks t))) a'.
Proof.
  intros (Ha & Hl & Hc) Ha' Hb. split_and!; [done| |].
  - intros k. simpl. rewrite map_lookup_filter, Hl, Hb. destruct (blob_at a k) as [b|]; simpl; [|by destruct (P k)].
    case_guard as Hg; simpl in Hg; [by rewrite Hg|]. destruct (P k); [done|by destruct Hg].
  - intros k i. simpl. rewrite map_lookup_filter, Hc, Hb. destruct (blob_at a k) as [b|]; simpl; [|by destruct (P k)].
    destruct (P k) eqn:Hk; simpl; destruct (lookupZ _ i) as [c|]; simpl; try done; case_guard; congruence.
Qed.

Lemma tables_refine_append t a k prev data now :
  tables_refine t a -> alog_ok (<[stream_of k := log_of a (stream_of k) ++ [mkAblob data prev now]]> a) ->
  Seq k = spec_next a (stream_of k) ->
  tables_refine
    (mkTables (<[k := mkLogRow (sha256_hex data) (nullable prev) (Z.of_nat (length data)) now]> (blob_log t))
      (put_chunks k 0 (chunks_of data) (blob_chunks t)))
    (<[stream_of k := log_of a (stream_of k) ++ [mkAblob data prev now]]> a).
Proof.
  intros (Ha & Hl & Hc) Ha' Hseq. assert (blob_at a k = None) as Hnone.
  { unfold blob_at. case_bool_decide; [|done]. apply lookup_ge_None_2. unfold spec_next in Hseq. lia. }
  split_and!; [done| |].
  - intros k'. simpl. rewrite lookup_insert, Hl, blob_at_append by done.
    destruct (decide (k = k')), (decide (k' = k)); congruence || done.
  - intros k' i. simpl. rewrite lookup_put_chunks by (intros; by rewrite Hc, Hnone).
    rewrite Hc, blob_at_append, Z.sub_0_r by done.
    destruct (decide (k' = k)) as [->|Hne].
    + case_decide as Hi; [done|]. rewrite Hnone. simpl. unfold lookupZ. case_decide; [|done]. by destruct Hi.
    + rewrite decide_False by naive_solver. done.
Qed.
