(* ===== verification/PostgresManifest.v ===== *)
(** The manifest query of the database store: [DISTINCT ON] over the sorted
    rows gives the head row of every stream, and the window functions the
    totals, so that the one statement computes the manifest of the log. *)
From stdpp Require Import sorting.
From S2P Require Import Prelude GoStrings GoError Sha256 GoIO BlobStore LogFacts Sql PostgresStore PostgresFacts.
Local Open Scope Z_scope.

Lemma StronglySorted_fmap_in {A B} (R : relation A) (R' : relation B) (f : A -> B) l :
  (forall x y, x ∈ l -> y ∈ l -> R x y -> R' (f x) (f y)) ->
  StronglySorted R l -> StronglySorted R' (f <$> l).
Proof.
  induction l as [|x l IH]; intros Hf Hs; [constructor|].
  apply StronglySorted_inv in Hs as [Hs Hx]. csimpl. constructor.
  - apply IH; [|done]. intros. apply Hf; set_solver.
  - rewrite Forall_forall in Hx. apply Forall_forall.
    intros y (z & -> & Hz)%list_elem_of_fmap. apply Hf; set_solver.
Qed.

Lemma sql_max_zmax {A} (f : A -> Z) z l :
  l <> [] -> Forall (fun x => z <= f x) l -> sql_max (f <$> l) = Some (zmax f z l).
Proof.
  intros Hne Hz. induction Hz as [|x l Hx Hl IH]; [done|]. destruct l as [|y l].
  - simpl. f_equal. lia.
  - rewrite fmap_cons. change (sql_max (f x :: (f <$> y :: l))) with
      (Some (match sql_max (f <$> y :: l) with Some m => Z.max (f x) m | None => f x end)).
    by rewrite IH.
Qed.

Section server.
Context {pg : PgServer} {laws : PgServerLaws pg}.
Abbreviation entry := (BlobKey * log_row)%type.

(** * The order of the query *)

#[export] Instance manifest_le_trans : Transitive manifest_le.
Proof.
  intros x y z. unfold manifest_le.
  destruct (decide (DeviceID x.1 = DeviceID y.1)) as [E1|N1], (decide (DeviceID y.1 = DeviceID z.1)) as [E2|N2];
    intros Hxy Hyz.
  - rewrite decide_True by congruence. revert Hxy Hyz. repeat case_decide; lia.
  - rewrite decide_False by congruence. by rewrite E1.
  - rewrite decide_False by congruence. by rewrite <- E2.
  - destruct (decide (DeviceID x.1 = DeviceID z.1)) as [E|N]; [|by etrans].
    destruct N1. apply (anti_symm collate_le); [done|]. by rewrite E.
Qed.

#[export] Instance manifest_le_total : Total manifest_le.
Proof.
  intros x y. unfold manifest_le. repeat case_decide; try congruence; try lia. apply (total collate_le).
Qed.

Lemma manifest_le_refl (x : entry) : manifest_le x x.
Proof. by destruct (total manifest_le x x). Qed.

(** The rows of a group are next to each other. *)
Lemma group_contiguous (x y z : entry) :
  manifest_le x y -> manifest_le y z -> same_group x z -> same_group x y.
Proof.
  unfold manifest_le, same_group. intros Hxy Hyz [Ed Eg].
  assert (DeviceID x.1 = DeviceID y.1) as Exy.
  { destruct (decide (DeviceID x.1 = DeviceID y.1)); [done|].
    destruct (decide (DeviceID y.1 = DeviceID z.1)); [congruence|].
    apply (anti_symm collate_le); [done|]. by rewrite Ed. }
  split; [done|]. repeat case_decide; try congruence; lia.
Qed.

(** * The first row of each run *)

Definition group (x : entry) : string * Z := (DeviceID x.1, Generation x.1).

Lemma group_same x y : group x = group y <-> same_group x y.
Proof. unfold group, same_group. split; [by intros [= -> ->]|by intros [-> ->]]. Qed.

Lemma distinct_on_spec last l :
  StronglySorted manifest_le l -> (forall y, last = Some y -> Forall (manifest_le y) l) ->
  (forall x, x ∈ distinct_on last l ->
     x ∈ l /\ (forall y, last = Some y -> ~ same_group y x) /\
     forall z, z ∈ l -> same_group x z -> manifest_le x z) /\
  (forall z, z ∈ l -> (exists y, last = Some y /\ same_group y z) \/
     exists x, x ∈ distinct_on last l /\ same_group x z) /\
  NoDup (group <$> distinct_on last l) /\ StronglySorted manifest_le (distinct_on last l).
Proof.
  revert last. induction l as [|x l IH]; intros last Hs Hlast.
  { simpl. split_and!; [set_solver|set_solver|constructor|constructor]. }
  apply StronglySorted_inv in Hs as [Hs Hx]. rewrite Forall_forall in Hx.
  assert ((exists y, last = Some y /\ same_group y x /\ distinct_on last (x :: l) = distinct_on last l) \/
    ((forall y, last = Some y -> ~ same_group y x) /\
     distinct_on last (x :: l) = x :: distinct_on (Some x) l)) as [(y & Hy & Hyx & ->)|[Hno ->]].
  { simpl. destruct last as [y|]; [|by right]. case_decide; [by left; exists y|]. right.
    split; [by intros ? [= <-]|done]. }
  - destruct (IH last Hs) as (H1 & H2 & H3 & H4).
    { intros y' Hy'. specialize (Hlast y' Hy'). by apply Forall_cons in Hlast as [_ ?]. }
    split_and!; [| |done|done].
    + intros x0 Hx0. destruct (H1 x0 Hx0) as (Hin & Hn & Hle). split_and!; [set_solver|done|].
      intros z [->|Hz]%elem_of_cons Hg; [|by apply Hle]. destruct (Hn y Hy).
      destruct Hyx, Hg. split; congruence.
    + intros z [->|Hz]%elem_of_cons; [left; eauto|]. by apply H2.
  - destruct (IH (Some x) Hs) as (H1 & H2 & H3 & H4); [intros y [= <-]; by apply Forall_forall|].
    split_and!.
    + intros x0 [->|Hx0]%elem_of_cons.
      * split_and!; [set_solver|done|]. intros z [->|Hz]%elem_of_cons _; [apply manifest_le_refl|by apply Hx].
      * destruct (H1 x0 Hx0) as (Hin & Hn & Hle). specialize (Hn x eq_refl). split_and!; [set_solver| |].
        -- intros y Hy Hg. apply (Hno y Hy). apply (group_contiguous y x x0); [|by apply Hx|done].
           specialize (Hlast y Hy). by apply Forall_cons in Hlast as [? _].
        -- intros z [->|Hz]%elem_of_cons Hg; [|by apply Hle]. destruct Hn. destruct Hg. by split.
    + intros z [->|Hz]%elem_of_cons; right.
      * exists x. split; [set_solver|by split].
      * destruct (H2 z Hz) as [(y & [= <-] & Hg)|(x0 & Hx0 & Hg)]; [exists x|exists x0]; split; set_solver || done.
    + csimpl. apply NoDup_cons. split; [|done]. intros (x0 & E & Hx0)%list_elem_of_fmap.
      destruct (H1 x0 Hx0) as (_ & Hn & _). apply (Hn x eq_refl). by apply group_same.
    + constructor; [done|]. apply Forall_forall. intros x0 Hx0. apply Hx. by apply H1.
Qed.

(** * The summaries *)

Section manifest.
Context (t : tables) (a : alog) (Ht : tables_refine t a) (p : string).

Let rows := log_rows_where (of_account p) t.
Let heads := distinct_on None (merge_sort manifest_le rows).

(** The head row of a stream. *)
Definition head_row (sl : stream * list ablob) : option entry :=
  (fun b => pg_row (key_in sl.1 (length sl.2 - 1), b)) <$> last sl.2.

Lemma elem_of_account_rows x :
  x ∈ rows <-> exists s i b, s.1.1 = p /\ log_of a s !! i = Some b /\ x = pg_row (key_in s i, b).
Proof.
  unfold rows. rewrite (log_rows_where_perm t a Ht), list_elem_of_fmap. split.
  - intros ([k b] & -> & [Hp (s & i & -> & Hi)%elem_of_log_rows%blob_at_Some]%list_elem_of_filter).
    unfold of_account in Hp. simpl in Hp. apply bool_decide_eq_true in Hp. eauto 7.
  - intros (s & i & b & Hp & Hi & ->). exists (key_in s i, b). split; [done|].
    apply list_elem_of_filter. split; [by apply bool_decide_eq_true|].
    apply elem_of_log_rows, blob_at_Some. eauto.
Qed.

Lemma same_group_key s s' i i' b b' :
  s.1.1 = p -> s'.1.1 = p -> same_group (pg_row (key_in s i, b)) (pg_row (key_in s' i', b')) <-> s = s'.
Proof.
  destruct s as [[p1 d1] g1], s' as [[p2 d2] g2]. unfold same_group. simpl. naive_solver.
Qed.

(** The heads are the head rows of the account's streams. *)
Lemma heads_of_streams x :
  x ∈ heads <-> exists s l, s.1.1 = p /\ a !! s = Some l /\ head_row (s, l) = Some x.
Proof.
  assert (forall y, y ∈ merge_sort manifest_le rows <-> y ∈ rows) as Hms.
  { intros y. by rewrite (merge_sort_Permutation manifest_le). }
  destruct (distinct_on_spec None (merge_sort manifest_le rows)) as (H1 & H2 & _ & _);
    [by apply StronglySorted_merge_sort; apply _|done|]. fold heads in H1, H2.
  assert (forall x, x ∈ heads -> exists s l, s.1.1 = p /\ a !! s = Some l /\ head_row (s, l) = Some x) as Hhead.
  { clear x. intros x Hx. destruct (H1 x Hx) as (Hin & _ & Hmax).
    apply Hms, elem_of_account_rows in Hin as (s & i & b & Hp & (l & Hl & Hi)%log_of_lookup & ->).
    exists s, l. split_and!; [done|done|]. pose proof (lookup_lt_Some _ _ _ Hi) as Hlt.
    destruct (lookup_lt_is_Some_2 l (length l - 1)) as [b' Hb']; [lia|].
    assert (pg_row (key_in s (length l - 1), b') ∈ rows) as Hin'.
    { apply elem_of_account_rows. do 3 eexists. split_and!; [done| |done]. by rewrite (log_of_Some _ _ _ Hl). }
    specialize (Hmax _ (proj2 (Hms _) Hin')). rewrite same_group_key in Hmax by done.
    specialize (Hmax eq_refl). unfold manifest_le in Hmax. simpl in Hmax. rewrite !decide_True in Hmax by done.
    assert (i = (length l - 1)%nat) as -> by lia. unfold head_row. simpl. rewrite last_lookup.
    replace (pred (length l)) with (length l - 1)%nat by lia. by rewrite Hi. }
  split; [apply Hhead|]. intros (s & l & Hp & Hl & Hx). unfold head_row in Hx.
  apply fmap_Some in Hx as (b & Hb & ->). rewrite last_lookup in Hb.
  assert (pg_row (key_in s (pred (length l)), b) ∈ rows) as Hin.
  { apply elem_of_account_rows. do 3 eexists. split_and!; [done| |done]. by rewrite (log_of_Some _ _ _ Hl). }
  destruct (H2 _ (proj2 (Hms _) Hin)) as [(y & ? & _)|(x0 & Hx0 & Hg)]; [done|].
  destruct (Hhead x0 Hx0) as (s0 & l0 & Hp0 & Hl0 & Hx0'). unfold head_row in Hx0'.
  apply fmap_Some in Hx0' as (b0 & Hb0 & ->). apply same_group_key in Hg; [|done..].
  simpl in *. subst s0. rewrite Hl in Hl0. injection Hl0 as <-. rewrite last_lookup in Hb0.
  rewrite Hb in Hb0. by injection Hb0 as <-.
Qed.

(** The partition of a head: the rows of its stream. *)
Lemma partition_of_head s l x :
  s.1.1 = p -> a !! s = Some l -> head_row (s, l) = Some x ->
  filter (same_group x) rows ≡ₚ pg_row <$> stream_rows (s, l).
Proof.
  intros Hp Hl Hx. unfold head_row in Hx. apply fmap_Some in Hx as (b & _ & ->).
  unfold rows. rewrite (log_rows_where_perm t a Ht), filter_fmap. apply fmap_Permutation.
  rewrite <- (log_of_Some _ _ _ Hl), <- log_rows_stream, list_filter_filter.
  apply reflexive_eq. apply list_filter_iff. intros [k b'].
  destruct s as [[p' d] g], k as [p2 d2 g2 q2]. unfold same_group, of_account, stream_of. simpl in *. subst.
  rewrite bool_decide_eq_true. naive_solver.
Qed.

(** The account's totals fit the type they are scanned into. *)
Definition account_fits : Prop :=
  forall s l, s.1.1 = p -> a !! s = Some l -> in64 (log_bytes l).

Lemma scan_head s l x :
  s.1.1 = p -> a !! s = Some l -> head_row (s, l) = Some x ->
  scan_summary rows x =
  if bool_decide (in64 (log_bytes l)) then Ok (spec_summary (s, l))
  else Err (External "converting driver.Value type []uint8 to a int64: value out of range").
Proof.
  intros Hp Hl Hx. pose proof (partition_of_head s l x Hp Hl Hx) as Hpart.
  destruct (alog_ok_lookup a s l (proj1 Ht) Hl) as (_ & Hne & _ & Hall).
  unfold scan_summary.
  assert (zsum (fun kr => lr_size kr.2) (filter (same_group x) rows) = log_bytes l) as ->.
  { rewrite (zsum_perm _ _ _ Hpart), zsum_fmap. unfold log_bytes.
    transitivity (zsum (fun b => Z.of_nat (length (ab_data b))) (stream_rows (s, l)).*2);
      [by rewrite zsum_fmap|by rewrite stream_rows_snd]. }
  case_bool_decide as Hfit; [|done]. f_equal.
  assert (sql_max ((fun kr => lr_created_at kr.2) <$> filter (same_group x) rows) = Some (log_updated l)) as ->.
  { rewrite (sql_max_zmax _ time_zero).
    - f_equal. rewrite (zmax_perm _ _ _ _ Hpart), zmax_fmap. unfold log_updated.
      transitivity (zmax ab_at time_zero (stream_rows (s, l)).*2); [by rewrite zmax_fmap|by rewrite stream_rows_snd].
    - intros E. rewrite E in Hpart. apply Permutation_nil in Hpart. apply fmap_nil_inv in Hpart.
      apply Hne. pose proof (stream_rows_snd (s, l)) as E2. by rewrite Hpart in E2.
    - apply Forall_forall. intros kr Hkr. rewrite Hpart in Hkr.
      apply list_elem_of_fmap in Hkr as ([k b] & -> & (i & _ & Hi)%elem_of_stream_rows). simpl in *.
      by apply (Forall_lookup_1 _ _ _ _ Hall Hi). }
  unfold head_row in Hx. apply fmap_Some in Hx as (b & Hb & ->). simpl in *.
  destruct s as [[p' d] g]. unfold spec_summary. simpl. rewrite Hb, wrap64_id by done.
  f_equal. destruct l; [done|]. simpl. lia.
Qed.

Lemma heads_sorted : StronglySorted manifest_le heads /\ NoDup (group <$> heads).
Proof.
  destruct (distinct_on_spec None (merge_sort manifest_le rows)) as (_ & _ & H3 & H4);
    [by apply StronglySorted_merge_sort; apply _|done|]. done.
Qed.

(** The summary of a head, once its totals fit. *)
Definition head_summary (x : entry) : DeviceSummary :=
  match scan_summary rows x with Ok d => d | Err _ => mkDeviceSummary "" 0 0 "" 0 0 end.

Lemma head_summary_eq s l x :
  account_fits -> s.1.1 = p -> a !! s = Some l -> head_row (s, l) = Some x ->
  scan_summary rows x = Ok (head_summary x) /\ head_summary x = spec_summary (s, l).
Proof.
  intros Hfit Hp Hl Hx. unfold head_summary. rewrite (scan_head s l x Hp Hl Hx).
  rewrite bool_decide_eq_true_2 by (by apply (Hfit s)). done.
Qed.

Lemma head_group s l x :
  head_row (s, l) = Some x -> group x = (s.1.2, s.2).
Proof. unfold head_row. intros (b & _ & ->)%fmap_Some. done. Qed.

Lemma heads_summaries : account_fits -> head_summary <$> heads = spec_manifest a p.
Proof.
  intros Hfit. destruct heads_sorted as [Hsort Hnd]. symmetry. unfold spec_manifest.
  apply (merge_sort_sorted summary_le).
  - intros x y Hx Hy. assert (forall z, z ∈ head_summary <$> heads ->
      z ∈ spec_summary <$> filter (fun sl => sl.1.1.1 = p) (map_to_list a)) as Hsub.
    { intros z (h & -> & (s & l & Hp & Hl & Hh)%heads_of_streams)%list_elem_of_fmap.
      destruct (head_summary_eq s l h Hfit Hp Hl Hh) as [_ ->]. apply list_elem_of_fmap.
      exists (s, l). split; [done|]. apply list_elem_of_filter. split; [done|]. by apply elem_of_map_to_list. }
    by apply (summaries_antisym a p); apply Hsub.
  - revert Hsort. apply StronglySorted_fmap_in.
    intros x y (s & l & Hp & Hl & Hx)%heads_of_streams (s' & l' & Hp' & Hl' & Hy)%heads_of_streams.
    destruct (head_summary_eq s l x Hfit Hp Hl Hx) as [_ ->], (head_summary_eq s' l' y Hfit Hp' Hl' Hy) as [_ ->].
    pose proof (head_group s l x Hx) as [= Ed Eg]. pose proof (head_group s' l' y Hy) as [= Ed' Eg'].
    destruct (alog_ok_lookup a s l (proj1 Ht) Hl) as ((_ & Hn & _) & _).
    destruct (alog_ok_lookup a s' l' (proj1 Ht) Hl') as ((_ & Hn' & _) & _).
    unfold manifest_le, summary_le. rewrite Ed, Eg, Ed', Eg'. destruct s as [[p1 d1] g1], s' as [[p2 d2] g2]. simpl in *.
    case_decide; [|by apply collate_name]. case_decide; lia.
  - symmetry. apply NoDup_Permutation.
    + apply NoDup_fmap_2_strong; [|by apply NoDup_fmap_1 in Hnd].
      intros x y (s & l & Hp & Hl & Hx)%heads_of_streams (s' & l' & Hp' & Hl' & Hy)%heads_of_streams.
      destruct (head_summary_eq s l x Hfit Hp Hl Hx) as [_ ->], (head_summary_eq s' l' y Hfit Hp' Hl' Hy) as [_ ->].
      destruct s as [[p1 d1] g1], s' as [[p2 d2] g2]. simpl in *. intros [= -> -> _ _ _ _]. subst. congruence.
    + apply NoDup_fmap_2_strong; [|apply NoDup_filter, NoDup_map_to_list].
      intros [[[p1 d1] g1] l1] [[[p2 d2] g2] l2] [E1 Hin1%elem_of_map_to_list]%list_elem_of_filter
        [E2 Hin2%elem_of_map_to_list]%list_elem_of_filter. simpl in *. intros [= -> -> _ _ _ _]. subst. congruence.
    + intros z. rewrite !list_elem_of_fmap. split.
      * intros (h & -> & (s & l & Hp & Hl & Hh)%heads_of_streams).
        destruct (head_summary_eq s l h Hfit Hp Hl Hh) as [_ ->]. exists (s, l). split; [done|].
        apply list_elem_of_filter. split; [done|]. by apply elem_of_map_to_list.
      * intros ([s l] & -> & [Hp Hl%elem_of_map_to_list]%list_elem_of_filter). simpl in Hp.
        destruct (alog_ok_lookup a s l (proj1 Ht) Hl) as (_ & Hne & _).
        destruct (last l) as [b|] eqn:Hb; [|by apply last_None in Hb].
        assert (head_row (s, l) = Some (pg_row (key_in s (length l - 1), b))) as Hh
          by (unfold head_row; simpl; by rewrite Hb).
        eexists. split; [|apply heads_of_streams; by exists s, l].
        by destruct (head_summary_eq s l _ Hfit Hp Hl Hh) as [_ ->].
Qed.

Lemma account_fits_dec : {account_fits} + {exists s l, s.1.1 = p /\ a !! s = Some l /\ ~ in64 (log_bytes l)}.
Proof.
  destruct (decide (map_Forall (fun s l => s.1.1 = p -> in64 (log_bytes l)) a)) as [H|H].
  - left. intros s l Hp Hl. by apply (map_Forall_lookup_1 _ _ _ _ H Hl).
  - right. apply map_not_Forall in H as (s & l & Hl & Hn); [|apply _].
    exists s, l. destruct (decide (s.1.1 = p)); [|by destruct Hn]. split_and!; [done|done|].
    intros Hin. by apply Hn.
Qed.

End manifest.

End server.
