(* ===== verification/PostgresStoreOk.v ===== *)
(** The database store implements the abstract log: every operation acts on
    the tables as the specification says, and under any failure of its round
    trips it changes the log as a whole or not at all. *)
From stdpp Require Import sorting.
From S2P Require Import Prelude GoStrings GoError Sha256 GoIO BlobStore LogFacts Trace Sql PostgresStore PostgresFacts PostgresManifest.
Local Open Scope Z_scope.

(** * Arguments of statements *)

Section server.
Context {pg : PgServer} {laws : PgServerLaws pg}.

Lemma int4_small z : 0 <= z < 2 ^ 31 -> int4 z = true.
Proof. intros. unfold int4. rewrite andb_true_iff, Z.leb_le, Z.ltb_lt. lia. Qed.

Lemma stream_args p d g : stream_ok (p, d, g) -> sql_args [p; d] [g] = Ok ().
Proof.
  intros (Hp & Hd & Hg). simpl in *. unfold sql_args. simpl.
  rewrite !text_valid_name, int4_small by (done || lia). done.
Qed.

Lemma name_args names : Forall name_ok names -> sql_args names [] = Ok ().
Proof.
  intros Hn. unfold sql_args. assert (forallb text_valid names = true) as ->; [|done].
  induction Hn; simpl; [done|]. by rewrite text_valid_name.
Qed.

Lemma key_args_ok k : key_ok k -> key_args k = Ok ().
Proof.
  intros (Hp & Hd & Hg & Hs). unfold key_args, sql_args. simpl.
  rewrite !text_valid_name, !int4_small by (done || lia). done.
Qed.

Lemma idx_args idx : 0 <= idx < 2 ^ 31 -> sql_args [] [idx] = Ok ().
Proof. intros. unfold sql_args. simpl. by rewrite int4_small. Qed.

Lemma sha_name data : name_ok (sha256_hex data).
Proof. pose proof (sha256_hex_shape data) as H. unfold match_lower_hex in H. by apply andb_true_iff in H as [_ ?]. Qed.

Lemma infra_fault e : fault_ok e -> infra e.
Proof. intros He s. by destruct e. Qed.

Lemma asSeqConflict_fault e : fault_ok e -> asSeqConflict e = e.
Proof. unfold asSeqConflict. intros He. case_bool_decide as Hc; [|done]. destruct e; simpl in *; try done; congruence. Qed.

Lemma fault_not_read_error e e' : fault_ok e -> e <> read_body_error e'.
Proof. by intros He ->. Qed.

(** * Append *)

Section append.
Context {R : Type} `{ReaderLaws R}.

Lemma pg_chunks_later fuel k idx hs size (s s' : PostgresStore) (r r' : R) res :
  pg_chunks fuel k idx hs size s r = (s', r', res) -> script_ok (script s) -> later s s'.
Proof.
  revert idx hs size s r. induction fuel as [|f IH]; intros idx hs size s r; simpl; [by intros [= <- <- <-]|].
  destruct (ReadFull r _) as [r1 [buf re]]. destruct (0 <? _).
  - destruct (db_exec _ s) as [s1 ins] eqn:Ee. intros E Hs.
    destruct (db_exec_cases _ _ _ _ Ee Hs) as [Hl _].
    destruct ins as [[]|e]; [|by simplify_eq]. destruct re as [e|].
    + destruct (_ || _); by simplify_eq.
    + etrans; [exact Hl|]. by eapply IH; [|apply Hl].
  - intros E Hs. destruct re as [e|]; [destruct (_ || _); by simplify_eq|]. by eapply IH.
Qed.

(** What the loop over the body leaves behind, for a key without chunks from
    [idx] on. *)
Lemma pg_chunks_ok fuel k idx hs (s s' : PostgresStore) (r0 r r' : R) e0 res :
  pg_chunks fuel k idx hs (Z.of_nat (length hs)) s r = (s', r', res) ->
  key_ok k -> script_ok (script s) -> clean_error (rd_err r) -> reads_to r0 r e0 ->
  (rd_fuel r < fuel)%nat -> 0 <= idx -> idx * 2 ^ 20 + Z.of_nat (rd_fuel r) < 2 ^ 50 ->
  Z.of_nat (length hs) = idx * 2 ^ 20 ->
  (forall j, idx <= j -> blob_chunks (tables_of s) !! (k, j) = None) ->
  (exists e1, reads_to r0 r' e1 /\ (forall e, res = Err (read_body_error e) -> e1 = Some e)) /\
  ((exists e, res = Err e /\ fault s e) \/
   (rd_err r = EOF /\
    let data := rd_bytes r in
    res = Ok (hs ++ data, Z.of_nat (length (hs ++ data))) /\
    Z.of_nat (length (hs ++ data)) < 2 ^ 50 /\
    tables_of s' = mkTables (blob_log (tables_of s)) (put_chunks k idx (chunks_of data) (blob_chunks (tables_of s)))) \/
   (rd_err r <> EOF /\ res = Err (read_body_error (rd_err r)))).
Proof.
  revert idx hs s r e0. induction fuel as [|f IH]; intros idx hs s r e0 E Hk Hs Hend Hr Hf Hidx Hsz Hlen Hnone; [lia|].
  cbn [pg_chunks] in E.
  destruct (ReadFull_ok r chunk_len) as (r1 & buf & re & Hrf & Hbl & Hfuel & Herr & Hbytes & Hre).
  destruct (ReadFull_reads r0 e0 r chunk_len r1 buf re Hr Hrf) as (e1 & Hr1 & He1).
  rewrite Hrf in E.
  (* the last read returned an end: the stream is over *)
  set (t1 := if bool_decide (buf = []) then tables_of s
             else mkTables (blob_log (tables_of s)) (<[(k, idx) := buf]> (blob_chunks (tables_of s)))).
  assert (exists s1, script_ok (script s1) /\ later s s1 /\
    ((exists e, fault s e /\ (s', r', res) = (s1, r1, Err e)) \/
     (tables_of s1 = t1 /\
      match re with
      | Some e => if Is e EOF || Is e ErrUnexpectedEOF
                  then (s1, r1, Ok (hs ++ buf, Z.of_nat (length (hs ++ buf)))) = (s', r', res)
                  else (s1, r1, Err (read_body_error e)) = (s', r', res)
      | None => pg_chunks f k (idx + 1) (hs ++ buf) (Z.of_nat (length (hs ++ buf))) s1 r1 = (s', r', res)
      end))) as (s1 & Hs1 & Hl1 & Hcase).
  { rewrite length_app, Nat2Z.inj_add. destruct buf as [|b buf].
    - exists s. split; [done|]. split; [done|]. right. split; [done|].
      cbn [length] in E. change (0 <? Z.of_nat 0) with false in E. cbn iota in E.
      rewrite app_nil_r, Z.add_0_r. destruct re; [by destruct (_ || _)|]. simpl in Hre. chunk_lia.
    - assert ((0 <? Z.of_nat (length (b :: buf))) = true) as Hpos by (apply Z.ltb_lt; simpl; chunk_lia).
      rewrite Hpos, wrap64_id in E by (unfold in64; chunk_lia).
      destruct (db_exec (sql_insert_chunk k idx (b :: buf)) s) as [s1 ins] eqn:Ee.
      destruct (db_exec_cases _ _ _ _ Ee Hs) as [Hl Hins]. exists s1.
      split; [by apply Hl|]. split; [done|].
      unfold sql_insert_chunk in Hins. rewrite key_args_ok, idx_args in Hins by first [exact Hk|chunk_lia].
      cbn [res_bind] in Hins. rewrite Hnone in Hins by chunk_lia.
      destruct Hins as [[-> Ht1]|(e & -> & Hft)].
      + right. split; [done|]. destruct re; [by destruct (_ || _)|].
        rewrite wrap64_id in E by (unfold in64; chunk_lia). done.
      + left. exists e. split; [done|]. rewrite asSeqConflict_fault in E by apply Hft. done. }
  destruct Hcase as [(e & Hft & E1)|[Ht1 E1]].
  { simplify_eq. split; [|left; eauto]. exists e1. split; [done|]. intros e' [= Ee].
    by destruct (fault_not_read_error e e' (proj1 Hft)). }
  destruct re as [e|].
  - destruct Hre as (Hshort & Heof & Hother).
    destruct (decide (rd_err r = EOF)) as [HE|HE].
    + destruct (Heof HE) as [Hnil He]. rewrite (Hbytes HE), Hnil, app_nil_r.
      assert (Is e EOF || Is e ErrUnexpectedEOF = true) as His by (subst e; by case_bool_decide).
      rewrite His in E1. injection E1 as <- <- <-. split; [exists e1; split; [done|naive_solver]|].
      right. left. split; [done|]. split; [done|]. split; [rewrite length_app; lia|].
      rewrite Ht1. unfold t1. case_bool_decide as Hb; [subst buf; by destruct (tables_of s)|].
      rewrite chunks_of_short by (done || chunk_lia). done.
    + rewrite (Hother HE) in *. destruct Hend as [?|[He1' He2']]; [done|].
      rewrite He1', He2' in E1. cbn [orb] in E1. injection E1 as <- <- <-. split.
      * exists e1. split; [done|]. intros e' [= <-]. apply He1; [done|done|].
        intros Eu. rewrite Eu in He2'. by rewrite Is_Sentinel in He2'.
      * right. right. done.
  - assert (t1 = mkTables (blob_log (tables_of s)) (<[(k, idx) := buf]> (blob_chunks (tables_of s)))) as Et1.
    { unfold t1. rewrite bool_decide_eq_false_2; [done|]. intros ->. simpl in Hre. chunk_lia. }
    rewrite Et1 in Ht1. rewrite <- Herr in Hend |- *.
    destruct (IH (idx + 1) (hs ++ buf) s1 r1 e1 E1 Hk Hs1 Hend Hr1) as [Hreads Hout];
      [chunk_lia|lia|rewrite Hre in Hfuel; chunk_lia|rewrite length_app, Hre; chunk_lia| |].
    { intros j Hj. rewrite Ht1. simpl. rewrite lookup_insert_ne; [apply Hnone; lia|]. intros [= <-]. chunk_lia. }
    split; [exact Hreads|].
    destruct Hout as [(e & -> & Hft)|[(HE & -> & Hb & Ht')|[HE ->]]].
    + left. exists e. split; [done|]. by eapply fault_later.
    + right. left. split; [exact HE|]. rewrite Herr in HE. cbn zeta. rewrite (Hbytes HE), app_assoc.
      split; [done|]. split; [done|]. rewrite Ht', Ht1, chunks_of_app by done. done.
    + right. right. done.
Qed.

Lemma pg_append_work_later now k prev (r : R) (s s' : PostgresStore) (r' : R) res :
  pg_append_work now k prev r s = (s', r', res) -> script_ok (script s) -> later s s'.
Proof.
  unfold pg_append_work. intros E Hs.
  destruct (db_query_row _ s) as [s1 [hd|e]] eqn:Eq; destruct (db_query_row_cases _ _ _ _ Eq Hs) as [Hl1 _];
    [|by simplify_eq].
  destruct (negb _); [by simplify_eq|].
  destruct (pg_chunks _ _ _ _ _ _ _) as [[s2 r2] [[h sz]|e]] eqn:Ec;
    (assert (later s1 s2) as Hl2 by (eapply pg_chunks_later; [exact Ec|by apply Hl1])); [|simplify_eq; by etrans].
  case_bool_decide; [simplify_eq; by etrans|].
  destruct (db_exec _ s2) as [s3 ins] eqn:Ee. destruct (db_exec_cases _ _ _ _ Ee) as [Hl3 _]; [by apply Hl2, Hl1|].
  assert (later s s3) by (etrans; [exact Hl1|by etrans]). destruct ins; by simplify_eq.
Qed.

Lemma pg_append_work_ok now a k prev (r r' : R) (s s' : PostgresStore) res :
  pg_append_work now k prev r s = (s', r', res) ->
  tables_refine (tables_of s) a -> script_ok (script s) -> key_ok k -> time_zero <= now ->
  clean_error (rd_err r) -> stream_fits r ->
  (exists e1, reads_to r r' e1 /\ (forall e, res = Err (read_body_error e) -> e1 = Some e)) /\
  ((exists e, res = Err e /\ infra e /\ (script_faulty (script s) \/ text_valid prev = false)) \/
   (res = (spec_append now a k prev (body_outcome r)).2 /\
    (is_ok res = true -> tables_refine (tables_of s') (spec_append now a k prev (body_outcome r)).1))).
Proof.
  intros E Ht Hs Hk Hnow Hend Hfits. pose proof Ht as (Ha & Hl & Hc).
  unfold pg_append_work in E.
  destruct (db_query_row _ s) as [s1 hd] eqn:Eq. destruct (db_query_row_cases _ _ _ _ Eq Hs) as (Hl1 & Ht1 & Hhd).
  unfold sql_head in Hhd. rewrite stream_args in Hhd by (by apply stream_of_ok in Hk).
  cbn [res_bind] in Hhd. rewrite (head_of_stream _ a Ht) in Hhd. fold (stream_of k) in Hhd.
  assert (exists e1, reads_to r r e1) as Hstart by (exists None; constructor).
  destruct Hhd as [->|(e & -> & Hft)].
  2:{ simplify_eq. split; [|left; exists e; split_and!; [done|apply infra_fault, Hft|left; apply Hft]].
      exists None. split; [constructor|]. intros e' [= Ee]. by destruct (fault_not_read_error e e' (proj1 Hft)). }
  set (want := match (match log_of a (stream_of k) with [] => None | _ => _ end) with Some h => _ | None => _ end) in E.
  assert (want = spec_next a (stream_of k)) as Hwant.
  { unfold want, spec_next. pose proof (log_of_length a (stream_of k) Ha).
    destruct (log_of a (stream_of k)); [done|]. apply wrap64_id. unfold in64. lia. }
  rewrite Hwant in E. unfold spec_append. case_bool_decide as Hseq; cbn [negb] in E.
  2:{ simplify_eq. split; [|by right]. exists None. split; [constructor|done]. }
  assert (blob_at a k = None) as Hnone.
  { unfold blob_at. case_bool_decide; [|done]. apply lookup_ge_None_2. unfold spec_next in Hseq. lia. }
  destruct (pg_chunks _ _ _ _ _ _ _) as [[s2 r2] out] eqn:Ec.
  assert (later s1 s2) as Hl2 by (eapply pg_chunks_later; [exact Ec|by apply Hl1]).
  destruct (pg_chunks_ok _ _ _ [] _ _ r _ _ None _ Ec Hk) as [(e1 & Hr1 & He1) Hout];
    [by apply Hl1|done|constructor|lia|done|exact Hfits|done|intros; by rewrite Ht1, Hc, Hnone|].
  destruct Hout as [(e & -> & Hft)|[(HE & -> & Hb & Ht2)|[HE ->]]]; cbn zeta in E.
  - simplify_eq. split; [exists e1; split; [exact Hr1|]; intros e2 [= ->]; by apply He1|]. left. exists e. split_and!; [done|apply infra_fault, Hft|left].
    by apply Hl1, Hft.
  - rewrite app_nil_l in *. unfold body_outcome. rewrite bool_decide_eq_true_2 by done.
    destruct (rd_bytes r) as [|c data] eqn:Ed.
    { rewrite bool_decide_eq_true_2 in E by done. simplify_eq. split; [|by right]. exists e1. split; [done|naive_solver]. }
    rewrite bool_decide_eq_false_2 in E by (simpl; lia).
    destruct (db_exec _ s2) as [s3 ins] eqn:Ee. destruct (db_exec_cases _ _ _ _ Ee) as [Hl3 Hins]; [by apply Hl2, Hl1|].
    unfold sql_insert_log in Hins. rewrite key_args_ok in Hins by done. cbn [res_bind] in Hins.
    assert (blob_log (tables_of s2) !! k = None) as Hnl by (rewrite Ht2, Ht1; simpl; by rewrite Hl, Hnone).
    destruct Hins as [Hins|(e & -> & Hft)].
    2:{ rewrite asSeqConflict_fault in E by apply Hft. simplify_eq. split.
        - exists e1. split; [done|]. intros e' [= Ee']. by destruct (fault_not_read_error e e' (proj1 Hft)).
        - left. exists e. split_and!; [done|apply infra_fault, Hft|left]. by apply Hl1, Hl2, Hft. }
    unfold sql_args in Hins. simpl in Hins. rewrite text_valid_name in Hins by apply sha_name. simpl in Hins.
    destruct (forallb text_valid (option_list (nullable prev))) eqn:Hprev; cbn [res_bind negb] in Hins.
    + rewrite Hnl in Hins. destruct Hins as [-> Ht3]. simplify_eq. split; [exists e1; split; [done|naive_solver]|].
      right. split; [done|]. intros _. rewrite Ht3, Ht2, Ht1. cbn [blob_log blob_chunks].
      apply (tables_refine_append (tables_of s) a k prev (c :: data) now); [done| |done].
      pose proof (spec_append_ok now a k prev (Ok (c :: data)) Ha Hk Hnow) as Hok.
      unfold spec_append in Hok. by rewrite bool_decide_eq_true_2 in Hok.
    + destruct Hins as [-> Ht3]. simplify_eq. split; [exists e1; split; [done|naive_solver]|].
      left. eexists. split; [done|]. split; [by apply infra_fault|]. right.
      unfold nullable in Hprev. case_bool_decide; [done|]. simpl in Hprev. by rewrite andb_true_r in Hprev.
  - simplify_eq. unfold body_outcome. rewrite bool_decide_eq_false_2 by done. split; [|by right].
    exists e1. split; [done|]. intros e2 [= <-]. by apply He1.
Qed.

Lemma pg_Append_outcome now a k prev (r r' : R) (s s' : PostgresStore) res :
  pg_Append now s k prev r = (s', r', res) ->
  pg_refines s a -> key_ok k -> time_zero <= now -> clean_error (rd_err r) -> stream_fits r ->
  op_outcome pg_refines (script_faulty (script s) \/ text_valid prev = false) a
    (spec_append now a k prev (body_outcome r)).1 (spec_append now a k prev (body_outcome r)).2 s' res /\
  exists e0, reads_to r r' e0 /\ (forall e, res = Err (read_body_error e) -> e0 = Some e).
Proof.
  intros E [Ht Hs] Hk Hnow Hend Hfits. unfold pg_Append in E.
  apply transact_cases in E as [Hl Hcase]; [|done|intros ? ? ? ?; apply pg_append_work_later].
  assert (script_ok (script s')) as Hs' by (by apply Hl).
  destruct Hcase as [(e & -> & -> & [Hf Hft] & Htab)|(s1 & s2 & out & Hl1 & Hs1 & Ht1 & Hwork & Hout)].
  { split; [|exists None; split; [constructor|intros e' [= Ee]; by destruct (fault_not_read_error e e' Hf)]].
    right. split; [by left|]. exists e. split_and!; [done|by apply infra_fault|]. left. split; [by rewrite Htab|done]. }
  destruct (pg_append_work_ok now a k prev r r' s1 s2 out Hwork) as [(e1 & Hr1 & He1) Hres];
    [by rewrite Ht1|done|done|done|done|done|].
  destruct out as [v|e]; [destruct Hout as [[-> Htab]|(e & -> & [Hf Hft] & Htab)]|destruct Hout as [-> Htab]].
  - split; [|by exists e1]. destruct Hres as [(e & [=] & _)|[Hv Htr]]. left. split; [|done].
    split; [rewrite Htab; by apply Htr|done].
  - rewrite asSeqConflict_fault by done. split.
    + destruct Hres as [(e' & [=] & _)|[Hv Htr]]. right. split; [by left|]. exists e.
      split_and!; [done|by apply infra_fault|]. destruct Htab as [Htab|Htab]; [left|right]; (split; [rewrite Htab|done]); [done|by apply Htr].
    + exists e1. split; [done|]. intros e' [= Ee]. by destruct (fault_not_read_error e e' Hf).
  - split; [|by exists e1]. destruct Hres as [(e' & [= <-] & Hi & Hft)|[Hv _]].
    + right. split; [destruct Hft as [Hft|Hft]; [left; by apply Hl1|by right]|].
      exists e. split_and!; [done|done|]. left. split; [by rewrite Htab|done].
    + left. split; [|done]. split; [rewrite Htab|done].
      revert Hv. unfold spec_append. case_bool_decide; [|done]. by destruct (body_outcome r) as [[]|].
Qed.

End append.

(** * Get and the listings *)

Lemma pg_Get_outcome (s s' : PostgresStore) a k res :
  pg_refines s a -> key_ok k -> pg_Get s k = (s', res) ->
  pg_refines s' a /\
  match res with
  | Ok (r, n) =>
      exists b, blob_at a k = Some b /\ n = Z.of_nat (length (ab_data b)) /\
        ((rd_err r = EOF /\ rd_bytes r = ab_data b) \/
         (script_faulty (script s) /\ infra (rd_err r) /\ rd_bytes r `prefix_of` ab_data b))
  | Err e => (blob_at a k = None /\ e = ErrNotFound) \/ (script_faulty (script s) /\ infra e)
  end.
Proof.
  intros [Ht Hs] Hk. unfold pg_Get. pose proof Ht as (_ & Hlog & _).
  assert (forall s' : PostgresStore, later s s' -> tables_of s' = tables_of s -> pg_refines s' a) as Hsame.
  { intros s1 Hl Htab. split; [by rewrite Htab|by apply Hl]. }
  destruct (db_call s) as [s1 r1] eqn:E1. destruct (db_call_cases _ _ _ E1 Hs) as (Hl1 & Ht1 & [->|(e & -> & Hf)]).
  2:{ intros [= <- <-]. split; [by apply Hsame|]. right. split; [apply Hf|apply infra_fault, Hf]. }
  destruct (db_query_row (sql_size k) s1) as [s2 r2] eqn:E2.
  destruct (db_query_row_cases _ _ _ _ E2) as (Hl2 & Ht2 & Hr2); [by apply Hl1|].
  assert (later s s2) as Hl2' by (by etrans).
  destruct Hr2 as [->|(e & -> & Hf)].
  2:{ intros [= <- <-]. split; [apply Hsame; congruence|]. right. apply (fault_later s s1) in Hf; [|done].
      split; [apply Hf|]. by rewrite (infra_fault e (proj1 Hf)); apply infra_fault, Hf. }
  unfold sql_size. rewrite key_args_ok, Ht1, Hlog by done. cbn [res_bind].
  destruct (blob_at a k) as [b|] eqn:Hb; cbn [fmap option_fmap option_map].
  2:{ intros [= <- <-]. split; [apply Hsame; congruence|]. by left. }
  destruct (db_query (sql_chunks k) s2) as [s3 r3] eqn:E3.
  destruct (db_query_cases _ _ _ _ E3) as (Hl3 & Ht3 & Hr3); [by apply Hl2'|].
  assert (later s s3) as Hl3' by (by etrans).
  assert (tables_of s3 = tables_of s) as Ht3' by congruence.
  unfold sql_chunks in Hr3. rewrite key_args_ok in Hr3 by done. cbn [res_bind] in Hr3.
  rewrite (chunks_of_key _ a) in Hr3 by (by rewrite Ht2, Ht1). rewrite Hb in Hr3.
  destruct Hr3 as [->|(e & Hf & Hr3)].
  - intros [= <- <-]. split; [by apply Hsame|]. exists b. split_and!; [done|done|]. left. split; [done|].
    apply mjoin_chunks_of.
  - apply (fault_later s s2) in Hf; [|done]. destruct Hr3 as [->|[n ->]]; intros [= <- <-]; (split; [by apply Hsame|]).
    + right. split; [apply Hf|apply infra_fault, Hf].
    + exists b. split_and!; [done|done|]. right. split; [apply Hf|]. split; [apply infra_fault, Hf|].
      rewrite <- (mjoin_chunks_of (ab_data b)) at 2. exact (mjoin_take_prefix n _).
Qed.

Lemma scan_rows_ok {A} (l out : list A) : scan_rows (Ok <$> l) None out = Ok (out ++ l).
Proof.
  revert out. induction l as [|x l IH]; intros out; csimpl; [by rewrite app_nil_r|].
  rewrite IH. by rewrite <- app_assoc.
Qed.

Lemma scan_rows_err {A} (rows : list (result A)) err out :
  (forall e, Err e ∈ rows -> infra e) -> (forall e, err = Some e -> infra e) ->
  (exists e, Err e ∈ rows \/ err = Some e) ->
  exists e, scan_rows rows err out = Err e /\ infra e.
Proof.
  revert out. induction rows as [|[x|e] rows IH]; intros out Hrows Herr [e0 He]; simpl.
  - destruct He as [He|He]; [set_solver|]. rewrite He. eauto.
  - apply IH; [set_solver|done|]. exists e0. destruct He as [[?|?]%elem_of_cons|?]; [done|by left|by right].
  - exists e. split; [done|]. apply Hrows. set_solver.
Qed.

Lemma pg_Index_outcome (s s' : PostgresStore) a p d g from limit res :
  pg_refines s a -> stream_ok (p, d, g) -> 1 <= limit ->
  pg_Index p d g from limit s = (s', res) ->
  op_outcome pg_refines (script_faulty (script s) \/ int4 from = false) a a
    (Ok (spec_index a p d g from limit)) s' res.
Proof.
  intros [Ht Hs] Hok Hlim Hres. unfold pg_Index, db_bind in Hres.
  destruct (db_query _ s) as [s1 r1] eqn:E1. destruct (db_query_cases _ _ _ _ E1 Hs) as (Hl1 & Ht1 & Hr1).
  assert (pg_refines s1 a) as Hsame by (split; [by rewrite Ht1|by apply Hl1]).
  assert (forall e, fault s e -> infra e /\ script_faulty (script s)) as Hfault.
  { intros e [? ?]. split; [by apply infra_fault|done]. }
  assert (sql_index p d g from limit (tables_of s) =
    if int4 from then Ok (spec_index a p d g from limit)
    else Err (PqError "22003" "value out of range for type integer")) as Hq.
  { clear E1 Hr1. destruct Hok as (Hp & Hd & Hg). simpl in *. unfold sql_index, sql_args. simpl.
    rewrite !text_valid_name, int4_small by (done || lia). simpl. rewrite andb_true_r.
    destruct (int4 from); [|done]. cbn [res_bind negb]. rewrite (proj2 (Z.ltb_ge limit 0)) by lia.
    unfold spec_index. do 2 f_equal. apply (merge_sort_sorted entry_le).
    - intros x y. apply entries_antisym.
    - apply StronglySorted_filter, StronglySorted_imap. intros i j x y Hij. unfold entry_le. simpl. lia.
    - transitivity (filter (fun e => from <= Entry_Seq e) (scan_entry <$> log_rows_where (of_stream p d g) (tables_of s))).
      + by rewrite filter_fmap.
      + apply filter_Permutation. rewrite (of_stream_perm _ a Ht). unfold stream_rows. rewrite !fmap_imap.
        apply reflexive_eq, imap_ext. intros i b _. unfold scan_entry, spec_entry. simpl. by rewrite default_nullable. }
  rewrite Hq in Hr1. destruct (int4 from) eqn:Hi.
  - destruct Hr1 as [->|(e & Hf & [->|[n ->]])]; injection Hres as <- <-.
    + left. split; [done|]. by rewrite scan_rows_ok.
    + apply Hfault in Hf as [? ?]. right. split; [by left|]. eauto.
    + apply Hfault in Hf as [? ?]. right. split; [by left|].
      destruct (scan_rows_err (Ok <$> take n (spec_index a p d g from limit)) (Some e) []) as (e' & -> & ?); eauto.
      * intros e' (x & [=] & _)%list_elem_of_fmap.
      * by intros ? [= <-].
  - right. split; [by right|]. destruct Hr1 as [->|(e & -> & Hf)].
    + injection Hres as <- <-. eexists. split; [done|]. split; [by apply infra_fault|by left].
    + injection Hres as <- <-. eexists. split; [done|]. split; [by apply Hfault|by left].
Qed.

Lemma scan_summary_infra rows x e : scan_summary rows x = Err e -> infra e.
Proof. unfold scan_summary. case_bool_decide; [done|]. by intros [= <-]. Qed.

Lemma pg_Manifest_outcome (s s' : PostgresStore) a p res :
  pg_refines s a -> name_ok p -> pg_Manifest p s = (s', res) ->
  op_outcome pg_refines (script_faulty (script s) \/ ~ account_fits a p) a a (Ok (spec_manifest a p)) s' res.
Proof.
  intros [Ht Hs] Hp. unfold pg_Manifest, db_bind.
  destruct (db_query _ s) as [s1 r1] eqn:E1. destruct (db_query_cases _ _ _ _ E1 Hs) as (Hl1 & Ht1 & Hr1).
  assert (pg_refines s1 a) as Hsame by (split; [by rewrite Ht1|by apply Hl1]).
  unfold sql_manifest in Hr1. rewrite name_args in Hr1 by (by repeat constructor). cbn [res_bind] in Hr1.
  set (rows := log_rows_where (of_account p) (tables_of s)) in *.
  set (heads := distinct_on None (merge_sort manifest_le rows)) in *.
  assert (forall l e, l ⊆ scan_summary rows <$> heads -> Err e ∈ l -> infra e) as Hscan.
  { intros l e Hl He. apply Hl in He. apply list_elem_of_fmap in He as (x & E & _). by eapply scan_summary_infra. }
  destruct Hr1 as [->|(e & [Hf Hft] & Hr1)]; intros Hres.
  - injection Hres as <- <-. destruct (account_fits_dec a p) as [Hfit|(st & l & Hst & Hl & Hbig)].
    + left. split; [done|]. rewrite <- (heads_summaries _ a Ht p Hfit). fold rows. fold heads.
      assert (scan_summary rows <$> heads = Ok <$> (head_summary (tables_of s) p <$> heads)) as ->;
        [|by rewrite scan_rows_ok].
      rewrite <- list_fmap_compose. apply list_fmap_ext. intros i x Hx%list_elem_of_lookup_2.
      apply (heads_of_streams _ a Ht) in Hx as (st & l & Hst & Hl & Hx).
      by destruct (head_summary_eq _ a Ht p st l x Hfit Hst Hl Hx).
    + right. destruct (alog_ok_lookup a st l (proj1 Ht) Hl) as (_ & Hne & _).
      destruct (head_row (st, l)) as [x|] eqn:Hx.
      2:{ unfold head_row in Hx. simpl in Hx. destruct (last l) eqn:E; [done|]. by apply last_None in E. }
      assert (x ∈ heads) as Hin by (apply (heads_of_streams _ a Ht); eauto).
      pose proof (scan_head _ a Ht p st l x Hst Hl Hx) as Hsc. rewrite bool_decide_eq_false_2 in Hsc by done.
      fold rows in Hsc. split.
      * right. intros Hfit. by apply Hbig, (Hfit st).
      * destruct (scan_rows_err (scan_summary rows <$> heads) None []) as (e & -> & He); [| | |by eauto].
        -- intros e. by apply Hscan.
        -- done.
        -- exists (External "converting driver.Value type []uint8 to a int64: value out of range"). left.
           apply list_elem_of_fmap. by exists x.
  - right. split; [by left|]. apply infra_fault in Hf. destruct Hr1 as [->|[n ->]]; injection Hres as <- <-; [eauto|].
    destruct (scan_rows_err (take n (scan_summary rows <$> heads)) (Some e) []) as (e' & -> & He'); eauto.
    + intros e' He'. eapply (Hscan _ e'); [|exact He']. by intros x (i & Hi%list_elem_of_lookup_2 & _)%elem_of_take.
    + by intros ? [= <-].
Qed.

(** * Deletion *)

Lemma pg_delete_outcome (s s' : PostgresStore) a a' (P : BlobKey -> bool) res :
  pg_refines s a -> alog_ok a' ->
  (forall k, blob_at a' k = if P k then None else blob_at a k) ->
  pg_delete (Ok ()) P s = (s', res) ->
  op_outcome pg_refines (script_faulty (script s)) a a'
    (Ok (Z.of_nat (length (log_rows_where P (tables_of s))))) s' res.
Proof.
  intros [Ht Hs] Ha' Hb. unfold pg_delete. set (work := pg_delete_work (Ok ()) P).
  destruct (transact () work id s) as [[s1 x1] r1] eqn:Et. intros [= <- <-].
  assert (forall s1 s2 x r, work s1 = (s2, x, r) -> script_ok (script s1) -> later s1 s2 /\
    match r with
    | Ok n => n = Z.of_nat (length (log_rows_where P (tables_of s1))) /\
        tables_of s2 = mkTables (filter (fun kr => P kr.1 = false) (blob_log (tables_of s1)))
          (filter (fun kc => P kc.1.1 = false) (blob_chunks (tables_of s1)))
    | Err e => fault s1 e
    end) as Hwork.
  { clear. intros s1 s4 x r. unfold work, pg_delete_work, db_bind.
    destruct (db_exec (sql_delete_chunks (Ok ()) P) s1) as [s2 r2] eqn:E1. intros Hr Hs1.
    destruct (db_exec_cases _ _ _ _ E1 Hs1) as (Hl2 & [[-> Ht2]|(e & -> & Hf)]); [|by injection Hr as <- <- <-].
    destruct (db_exec (sql_delete_log (Ok ()) P) s2) as [s3 r3] eqn:E3. injection Hr as <- <- <-.
    destruct (db_exec_cases _ _ _ _ E3) as (Hl3 & Hc); [by apply Hl2|]. split; [by etrans|].
    rewrite Ht2 in Hc. destruct Hc as [[-> Ht3]|(e & -> & Hf)]; [by split|]. by apply (fault_later _ s2). }
  destruct (transact_cases _ _ _ _ _ _ _ Et Hs) as (Hl & Hc); [intros; by eapply Hwork|].
  assert (forall t', tables_of s1 = t' -> tables_refine t' a -> pg_refines s1 a) as Hkeep
    by (intros t' E ?; split; [by rewrite E|by apply Hl]).
  assert (tables_refine (mkTables (filter (fun kr => P kr.1 = false) (blob_log (tables_of s)))
    (filter (fun kc => P kc.1.1 = false) (blob_chunks (tables_of s)))) a') as Hdel by (by apply tables_refine_filter with a).
  destruct Hc as [(e & -> & _ & [Hf Hft] & E)|(s2 & s3 & r & Hl2 & Hs2 & Et2 & Ew & Hc)].
  - right. split; [done|]. exists e. split; [done|]. split; [by apply infra_fault|]. left. by apply (Hkeep _ E).
  - destruct (Hwork _ _ _ _ Ew Hs2) as [_ Hr]. destruct r as [n|e].
    + destruct Hr as [-> Ht3]. rewrite Et2 in *. destruct Hc as [[-> E]|(e & -> & [Hf Hft] & E)].
      * left. split; [|done]. split; [by rewrite E, Ht3|by apply Hl].
      * right. split; [done|]. exists e. split; [done|]. split; [by apply infra_fault|].
        destruct E as [E|E]; [left; by apply (Hkeep _ E)|]. right. split; [by rewrite E, Ht3|by apply Hl].
    + apply (fault_later s) in Hr as [Hf Hft]; [|done]. destruct Hc as [-> E]. right. split; [done|].
      exists e. split; [done|]. split; [by apply infra_fault|]. left. by apply (Hkeep _ E).
Qed.

Lemma op_outcome_excuse {A} (P Q : Prop) a a' (spec : result A) (s' : PostgresStore) res :
  op_outcome pg_refines P a a' spec s' res -> (P -> Q) -> op_outcome pg_refines Q a a' spec s' res.
Proof. intros [?|[? ?]] ?; [by left|right]. auto. Qed.

Lemma pg_DeleteGeneration_outcome (s s' : PostgresStore) a p d g res :
  pg_refines s a -> stream_ok (p, d, g) -> pg_DeleteGeneration p d g s = (s', res) ->
  op_outcome pg_refines (script_faulty (script s)) a (spec_delete_generation a p d g).1
    (spec_delete_generation a p d g).2 s' res.
Proof.
  intros [Ht Hs] Hok. unfold pg_DeleteGeneration, db_bind.
  destruct (db_query_row _ s) as [s1 r1] eqn:E1.
  destruct (db_query_row_cases _ _ _ _ E1 Hs) as (Hl1 & Ht1 & Hr1).
  assert (pg_refines s1 a) as Hsame by (split; [by rewrite Ht1|by apply Hl1]).
  destruct Hr1 as [->|(e & -> & [Hf Hft])]; intros Hres.
  2:{ injection Hres as <- <-. right. split; [done|]. exists e.
      split; [done|]. split; [by apply infra_fault|by left]. }
  unfold sql_newest in Hres. rewrite name_args in Hres by (destruct Hok as (? & ? & _); by repeat constructor).
  cbn [res_bind] in Hres. rewrite (newest_of_device _ a Ht) in Hres. rewrite (stream_args p d g Hok) in Hres.
  set (deleted := (delete (p, d, g) a, Ok (Z.of_nat (length (log_of a (p, d, g)))) : result Z)).
  assert (pg_delete (Ok ()) (of_stream p d g) s1 = (s', res) ->
    op_outcome pg_refines (script_faulty (script s)) a deleted.1 deleted.2 s' res) as Hdel.
  { intros E. apply (op_outcome_excuse (script_faulty (script s1))); [|apply Hl1]. unfold deleted. cbn [fst snd].
    assert (length (log_of a (p, d, g)) = length (log_rows_where (of_stream p d g) (tables_of s1))) as ->.
    { rewrite Ht1, (Permutation_length (of_stream_perm _ a Ht p d g)), length_fmap. by rewrite length_stream_rows. }
    apply pg_delete_outcome; [done|by apply map_Forall_delete, Ht| |done].
    intros k. rewrite blob_at_delete. unfold of_stream. by case_bool_decide; destruct (decide (stream_of k = _)). }
  unfold spec_delete_generation. destruct (decide (generations_of a p d = [])) as [Hg|Hg].
  - rewrite bool_decide_eq_false_2 by tauto. by apply Hdel.
  - pose proof (newest_range a p d (proj1 Ht)). rewrite wrap64_id in Hres by (unfold in64, RetainedGenerations; lia).
    destruct (newest_of a p d - RetainedGenerations <? g) eqn:E.
    + rewrite bool_decide_eq_true_2 by (split; [done|lia]). injection Hres as <- <-. by left.
    + rewrite bool_decide_eq_false_2 by lia. by apply Hdel.
Qed.

Lemma pg_DeleteAccount_outcome (s s' : PostgresStore) a p res :
  pg_refines s a -> name_ok p -> pg_DeleteAccount p s = (s', res) ->
  op_outcome pg_refines (script_faulty (script s)) a (spec_delete_account a p).1 (spec_delete_account a p).2 s' res.
Proof.
  intros Hr Hp. unfold pg_DeleteAccount. rewrite name_args by (by repeat constructor). intros E.
  assert (account_blobs a p = length (log_rows_where (of_account p) (tables_of s))) as Hn.
  { rewrite (Permutation_length (log_rows_where_perm _ a (proj1 Hr) _)), length_fmap, account_blobs_rows.
    f_equal. apply list_filter_iff. intros [k b]. unfold of_account. simpl. by rewrite bool_decide_eq_true. }
  unfold spec_delete_account. cbn [fst snd]. rewrite Hn.
  apply pg_delete_outcome; [done|by apply (spec_delete_account_ok a p), Hr| |done].
  intros k. rewrite (blob_at_delete_account a p). unfold of_account. by case_bool_decide; destruct (decide (Pseudonym k = _)).
Qed.

Lemma pg_Ping_outcome (s s' : PostgresStore) a res :
  pg_refines s a -> pg_Ping s = (s', res) -> op_outcome pg_refines (script_faulty (script s)) a a (Ok ()) s' res.
Proof.
  intros [Ht Hs] E. destruct (db_call_cases _ _ _ E Hs) as (Hl & Ht' & Hr).
  assert (pg_refines s' a) as Hsame by (split; [by rewrite Ht'|by apply Hl]).
  destruct Hr as [->|(e & -> & [Hf Hft])]; [by left|]. right. split; [done|]. exists e.
  split; [done|]. split; [by apply infra_fault|by left].
Qed.

(** * The instance *)

#[export] Program Instance PostgresStore_Ok : BlobStoreOk PostgresStore := {|
  refines := pg_refines;
  faulty s := script_faulty (script s);
  end_ok := clean_error;
  text_ok prev := text_valid prev = true;
  int_ok z := int4 z = true;
  totals_ok := account_fits;
|}.
Next Obligation. auto. Qed.
Next Obligation. by intros ? ? [[? _] _]. Qed.
Next Obligation.
  intros R rr rs rl now st a k prev r st' r' res Hr Hk Hnow Hend Hfit E.
  destruct (pg_Append_outcome _ _ _ _ _ _ _ _ _ E Hr Hk Hnow Hend Hfit) as [Ho Hrd]. split; [|done].
  eapply op_outcome_excuse; [exact Ho|]. intros [?|?]; [by left|right; congruence].
Qed.
Next Obligation.
  intros st a k st' res Hr Hk E. destruct (pg_Get_outcome _ _ _ _ _ Hr Hk E) as [? Hg]. split; [done|].
  destruct res as [[r n]|e]; [|naive_solver]. destruct Hg as (b & ? & ? & Hg). exists b. naive_solver.
Qed.
Next Obligation.
  intros st a p d g from limit st' res Hr Hs Hl E.
  eapply op_outcome_excuse; [by eapply pg_Index_outcome|].
  intros [?|?]; [by left|right; congruence].
Qed.
Next Obligation.
  intros st a p st' res Hr Hp E. eapply op_outcome_excuse; [by eapply pg_Manifest_outcome|].
  intros [?|?]; [by left|right]. auto.
Qed.
Next Obligation. intros. by eapply pg_DeleteGeneration_outcome. Qed.
Next Obligation. intros. by eapply pg_DeleteAccount_outcome. Qed.
Next Obligation. intros. by eapply pg_Ping_outcome. Qed.

End server.
