(* ===== verification/PostgresProps.v ===== *)
(** What the database store guarantees over whole sequences of calls: under
    any failures it acts as a log that now and then loses an answer, without
    failures it cannot be told from the in-memory store; and what it does
    with an upload the connection cut short. *)
From S2P Require Import Prelude GoStrings GoError Sha256 GoIO BlobStore LogFacts Trace Sql.
From S2P Require Import MemoryStore MemoryStoreOk PostgresStore PostgresFacts PostgresManifest PostgresStoreOk.
Local Open Scope Z_scope.

(** * Runs with failures *)

(** Every call acts as the abstract log does, or, where it is excused, reports
    trouble below the service and has acted as a whole or not at all. *)
Inductive lossy_run (excused : alog -> op -> Prop) : alog -> list op -> list obs -> alog -> Prop :=
  | lossy_done a : lossy_run excused a [] [] a
  | lossy_acts a o os seen a' :
      lossy_run excused (spec_op a o).1 os seen a' ->
      lossy_run excused a (o :: os) ((spec_op a o).2 :: seen) a'
  | lossy_fails a a1 o ob os seen a' :
      excused a o -> obs_infra ob -> a1 = a \/ a1 = (spec_op a o).1 ->
      lossy_run excused a1 os seen a' ->
      lossy_run excused a (o :: os) (ob :: seen) a'.

Lemma lossy_run_mono (P Q : alog -> op -> Prop) a os seen a' :
  (forall a o, P a o -> Q a o) -> lossy_run P a os seen a' -> lossy_run Q a os seen a'.
Proof. intros HPQ. induction 1; econstructor; eauto. Qed.

(** Without excuses a run is the run of the abstract log. *)
Lemma lossy_run_exact (P : alog -> op -> Prop) (ok : alog -> list op -> Prop) a os seen a' :
  (forall a o os, ok a (o :: os) -> ~ P a o /\ ok (spec_op a o).1 os) ->
  lossy_run P a os seen a' -> ok a os -> seen = (spec_run a os).2 /\ a' = (spec_run a os).1.
Proof.
  intros Hok. induction 1 as [a|a o os seen a' Hr IH|a a1 o ob os seen a' He Hi Ha Hr IH]; intros H; [done| |].
  - apply Hok in H as [_ H]. destruct (IH H) as [-> ->]. simpl.
    destruct (spec_op a o) as [a1 ob]. simpl in *. by destruct (spec_run a1 os).
  - by apply Hok in H as [? _].
Qed.

Section postgres.
Context {pg : PgServer} {laws : PgServerLaws pg}.

(** What excuses a call on the database. *)
Definition pg_excused (faults : Prop) (a : alog) (o : op) : Prop :=
  faults \/
  match o with
  | OpAppend _ _ prev _ => text_valid prev = false
  | OpIndex _ _ _ from _ => int4 from = false
  | OpManifest p => ~ account_fits a p
  | _ => False
  end.

Lemma pg_delete_uses args P : uses (pg_delete args P).
Proof.
  intros s s' r. unfold pg_delete. destruct (transact _ _ _ _) as [[s1 x1] r1] eqn:E. intros [= <- _] Hs.
  eapply transact_cases; [exact E|done|]. intros s2 s3 x r2. unfold pg_delete_work.
  destruct (db_bind _ _ s2) as [s4 r4] eqn:Eb. intros [= <- _ _].
  by apply (uses_bind _ _ (uses_exec _) (fun _ => uses_exec _)) in Eb.
Qed.

Lemma pg_apply_later (s : PostgresStore) o : script_ok (script s) -> later s (apply_op s o).1.
Proof.
  intros Hs. destruct o as [now k prev body|k|p d g from limit|p|p d g|p]; cbn [apply_op Append Get Index Manifest DeleteGeneration DeleteAccount PostgresStore_BlobStore].
  - destruct (pg_Append now s k prev body) as [[s' r'] res] eqn:E. unfold pg_Append in E.
    eapply transact_cases; [exact E|done|]. intros ? ? ? ?. apply pg_append_work_later.
  - destruct (pg_Get s k) as [s' res] eqn:E. simpl. unfold pg_Get in E.
    destruct (db_call s) as [s1 [[]|e]] eqn:E1; (assert (later s s1) as Hl1 by (by eapply uses_call)); [|by simplify_eq].
    destruct (db_query_row _ s1) as [s2 r2] eqn:E2.
    assert (later s s2) as Hl2 by (etrans; [done|]; eapply uses_query_row; [done|by apply Hl1]).
    destruct r2 as [size|e]; [|by simplify_eq].
    destruct (db_query _ s2) as [s3 r3] eqn:E3.
    assert (later s s3) by (etrans; [done|]; eapply uses_query; [done|by apply Hl2]).
    destruct r3 as [[? ?]|?]; by simplify_eq.
  - destruct (pg_Index _ _ _ _ _ s) as [s' res] eqn:E. eapply uses_bind; [..|exact E|done]; [apply uses_query|].
    intros [rows e]. apply uses_pure.
  - destruct (pg_Manifest _ s) as [s' res] eqn:E. eapply uses_bind; [..|exact E|done]; [apply uses_query|].
    intros [rows e]. apply uses_pure.
  - destruct (pg_DeleteGeneration _ _ _ s) as [s' res] eqn:E. eapply uses_bind; [..|exact E|done]; [apply uses_query_row|].
    intros [n|]; [destruct (_ <? _); [apply uses_pure|]|]; apply pg_delete_uses.
  - destruct (pg_DeleteAccount _ s) as [s' res] eqn:E. by eapply pg_delete_uses.
Qed.

Lemma op_excused_pg (s : PostgresStore) a o : op_excused s a o -> pg_excused (script_faulty (script s)) a o.
Proof.
  unfold op_excused, pg_excused. cbn [faulty text_ok int_ok totals_ok PostgresStore_Ok].
  intros [?|Ho]; [by left|right]. destruct o; try done.
  - by destruct (text_valid prev).
  - by destruct (int4 from).
Qed.

Lemma pg_run_lossy (faults : Prop) (s : PostgresStore) a os :
  pg_refines s a -> (script_faulty (script s) -> faults) -> Forall (op_ok clean_error) os ->
  exists a', lossy_run (pg_excused faults) a os (run s os).2 a' /\ pg_refines (run s os).1 a'.
Proof.
  intros Hr Hf Hos. revert s a Hr Hf. induction Hos as [|o os Ho Hos IH]; intros s a Hr Hf.
  { exists a. split; [constructor|done]. }
  simpl. pose proof (apply_op_ok s a o Hr Ho) as Hstep. pose proof (pg_apply_later s o (proj2 Hr)) as [_ Hl].
  destruct (apply_op s o) as [s1 ob], (spec_op a o) as [a1 ob1] eqn:Eo. cbn [fst] in Hl.
  assert (script_faulty (script s1) -> faults) as Hf1 by auto.
  destruct (run s1 os) as [s2 seen] eqn:Er. cbn [fst snd].
  assert (forall a', pg_refines s1 a' -> exists a2, lossy_run (pg_excused faults) a' os seen a2 /\ pg_refines s2 a2) as Hnext.
  { intros a' Hr'. destruct (IH s1 a' Hr' Hf1) as (a2 & H1 & H2). rewrite Er in H1, H2. eauto. }
  destruct Hstep as [[Hr1 ->]|(Hex%op_excused_pg & Hi & Hr1)].
  - destruct (Hnext a1 Hr1) as (a2 & ? & ?). exists a2. split; [|done].
    pose proof (lossy_acts (pg_excused faults) a o os seen a2) as Hc. rewrite Eo in Hc. by apply Hc.
  - assert (exists a3, (a3 = a \/ a3 = (spec_op a o).1) /\ pg_refines s1 a3) as (a3 & Ha3 & Hr3)
      by (rewrite Eo; destruct Hr1; eauto).
    destruct (Hnext a3 Hr3) as (a2 & ? & ?). exists a2. split; [|done].
    eapply lossy_fails; [|exact Hi|exact Ha3|done]. destruct Hex as [?|?]; [left; auto|by right].
Qed.

Definition no_tables : tables := mkTables ∅ ∅.

Lemma no_tables_refine : tables_refine no_tables ∅.
Proof.
  split; [apply alog_ok_empty|]. split; intros; simpl; rewrite lookup_empty; unfold blob_at, log_of;
    rewrite lookup_empty; by case_bool_decide.
Qed.


(** * The two stores *)

Definition op_bytes (o : op) : Z :=
  match o with OpAppend _ _ _ body => Z.of_nat (length (rd_bytes body)) | _ => 0 end.

(** The arguments the database takes. *)
Definition op_portable (o : op) : Prop :=
  match o with
  | OpAppend _ _ prev _ => text_valid prev = true
  | OpIndex _ _ _ from _ => int4 from = true
  | _ => True
  end.

Definition log_within (a : alog) (n : Z) : Prop := map_Forall (fun _ l => log_bytes l <= n) a.

Lemma op_bytes_nonneg o : 0 <= op_bytes o.
Proof. destruct o; simpl; lia. Qed.

Lemma log_within_op a o n : log_within a n -> 0 <= n -> log_within (spec_op a o).1 (n + op_bytes o).
Proof.
  intros Ha Hn. assert (log_within a (n + op_bytes o)) as Hle.
  { eapply map_Forall_impl; [exact Ha|]. intros s l Hl. pose proof (op_bytes_nonneg o). simpl in Hl. lia. }
  destruct o as [now k prev body|k|p d g from limit|p|p d g|p]; try exact Hle.
  - unfold spec_op, spec_append. case_bool_decide; [|exact Hle].
    destruct (body_outcome body) as [data|e] eqn:Hb; [|exact Hle]. destruct data as [|c data]; [exact Hle|].
    cbn [fst]. apply map_Forall_insert_2; [|exact Hle].
    unfold body_outcome in Hb. case_bool_decide; [|done]. injection Hb as Hb.
    unfold log_bytes. rewrite zsum_app. cbn [op_bytes]. rewrite Hb. unfold zsum at 2. cbn [foldr ab_data].
    enough (log_bytes (log_of a (stream_of k)) <= n) by (unfold log_bytes in *; lia).
    unfold log_of. destruct (a !! stream_of k) as [l|] eqn:E; [|done]. by apply (map_Forall_lookup_1 _ _ _ _ Ha E).
  - unfold spec_op, spec_delete_generation. case_bool_decide; [exact Hle|]. by apply map_Forall_delete.
  - unfold spec_op, spec_delete_account. cbn [fst]. eapply map_Forall_lookup_2. intros s l Hl.
    apply map_lookup_filter_Some in Hl as [Hl _]. by apply (map_Forall_lookup_1 _ _ _ _ Hle Hl).
Qed.

Lemma log_bytes_nonneg l : 0 <= log_bytes l.
Proof. unfold log_bytes, zsum. induction l; simpl; lia. Qed.

Definition within_budget (a : alog) (os : list op) : Prop :=
  exists n, 0 <= n /\ log_within a n /\ Forall op_portable os /\ n + zsum op_bytes os < 2 ^ 63.

Lemma within_budget_step a o os :
  within_budget a (o :: os) -> ~ pg_excused False a o /\ within_budget (spec_op a o).1 os.
Proof.
  intros (n & Hn & Ha & [Hp Hps]%Forall_cons & Hsum). unfold zsum in Hsum. cbn [foldr] in Hsum. fold (zsum op_bytes os) in Hsum.
  pose proof (op_bytes_nonneg o). assert (0 <= zsum op_bytes os) as Hz.
  { unfold zsum. clear. induction os as [|o os IH]; simpl; [lia|]. pose proof (op_bytes_nonneg o). lia. }
  split.
  - unfold pg_excused. intros [[]|Ho]. destruct o; simpl in *; try done; try congruence.
    apply Ho. intros st l _ Hl. pose proof (log_bytes_nonneg l). pose proof (map_Forall_lookup_1 _ _ _ _ Ha Hl) as Hb.
    simpl in Hb. unfold in64. lia.
  - exists (n + op_bytes o). split; [lia|]. split; [by apply log_within_op|]. split; [done|lia].
Qed.

Lemma script_fine l : ~ script_faulty l -> script_ok l.
Proof.
  unfold script_faulty, script_ok. intros Hn. apply Forall_forall. intros f Hf. unfold fate_ok.
  destruct (fate_error f) eqn:E; [|done]. destruct Hn. apply Exists_exists. exists f. split; [done|congruence].
Qed.



(** * Uploads the connection cut short *)

Lemma source_read_uniform cs j n :
  exists cs' bs (ended : bool), forall e,
    source_read (mkSource cs e j) n = (mkSource cs' e j, (bs, if ended then Some e else None)).
Proof.
  destruct cs as [|c cs]; [by exists [], [], true|]. unfold source_read. cbn [src_chunks src_final src_joined].
  destruct (Nat.leb _ _); [|by exists (drop n c :: cs), (take n c), false].
  by exists cs, c, (j && bool_decide (cs = [])).
Qed.

Lemma read_full_uniform fuel cs j n b :
  exists cs' bs (end_of : error -> option error),
    (forall e, read_full_loop fuel (mkSource cs e j) n b = (mkSource cs' e j, (bs, end_of e))) /\
    ((forall e, end_of e = Some e) \/ forall e e', end_of e = end_of e').
Proof.
  revert cs n b. induction fuel as [|f IH]; intros cs [|n] b; simpl.
  1,2,3: by eexists _, _, (fun _ => _); split; [done|right].
  destruct (source_read_uniform cs j (S n)) as (cs1 & bs1 & [] & E).
  - exists cs1, (b ++ bs1), Some. split; [|by left]. intros e. by rewrite E.
  - destruct (IH cs1 (S n - length bs1)%nat (b ++ bs1)) as (cs2 & bs2 & eo & E2 & Heo).
    exists cs2, bs2, eo. split; [|done]. intros e. rewrite E. apply E2.
Qed.

Definition takes_end (e : error) : bool := Is e EOF || Is e ErrUnexpectedEOF.

(** The buffer fills the same way; the ends differ, but both are ends. *)
Lemma ReadFull_cut cs j n :
  exists cs' bs o1 o2,
    ReadFull (mkSource cs EOF j) n = (mkSource cs' EOF j, (bs, o1)) /\
    ReadFull (mkSource cs ErrUnexpectedEOF j) n = (mkSource cs' ErrUnexpectedEOF j, (bs, o2)) /\
    (o1 = o2 \/ exists e1 e2, o1 = Some e1 /\ o2 = Some e2 /\ takes_end e1 = true /\ takes_end e2 = true).
Proof.
  unfold ReadFull. change (rd_fuel (mkSource cs ErrUnexpectedEOF j)) with (rd_fuel (mkSource cs EOF j)).
  destruct (read_full_uniform (S (rd_fuel (mkSource cs EOF j))) cs j n []) as (cs' & bs & eo & E & Heo).
  rewrite !E. destruct (Nat.leb n (length bs)); [by exists cs', bs, None, None; auto|].
  destruct Heo as [Heo|Heo].
  - rewrite !Heo, (bool_decide_eq_true_2 (Sentinel EOF = Sentinel EOF)),
      (bool_decide_eq_false_2 (Sentinel ErrUnexpectedEOF = Sentinel EOF)) by done. cbn [andb].
    do 2 eexists. destruct (negb _); do 2 eexists; split_and!; try done; right; eauto 6.
  - rewrite (Heo ErrUnexpectedEOF EOF). destruct (eo EOF) as [e|]; [|by exists cs', bs, None, None; auto].
    destruct (_ && _); do 4 eexists; (split; [done|]); (split; [done|]); by left.
Qed.

Lemma pg_chunks_cut fuel k idx hs size s cs j :
  exists s' cs' res,
    pg_chunks fuel k idx hs size s (mkSource cs EOF j) = (s', mkSource cs' EOF j, res) /\
    pg_chunks fuel k idx hs size s (mkSource cs ErrUnexpectedEOF j) = (s', mkSource cs' ErrUnexpectedEOF j, res).
Proof.
  revert idx hs size s cs. induction fuel as [|f IH]; intros idx hs size s cs; [simpl; eauto|]. cbn [pg_chunks].
  destruct (ReadFull_cut cs j chunk_len) as (cs' & bs & o1 & o2 & -> & -> & Ho).
  destruct (if 0 <? _ then db_exec _ s else (s, Ok ())) as [s1 [[]|e]]; [|eauto].
  destruct Ho as [<-|(e1 & e2 & -> & -> & H1 & H2)].
  - destruct o1 as [e|]; [destruct (_ || _); eauto|]. apply IH.
  - unfold takes_end in H1, H2. rewrite H1, H2. eauto.
Qed.

(** The database store takes a body that broke off in the middle for a
    complete one: with the same bytes delivered, it does and answers exactly
    what it does when they are all there is. (The in-memory store refuses it.) *)
Theorem pg_Append_truncated now (s : PostgresStore) k prev cs j :
  let '(s1, _, res1) := pg_Append now s k prev (mkSource cs ErrUnexpectedEOF j) in
  let '(s2, _, res2) := pg_Append now s k prev (mkSource cs EOF j) in
  s1 = s2 /\ res1 = res2.
Proof.
  assert (forall s, exists s' cs' res,
    pg_append_work now k prev (mkSource cs EOF j) s = (s', mkSource cs' EOF j, res) /\
    pg_append_work now k prev (mkSource cs ErrUnexpectedEOF j) s = (s', mkSource cs' ErrUnexpectedEOF j, res)) as Hwork.
  { clear s. intros s. unfold pg_append_work. destruct (db_query_row _ s) as [s1 [hd|e]]; [|eauto].
    destruct (negb _); [eauto|].
    change (rd_fuel (mkSource cs ErrUnexpectedEOF j)) with (rd_fuel (mkSource cs EOF j)).
    destruct (pg_chunks_cut (S (rd_fuel (mkSource cs EOF j))) k 0 [] 0 s1 cs j) as (s2 & cs' & res & -> & ->).
    destruct res as [[h z]|e]; [|eauto]. case_bool_decide; [eauto|]. destruct (db_exec _ s2) as [s3 []]; eauto. }
  unfold pg_Append, transact. destruct (db_call s) as [s1 [[]|e]]; [|done].
  destruct (Hwork s1) as (s2 & cs' & res & -> & ->). destruct res as [v|e]; [|done]. simpl.
  by destruct (db_commit _ s2) as [s3 [[]|e]].
Qed.

(** * The upload loop ends *)

Lemma db_exec_script {T A} (stmt : T -> result (T * A)) (s : session T) :
  script (db_exec stmt s).1 = tail (script s).
Proof.
  unfold db_exec. cbn. destruct (default _ _) as [[|e|e]|n e]; try done; by destruct (stmt _) as [[]|].
Qed.


End postgres.

(** * Boot *)

(** The tables of a schema in the current layout. *)
Definition ready_tables (sc : schema) : option tables :=
  match sc with
  | mkSchema (Some (Current l)) (Some c) => Some (mkTables l c)
  | _ => None
  end.

(** The rows of the current layout are still there. *)
Definition kept (sc sc' : schema) : Prop :=
  (forall l, sc_blob_log sc = Some (Current l) -> sc_blob_log sc' = Some (Current l)) /\
  (forall c, sc_blob_chunks sc = Some c -> sc_blob_chunks sc' = Some c).

#[export] Instance kept_preorder : PreOrder kept.
Proof. split; [by split|]. intros x y z [] []. split; eauto. Qed.

(** The rows the service starts with. *)
Definition boot_tables (sc : schema) : tables :=
  mkTables (match sc_blob_log sc with Some (Current l) => l | _ => ∅ end) (default ∅ (sc_blob_chunks sc)).

(** Booting loses no backup: whatever the database holds and however connecting
    and migrating end, the rows of the current layout are kept; a boot that
    succeeds leaves both tables in place with exactly those rows, so that a
    second boot changes nothing; a boot that fails says at which step. *)
Lemma NewPostgresStore_boots dsn (s : session schema) :
  let '(s', r) := NewPostgresStore dsn s in
  kept (tables_of s) (tables_of s') /\
  match r with
  | Ok _ => ready_tables (tables_of s') = Some (boot_tables (tables_of s))
  | Err e => exists step e0, e = Wrapf step e0 ""
  end.
Proof.
  destruct (NewPostgresStore dsn s) as [s' r] eqn:E. revert E. unfold NewPostgresStore.
  destruct dsn as [e|]; [intros [= <- <-]; split; eauto; done|].
  destruct (db_call s) as [s0 r0] eqn:Ec. assert (tables_of s0 = tables_of s) as Ht
    by (revert Ec; unfold db_call; cbn; destruct (fate_error _); by intros [= <- _]).
  rewrite <- Ht. destruct r0 as [[]|e]; [|intros [= <- <-]; split; eauto; done].
  unfold Migrations. intros E.
  apply (migrate_step kept) in E as (s1 & K1 & [[E1 E]|[-> [e ->]]]); [|split; eauto|intros [[[|l]|] c]; by split].
  apply (migrate_step kept) in E as (s2 & K2 & [[E2 E]|[-> [e ->]]]); [|split; [by etrans|eauto]|intros [[[|l]|] c]; by split].
  apply (migrate_step kept) in E as (s3 & K3 & [[E3 E]|[-> [e ->]]]); [|split; [by do 2 (etrans; [eassumption|])|eauto]|intros sc; by split].
  apply (migrate_step kept) in E as (s4 & K4 & [[E4 E]|[-> [e ->]]]); [|split; [by do 3 (etrans; [eassumption|])|eauto]|intros [? [c|]]; by split].
  injection E as <- <-. split; [by do 3 (etrans; [eassumption|])|].
  rewrite E4, E3, E2, E1. unfold boot_tables. by destruct (tables_of s0) as [[[|l]|] [c|]].
Qed.

Lemma NewPostgresStore_uses dsn : uses (NewPostgresStore dsn).
Proof.
  intros s s' r. unfold NewPostgresStore. destruct dsn as [e|]; [by intros [= <- _]|].
  destruct (db_call s) as [s1 [[]|e]] eqn:E; intros Hr Hs; pose proof (uses_call _ _ _ E Hs) as Hl;
    [|by injection Hr as <- _].
  etrans; [exact Hl|]. eapply uses_migrate; [exact Hr|by apply Hl].
Qed.
