(* ===== verification/PostgresRace.v ===== *)
(** Uploads and deletions of the database store run against each other, one
    statement at a time.

    PostgreSQL runs each of these transactions under READ COMMITTED: a
    statement sees what was committed when it started, and the writes of its
    own transaction.  An [INSERT] waits while another transaction holds an
    uncommitted row with its key, a [DELETE] while another one holds a lock on
    a row it wants, and then takes those of the rows it saw that are still
    there; waiting is a step that is not enabled.  Rows carry the number of
    the commit that wrote them, so that a row deleted and written again is
    another row.  Any transaction may end in a rollback at any point. *)
From S2P Require Import Prelude GoStrings GoError Sha256 GoIO BlobStore LogFacts Trace Sql.
From S2P Require Import PostgresStore PostgresFacts.
Local Open Scope Z_scope.

(** * Rows and their versions *)

Section rows.
Context {K A : Type} `{Countable K}.

Definition versions (m : gmap K (nat * A)) : gmap K nat := fst <$> m.

(** The rows a statement sees that match its condition. *)
Definition snapshot (P : K -> bool) (m : gmap K (nat * A)) : gmap K nat :=
  versions (filter (fun kv => P kv.1 = true) m).

(** Those of them that are still there. *)
Definition remaining (seen : gmap K nat) (m : gmap K (nat * A)) : gmap K nat :=
  filter (fun kv => versions m !! kv.1 = Some kv.2) seen.

Definition remove (dead : gmap K nat) (m : gmap K (nat * A)) : gmap K (nat * A) :=
  filter (fun kv => dead !! kv.1 <> Some kv.2.1) m.

Lemma snapshot_Some P m x n :
  snapshot P m !! x = Some n <-> P x = true /\ exists a, m !! x = Some (n, a).
Proof.
  unfold snapshot, versions. rewrite lookup_fmap_Some. setoid_rewrite map_lookup_filter_Some. simpl. split.
  - intros ([n' a] & <- & Hm & HP). eauto.
  - intros (HP & a & Hm). by exists (n, a).
Qed.

Lemma remaining_Some seen m x n :
  remaining seen m !! x = Some n <-> seen !! x = Some n /\ exists a, m !! x = Some (n, a).
Proof.
  unfold remaining, versions. rewrite map_lookup_filter_Some. simpl. rewrite lookup_fmap_Some. split.
  - intros (Hs & [n' a] & <- & Hm). eauto.
  - intros (Hs & a & Hm). split; [done|]. by exists (n, a).
Qed.

Lemma remove_Some dead m x n a :
  remove dead m !! x = Some (n, a) <-> m !! x = Some (n, a) /\ dead !! x <> Some n.
Proof. unfold remove. by rewrite map_lookup_filter_Some. Qed.

End rows.

(** * Transactions *)

Record versioned := mkVersioned {
  v_log : gmap BlobKey (nat * log_row);
  v_chunks : gmap (BlobKey * Z) (nat * bytes);
  v_next : nat;
}.

(** What a new transaction sees. *)
Definition committed (v : versioned) : tables := mkTables (snd <$> v_log v) (snd <$> v_chunks v).

(** The open transactions: an upload with the chunks inserted so far, then
    with its log row; a deletion that has taken the snapshot of its first
    statement, executed it, taken the snapshot of the second, executed it. *)
Inductive txn :=
  | Uploading (k : BlobKey) (now : Z) (prev : string) (cs : list bytes)
  | Uploaded (k : BlobKey) (cs : list bytes) (row : log_row)
  | DelStarted (P : BlobKey -> bool) (seen : gmap (BlobKey * Z) nat)
  | DelChunks (P : BlobKey -> bool) (dead : gmap (BlobKey * Z) nat)
  | DelSecond (P : BlobKey -> bool) (dead : gmap (BlobKey * Z) nat) (seen : gmap BlobKey nat)
  | DelLog (P : BlobKey -> bool) (dead : gmap (BlobKey * Z) nat) (gone : gmap BlobKey nat).

Record race := mkRace {
  r_rows : versioned;
  r_txns : gmap nat txn;
}.

(** The uncommitted rows of a transaction, and its locks. *)
Definition inserts_chunk (t : txn) (x : BlobKey * Z) : Prop :=
  match t with
  | Uploading k _ _ cs | Uploaded k cs _ => x.1 = k /\ is_Some (lookupZ cs x.2)
  | _ => False
  end.

Definition inserts_log (t : txn) (k : BlobKey) : Prop :=
  match t with Uploaded k' _ _ => k' = k | _ => False end.

Definition locks_chunks (t : txn) : gmap (BlobKey * Z) nat :=
  match t with DelChunks _ dead | DelSecond _ dead _ | DelLog _ dead _ => dead | _ => ∅ end.

Definition locks_log (t : txn) : gmap BlobKey nat :=
  match t with DelLog _ _ gone => gone | _ => ∅ end.

(** No other transaction stands in the way. *)
Definition others (ts : gmap nat txn) (i : nat) (ok : txn -> Prop) : Prop :=
  forall j t, j <> i -> ts !! j = Some t -> ok t.

(** The tables as an upload sees them. *)
Definition view (v : versioned) (k : BlobKey) (cs : list bytes) : tables :=
  mkTables (blob_log (committed v)) (put_chunks k 0 cs (blob_chunks (committed v))).

Definition upload_row (now : Z) (prev : string) (cs : list bytes) : log_row :=
  mkLogRow (sha256_hex (mjoin cs)) (nullable prev) (wrap64 (Z.of_nat (length (mjoin cs)))) now.

Definition commit_upload (v : versioned) (k : BlobKey) (cs : list bytes) (row : log_row) : versioned :=
  mkVersioned (<[k := (v_next v, row)]> (v_log v))
    (((fun c => (v_next v, c)) <$> put_chunks k 0 cs ∅) ∪ v_chunks v) (S (v_next v)).

Definition commit_deletion (v : versioned) (dead : gmap (BlobKey * Z) nat) (gone : gmap BlobKey nat) : versioned :=
  mkVersioned (remove gone (v_log v)) (remove dead (v_chunks v)) (v_next v).

Section race.
Context {pg : PgServer}.

Inductive race_step : race -> race -> Prop :=
  | step_head v ts i k now prev head :
      ts !! i = None ->
      sql_head (Pseudonym k) (DeviceID k) (Generation k) (committed v) = Ok head ->
      Seq k = match head with Some h => wrap64 (h + 1) | None => 1 end ->
      race_step (mkRace v ts) (mkRace v (<[i := Uploading k now prev []]> ts))
  | step_chunk v ts i k now prev cs c t :
      ts !! i = Some (Uploading k now prev cs) ->
      c <> [] -> (length c <= chunk_len)%nat ->
      sql_insert_chunk k (Z.of_nat (length cs)) c (view v k cs) = Ok (t, ()) ->
      others ts i (fun t' => ~ inserts_chunk t' (k, Z.of_nat (length cs))) ->
      race_step (mkRace v ts) (mkRace v (<[i := Uploading k now prev (cs ++ [c])]> ts))
  | step_log v ts i k now prev cs t :
      ts !! i = Some (Uploading k now prev cs) ->
      wrap64 (Z.of_nat (length (mjoin cs))) <> 0 ->
      sql_insert_log now k (sha256_hex (mjoin cs)) (nullable prev) (wrap64 (Z.of_nat (length (mjoin cs))))
        (view v k cs) = Ok (t, ()) ->
      others ts i (fun t' => ~ inserts_log t' k) ->
      race_step (mkRace v ts) (mkRace v (<[i := Uploaded k cs (upload_row now prev cs)]> ts))
  | step_commit v ts i k cs row :
      ts !! i = Some (Uploaded k cs row) ->
      race_step (mkRace v ts) (mkRace (commit_upload v k cs row) (delete i ts))
  | step_rollback v ts i t :
      ts !! i = Some t ->
      race_step (mkRace v ts) (mkRace v (delete i ts))
  | step_del_start v ts i P :
      ts !! i = None ->
      race_step (mkRace v ts)
        (mkRace v (<[i := DelStarted P (snapshot (fun x => P x.1) (v_chunks v))]> ts))
  | step_del_chunks v ts i P seen :
      ts !! i = Some (DelStarted P seen) ->
      others ts i (fun t' => locks_chunks t' ##ₘ remaining seen (v_chunks v)) ->
      race_step (mkRace v ts) (mkRace v (<[i := DelChunks P (remaining seen (v_chunks v))]> ts))
  | step_del_second v ts i P dead :
      ts !! i = Some (DelChunks P dead) ->
      race_step (mkRace v ts) (mkRace v (<[i := DelSecond P dead (snapshot P (v_log v))]> ts))
  | step_del_log v ts i P dead seen :
      ts !! i = Some (DelSecond P dead seen) ->
      others ts i (fun t' => locks_log t' ##ₘ remaining seen (v_log v)) ->
      race_step (mkRace v ts) (mkRace v (<[i := DelLog P dead (remaining seen (v_log v))]> ts))
  | step_del_commit v ts i P dead gone :
      ts !! i = Some (DelLog P dead gone) ->
      race_step (mkRace v ts) (mkRace (commit_deletion v dead gone) (delete i ts)).

End race.

(** * What every interleaving keeps *)

(** The chunk rows of a key: all of one upload, or none. *)
Definition no_chunks (v : versioned) (k : BlobKey) : Prop := forall i, v_chunks v !! (k, i) = None.

Definition whole (v : versioned) (k : BlobKey) (n : nat) (cs : list bytes) : Prop :=
  cs <> [] /\ (n < v_next v)%nat /\ forall i, v_chunks v !! (k, i) = (fun c => (n, c)) <$> lookupZ cs i.

Definition row_ok (cs : list bytes) (row : log_row) : Prop :=
  cs <> [] /\ lr_sha256 row = sha256_hex (mjoin cs) /\ lr_size row = wrap64 (Z.of_nat (length (mjoin cs))).

(** A set of chunk rows that holds all rows of an upload or none. *)
Definition closed (v : versioned) (rows : gmap (BlobKey * Z) nat) : Prop :=
  forall k i n, rows !! (k, i) = Some n ->
    (n < v_next v)%nat /\ forall j c, v_chunks v !! (k, j) = Some (n, c) -> rows !! (k, j) = Some n.

(** Locked rows stay: nobody else may delete them. *)
Definition locked (v : versioned) (P : BlobKey -> bool) (dead : gmap (BlobKey * Z) nat) : Prop :=
  closed v dead /\ forall x n, dead !! x = Some n -> P x.1 = true /\ exists c, v_chunks v !! x = Some (n, c).

(** The log rows that go with the chunks. *)
Definition covers (v : versioned) (dead : gmap (BlobKey * Z) nat) (rows : gmap BlobKey nat) : Prop :=
  forall k i n row, dead !! (k, i) = Some n -> v_log v !! k = Some (n, row) -> rows !! k = Some n.

Definition txn_ok (v : versioned) (t : txn) : Prop :=
  match t with
  | Uploading k _ _ cs => cs <> [] -> no_chunks v k
  | Uploaded k cs row => row_ok cs row /\ no_chunks v k
  | DelStarted P seen => closed v seen /\ forall x n, seen !! x = Some n -> P x.1 = true
  | DelChunks P dead => locked v P dead
  | DelSecond P dead seen => locked v P dead /\ covers v dead seen
  | DelLog P dead gone => locked v P dead /\ covers v dead gone
  end.

Definition apart (t t' : txn) : Prop :=
  (forall x, inserts_chunk t x -> ~ inserts_chunk t' x) /\ locks_chunks t ##ₘ locks_chunks t'.

Record race_ok (r : race) : Prop := {
  ok_chunks k : no_chunks (r_rows r) k \/ exists n cs, whole (r_rows r) k n cs;
  ok_log k n row : v_log (r_rows r) !! k = Some (n, row) -> exists cs, whole (r_rows r) k n cs /\ row_ok cs row;
  ok_txn i t : r_txns r !! i = Some t -> txn_ok (r_rows r) t;
  ok_apart i j t t' : i <> j -> r_txns r !! i = Some t -> r_txns r !! j = Some t' -> apart t t';
}.

Lemma lookupZ_last (cs : list bytes) c i :
  lookupZ (cs ++ [c]) i = if decide (i = Z.of_nat (length cs)) then Some c else lookupZ cs i.
Proof.
  unfold lookupZ. repeat case_decide; subst; try done; try lia.
  - by rewrite Nat2Z.id, list_lookup_middle.
  - destruct (decide (Z.to_nat i < length cs)%nat).
    + by rewrite lookup_app_l.
    + rewrite (lookup_ge_None_2 cs) by lia. apply lookup_ge_None_2. rewrite length_app. simpl. lia.
Qed.

Lemma lookupZ_head (cs : list bytes) : cs <> [] -> exists c, lookupZ cs 0 = Some c.
Proof. destruct cs as [|c cs]; [done|]. by exists c. Qed.

Lemma whole_version v k n cs i m c : whole v k n cs -> v_chunks v !! (k, i) = Some (m, c) -> m = n.
Proof. intros (_ & _ & Hc) E. rewrite Hc in E. by apply fmap_Some in E as (? & _ & [= -> _]). Qed.

Lemma whole_head v k n cs : whole v k n cs -> exists c, v_chunks v !! (k, 0) = Some (n, c).
Proof. intros (Hne & _ & Hc). destruct (lookupZ_head cs Hne) as [c E]. exists c. by rewrite Hc, E. Qed.

(** The first chunk of a key tells whether there is any. *)
Lemma no_head r k : race_ok r -> v_chunks (r_rows r) !! (k, 0) = None -> no_chunks (r_rows r) k.
Proof. intros Hok E. destruct (ok_chunks r Hok k) as [|(n & cs & [c Hc]%whole_head)]; [done|congruence]. Qed.

Lemma closed_snapshot r P :
  race_ok r -> closed (r_rows r) (snapshot (fun x => P x.1) (v_chunks (r_rows r))).
Proof.
  intros Hok k i n [HP [c Hc]]%snapshot_Some. destruct (ok_chunks r Hok k) as [Hn|(m & cs & Hw)]; [congruence|].
  assert (n = m) as -> by by eapply whole_version. split; [by destruct Hw as (_ & ? & _)|].
  intros j c' Hj. apply snapshot_Some. simpl in *. eauto.
Qed.

Lemma closed_remaining v seen : closed v seen -> closed v (remaining seen (v_chunks v)).
Proof.
  intros Hs k i n [Hin _]%remaining_Some. destruct (Hs k i n Hin) as [Hn Hall]. split; [done|].
  intros j c Hj. apply remaining_Some. split; [by eapply Hall|by exists c].
Qed.

(** ** A transaction moves on *)

Lemma race_ok_set v ts i t :
  race_ok (mkRace v ts) -> txn_ok v t -> others ts i (apart t) -> race_ok (mkRace v (<[i := t]> ts)).
Proof.
  intros Hok Ht Hap. split; simpl; [apply Hok|apply Hok| |].
  - intros j t'. rewrite lookup_insert_Some. intros [[<- <-]|[_ Hj]]; [done|by apply (ok_txn _ Hok j)].
  - intros j j' t1 t2 Hne. rewrite !lookup_insert_Some. intros [[<- <-]|[Hj1 H1]] [[<- <-]|[Hj2 H2]]; try done.
    + by eapply Hap.
    + destruct (Hap j t1) as [Ha Hb]; [congruence|done|]. split; [|by symmetry].
      intros x Hx1 Hx2. by apply (Ha x).
    + by apply (ok_apart _ Hok j j').
Qed.

Lemma others_apart v ts i t : race_ok (mkRace v ts) -> ts !! i = Some t -> others ts i (apart t).
Proof. intros Hok Hi j t' Hne Hj. by apply (ok_apart _ Hok i j). Qed.

(** Without uncommitted rows or locks of its own. *)
Lemma apart_idle t t' : (forall x, ~ inserts_chunk t x) -> locks_chunks t = ∅ -> apart t t'.
Proof. intros Hi E. split; [by intros x ?%Hi|rewrite E; apply map_disjoint_empty_l]. Qed.

Lemma race_ok_delete v ts i : race_ok (mkRace v ts) -> race_ok (mkRace v (delete i ts)).
Proof.
  intros Hok. split; simpl; [apply Hok|apply Hok| |].
  - intros j t [_ Hj]%lookup_delete_Some. by apply (ok_txn _ Hok j).
  - intros j j' t t' Hne [_ H1]%lookup_delete_Some [_ H2]%lookup_delete_Some. by apply (ok_apart _ Hok j j').
Qed.

(** ** A transaction commits *)

Lemma commit_upload_chunks v k cs row k' i :
  v_chunks (commit_upload v k cs row) !! (k', i)
  = if decide (k' = k) then match lookupZ cs i with Some c => Some (v_next v, c) | None => v_chunks v !! (k, i) end
    else v_chunks v !! (k', i).
Proof.
  unfold commit_upload. cbn [v_chunks]. rewrite lookup_union, lookup_fmap, lookup_put_chunks by (intros; apply lookup_empty).
  rewrite Z.sub_0_r, lookup_empty. destruct (decide (k' = k)) as [->|Hne].
  - case_decide as Hi; [destruct (lookupZ cs i); simpl; [by destruct (v_chunks v !! _)|by destruct (v_chunks v !! _)]|].
    destruct (lookupZ cs i) as [c|] eqn:E; [|simpl; by destruct (v_chunks v !! _)].
    unfold lookupZ in E. case_decide; [|done]. by destruct Hi.
  - rewrite decide_False by naive_solver. simpl. by destruct (v_chunks v !! _).
Qed.

Lemma commit_upload_whole v k cs row k' n cs' :
  k' <> k -> whole v k' n cs' -> whole (commit_upload v k cs row) k' n cs'.
Proof.
  intros Hne (Hcs & Hn & Hc). split; [done|]. split; [simpl; lia|]. intros i.
  rewrite commit_upload_chunks, decide_False by done. apply Hc.
Qed.

Lemma commit_upload_own v k cs row : cs <> [] -> no_chunks v k -> whole (commit_upload v k cs row) k (v_next v) cs.
Proof.
  intros Hne Hno. split; [done|]. split; [simpl; lia|]. intros i. rewrite commit_upload_chunks, decide_True by done.
  rewrite Hno. by destruct (lookupZ cs i).
Qed.

Lemma commit_upload_closed v k cs row rows :
  no_chunks v k -> closed v rows -> closed (commit_upload v k cs row) rows.
Proof.
  intros Hno Hcl k' i n Hin. destruct (Hcl k' i n Hin) as [Hn Hall]. split; [simpl; lia|].
  intros j c. rewrite commit_upload_chunks. destruct (decide (k' = k)) as [->|]; [|apply Hall].
  rewrite Hno. destruct (lookupZ cs j); [|done]. intros [= <- _]. lia.
Qed.

Lemma commit_upload_locked v k cs row P dead :
  no_chunks v k -> locked v P dead -> locked (commit_upload v k cs row) P dead.
Proof.
  intros Hno [Hcl Hd]. split; [by apply commit_upload_closed|]. intros [k' i] n Hin.
  destruct (Hd _ _ Hin) as [HP [c Hc]]. split; [done|]. exists c. rewrite commit_upload_chunks, decide_False; [done|].
  intros ->. by rewrite Hno in Hc.
Qed.

Lemma commit_upload_covers v k cs row dead rows :
  closed v dead -> covers v dead rows -> covers (commit_upload v k cs row) dead rows.
Proof.
  intros Hcl Hc k' i n row' Hin. simpl. rewrite lookup_insert_Some. intros [[<- [= <- _]]|[_ Hl]]; [|by eapply Hc].
  destruct (Hcl _ _ _ Hin) as [Hn _]. lia.
Qed.

Lemma commit_upload_ok v ts i k cs row :
  race_ok (mkRace v ts) -> ts !! i = Some (Uploaded k cs row) ->
  race_ok (mkRace (commit_upload v k cs row) (delete i ts)).
Proof.
  intros Hok Hi. destruct (ok_txn _ Hok i _ Hi) as [(Hne & Hrow) Hno]. simpl in *.
  pose proof (others_apart _ _ _ _ Hok Hi) as Hap.
  assert (forall k', no_chunks v k' -> k' <> k -> no_chunks (commit_upload v k cs row) k') as Hkeep.
  { intros k' Hn Hk j. by rewrite commit_upload_chunks, decide_False. }
  split; simpl.
  - intros k'. destruct (decide (k' = k)) as [->|Hk]; [right; by eexists _, _; apply commit_upload_own|].
    destruct (ok_chunks _ Hok k') as [|(n & cs' & Hw)]; [left; by apply Hkeep|right; by eexists _, _; apply commit_upload_whole].
  - intros k' n row'. rewrite lookup_insert_Some. intros [[<- [= <- <-]]|[Hk Hl]].
    + exists cs. split; [by apply commit_upload_own|by split].
    + destruct (ok_log _ Hok _ _ _ Hl) as (cs' & Hw & Hr). exists cs'. split; [by apply commit_upload_whole|done].
  - intros j t [Hji Hj]%lookup_delete_Some. pose proof (ok_txn _ Hok j t Hj) as Ht. pose proof (Hap j t (not_eq_sym Hji) Hj) as [Ha _].
    assert (forall k' (cs' : list bytes), cs' <> [] -> (forall x, x.1 = k' /\ is_Some (lookupZ cs' x.2) -> inserts_chunk t x) -> k' <> k) as Hother.
    { intros k' cs' Hcs' Hins ->. destruct (lookupZ_head cs Hne) as [c Ec], (lookupZ_head cs' Hcs') as [c' Ec'].
      apply (Ha (k, 0)); [split; [done|by exists c]|]. apply Hins. split; [done|by exists c']. }
    destruct t as [k' ? ? cs'|k' cs' row'|P seen|P dead|P dead seen|P dead gone]; simpl in *.
    + intros Hcs'. apply Hkeep; [by apply Ht|]. by eapply Hother.
    + destruct Ht as [Hr Hn]. split; [done|]. apply Hkeep; [done|]. eapply Hother; [apply Hr|done].
    + destruct Ht. split; [by apply commit_upload_closed|done].
    + by apply commit_upload_locked.
    + destruct Ht as [Hl Hc]. split; [by apply commit_upload_locked|]. apply commit_upload_covers; [apply Hl|done].
    + destruct Ht as [Hl Hc]. split; [by apply commit_upload_locked|]. apply commit_upload_covers; [apply Hl|done].
  - intros j j' t t' Hne' [_ H1]%lookup_delete_Some [_ H2]%lookup_delete_Some. by apply (ok_apart _ Hok j j').
Qed.

Lemma commit_deletion_no v dead gone k : no_chunks v k -> no_chunks (commit_deletion v dead gone) k.
Proof.
  intros Hno i. simpl. destruct (remove dead (v_chunks v) !! (k, i)) as [[n c]|] eqn:E; [|done].
  apply remove_Some in E as [E _]. by rewrite Hno in E.
Qed.

(** All rows of an upload go, or none. *)
Lemma commit_deletion_whole v P dead gone k n cs :
  locked v P dead -> whole v k n cs ->
  if decide (dead !! (k, 0) = Some n) then no_chunks (commit_deletion v dead gone) k
  else whole (commit_deletion v dead gone) k n cs.
Proof.
  intros [Hcl _] Hw. case_decide as Hd.
  - intros i. simpl. destruct (remove dead (v_chunks v) !! (k, i)) as [[m c]|] eqn:E; [|done].
    apply remove_Some in E as [E Hm]. assert (m = n) as -> by by eapply whole_version.
    destruct Hm. destruct (Hcl _ _ _ Hd) as [_ Hall]. by eapply Hall.
  - destruct (whole_head _ _ _ _ Hw) as [c0 H0]. destruct Hw as (Hne & Hn & Hc). split; [done|]. split; [done|].
    intros i. simpl. rewrite <- Hc. destruct (v_chunks v !! (k, i)) as [[m c]|] eqn:E.
    + apply remove_Some. split; [done|]. intros Hm. assert (m = n) as -> by (eapply (whole_version v k n cs); done).
      apply Hd. destruct (Hcl _ _ _ Hm) as [_ Hall]. by eapply Hall.
    + destruct (remove dead (v_chunks v) !! (k, i)) as [[m c]|] eqn:E'; [|done].
      apply remove_Some in E' as [E' _]. congruence.
Qed.

Lemma commit_deletion_closed v dead gone rows : closed v rows -> closed (commit_deletion v dead gone) rows.
Proof.
  intros Hcl k i n Hin. destruct (Hcl k i n Hin) as [Hn Hall]. split; [done|].
  intros j c [Hj _]%remove_Some. by eapply Hall.
Qed.

Lemma commit_deletion_locked v dead gone P dead' :
  dead ##ₘ dead' -> locked v P dead' -> locked (commit_deletion v dead gone) P dead'.
Proof.
  intros Hdis [Hcl Hd]. split; [by apply commit_deletion_closed|]. intros x n Hin.
  destruct (Hd x n Hin) as [HP [c Hc]]. split; [done|]. exists c. apply remove_Some. split; [done|].
  intros Hin'. by eapply map_disjoint_spec.
Qed.

Lemma commit_deletion_covers v dead gone dead' rows :
  covers v dead' rows -> covers (commit_deletion v dead gone) dead' rows.
Proof. intros Hc k i n row Hin [Hl _]%remove_Some. by eapply Hc. Qed.

Lemma commit_deletion_ok v ts i P dead gone :
  race_ok (mkRace v ts) -> ts !! i = Some (DelLog P dead gone) ->
  race_ok (mkRace (commit_deletion v dead gone) (delete i ts)).
Proof.
  intros Hok Hi. destruct (ok_txn _ Hok i _ Hi) as [Hlock Hcov]. simpl in *.
  pose proof (others_apart _ _ _ _ Hok Hi) as Hap.
  split; simpl.
  - intros k. destruct (ok_chunks _ Hok k) as [Hno|(n & cs & Hw)]; [left; by apply commit_deletion_no|].
    pose proof (commit_deletion_whole v P dead gone k n cs Hlock Hw) as H. case_decide; [by left|right; eauto].
  - intros k n row [Hl Hg]%remove_Some. destruct (ok_log _ Hok _ _ _ Hl) as (cs & Hw & Hr). exists cs. split; [|done].
    pose proof (commit_deletion_whole v P dead gone k n cs Hlock Hw) as H. case_decide as Hd; [|done].
    destruct Hg. by eapply Hcov.
  - intros j t [Hji Hj]%lookup_delete_Some. pose proof (ok_txn _ Hok j t Hj) as Ht. pose proof (Hap j t (not_eq_sym Hji) Hj) as [_ Hdis].
    destruct t as [k' ? ? cs'|k' cs' row'|P' seen|P' dead'|P' dead' seen|P' dead' gone']; simpl in *.
    + intros Hcs'. by apply commit_deletion_no, Ht.
    + destruct Ht. split; [done|by apply commit_deletion_no].
    + destruct Ht. split; [by apply commit_deletion_closed|done].
    + by apply commit_deletion_locked.
    + destruct Ht. split; [by apply commit_deletion_locked|by apply commit_deletion_covers].
    + destruct Ht. split; [by apply commit_deletion_locked|by apply commit_deletion_covers].
  - intros j j' t t' Hne' [_ H1]%lookup_delete_Some [_ H2]%lookup_delete_Some. by apply (ok_apart _ Hok j j').
Qed.

Section steps.
Context {pg : PgServer}.

(** An inserted chunk's key was free, also in the transaction itself. *)
Lemma insert_chunk_free v k cs c t :
  sql_insert_chunk k (Z.of_nat (length cs)) c (view v k cs) = Ok (t, ()) ->
  cs = [] -> v_chunks v !! (k, 0) = None.
Proof.
  intros E ->. revert E. unfold sql_insert_chunk, res_bind. destruct (key_args k); [|done]. destruct (sql_args _ _); [|done].
  simpl. rewrite lookup_fmap. change (Z.of_nat 0) with 0. by destruct (v_chunks v !! (k, 0)).
Qed.

Lemma race_step_ok r r' : race_step r r' -> race_ok r -> race_ok r'.
Proof.
  intros Hstep Hok. destruct Hstep as
    [v ts i k now prev head Hi _ _|v ts i k now prev cs c t Hi Hc _ Hins Hfree|v ts i k now prev cs t Hi Hsize _ _
    |v ts i k cs row Hi|v ts i t Hi|v ts i P Hi|v ts i P seen Hi Hfree|v ts i P dead Hi|v ts i P dead seen Hi _|v ts i P dead gone Hi].
  - apply race_ok_set; [done|intros H; by destruct (H eq_refl)|]. intros j t' _ _. apply apart_idle; [|done].
    intros x [_ [c E]]. by rewrite lookupZ_nil in E.
  - pose proof (ok_txn _ Hok i _ Hi) as Ht. apply race_ok_set; [done| |]; simpl in *.
    + intros _. destruct cs as [|c0 cs]; [|by apply Ht].
      apply (no_head _ _ Hok). by eapply insert_chunk_free.
    + intros j t' Hne Hj. destruct (others_apart _ _ _ _ Hok Hi j t' Hne Hj) as [Ha _]. split; [|apply map_disjoint_empty_l].
      intros [k' idx] [Hk [c' Hin]]. simpl in *. subst k'. rewrite lookupZ_last in Hin. case_decide as Hd.
      * subst idx. by eapply Hfree.
      * apply Ha. split; [done|]. by exists c'.
  - pose proof (ok_txn _ Hok i _ Hi) as Ht. assert (cs <> []) as Hne by (by intros ->).
    apply race_ok_set; [done| |]; simpl in *.
    + split; [done|by apply Ht].
    + intros j t' Hji Hj. by destruct (others_apart _ _ _ _ Hok Hi j t' Hji Hj).
  - by apply commit_upload_ok.
  - by apply race_ok_delete.
  - apply race_ok_set; [done| |].
    + split; [by apply (closed_snapshot (mkRace v ts))|]. by intros x n [HP _]%snapshot_Some.
    + intros j t' _ _. apply apart_idle; [by intros x []|done].
  - destruct (ok_txn _ Hok i _ Hi) as [Hcl HP]. apply race_ok_set; [done| |].
    + split; [by apply closed_remaining|]. intros x n [Hin Hc]%remaining_Some. split; [by eapply HP|done].
    + intros j t' Hne Hj. split; [done|]. symmetry. by eapply Hfree.
  - pose proof (ok_txn _ Hok i _ Hi) as Hl. apply race_ok_set; [done| |].
    + split; [done|]. intros k n' m row Hin Hrow. apply snapshot_Some. destruct Hl as [_ Hl].
      destruct (Hl _ _ Hin) as [HP _]. split; [done|by exists row].
    + intros j t' Hne Hj. by destruct (others_apart _ _ _ _ Hok Hi j t' Hne Hj).
  - destruct (ok_txn _ Hok i _ Hi) as [Hl Hc]. apply race_ok_set; [done| |].
    + split; [done|]. intros k n m row Hin Hrow. apply remaining_Some. split; [by eapply Hc|by exists row].
    + intros j t' Hne Hj. by destruct (others_apart _ _ _ _ Hok Hi j t' Hne Hj).
  - by eapply commit_deletion_ok.
Qed.

(** Tables that hold a log, and no open transaction. *)
Definition at_rest (t : tables) : race :=
  mkRace (mkVersioned ((fun row => (O, row)) <$> blob_log t) ((fun c => (O, c)) <$> blob_chunks t) 1) ∅.

Lemma at_rest_ok t a :
  tables_refine t a -> map_Forall (fun _ l => Forall (fun b => in64 (Z.of_nat (length (ab_data b)))) l) a ->
  race_ok (at_rest t).
Proof.
  intros (Ha & Hl & Hc) H64.
  assert (forall k b, blob_at a k = Some b -> whole (r_rows (at_rest t)) k 0 (chunks_of (ab_data b)) /\
    row_ok (chunks_of (ab_data b)) (log_row_of b)) as Hw.
  { intros k b Hb. assert (ab_data b <> [] /\ in64 (Z.of_nat (length (ab_data b)))) as [Hd Hb64].
    { apply blob_at_Some in Hb as (s & j & _ & (l & Hs & Hlj)%log_of_lookup).
      destruct (alog_ok_lookup a s l Ha Hs) as (_ & _ & _ & Hall). rewrite Forall_forall in Hall.
      apply list_elem_of_lookup_2 in Hlj as Hin. split; [by apply Hall|].
      pose proof (H64 s l Hs) as Hall'. simpl in Hall'. rewrite Forall_forall in Hall'. by apply Hall'. }
    assert (chunks_of (ab_data b) <> []) as Hne by (rewrite chunks_of_cons by done; done).
    split; [split; [done|split; [simpl; lia|]]|split; [done|]].
    - intros i. simpl. by rewrite lookup_fmap, Hc, Hb.
    - simpl. rewrite mjoin_chunks_of. split; [done|]. by rewrite wrap64_id. }
  split; simpl.
  - intros k. destruct (blob_at a k) as [b|] eqn:Hb; [right; by eexists _, _; eapply Hw|left].
    intros i. simpl. by rewrite lookup_fmap, Hc, Hb.
  - intros k n row. rewrite lookup_fmap, Hl. destruct (blob_at a k) as [b|] eqn:Hb; [|done]. simpl. intros [= <- <-].
    eexists. by apply Hw.
  - intros i t'. by rewrite lookup_empty.
  - intros i j t1 t2 _. by rewrite lookup_empty.
Qed.

Lemma race_reachable_ok r r' : race_ok r -> rtc race_step r r' -> race_ok r'.
Proof. intros Hok Hr. induction Hr as [|r1 r2 r3 Hs _ IH]; [done|]. by apply IH, (race_step_ok r1). Qed.

(** C13. A blob the log names is there in full. However uploads, prunings and
    erasures interleave their statements, wait for each other and roll back,
    in every state a new transaction can see, each row of [blob_log] has all
    its chunks: a download announces the size of the row and delivers, byte
    for byte, content that hashes to the digest of the row. *)
Theorem pg_log_complete t a r k row :
  tables_refine t a -> map_Forall (fun _ l => Forall (fun b => in64 (Z.of_nat (length (ab_data b)))) l) a ->
  rtc race_step (at_rest t) r ->
  blob_log (committed (r_rows r)) !! k = Some row -> key_args k = Ok () ->
  exists s' body, pg_Get (mkSession (committed (r_rows r)) []) k = (s', Ok (body, lr_size row)) /\
    rd_err body = EOF /\ sha256_hex (rd_bytes body) = lr_sha256 row /\
    lr_size row = wrap64 (Z.of_nat (length (rd_bytes body))).
Proof.
  intros Ht H64 Hr Hrow Hargs. pose proof (race_reachable_ok _ _ (at_rest_ok t a Ht H64) Hr) as Hok.
  simpl in Hrow. apply lookup_fmap_Some in Hrow as ([n row'] & <- & Hrow).
  destruct (ok_log _ Hok _ _ _ Hrow) as (cs & (_ & _ & Hcs) & _ & Hsha & Hsize). simpl snd in *.
  assert (sql_chunks k (committed (r_rows r)) = Ok cs) as Hq.
  { unfold sql_chunks. rewrite Hargs. simpl. f_equal. apply sorted_chunks. intros i.
    rewrite lookup_fmap, Hcs. by destruct (lookupZ cs i). }
  assert (sql_size k (committed (r_rows r)) = Ok (lr_size row')) as Hz.
  { unfold sql_size. rewrite Hargs. simpl. by rewrite lookup_fmap, Hrow. }
  eexists _, (mkChunkReader cs None [] None). split; [|done].
  unfold pg_Get, db_call, db_query_row, db_query. cbn. by rewrite Hz, Hq.
Qed.
End steps.
