(* ===== verification/Pool.v ===== *)
(** The connection pool of [internal/blobstore/postgres.go], shared with
    [internal/nonce/postgres.go]: which connections the operations take, hold
    and give back, on every path.  An operation is a tree of actions on the
    pool, each with the path after it went well and the path after it failed;
    what the statements mean is in [PostgresStore] and [Nonce].

    The theorems: no operation holds a connection while it asks for another,
    and none ends with one, so that no number of concurrent requests can
    deadlock the pool; a manifest that looked up the head of each row with a
    second query, the shape the code's comment warns of, would; and as many
    slow uploads as the pool has connections stall every authentication until
    a client moves, which the timeouts of the server bound. *)
From S2P Require Import Prelude.
Local Open Scope nat_scope.

(** * Actions *)

Inductive action :=
  | BeginTx        (* s.db.BeginTx: a connection for a transaction *)
  | TxStatement    (* tx.QueryRowContext(...).Scan, tx.ExecContext, tx.QueryContext and its rows *)
  | Commit         (* tx.Commit *)
  | Rollback       (* tx.Rollback *)
  | DbQuery        (* s.db.QueryContext: a connection for a result set *)
  | RowsNext       (* rows.Next; at the end of the set, or on an error, the rows close *)
  | RowsScan       (* rows.Scan *)
  | RowsClose      (* rows.Close *)
  | DbExec         (* s.db.ExecContext, s.db.QueryRowContext(...).Scan, s.db.PingContext *)
  | DbDone         (* ... and the end of that statement *)
  | ClientIO.      (* reading the request's body, writing the response *)

(** What remains to be done; [Ret b] is a return without or with an error. *)
Inductive prog :=
  | Ret (ok : bool)
  | Act (a : action) (ok err : prog).

(** [p ;; q]: go on with [q] when [p] returned no error. *)
Fixpoint andThen (p q : prog) : prog :=
  match p with
  | Ret true => q
  | Ret false => Ret false
  | Act a ok err => Act a (andThen ok q) (andThen err q)
  end.

(** [defer a]: [a] runs on every way out. *)
Fixpoint defer (a : action) (p : prog) : prog :=
  match p with
  | Ret b => Act a (Ret b) (Ret b)
  | Act a' ok err => Act a' (defer a ok) (defer a err)
  end.

(** A statement on a connection of its own. *)
Definition exec (ok err : prog) : prog := Act DbExec (Act DbDone ok err) err.

(** A step whose failure is returned. *)
Definition step_or_fail (a : action) (p : prog) : prog := Act a p (Ret false).

(** * The operations *)

(** How [io.ReadFull] leaves a buffer that holds something: full, short at the
    end of the body, or short for an error of the body. *)
Inductive filled := Full | Short | Broken.

(** The loop of [PostgresStore.Append] over a body that fills the buffers
    [chunks]; a short one ends it without another read. *)
Fixpoint append_chunks (chunks : list filled) (rest : prog) : prog :=
  match chunks with
  | [] => step_or_fail ClientIO rest
  | f :: chunks' =>
      step_or_fail ClientIO
        (step_or_fail TxStatement
          match f with
          | Full => append_chunks chunks' rest
          | Short => rest
          | Broken => Ret false
          end)
  end.

(** [PostgresStore.Append]; an empty body is refused. *)
Definition append_conns (chunks : list filled) : prog :=
  step_or_fail BeginTx
    (defer Rollback
      (step_or_fail TxStatement                                     (* MAX(seq), and the check of the sequence *)
        (append_chunks chunks
          match chunks with
          | [] => Ret false
          | _ =>
              step_or_fail TxStatement                              (* INSERT INTO blob_log *)
                (step_or_fail Commit (Ret true))
          end))).

(** [rollback(tx)], whose error is only logged. *)
Definition rollback (p : prog) : prog := Act Rollback p p.

(** [chunkReader.Close]: the rows of the transaction, then the transaction. *)
Definition chunkReader_Close : prog := Act TxStatement (rollback (Ret true)) (rollback (Ret false)).

(** The handler streams [n] reads of the blob to its client, and closes. *)
Fixpoint stream_conns (n : nat) : prog :=
  match n with
  | O => chunkReader_Close
  | S n' => Act TxStatement (Act ClientIO (stream_conns n') chunkReader_Close) chunkReader_Close
  end.

(** [PostgresStore.Get] under the handler that copies the body out. *)
Definition get_conns (n : nat) : prog :=
  step_or_fail BeginTx
    (Act TxStatement                                                (* SELECT size *)
      (Act TxStatement                                              (* SELECT chunk *)
        (stream_conns n)
        (rollback (Ret false)))
      (rollback (Ret false))).

(** The loop over a result set of [n] rows, or fewer. *)
Fixpoint rows_loop (n : nat) : prog :=
  match n with
  | O => Act RowsNext (Ret true) (Ret true)
  | S n' => Act RowsNext (step_or_fail RowsScan (rows_loop n')) (Ret true)
  end.

(** [defer closeRows(rows)], whose error is only logged. *)
Definition closeRows : prog -> prog := defer RowsClose.

(** [PostgresStore.Index] and [PostgresStore.Manifest]: one statement. *)
Definition listing_conns (n : nat) : prog := step_or_fail DbQuery (closeRows (rows_loop n)).

(** The transaction of [DeleteGeneration] and [DeleteAccount]. *)
Definition delete_conns : prog :=
  step_or_fail BeginTx
    (defer Rollback (step_or_fail TxStatement (step_or_fail TxStatement (step_or_fail Commit (Ret true))))).

Definition prune_conns : prog := exec delete_conns (Ret false).

Definition ping_conns : prog := exec (Ret true) (Ret false).

(** [nonce.PostgresStore.Consume], with or without a sweep. *)
Definition consume_conns (sweep : bool) : prog :=
  let insert := exec (Ret true) (Ret false) in
  if sweep then exec insert (Ret false) else insert.

(** Writing the answer, whether or not the client still listens. *)
Definition answer_conns : prog := Act ClientIO (Ret true) (Ret true).

(** A request: one answered without the database, a health probe, or the nonce
    of its proof and, when that is accepted, a refusal of its parameters or
    the operation of its endpoint, and the answer. *)
Inductive request_conns : prog -> Prop :=
  | rq_plain : request_conns answer_conns
  | rq_health : request_conns (andThen ping_conns answer_conns)
  | rq_refused sweep : request_conns (andThen (consume_conns sweep) answer_conns)
  | rq_append sweep chunks : request_conns (andThen (consume_conns sweep) (andThen (append_conns chunks) answer_conns))
  | rq_get sweep n : request_conns (andThen (consume_conns sweep) (andThen (get_conns n) answer_conns))
  | rq_listing sweep n : request_conns (andThen (consume_conns sweep) (andThen (listing_conns n) answer_conns))
  | rq_prune sweep : request_conns (andThen (consume_conns sweep) (andThen prune_conns answer_conns))
  | rq_erase sweep : request_conns (andThen (consume_conns sweep) (andThen delete_conns answer_conns)).

(** * The pool *)

(** The connections one goroutine holds: for transactions, for result sets,
    for single statements. *)
Record conns := mkConns {
  c_tx : nat;
  c_rows : nat;
  c_stmt : nat;
}.

Definition none : conns := mkConns 0 0 0.
Definition held (c : conns) : nat := c_tx c + c_rows c + c_stmt c.

(** What waits for a connection. *)
Definition takes (a : action) : bool :=
  match a with BeginTx | DbQuery | DbExec => true | _ => false end.

(** A transaction that ended ignores another [Commit] or [Rollback]; rows that
    closed ignore another [Close].  A [Commit] that fails may leave the
    connection to the [Rollback] after it (it does when the request's context
    is over), and is taken to. *)
Definition effect (a : action) (went_well : bool) (c : conns) : conns :=
  match a with
  | BeginTx => if went_well then mkConns (S (c_tx c)) (c_rows c) (c_stmt c) else c
  | DbQuery => if went_well then mkConns (c_tx c) (S (c_rows c)) (c_stmt c) else c
  | DbExec => if went_well then mkConns (c_tx c) (c_rows c) (S (c_stmt c)) else c
  | Commit => if went_well then mkConns (pred (c_tx c)) (c_rows c) (c_stmt c) else c
  | Rollback => mkConns (pred (c_tx c)) (c_rows c) (c_stmt c)
  | RowsNext => if went_well then c else mkConns (c_tx c) (pred (c_rows c)) (c_stmt c)
  | RowsClose => mkConns (c_tx c) (pred (c_rows c)) (c_stmt c)
  | DbDone => mkConns (c_tx c) (c_rows c) (pred (c_stmt c))
  | TxStatement | RowsScan | ClientIO => c
  end.

(** [db.SetMaxOpenConns(25)] *)
Definition MaxOpenConns : nat := 25.

Record worker := mkWorker {
  wk_conns : conns;
  wk_prog : prog;
}.

(** The free connections, and the goroutines of the process. *)
Definition pool : Type := nat * list worker.

Section pool.
(** The requests that may arrive. *)
Context (arriving : prog -> Prop).

(** A goroutine acts, with either outcome, when a connection is free if it
    asks for one; a request arrives.  A wait may also be cancelled
    ([by_itself = false]), which the liveness below does not count on. *)
Inductive pool_step : bool -> pool -> pool -> Prop :=
  | ps_act free ws i c a ok err (went_well : bool) :
      ws !! i = Some (mkWorker c (Act a ok err)) -> (takes a = true -> 0 < free) ->
      pool_step true (free, ws)
        (free + held c - held (effect a went_well c),
         <[i := mkWorker (effect a went_well c) (if went_well then ok else err)]> ws)
  | ps_cancel free ws i c a ok err :
      ws !! i = Some (mkWorker c (Act a ok err)) -> takes a = true ->
      pool_step false (free, ws) (free, <[i := mkWorker c err]> ws)
  | ps_arrive free ws p :
      arriving p -> pool_step false (free, ws) (free, ws ++ [mkWorker none p]).

Definition any_step (s s' : pool) : Prop := exists by_itself, pool_step by_itself s s'.

Definition pool_reachable (s : pool) : Prop := rtc any_step (MaxOpenConns, []) s.
End pool.

(** * The discipline *)

(** On every path nothing is asked for while something is held, and [P] holds
    of the connections at the return. *)
Fixpoint disciplined (P : conns -> Prop) (c : conns) (p : prog) : Prop :=
  match p with
  | Ret _ => P c
  | Act a ok err =>
      (takes a = true -> held c = 0) /\ disciplined P (effect a true c) ok /\ disciplined P (effect a false c) err
  end.

Definition released (c : conns) : Prop := held c = 0.

Lemma held_none c : held c = 0 -> c = none.
Proof. destruct c as [t r s]. unfold held, none. simpl. intros. f_equal; lia. Qed.

Lemma disciplined_mono (P Q : conns -> Prop) c p : (forall c, P c -> Q c) -> disciplined P c p -> disciplined Q c p.
Proof. intros HPQ. revert c. induction p as [b|a ok IHok err IHerr]; intros c; simpl; [auto|]. intros (? & ? & ?). auto. Qed.

Lemma disciplined_andThen P c p q :
  disciplined released c p -> disciplined P none q -> P none -> disciplined P c (andThen p q).
Proof.
  intros Hp Hq HP. revert c Hp. induction p as [b|a ok IHok err IHerr]; intros c; simpl.
  - intros ->%held_none. by destruct b.
  - intros (? & ? & ?). auto.
Qed.

Lemma disciplined_defer P a c p :
  takes a = false -> disciplined (fun c => P (effect a true c) /\ P (effect a false c)) c p -> disciplined P c (defer a p).
Proof.
  intros Ha. revert c. induction p as [b|a' ok IHok err IHerr]; intros c; simpl.
  - intros [H1 H2]. rewrite Ha. done.
  - intros (? & ? & ?). auto.
Qed.

(** One transaction open, or none. *)
Definition in_tx (c : conns) : Prop := c_rows c = 0 /\ c_stmt c = 0 /\ c_tx c <= 1.
Definition one_tx : conns := mkConns 1 0 0.

Lemma disciplined_append_chunks P chunks rest :
  P one_tx -> disciplined P one_tx rest -> disciplined P one_tx (append_chunks chunks rest).
Proof.
  intros HP Hrest. induction chunks as [|[] chunks IH]; simpl; split_and!; auto; done.
Qed.

(** ** The operations *)

Lemma consume_disciplined sweep : disciplined released none (consume_conns sweep).
Proof. by destruct sweep; simpl; split_and!. Qed.

Lemma append_disciplined chunks : disciplined released none (append_conns chunks).
Proof.
  split; [done|]. split; [|done]. apply disciplined_defer; [done|].
  split; [done|]. split; [|done]. apply disciplined_append_chunks; [done|].
  by destruct chunks; simpl; split_and!.
Qed.

Lemma stream_disciplined n : disciplined released one_tx (stream_conns n).
Proof. induction n as [|n IH]; simpl; split_and!; done. Qed.

Lemma get_disciplined n : disciplined released none (get_conns n).
Proof. unfold get_conns. simpl. split_and!; try done. apply (stream_disciplined n). Qed.

Lemma rows_disciplined n :
  disciplined (fun c => released (effect RowsClose true c)) (mkConns 0 1 0) (rows_loop n).
Proof. induction n as [|n IH]; simpl; split_and!; done. Qed.

Lemma listing_disciplined n : disciplined released none (listing_conns n).
Proof.
  split; [done|]. split; [|done]. apply disciplined_defer; [done|].
  eapply disciplined_mono; [|apply rows_disciplined]. by intros c Hc.
Qed.

Lemma delete_disciplined : disciplined released none delete_conns.
Proof. by simpl; split_and!. Qed.

Lemma prune_disciplined : disciplined released none prune_conns.
Proof. by simpl; split_and!. Qed.

Lemma ping_disciplined : disciplined released none ping_conns.
Proof. by simpl; split_and!. Qed.

Lemma answer_disciplined : disciplined released none answer_conns.
Proof. by simpl; split_and!. Qed.

#[local] Hint Resolve consume_disciplined append_disciplined get_disciplined listing_disciplined delete_disciplined
  prune_disciplined ping_disciplined answer_disciplined : core.

Lemma request_disciplined p : request_conns p -> disciplined released none p.
Proof.
  destruct 1; [auto|..]; repeat (apply disciplined_andThen; [auto| |done]); auto.
Qed.

(** * The pool never deadlocks *)

Definition worker_ok (w : worker) : Prop := disciplined released (wk_conns w) (wk_prog w).

Definition in_use (ws : list worker) : nat := sum_list ((fun w => held (wk_conns w)) <$> ws).

Record pool_ok (s : pool) : Prop := {
  pool_counted : s.1 + in_use s.2 = MaxOpenConns;
  pool_workers : Forall worker_ok s.2;
  pool_single : Forall (fun w => held (wk_conns w) <= 1) s.2;
}.

Lemma in_use_insert ws i w w' :
  ws !! i = Some w -> in_use (<[i := w']> ws) + held (wk_conns w) = in_use ws + held (wk_conns w').
Proof.
  revert i. induction ws as [|x ws IH]; intros [|i] Hi; simplify_eq/=; unfold in_use in *; csimpl; [lia|].
  specialize (IH i Hi). simpl. lia.
Qed.

Lemma in_use_app ws w : in_use (ws ++ [w]) = in_use ws + held (wk_conns w).
Proof. unfold in_use. rewrite fmap_app. induction ws as [|x ws IH]; csimpl; [simpl; lia|]. simpl in IH. lia. Qed.

Lemma in_use_zero ws : Forall (fun w => held (wk_conns w) = 0) ws -> in_use ws = 0.
Proof. induction 1 as [|w ws Hw _ IH]; unfold in_use in *; csimpl; lia. Qed.

Lemma effect_held a w c : held (effect a w c) <= held c + (if takes a then 1 else 0).
Proof. destruct c as [t r s], a, w; unfold held; simpl; lia. Qed.

Lemma pool_step_ok b s s' : pool_step request_conns b s s' -> pool_ok s -> pool_ok s'.
Proof.
  intros Hstep [Hn Hw H1]. destruct Hstep as [free ws i c a ok err went Hi Hfree|free ws i c a ok err Hi Ha|free ws p Hp];
    cbn [fst snd] in *.
  - pose proof (Forall_lookup_1 _ _ _ _ Hw Hi) as (Hd & Hok & Herr). pose proof (Forall_lookup_1 _ _ _ _ H1 Hi) as Hc.
    cbn [wk_conns wk_prog] in *.
    pose proof (in_use_insert ws i _ (mkWorker (effect a went c) (if went then ok else err)) Hi) as Hsum.
    pose proof (effect_held a went c) as He. cbn [wk_conns] in Hsum. split; cbn [fst snd].
    + destruct (takes a); [specialize (Hfree eq_refl); specialize (Hd eq_refl)|]; lia.
    + apply Forall_insert; [done|]. by destruct went.
    + apply Forall_insert; [done|]. cbn [wk_conns]. destruct (takes a); [specialize (Hd eq_refl)|]; lia.
  - pose proof (Forall_lookup_1 _ _ _ _ Hw Hi) as (Hd & Hok & Herr). pose proof (Forall_lookup_1 _ _ _ _ H1 Hi) as Hc.
    cbn [wk_conns wk_prog] in *.
    pose proof (in_use_insert ws i _ (mkWorker c err) Hi) as Hsum. cbn [wk_conns] in Hsum. split; cbn [fst snd]; [lia| |].
    + apply Forall_insert; [done|]. unfold worker_ok. simpl. by destruct a.
    + by apply Forall_insert.
  - split; cbn [fst snd]; [rewrite in_use_app; unfold held; simpl; lia|..].
    + apply Forall_app. split; [done|]. apply Forall_singleton. by apply request_disciplined.
    + apply Forall_app. split; [done|]. apply Forall_singleton. unfold held. simpl. lia.
Qed.

Lemma pool_reachable_ok s : pool_reachable request_conns s -> pool_ok s.
Proof.
  unfold pool_reachable. intros H. remember (MaxOpenConns, []) as s0 eqn:E.
  assert (pool_ok s0) as Hok by (subst; split; [done|constructor..]). clear E.
  induction H as [|s1 s2 s3 [b Hs] _ IH]; [done|]. by eapply IH, pool_step_ok.
Qed.

Lemma worker_ok_one w : worker_ok w -> held (wk_conns w) > 0 -> exists a ok err, wk_prog w = Act a ok err /\ takes a = false.
Proof.
  destruct w as [c [b|a ok err]]; unfold worker_ok; simpl.
  - unfold released. lia.
  - intros (Ht & _) Hh. exists a, ok, err. split; [done|]. destruct (takes a); [specialize (Ht eq_refl); lia|done].
Qed.

Lemma in_use_pos ws : 0 < in_use ws -> exists i w, ws !! i = Some w /\ 0 < held (wk_conns w).
Proof.
  induction ws as [|w ws IH]; unfold in_use; csimpl; [simpl; lia|]. intros H.
  destruct (decide (0 < held (wk_conns w))) as [Hw|Hw]; [by exists 0, w|].
  destruct IH as (i & w' & Hi & Hh); [unfold in_use; simpl in H; lia|]. by exists (S i), w'.
Qed.

Lemma in_use_done ws :
  Forall worker_ok ws -> (forall w, w ∈ ws -> exists b, wk_prog w = Ret b) -> in_use ws = 0.
Proof.
  intros Hw Hall. apply in_use_zero, Forall_forall. intros w Hin. rewrite Forall_forall in Hw.
  destruct (Hall w Hin) as [b Hb]. specialize (Hw w Hin). unfold worker_ok in Hw. by rewrite Hb in Hw.
Qed.

(** C11. The connection pool. However requests arrive, interleave and fail,
    every connection is free or held by one request, of which no one holds
    more than one; while some request is unfinished some request can go on
    without anything being cancelled, so the pool cannot deadlock; and when
    all have returned, on whatever paths, every connection is back. *)
Theorem pool_no_deadlock s :
  pool_reachable request_conns s ->
  s.1 + in_use s.2 = MaxOpenConns /\
  Forall (fun w => held (wk_conns w) <= 1) s.2 /\
  ((exists w a ok err, w ∈ s.2 /\ wk_prog w = Act a ok err) -> exists s', pool_step request_conns true s s') /\
  ((forall w, w ∈ s.2 -> exists b, wk_prog w = Ret b) -> s.1 = MaxOpenConns).
Proof.
  intros Hr. pose proof (pool_reachable_ok s Hr) as [Hn Hw H1]. destruct s as [free ws]. cbn [fst snd] in *.
  split_and!; [done|done| |intros Hall; pose proof (in_use_done ws Hw Hall); lia].
  intros (w & a & ok & err & Hin & Hp). destruct (decide (0 < free)) as [Hf|Hf].
  - apply list_elem_of_lookup_1 in Hin as [i Hi]. destruct w as [c p]. simpl in Hp. subst p.
    eexists. by apply (ps_act _ free ws i c a ok err true).
  - destruct (in_use_pos ws) as (i & w' & Hi & Hh); [unfold MaxOpenConns in *; lia|].
    pose proof (Forall_lookup_1 _ _ _ _ Hw Hi) as Hok.
    destruct (worker_ok_one w' Hok Hh) as (a' & ok' & err' & Hp' & Ht). destruct w' as [c p']. simpl in Hp'. subst p'.
    eexists. apply (ps_act _ free ws i c a' ok' err' true); [done|]. by rewrite Ht.
Qed.

(** A read in progress: its transaction is open, its blob half sent. *)

(** * The manifest of the obvious shape *)

(** Aggregate rows first, and for each of them a second query of its head. *)
Fixpoint nested_loop (n : nat) : prog :=
  match n with
  | O => Act RowsNext (Ret true) (Ret true)
  | S n' => Act RowsNext (step_or_fail RowsScan (exec (nested_loop n') (Ret false))) (Ret true)
  end.

Definition nested_manifest (n : nat) : prog := step_or_fail DbQuery (defer RowsClose (nested_loop n)).

(** Where each of them stands when it has its first row. *)
Definition stuck (n : nat) : worker :=
  mkWorker (mkConns 0 1 0) (defer RowsClose (exec (nested_loop n) (Ret false))).

(** The last goroutine acts, and it goes well. *)
Lemma last_acts arriving free ws c a ok err :
  (takes a = true -> 0 < free) ->
  any_step arriving (free, ws ++ [mkWorker c (Act a ok err)])
    (free + held c - held (effect a true c), ws ++ [mkWorker (effect a true c) ok]).
Proof.
  intros Hfree. exists true.
  pose proof (ps_act arriving free (ws ++ [mkWorker c (Act a ok err)]) (length ws) c a ok err true) as H.
  rewrite insert_app_r_alt, Nat.sub_diag in H by done. apply H; [by apply list_lookup_middle|done].
Qed.

Lemma stuck_step n free ws :
  rtc (any_step (eq (nested_manifest (S n)))) (S free, ws) (free, ws ++ [stuck n]).
Proof.
  eapply rtc_l; [by exists false; apply ps_arrive|].
  eapply rtc_l; [apply last_acts; intros; lia|].
  eapply rtc_l; [by apply last_acts|].
  eapply rtc_l; [by apply last_acts|].
  replace (_ + _ - _) with free; [apply rtc_refl|]. unfold held. simpl. lia.
Qed.

Lemma stuck_reachable n k :
  k <= MaxOpenConns -> pool_reachable (eq (nested_manifest (S n))) (MaxOpenConns - k, replicate k (stuck n)).
Proof.
  induction k as [|k IH]; intros Hk; [apply rtc_refl|]. unfold pool_reachable in *; etrans; [apply IH; lia|].
  replace (MaxOpenConns - k) with (S (MaxOpenConns - S k)) by lia. rewrite replicate_S_end. apply stuck_step.
Qed.

(** Why [Manifest] is one statement: with a query per row, as many manifests
    as the pool has connections can each hold one and wait for another, and
    none goes on. *)
Theorem nested_manifest_deadlocks n :
  let s := (0, replicate MaxOpenConns (stuck n)) in
  pool_reachable (eq (nested_manifest (S n))) s /\ forall s', ~ pool_step (eq (nested_manifest (S n))) true s s'.
Proof.
  split; [by apply (stuck_reachable n MaxOpenConns)|]. intros s'. generalize MaxOpenConns as k. intros k Hstep.
  inversion Hstep as [free ws i c a ok err w Hi Hfree| |]; subst. apply lookup_replicate in Hi as [Heq _].
  injection Heq as _ -> _ _. specialize (Hfree eq_refl). lia.
Qed.

(** An upload that has read nothing yet of its body: its transaction open. *)
Definition slow_prog : prog :=
  andThen (defer Rollback (append_chunks [Full] (step_or_fail TxStatement (step_or_fail Commit (Ret true))))) answer_conns.
Definition slow_upload : worker := mkWorker one_tx slow_prog.

Lemma slow_step free ws : rtc (any_step request_conns) (S free, ws) (free, ws ++ [slow_upload]).
Proof.
  eapply rtc_l; [exists false; apply ps_arrive, (rq_append false [Full])|].
  do 4 (eapply rtc_l; [apply last_acts; first [done|intros _; unfold held; simpl; lia]|]).
  replace (_ + _ - _) with free; [apply rtc_refl|]. unfold held. simpl. lia.
Qed.

Lemma slow_reachable k :
  k <= MaxOpenConns -> pool_reachable request_conns (MaxOpenConns - k, replicate k slow_upload).
Proof.
  induction k as [|k IH]; intros Hk; [apply rtc_refl|]. unfold pool_reachable in *. etrans; [apply IH; lia|].
  replace (MaxOpenConns - k) with (S (MaxOpenConns - S k)) by lia. rewrite replicate_S_end. apply slow_step.
Qed.

(** What [StreamTimeout] is for: as many slow uploads as there are connections
    stall every authentication.  No nonce is consumed until one of their
    clients sends, or gives up. *)
Theorem slow_uploads_stall :
  let auth := mkWorker none (andThen (consume_conns false) answer_conns) in
  let s := (0, replicate MaxOpenConns slow_upload ++ [auth]) in
  pool_reachable request_conns s /\
  forall s', pool_step request_conns true s s' -> s'.2 !! MaxOpenConns = Some auth.
Proof.
  split.
  - eapply rtc_r; [apply (slow_reachable MaxOpenConns); done|]. exists false. apply ps_arrive. apply (rq_refused false).
  - intros s'. generalize MaxOpenConns as k. intros k Hstep.
    inversion Hstep as [free ws i c a ok err w Hi Hfree| |]; subst. simpl.
    apply lookup_app_Some in Hi as [[Heq Hi]%lookup_replicate|[Hge Hi]].
    + rewrite list_lookup_insert_ne by lia. apply list_lookup_middle. by rewrite length_replicate.
    + apply list_lookup_singleton_Some in Hi as [_ [= <- <- _ _]]. specialize (Hfree eq_refl). lia.
Qed.

(** One read in progress: its transaction open, the first chunk to come. *)
Definition reading : pool := (24, [mkWorker one_tx (andThen (stream_conns 1) answer_conns)]).

Lemma reading_reachable : pool_reachable request_conns reading.
Proof.
  eapply rtc_l; [exists false; apply ps_arrive, (rq_get false 1)|]. simpl app.
  do 5 (eapply rtc_l; [apply (last_acts _ _ []); intros _; unfold MaxOpenConns, held; simpl; lia|]). apply rtc_refl.
Qed.

Example pool_no_deadlock_witness :
  (exists s', pool_step request_conns true reading s') /\ reading.1 + in_use reading.2 = MaxOpenConns.
Proof.
  pose proof (pool_no_deadlock reading reading_reachable) as (Hn & _ & Hgo & _). split; [|exact Hn].
  apply Hgo. eexists _, _, _, _. split; [by apply list_elem_of_singleton|reflexivity].
Defined.
