(* ===== verification/Main.v ===== *)
(** [cmd/server/main.go], with [internal/wallet/wallet.go] and
    [internal/otel/otel.go]: how the process comes up.  A boot ends in a
    running server or in an error, where the code logs it and exits; what
    becomes of the running process is in [Lifecycle]. *)
From S2P Require Import Prelude GoStrings GoError Config Sql Nonce AuthProof GoIO BlobStore LogFacts Tracing.
From S2P Require Import Bodies Http Handlers Middlewares Server MemoryStore MemoryStoreOk.
From S2P Require Import PostgresStore PostgresFacts PostgresStoreOk PostgresProps.
Local Open Scope Z_scope.
Local Open Scope go_scope.

(** * otel.go *)

(** How the constructors of the OpenTelemetry SDK end. *)
Record otel_outcomes := mkOutcomes {
  out_resource : option error;
  out_traces : option error;
  out_metrics : option error;
}.

(** A provider of the process: the SDK's no-op, or one that exports to an
    endpoint until it is shut down. *)
Inductive provider :=
  | NoOp
  | Exporting (endpoint : string)
  | ShutDown (endpoint : string).

Record otel_globals := mkGlobals {
  g_propagator : bool;    (* W3C trace context and baggage *)
  g_tracer : provider;
  g_meter : provider;
}.

Definition Setup (endpoint : string) (o : otel_outcomes) (g : otel_globals) : otel_globals * option error :=
  let g := mkGlobals true (g_tracer g) (g_meter g) in
  if bool_decide (endpoint = "") then (g, None)
  else
    match out_resource o with
    | Some e => (g, Some e)
    | None =>
        match out_traces o with
        | Some e => (g, Some e)
        | None =>
            match out_metrics o with
            | Some e => (mkGlobals true (ShutDown (endpoint +:+ "/v1/traces")) (g_meter g), Some e)
            | None => (mkGlobals true (Exporting (endpoint +:+ "/v1/traces")) (Exporting (endpoint +:+ "/v1/metrics")), None)
            end
        end
    end.

(** * main.go *)

(** What the process finds: its environment (with the .env file merged in),
    the database with a script of how it will answer, and how the SDKs it
    sets up behave. *)
Record database := mkDatabase {
  db_blobs : schema;
  db_nonces : option (gmap string Z);
}.

Record process := mkProcess {
  p_env : Env;
  p_otel : otel_outcomes;
  p_globals : otel_globals;
  p_dsn : option error;      (* sql.Open on DATABASE_URL *)
  p_database : database;
  p_script : list fate;
  p_nonce_envs : list env;
}.

Section main.
Context {crypto : Crypto} {keys : Keys} {tf : TimeFormat} {chi : Chi} {pg : PgServer}.
Context `{GoRange row} `{GoRange agg} `{GoRange Z}.

Definition NewServerIdentity (hexKey : string) : result Wallet :=
  try priv := wrap_err "parse server key: " (PrivateKeyFromHex hexKey) in
  wrap_err "build server wallet: " (NewCompletedProtoWallet priv).

Inductive stores :=
  | InMemory (store : tracingStore MemoryStore) (nonces : NonceMemory)
  | InDatabase (store : tracingStore PostgresStore) (nonces : NoncePostgres).

(** [openStore]; the statements of the store run on the tables the schema
    holds then. *)
Definition openStore (cfg : Config) (p : process) : database * result stores :=
  if bool_decide (DatabaseURL cfg = "") then
    (p_database p, Ok (InMemory (WithTracing NewMemoryStore) NewNonceMemory))
  else
    let db := p_database p in
    match NewPostgresStore (p_dsn p) (mkSession (db_blobs db) (p_script p)) with
    | (s, Err e) => (mkDatabase (tables_of s) (db_nonces db), Err e)
    | (s, Ok _) =>
        match NewNoncePostgres (mkSession (db_nonces db) (script s)) with
        | (s', Err e) => (mkDatabase (tables_of s) (tables_of s'), Err e)
        | (s', Ok _) =>
            (mkDatabase (tables_of s) (tables_of s'),
             Ok (InDatabase (WithTracing (mkSession (boot_tables (tables_of s)) (script s')))
                   (mkNoncePostgres (default ∅ (tables_of s')) (p_nonce_envs p))))
        end
    end.

(** A server that listens, over its stores. *)
Inductive running :=
  | RunningInMemory (store : tracingStore MemoryStore) (nonces : NonceMemory)
      (srv : http_Server (St := tracingStore MemoryStore) (NSt := NonceMemory))
  | RunningInDatabase (store : tracingStore PostgresStore) (nonces : NoncePostgres)
      (srv : http_Server (St := tracingStore PostgresStore) (NSt := NoncePostgres)).

Definition start (d : Deps) (st : stores) : result running :=
  match st with
  | InMemory store nonces => try srv := New d in Ok (RunningInMemory store nonces srv)
  | InDatabase store nonces => try srv := New d in Ok (RunningInDatabase store nonces srv)
  end.

Definition main (p : process) : database * result running :=
  match Load (p_env p) with
  | Err e => (p_database p, Err e)
  | Ok cfg =>
      match Setup (OTelEndpoint cfg) (p_otel p) (p_globals p) with
      | (_, Some e) => (p_database p, Err e)
      | (_, None) =>
          match NewServerIdentity (ServerPrivateKey cfg) with
          | Err e => (p_database p, Err e)
          | Ok srvWallet =>
              match openStore cfg p with
              | (db, Err e) => (db, Err e)
              | (db, Ok st) => (db, start (mkDeps srvWallet (MaxBlobBytes cfg) (Port cfg)) st)
              end
          end
      end
  end.

(** * What a boot leaves behind *)

Context {laws : PgServerLaws pg}.

(** No row of the current layout is lost, no spent nonce is forgotten. *)
Definition database_kept (db db' : database) : Prop :=
  kept (db_blobs db) (db_blobs db') /\ forall t, db_nonces db = Some t -> db_nonces db' = Some t.

Lemma database_kept_refl db : database_kept db db.
Proof. by split. Qed.

(** The running server's handler and address. *)
Definition serves {St NSt : Type} {bs : BlobStore St} {ns : NonceStore NSt} (cfg : Config)
    (srv : http_Server (St := St) (NSt := NSt)) : Prop :=
  exists w, NewServerIdentity (ServerPrivateKey cfg) = Ok w /\
    NewRouter (mkDeps w (MaxBlobBytes cfg) (Port cfg)) = Ok (Handler srv) /\
    Addr srv = ":" +:+ FormatInt (Port cfg).

Definition running_ok (p : process) (r : running) : Prop :=
  exists cfg, Load (p_env p) = Ok cfg /\
  match r with
  | RunningInMemory store nonces srv =>
      DatabaseURL cfg = "" /\ refines store (∅ : alog) /\ nonces = NewNonceMemory /\ serves cfg srv
  | RunningInDatabase store nonces srv =>
      DatabaseURL cfg <> "" /\
      (forall a, tables_refine (boot_tables (db_blobs (p_database p))) a -> script_ok (p_script p) ->
         refines store a) /\
      auth_nonces nonces = default ∅ (db_nonces (p_database p)) /\ serves cfg srv
  end.

Lemma New_serves {St NSt : Type} {bs : BlobStore St} {ns : NonceStore NSt} cfg w
    (srv : http_Server (St := St) (NSt := NSt)) :
  NewServerIdentity (ServerPrivateKey cfg) = Ok w ->
  New (mkDeps w (MaxBlobBytes cfg) (Port cfg)) = Ok srv -> serves cfg srv.
Proof.
  unfold New. intros Hw. destruct (NewRouter _) as [h|e] eqn:E; [|done]. intros [= <-]. exists w. done.
Qed.

Lemma boot_tables_ready sc t : ready_tables sc = Some t -> boot_tables sc = t.
Proof. destruct sc as [[[|l]|] [c|]]; try done. by intros [= <-]. Qed.

Lemma openStore_ok cfg p :
  let '(db, r) := openStore cfg p in
  database_kept (p_database p) db /\
  match r with
  | Ok (InMemory store nonces) =>
      DatabaseURL cfg = "" /\ refines store (∅ : alog) /\ nonces = NewNonceMemory
  | Ok (InDatabase store nonces) =>
      DatabaseURL cfg <> "" /\
      (forall a, tables_refine (boot_tables (db_blobs (p_database p))) a -> script_ok (p_script p) ->
         refines store a) /\
      auth_nonces nonces = default ∅ (db_nonces (p_database p))
  | Err _ => True
  end.
Proof.
  unfold openStore. case_bool_decide as Hurl; [split; [apply database_kept_refl|]; split; [done|]; split; [apply mem_refines_new|done]|].
  set (s0 := mkSession (db_blobs (p_database p)) (p_script p)).
  pose proof (NewPostgresStore_boots (p_dsn p) s0) as Hb. 
  destruct (NewPostgresStore (p_dsn p) s0) as [s [[]|e]] eqn:E0; destruct Hb as [Hk Hb]; [|by split; [split|]].
  destruct (NewNoncePostgres _) as [s' r'] eqn:En.
  destruct (NewNoncePostgres_boots _ _ _ En) as [Hn Hr]. cbn [tables_of] in Hn, Hr.
  destruct r' as [[]|e]; (split; [by split|]); [|done].
  split; [done|]. split; [|by rewrite Hr]. intros a Ha Hs. simpl. split; cbn [tables_of script].
  - by rewrite (boot_tables_ready _ _ Hb).
  - destruct (NewPostgresStore_uses _ _ _ _ E0 Hs) as [Hs1 _]. specialize (Hs1 Hs).
    destruct (uses_migrate _ _ _ _ _ _ En Hs1) as [Hs2 _]. exact (Hs2 Hs1).
Qed.


End main.
