(* ===== verification/Lifecycle.v ===== *)
(** The life of the process of [cmd/server/main.go], from the boot of [Main]
    to its exit: the goroutine that listens, the wait for a signal, the
    graceful shutdown under its deadline, the flush of the telemetry and the
    deferred close of the store, as a step relation in which the requests, the
    clock and the signals come when they will. *)
From S2P Require Import Prelude GoStrings GoError Config Sql Nonce AuthProof GoIO BlobStore Tracing.
From S2P Require Import Bodies Http Handlers Middlewares Server MemoryStore PostgresStore PostgresFacts Main.
Local Open Scope Z_scope.

(** * What is called on the way out *)

(** [errors.Join]: nil when nothing went wrong. *)
Definition errors_Join (es : list (option error)) : list error := omap id es.

Definition shut_down (p : provider) : provider :=
  match p with Exporting e => ShutDown e | _ => p end.

(** The shutdown [Setup] returns, when the two providers answer [tp] and [mp]:
    each is shut down whatever the other says. *)
Definition otelShutdown (endpoint : string) (tp mp : option error) (g : otel_globals) : otel_globals * list error :=
  if bool_decide (endpoint = "") then (g, [])
  else (mkGlobals (g_propagator g) (shut_down (g_tracer g)) (shut_down (g_meter g)), errors_Join [tp; mp]).

(** * The state *)

(** [srv.ListenAndServe] in its goroutine: not begun, past its check that the
    server is not shutting down, accepting, returned. *)
Inductive listener := Unopened | Opening | Accepting | NotAccepting.

Inductive phase :=
  | Starting                    (* before signal.Notify *)
  | Waiting                     (* <-stop *)
  | Draining (deadline : Z)     (* srv.Shutdown(ctx) *)
  | Flushing (deadline : Z)     (* otelShutdown(ctx) *)
  | Exited (code : Z)
  | Killed.                     (* a signal that nobody asked for yet *)

Record life := mkLife {
  l_phase : phase;
  l_listener : listener;
  l_requests : nat;             (* in flight *)
  l_globals : otel_globals;
  l_pool_open : bool;           (* the connections to the database *)
  l_now : Z;                    (* ns *)
  l_log : list (Z * string);    (* the lines of the process, with their time *)
}.

Definition alive (ph : phase) : bool :=
  match ph with Exited _ | Killed => false | _ => true end.

(** [srv.inShutdown] *)
Definition shutting_down (ph : phase) : bool :=
  match ph with Draining _ | Flushing _ => true | _ => false end.

Definition to_phase (ph : phase) (s : life) : life :=
  mkLife ph (l_listener s) (l_requests s) (l_globals s) (l_pool_open s) (l_now s) (l_log s).
Definition set_listener (ln : listener) (s : life) : life :=
  mkLife (l_phase s) ln (l_requests s) (l_globals s) (l_pool_open s) (l_now s) (l_log s).
Definition set_requests (n : nat) (s : life) : life :=
  mkLife (l_phase s) (l_listener s) n (l_globals s) (l_pool_open s) (l_now s) (l_log s).
Definition set_globals (g : otel_globals) (s : life) : life :=
  mkLife (l_phase s) (l_listener s) (l_requests s) g (l_pool_open s) (l_now s) (l_log s).
Definition close_pool (s : life) : life :=
  mkLife (l_phase s) (l_listener s) (l_requests s) (l_globals s) false (l_now s) (l_log s).
Definition advance (d : Z) (s : life) : life :=
  mkLife (l_phase s) (l_listener s) (l_requests s) (l_globals s) (l_pool_open s) (l_now s + d) (l_log s).
Definition log_msg (msg : string) (s : life) : life :=
  mkLife (l_phase s) (l_listener s) (l_requests s) (l_globals s) (l_pool_open s) (l_now s) (l_log s ++ [(l_now s, msg)]).

(** A line that is logged when something went wrong. *)
Definition log_failure (es : list error) (msg : string) (s : life) : life :=
  match es with [] => s | _ => log_msg msg s end.

(** [context.WithTimeout(context.Background(), 15*time.Second)] *)
Definition shutdown_timeout : Z := 15 * 1000000000.

(** * The steps *)

Section life.
(** The telemetry endpoint of the configuration, and whether the stores are in
    the database. *)
Context (endpoint : string) (durable : bool).

(** The deferred [closeStore]: there is a pool to close, or nothing. *)
Definition closeStore (failed : option error) (s : life) : life :=
  if durable then log_failure (errors_Join [failed]) "failed to close store" (close_pool s) else s.

(** A signal: [srv.Shutdown] first closes the listener. *)
Definition begin_shutdown (s : life) : life :=
  let s := log_msg "shutting down" s in
  to_phase (Draining (l_now s + shutdown_timeout))
    (set_listener (match l_listener s with Accepting => NotAccepting | ln => ln end) s).

(** The end of [main]: the flush, the deferred calls, the return. *)
Definition finish (tp mp closed : option error) (s : life) : life :=
  let '(g, es) := otelShutdown endpoint tp mp (l_globals s) in
  to_phase (Exited 0) (closeStore closed (log_failure es "telemetry flush failed" (set_globals g s))).

Inductive life_step : life -> life -> Prop :=
  (* the goroutine *)
  | ls_open s :
      alive (l_phase s) = true -> l_listener s = Unopened ->
      life_step s (set_listener (if shutting_down (l_phase s) then NotAccepting else Opening) (log_msg "listening" s))
  | ls_listen s :
      alive (l_phase s) = true -> l_listener s = Opening ->
      life_step s (set_listener (if shutting_down (l_phase s) then NotAccepting else Accepting) s)
  (* the address is taken, or Accept fails for good; after a Shutdown only the former is an error *)
  | ls_server_failed s :
      alive (l_phase s) = true -> l_listener s = Opening \/ l_listener s = Accepting ->
      life_step s (to_phase (Exited 1) (log_msg "server failed" s))
  (* the clients and the clock *)
  | ls_request s :
      alive (l_phase s) = true -> l_listener s = Accepting -> life_step s (set_requests (S (l_requests s)) s)
  | ls_answered s n :
      alive (l_phase s) = true -> l_requests s = S n -> life_step s (set_requests n s)
  | ls_tick s d :
      alive (l_phase s) = true -> 0 < d -> life_step s (advance d s)
  (* main; a signal after the first stays in the channel *)
  | ls_notify s : l_phase s = Starting -> life_step s (to_phase Waiting s)
  | ls_early_signal s : l_phase s = Starting -> life_step s (to_phase Killed s)
  | ls_signal s : l_phase s = Waiting -> life_step s (begin_shutdown s)
  | ls_drained s deadline :
      l_phase s = Draining deadline -> l_requests s = O -> life_step s (to_phase (Flushing deadline) s)
  | ls_timeout s deadline :
      l_phase s = Draining deadline -> deadline <= l_now s ->
      life_step s (to_phase (Flushing deadline) (log_msg "graceful shutdown failed" s))
  | ls_finish s deadline tp mp closed :
      l_phase s = Flushing deadline -> life_step s (finish tp mp closed s).

(** * What holds all along *)

Definition flushed (g : otel_globals) : otel_globals := (otelShutdown endpoint None None g).1.

(** A shutdown was begun at [t], and the listener is closed. *)
Definition shut_at (t : Z) (s : life) : Prop := (t, "shutting down") ∈ l_log s /\ l_listener s <> Accepting.

(** The requests were answered, or had the 15 s. *)
Definition drained (t : Z) (s : life) : Prop :=
  l_requests s = O \/ (exists t', t + shutdown_timeout <= t' /\ (t', "graceful shutdown failed") ∈ l_log s).

(** Telemetry and pool as they were at the boot. *)
Definition untouched (g0 : otel_globals) (s : life) : Prop := l_globals s = g0 /\ l_pool_open s = durable.

Definition life_ok (g0 : otel_globals) (s : life) : Prop :=
  match l_phase s with
  | Starting | Waiting | Killed => untouched g0 s
  | Draining deadline => untouched g0 s /\ shut_at (deadline - shutdown_timeout) s
  | Flushing deadline =>
      let t := deadline - shutdown_timeout in untouched g0 s /\ shut_at t s /\ drained t s
  | Exited code =>
      (code = 1 /\ untouched g0 s /\ (exists t, (t, "server failed") ∈ l_log s)) \/
      (code = 0 /\ l_globals s = flushed g0 /\ l_pool_open s = false /\ exists t, shut_at t s /\ drained t s)
  end.

Lemma otelShutdown_flushed tp mp g : (otelShutdown endpoint tp mp g).1 = flushed g.
Proof. unfold flushed, otelShutdown. by case_bool_decide. Qed.

(** What a line of the log does to what holds. *)
Lemma log_failure_keeps es msg s :
  l_globals (log_failure es msg s) = l_globals s /\ l_pool_open (log_failure es msg s) = l_pool_open s /\
  l_requests (log_failure es msg s) = l_requests s /\ l_listener (log_failure es msg s) = l_listener s /\
  l_now (log_failure es msg s) = l_now s /\ (forall x, x ∈ l_log s -> x ∈ l_log (log_failure es msg s)).
Proof. destruct es; simpl; split_and!; try done. intros x Hx. apply elem_of_app. by left. Qed.

Lemma closeStore_keeps failed s :
  l_globals (closeStore failed s) = l_globals s /\
  l_pool_open (closeStore failed s) = (if durable then false else l_pool_open s) /\
  l_requests (closeStore failed s) = l_requests s /\ l_listener (closeStore failed s) = l_listener s /\
  l_now (closeStore failed s) = l_now s /\ (forall x, x ∈ l_log s -> x ∈ l_log (closeStore failed s)).
Proof.
  unfold closeStore. destruct durable; [|done].
  by destruct (log_failure_keeps (errors_Join [failed]) "failed to close store" (close_pool s)) as (-> & -> & -> & -> & -> & H).
Qed.

Lemma drained_mono t s s' :
  l_requests s' = l_requests s \/ l_requests s' = O -> (forall x, x ∈ l_log s -> x ∈ l_log s') -> drained t s -> drained t s'.
Proof. intros [Hr|Hr] Hl; [|by left]. intros [H|(t' & Ht & H)]; [left; congruence|right; eauto]. Qed.

Lemma shut_at_mono t s s' :
  (l_listener s <> Accepting -> l_listener s' <> Accepting) -> (forall x, x ∈ l_log s -> x ∈ l_log s') ->
  shut_at t s -> shut_at t s'.
Proof. intros Hl Hx [? ?]. split; auto. Qed.

Lemma finish_ok g0 tp mp closed s deadline :
  l_phase s = Flushing deadline -> life_ok g0 s -> life_ok g0 (finish tp mp closed s).
Proof.
  unfold life_ok. intros ->. intros ([Hg Hp] & Hs & Hd). unfold finish.
  pose proof (otelShutdown_flushed tp mp (l_globals s)) as Hf. destruct (otelShutdown _ _ _ _) as [g es]. simpl in Hf. subst g.
  destruct (log_failure_keeps es "telemetry flush failed" (set_globals (flushed (l_globals s)) s)) as (E1 & E2 & E3 & E4 & _ & E6).
  set (s1 := log_failure _ _ _) in *.
  destruct (closeStore_keeps closed s1) as (F1 & F2 & F3 & F4 & _ & F6). set (s2 := closeStore _ _) in *.
  simpl in *. right. split; [done|]. split; [congruence|]. split; [rewrite F2, E2, Hp; by destruct durable|].
  exists (deadline - shutdown_timeout). split.
  - revert Hs. apply shut_at_mono; simpl; [congruence|auto].
  - revert Hd. apply drained_mono; simpl; [left; congruence|auto].
Qed.

(** A step that leaves the phase alone and, in a shutdown, neither opens the
    listener nor adds a request. *)
Lemma same_phase_ok g0 s s' :
  alive (l_phase s) = true -> l_phase s' = l_phase s -> l_globals s' = l_globals s -> l_pool_open s' = l_pool_open s ->
  (forall x, x ∈ l_log s -> x ∈ l_log s') ->
  (shutting_down (l_phase s) = true -> l_listener s <> Accepting ->
   l_listener s' <> Accepting /\ (l_requests s = O -> l_requests s' = O)) ->
  life_ok g0 s -> life_ok g0 s'.
Proof.
  unfold life_ok, untouched, shut_at, drained. intros Ha -> -> -> Hl Hsh. destruct (l_phase s); try done; simpl in *.
  - intros (? & Ht & Hn). destruct (Hsh eq_refl Hn). auto.
  - intros (? & (Ht & Hn) & Hd). destruct (Hsh eq_refl Hn) as [? Hr].
    split; [done|]. split; [auto|]. destruct Hd as [?|(t' & ? & ?)]; [by left; auto|right; eauto].
Qed.

Lemma alive_untouched g0 s : alive (l_phase s) = true -> life_ok g0 s -> untouched g0 s.
Proof. unfold life_ok. destruct (l_phase s); try done; intros _ H; apply H. Qed.

Lemma logged msg s : (l_now s, msg) ∈ l_log (log_msg msg s).
Proof. apply elem_of_app. right. by apply list_elem_of_singleton. Qed.

Lemma log_mono msg s x : x ∈ l_log s -> x ∈ l_log (log_msg msg s).
Proof. intros H. apply elem_of_app. by left. Qed.

Lemma life_step_ok g0 s s' : life_step s s' -> life_ok g0 s -> life_ok g0 s'.
Proof.
  intros Hstep Hok. pose proof (alive_untouched g0 s) as Hu.
  destruct Hstep as [s Ha Hl|s Ha Hl|s Ha Hl|s Ha Hl|s n Ha Hr|s d Ha Hd|s Hp|s Hp|s Hp|s dl Hp Hr|s dl Hp Ht|s dl tp mp cl Hp].
  - revert Hok. apply same_phase_ok; simpl; try done; [intros; by apply log_mono|]. by intros ->.
  - revert Hok. apply same_phase_ok; simpl; try done. by intros ->.
  - left. split; [done|]. split; [by apply Hu|]. eexists. apply logged.
  - revert Hok. apply same_phase_ok; simpl; done.
  - revert Hok. apply same_phase_ok; simpl; try done. intros _ ?. split; [done|]. by rewrite Hr.
  - revert Hok. apply same_phase_ok; simpl; done.
  - specialize (Hu ltac:(by rewrite Hp) Hok). exact Hu.
  - specialize (Hu ltac:(by rewrite Hp) Hok). exact Hu.
  - specialize (Hu ltac:(by rewrite Hp) Hok). split; [exact Hu|]. unfold begin_shutdown. simpl.
    rewrite Z.add_simpl_r. split; [apply logged|]. simpl. by destruct (l_listener s).
  - unfold life_ok in Hok. rewrite Hp in Hok. destruct Hok as [? ?]. split; [done|]. split; [done|]. by left.
  - unfold life_ok in Hok. rewrite Hp in Hok. destruct Hok as [? [? ?]]. split; [done|].
    split; [split; [by apply log_mono|done]|]. right. exists (l_now s). split; [lia|]. apply logged.
  - by eapply finish_ok.
Qed.

(** However many requests are in flight, and whatever their clients do, a
    shutdown ends by its deadline. *)
Lemma shutdown_ends s deadline :
  l_phase s = Draining deadline ->
  exists s', rtc life_step s s' /\ l_phase s' = Exited 0 /\ l_now s' = Z.max (l_now s) deadline /\
    l_requests s' = l_requests s.
Proof.
  intros Hp. set (s1 := if decide (l_now s < deadline) then advance (deadline - l_now s) s else s).
  assert (rtc life_step s s1 /\ l_phase s1 = Draining deadline /\ l_now s1 = Z.max (l_now s) deadline /\
          l_requests s1 = l_requests s) as (H1 & Hp1 & Hn1 & Hr1).
  { unfold s1. destruct (decide _) as [Hd|Hd]; [|split_and!; [apply rtc_refl|done|lia|done]].
    split_and!; [|done|simpl; lia|done]. apply rtc_once, ls_tick; [by rewrite Hp|lia]. }
  exists (finish None None None (to_phase (Flushing deadline) (log_msg "graceful shutdown failed" s1))). split.
  { eapply rtc_r; [eapply rtc_r; [exact H1|]|].
    - apply ls_timeout; [done|lia].
    - by eapply ls_finish. }
  unfold finish, otelShutdown, closeStore. rewrite <- Hn1, <- Hr1. by case_bool_decide; destruct durable.
Qed.
End life.

(** * From the boot *)

Section run.
Context {crypto : Crypto} {keys : Keys} {tf : TimeFormat} {chi : Chi} {pg : PgServer}.
Context `{GoRange row} `{GoRange agg} `{GoRange Z}.

Definition in_database (r : running) : bool :=
  match r with RunningInMemory _ _ _ => false | RunningInDatabase _ _ _ => true end.

(** What the boot said, at [now]. *)
Definition boot_log (cfg : Config) (now : Z) : list (Z * string) :=
  (if negb (bool_decide (OTelEndpoint cfg = "")) then [(now, "telemetry export enabled")] else []) ++
  (if bool_decide (DatabaseURL cfg = "") then
     [(now, "DATABASE_URL is not set — using an in-memory store; ALL DATA IS LOST ON RESTART")] else []).

(** The process when [main] has launched the goroutine. *)
Definition launch (p : process) (now : Z) : option (Config * life) :=
  match Load (p_env p), main p with
  | Ok cfg, (_, Ok r) =>
      Some (cfg, mkLife Starting Unopened 0 (Setup (OTelEndpoint cfg) (p_otel p) (p_globals p)).1 (in_database r) now (boot_log cfg now))
  | _, _ => None
  end.

(** What was said stays said. *)
Lemma boot_said endpoint durable s0 s :
  rtc (life_step endpoint durable) s0 s -> forall x, x ∈ l_log s0 -> x ∈ l_log s.
Proof.
  induction 1 as [|s1 s2 s3 Hs _ IH]; [done|]. intros x Hx. apply IH. revert Hx.
  destruct Hs; simpl; try done; try apply log_mono.
  unfold finish. destruct (otelShutdown _ _ _ _) as [g es]. simpl. intros Hx.
  apply closeStore_keeps, log_failure_keeps, Hx.
Qed.

Lemma main_database p cfg db r :
  Load (p_env p) = Ok cfg -> main p = (db, Ok r) -> in_database r = negb (bool_decide (DatabaseURL cfg = "")).
Proof.
  unfold main. intros ->. destruct (Setup _ _ _) as [g [e|]]; [done|]. destruct (NewServerIdentity _) as [w|e]; [|done].
  unfold openStore, start, res_bind. case_bool_decide as Hurl.
  - destruct (New _); [|done]. by intros [= <- <-].
  - destruct (NewPostgresStore _ _) as [sn [[]|e]]; [|done]. destruct (NewNoncePostgres _) as [sn' [[]|e]]; [|done].
    destruct (New _); [|done]. by intros [= <- <-].
Qed.

Lemma rtc_life_ok endpoint durable g0 s0 s :
  rtc (life_step endpoint durable) s0 s -> life_ok endpoint durable g0 s0 -> life_ok endpoint durable g0 s.
Proof. induction 1 as [|s1 s2 s3 Hs _ IH]; [done|]. intros Hok. by eapply IH, life_step_ok. Qed.

(** C19. The life of the process, whatever the clients, the clock and the
    signals do. As long as it runs, the database connections are open and
    the telemetry exports. It exits with 0 only through a shutdown begun by a
    signal, after the listener closed and after every request was answered or
    15 s were over, which is then logged; both telemetry providers are shut
    down by then and the connections closed. A failing server exits with 1 at
    once: nothing is flushed and nothing closed. A shutdown can end by its
    deadline whatever the requests in flight do, and a process that keeps its
    data in memory has said so. *)
Theorem life_cycle p now cfg s0 s :
  launch p now = Some (cfg, s0) ->
  let durable := negb (bool_decide (DatabaseURL cfg = "")) in
  rtc (life_step (OTelEndpoint cfg) durable) s0 s ->
  (alive (l_phase s) = true -> l_pool_open s = durable /\ l_globals s = l_globals s0) /\
  (forall code, l_phase s = Exited code ->
     (code = 0 /\ l_pool_open s = false /\ l_globals s = flushed (OTelEndpoint cfg) (l_globals s0) /\
      l_listener s <> Accepting /\
      exists t, (t, "shutting down") ∈ l_log s /\
        (l_requests s = O \/ exists t', t + 15 * 10 ^ 9 <= t' /\ (t', "graceful shutdown failed") ∈ l_log s)) \/
     (code = 1 /\ l_pool_open s = durable /\ l_globals s = l_globals s0 /\ exists t, (t, "server failed") ∈ l_log s)) /\
  (forall deadline, l_phase s = Draining deadline ->
     (deadline - 15 * 10 ^ 9, "shutting down") ∈ l_log s /\
     exists s', rtc (life_step (OTelEndpoint cfg) durable) s s' /\ l_phase s' = Exited 0 /\
       l_now s' = Z.max (l_now s) deadline /\ l_requests s' = l_requests s) /\
  (durable = false ->
     (now, "DATABASE_URL is not set — using an in-memory store; ALL DATA IS LOST ON RESTART") ∈ l_log s).
Proof.
  intros HL durable Hs. unfold launch in HL. destruct (Load (p_env p)) as [cfg'|] eqn:Hcfg; [|done].
  destruct (main p) as [db [r|]] eqn:Hm; [|done]. injection HL as -> <-.
  pose proof (main_database p cfg db r Hcfg Hm) as Hdb. fold durable in Hdb.
  assert (life_ok (OTelEndpoint cfg) durable (Setup (OTelEndpoint cfg) (p_otel p) (p_globals p)).1 s) as Hok.
  { eapply rtc_life_ok; [exact Hs|]. split; [done|exact Hdb]. }
  cbn [l_globals] in *. split_and!.
  - intros Ha. destruct (alive_untouched _ _ _ _ Ha Hok) as [? ?]. done.
  - intros code Hp. unfold life_ok in Hok. rewrite Hp in Hok. destruct Hok as [(-> & [? ?] & ?)|(-> & ? & ? & t & [? ?] & ?)].
    + by right.
    + left. split_and!; try done. by exists t.
  - intros deadline Hp. split; [|by apply shutdown_ends].
    unfold life_ok in Hok. rewrite Hp in Hok. apply Hok.
  - intros Hd. apply (boot_said _ _ _ _ Hs), elem_of_app. right. unfold durable in Hd.
    apply negb_false_iff in Hd. rewrite Hd. by apply list_elem_of_singleton.
Qed.

End run.
