(* ===== verification/Client.v ===== *)
(** [client/client.go]: the Go consumer of the service.

    The network is the [*http.Client] the caller may substitute, a parameter
    ([Transport]); the origin of the base URL (scheme and authority) is
    judged by a parameter too, the rest of the URL is parsed by [UrlEscape].
    Every signed attempt takes a clock reading and a draw of random bytes. *)
From S2P Require Import Prelude GoStrings GoError Sha256 GoTime Json JsonFacts Url UrlEscape AuthProof GoIO BlobStore.
Local Open Scope Z_scope.
Local Open Scope go_scope.

(** * The network *)

(** [http.Request], with [req.URL] split into its origin and the rest; a
    length of 0 beside a body means that it is unknown. *)
Record http_request := mkHttpRequest {
  hq_method : string;
  hq_origin : bytes;
  hq_url : URL;
  hq_header : gmap string string;
  hq_length : Z;
  hq_body : option source;
}.

Record http_response := mkHttpResponse {
  hp_status : Z;
  hp_length : Z;
  hp_body : source;
}.

Class Transport (N : Type) := {
  (** [http.Client.Do] *)
  http_Do : N -> http_request -> N * result http_response;
  (** what [url.Parse] and [http.Client] say of a scheme and an authority *)
  origin_error : bytes -> option error;
  (** and [url.Parse] of the rest of a malformed URL *)
  url_error : bytes -> error;
}.

(** What the decoders of [encoding/json] and [time] make of text they cannot
    or can read. *)
Class Decoders := {
  (** the error of [json.Decoder.Decode] on a stream of these bytes that ends so *)
  decode_error : bytes -> error -> error;
  (** [time.Time.UnmarshalJSON], on the text of the string *)
  UnmarshalTime : bytes -> option Z;
}.

(** * Wire shapes *)

Definition contentTypeOctetStream : string := "application/octet-stream".

Record Limits := mkLimits {
  MaxBlobBytes : Z;
  MaxBodyBytes : Z;
  ServerIdentityKey : string;
}.

Record AppendResult := mkAppendResult {
  Result_Seq : Z;
  Result_Sha256 : string;
  Result_Size : Z;
}.

(** The members of an object stored into a struct, the last of a name
    winning; a member of the wrong type is an error. *)
Definition set_members {A : Type} (set : A -> bytes * json -> option A) (zero : A) (v : json) : option A :=
  match v with
  | JObj m => foldl (fun acc kv => acc ≫= fun a => set a kv) (Some zero) m
  | JNull => Some zero
  | _ => None
  end.

(** An array stored into a slice; an element keeps what the slice held there. *)
Fixpoint set_elements {A : Type} (set : A -> json -> option A) (zero : A) (l : list json) (old : list A)
    : option (list A) :=
  match l with
  | [] => Some []
  | v :: l' =>
      match set (default zero (head old)) v, set_elements set zero l' (tail old) with
      | Some a, Some rest => Some (a :: rest)
      | _, _ => None
      end
  end.

Definition set_slice {A : Type} (set : A -> json -> option A) (zero : A) (v : json) (old : list A)
    : option (list A) :=
  match v with
  | JArr l => set_elements set zero l old
  | JNull => Some []
  | _ => None
  end.

Definition set_limits (l : Limits) (kv : bytes * json) : option Limits :=
  let '(k, v) := kv in
  let '(mkLimits blob body key) := l in
  if is_field "maxBlobBytes" k then (fun x => mkLimits x body key) <$> set_int64 v blob
  else if is_field "maxBodyBytes" k then (fun x => mkLimits blob x key) <$> set_int64 v body
  else if is_field "serverIdentityKey" k then (fun x => mkLimits blob body x) <$> set_string v key
  else Some l.

Definition set_append (r : AppendResult) (kv : bytes * json) : option AppendResult :=
  let '(k, v) := kv in
  let '(mkAppendResult seq sha size) := r in
  if is_field "seq" k then (fun x => mkAppendResult x sha size) <$> set_int64 v seq
  else if is_field "sha256" k then (fun x => mkAppendResult seq x size) <$> set_string v sha
  else if is_field "size" k then (fun x => mkAppendResult seq sha x) <$> set_int64 v size
  else Some r.

Definition set_deleted (n : Z) (kv : bytes * json) : option Z :=
  if is_field "deleted" kv.1 then set_int64 kv.2 n else Some n.

(** The error envelope: what does not fit is skipped, for the error of
    [json.Unmarshal] is ignored. *)
Definition set_envelope (e : string * string) (kv : bytes * json) : string * string :=
  let '(code, description) := e in
  if is_field "code" kv.1 then (default code (set_string kv.2 code), description)
  else if is_field "description" kv.1 then (code, default description (set_string kv.2 description))
  else e.

Section decoders.
Context {dec : Decoders}.

Definition set_time (v : json) (old : Z) : option Z :=
  match v with
  | JStr s => UnmarshalTime s
  | JNull => Some old
  | _ => None
  end.

Definition zero_entry : Entry := mkEntry 0 "" "" 0 time_zero.

Definition set_entry (e : Entry) (kv : bytes * json) : option Entry :=
  let '(k, v) := kv in
  let '(mkEntry seq sha prev size at_) := e in
  if is_field "seq" k then (fun x => mkEntry x sha prev size at_) <$> set_int64 v seq
  else if is_field "sha256" k then (fun x => mkEntry seq x prev size at_) <$> set_string v sha
  else if is_field "prevSha256" k then (fun x => mkEntry seq sha x size at_) <$> set_string v prev
  else if is_field "size" k then (fun x => mkEntry seq sha prev x at_) <$> set_int64 v size
  else if is_field "createdAt" k then (fun x => mkEntry seq sha prev size x) <$> set_time v at_
  else Some e.

Definition zero_summary : DeviceSummary := mkDeviceSummary "" 0 0 "" 0 time_zero.

Definition set_summary (d : DeviceSummary) (kv : bytes * json) : option DeviceSummary :=
  let '(k, v) := kv in
  let '(mkDeviceSummary id g seq sha total at_) := d in
  if is_field "deviceId" k then (fun x => mkDeviceSummary x g seq sha total at_) <$> set_string v id
  else if is_field "generation" k then (fun x => mkDeviceSummary id x seq sha total at_) <$> set_int64 v g
  else if is_field "headSeq" k then (fun x => mkDeviceSummary id g x sha total at_) <$> set_int64 v seq
  else if is_field "headSha256" k then (fun x => mkDeviceSummary id g seq x total at_) <$> set_string v sha
  else if is_field "totalBytes" k then (fun x => mkDeviceSummary id g seq sha x at_) <$> set_int64 v total
  else if is_field "updatedAt" k then (fun x => mkDeviceSummary id g seq sha total x) <$> set_time v at_
  else Some d.

Definition set_entries (l : list Entry) (kv : bytes * json) : option (list Entry) :=
  if is_field "entries" kv.1
  then set_slice (fun old v => set_members set_entry old v) zero_entry kv.2 l else Some l.

Definition set_devices (l : list DeviceSummary) (kv : bytes * json) : option (list DeviceSummary) :=
  if is_field "devices" kv.1
  then set_slice (fun old v => set_members set_summary old v) zero_summary kv.2 l else Some l.

(** [json.NewDecoder(body).Decode(&out)]: the first value of the stream. *)
Definition Decode_body {A : Type} (set : A -> bytes * json -> option A) (zero : A) (body : source) : result A :=
  let raw := mjoin (src_chunks body) in
  match scan_value (scan_fuel raw) max_depth raw with
  | Some (v, _) =>
      match set_members set zero v with
      | Some a => Ok a
      | None => Err (decode_error raw (src_final body))
      end
  | None => Err (decode_error raw (src_final body))
  end.

End decoders.

(** [decodeAPIError]: at most 64 KiB of the body are looked at. *)
Definition decodeAPIError (resp : http_response) : error :=
  let '(_, (all, _)) := ReadAll (hp_body resp) in
  let raw := take (Z.to_nat (Z.shiftl 64 10)) all in
  let '(code, description) :=
    match parse raw with
    | Some (JObj m) => foldl set_envelope ("", "") m
    | _ => ("", "")
    end in
  APIError (hp_status resp) code description.

(** * Requests *)

(** The body a caller uploads: any reader, or the [bytes.Reader] of
    [AppendBytes], whose length [http.NewRequest] knows. *)
Inductive upload :=
  | UploadReader (s : source)
  | UploadBytes (data : bytes).

(** Where the origin of an absolute URL ends. *)
Fixpoint until_path (s : bytes) : bytes * bytes :=
  match s with
  | [] => ([], [])
  | c :: s1 =>
      if one_of "/?#" c then ([], s)
      else let '(a, b) := until_path s1 in (c :: a, b)
  end.

Fixpoint split_origin (s : bytes) : bytes * bytes :=
  match s with
  | [] => ([], [])
  | c :: s1 =>
      match s1 with
      | c2 :: s2 =>
          if bool_decide (c = "/"%char) && bool_decide (c2 = "/"%char) then
            let '(h, rest) := until_path s2 in (c :: c2 :: h, rest)
          else let '(o, rest) := split_origin s1 in (c :: o, rest)
      | [] => (s, [])
      end
  end.

Section client.
Context {crypto : Crypto} {dec : Decoders} {N : Type} {net : Transport N}.

(** [http.NewRequestWithContext] *)
Definition NewRequest (method url : string) (body : option upload) : result http_request :=
  let '(origin, rest) := split_origin (bytes_of_string url) in
  match origin_error origin with
  | Some e => Err e
  | None =>
      match parse_tail rest with
      | None => Err (url_error rest)
      | Some u =>
          let '(length, body) :=
            match body with
            | None | Some (UploadBytes []) => (0, None)
            | Some (UploadBytes data) => (Z.of_nat (length data), Some (bytes_reader data))
            | Some (UploadReader s) => (0, Some s)
            end in
          Ok (mkHttpRequest method origin u ∅ length body)
      end
  end.

(** * The client *)

(** [walletErr] is the error of [wallet]. *)
Record Client := mkClient {
  baseURL : string;
  wallet : result Wallet;
  limits : option Limits;
}.

Definition New {keys : Keys} (base : string) (priv : PrivateKey) : Client :=
  mkClient (TrimRight base "/"%char) (NewCompletedProtoWallet priv) None.

(** A clock reading and the bytes [rand.Read] yields. *)
Abbreviation stamp := (Z * result bytes)%type.

Definition fetch_limits (base : string) (n : N) : N * result Limits :=
  match NewRequest "GET" (base +:+ "/v1/limits") None with
  | Err e => (n, Err e)
  | Ok req =>
      match http_Do n req with
      | (n, Err e) => (n, Err (Wrapf "fetch limits: " e ""))
      | (n, Ok resp) =>
          if negb (hp_status resp =? 200) then (n, Err (decodeAPIError resp))
          else
            (n, try lim := wrap_err "decode limits: " (Decode_body set_limits (mkLimits 0 0 "") (hp_body resp)) in
                if bool_decide (ServerIdentityKey lim = "") then Err ErrNoServerIdentityKey else Ok lim)
      end
  end.

(** [Limits]: fetched once, retried after a failure. *)
Definition client_Limits (c : Client) (n : N) : Client * N * result Limits :=
  match limits c with
  | Some lim => (c, n, Ok lim)
  | None =>
      match fetch_limits (baseURL c) n with
      | (n, Ok lim) => (mkClient (baseURL c) (wallet c) (Some lim), n, Ok lim)
      | (n, Err e) => (c, n, Err e)
      end
  end.

(** [roundTrip]: one signed attempt. *)
Definition roundTrip (w : Wallet) (base key method requestURI bodySha256 : string) (body : option upload)
    (size : Z) (st : stamp) (n : N) : N * result http_response :=
  match wrap_err "sign request: " (Sign w key (Action method requestURI bodySha256) st.1 st.2) with
  | Err e => (n, Err e)
  | Ok proof =>
      match NewRequest method (base +:+ requestURI) body with
      | Err e => (n, Err e)
      | Ok req =>
          let header := <[Header := Encode proof]> (hq_header req) in
          let req :=
            match body with
            | None => mkHttpRequest (hq_method req) (hq_origin req) (hq_url req) header (hq_length req) (hq_body req)
            | Some _ =>
                mkHttpRequest (hq_method req) (hq_origin req) (hq_url req)
                  (<["Content-Type" := contentTypeOctetStream]> header)
                  (if 0 <? size then size else hq_length req) (hq_body req)
            end in
          match http_Do n req with
          | (n, Err e) => (n, Err e)
          | (n, Ok resp) =>
              if (hp_status resp <? 200) || (300 <=? hp_status resp) then (n, Err (decodeAPIError resp))
              else (n, Ok resp)
          end
      end
  end.

Definition isSpentProofRefusal {A : Type} (res : result A) : bool :=
  match res with
  | Ok _ => false
  | Err e =>
      match AsAPIError e with
      | Some (status, code, message) =>
          (status =? 401) && bool_decide (code = "ERR_AUTH_REQUIRED") && Contains message "proof already used"
      | None => false
      end
  end.

(** [do]: a bodyless request whose proof the server calls spent is signed and
    sent once more. *)
Definition client_do (c : Client) (method requestURI bodySha256 : string) (body : option upload) (size : Z)
    (st1 st2 : stamp) (n : N) : Client * N * result http_response :=
  match wallet c with
  | Err e => (c, n, Err (Wrapf "client has no usable key: " e ""))
  | Ok w =>
      match client_Limits c n with
      | (c, n, Err e) => (c, n, Err e)
      | (c, n, Ok lim) =>
          let key := ServerIdentityKey lim in
          let '(n, res) := roundTrip w (baseURL c) key method requestURI bodySha256 body size st1 n in
          if bool_decide (is_Some body) || negb (isSpentProofRefusal res) then (c, n, res)
          else
            let '(n, res) := roundTrip w (baseURL c) key method requestURI bodySha256 None 0 st2 n in
            (c, n, res)
      end
  end.

(** * The operations *)

(** The request target of each. *)
Definition esc (s : string) : string := string_of_bytes (PathEscape (bytes_of_string s)).
Definition qesc (s : string) : string := string_of_bytes (QueryEscape (bytes_of_string s)).

Definition append_uri (device : string) (generation seq : Z) (prev : string) : string :=
  let uri := "/v1/log/" +:+ esc device +:+ "?seq=" +:+ FormatInt seq +:+ "&generation=" +:+ FormatInt generation in
  if negb (bool_decide (prev = "")) then uri +:+ "&prevSha256=" +:+ qesc prev else uri.

Definition blob_uri (device : string) (generation seq : Z) : string :=
  "/v1/log/" +:+ esc device +:+ "/" +:+ FormatInt seq +:+ "?generation=" +:+ FormatInt generation.

Definition index_uri (device : string) (generation from limit : Z) : string :=
  let uri := "/v1/log/" +:+ esc device +:+ "?generation=" +:+ FormatInt generation in
  let uri := if 0 <? from then uri +:+ "&from=" +:+ FormatInt from else uri in
  if 0 <? limit then uri +:+ "&limit=" +:+ FormatInt limit else uri.

Definition manifest_uri : string := "/v1/manifest".

Definition prune_uri (device : string) (generation : Z) : string :=
  "/v1/generation/" +:+ esc device +:+ "/" +:+ FormatInt generation.

Definition account_uri : string := "/v1/account".

(** A call on a client, with the stamps of its attempts. *)
Definition call (A : Type) : Type := Client -> N -> stamp -> stamp -> Client * N * result A.

(** [do] followed by the decoding of the response. *)
Definition do_then {A : Type} (method uri sha : string) (body : option upload) (size : Z)
    (k : http_response -> result A) : call A := fun c n st1 st2 =>
  match client_do c method uri sha body size st1 st2 n with
  | (c, n, Err e) => (c, n, Err e)
  | (c, n, Ok resp) => (c, n, k resp)
  end.

Definition client_Append_upload (device : string) (generation seq : Z) (prev : string) (body : upload)
    (bodySha256 : string) (size : Z) : call AppendResult :=
  do_then "POST" (append_uri device generation seq prev) bodySha256 (Some body) size (fun resp =>
    wrap_err "decode append response: " (Decode_body set_append (mkAppendResult 0 "" 0) (hp_body resp))).

Definition client_Append (device : string) (generation seq : Z) (prev : string) (body : source)
    (bodySha256 : string) (size : Z) : call AppendResult :=
  client_Append_upload device generation seq prev (UploadReader body) bodySha256 size.

Definition client_AppendBytes (device : string) (generation seq : Z) (prev : string) (data : bytes)
    : call AppendResult :=
  client_Append_upload device generation seq prev (UploadBytes data) (sha256_hex data) (Z.of_nat (length data)).

(** The caller reads the body. *)
Definition client_Blob (device : string) (generation seq : Z) : call (source * Z) :=
  do_then "GET" (blob_uri device generation seq) "" None 0 (fun resp => Ok (hp_body resp, hp_length resp)).

Definition client_Index (device : string) (generation from limit : Z) : call (list Entry) :=
  do_then "GET" (index_uri device generation from limit) "" None 0 (fun resp =>
    wrap_err "decode index response: " (Decode_body set_entries [] (hp_body resp))).

Definition client_Manifest : call (list DeviceSummary) :=
  do_then "GET" manifest_uri "" None 0 (fun resp =>
    wrap_err "decode manifest response: " (Decode_body set_devices [] (hp_body resp))).

Definition client_PruneGeneration (device : string) (generation : Z) : call unit :=
  do_then "DELETE" (prune_uri device generation) "" None 0 (fun _ => Ok ()).

Definition client_DeleteAccount : call Z :=
  do_then "DELETE" account_uri "" None 0 (fun resp =>
    wrap_err "decode delete response: " (Decode_body set_deleted 0 (hp_body resp))).

End client.
