(* ===== verification/ClientConcurrent.v ===== *)
(** The cached limits of [client/client.go] under concurrent calls: the mutex
    of [Client], held by [Client.Limits] from its look at the cache to the end
    of its fetch.  Any number of goroutines call at once; other requests of the
    client use the network at any time.  The calls are those of an object that
    performs [client_Limits] at once; the first calls collapse into one fetch,
    and a failed one is tried again. *)
From S2P Require Import Prelude GoStrings GoError Sha256 GoTime Json Url UrlEscape AuthProof GoIO BlobStore Systems Client.
Local Open Scope Z_scope.

Section concurrent.
Context {crypto : Crypto} {dec : Decoders} {N : Type} {net : Transport N}.

Inductive event :=
  | Called (i : nat)
  | Returned (i : nat) (r : result Limits).

(** * The client *)

(** A goroutine in [Limits]. *)
Inductive limits_thread :=
  | Locking                             (* c.mu.Lock() *)
  | Looking                             (* the lock is held *)
  | Fetching                            (* the lock is held, the request is under way *)
  | Returning (r : result Limits).      (* the deferred Unlock has run *)

Record shared := mkShared {
  sh_client : Client;
  sh_lock : option nat;                 (* who holds c.mu *)
  sh_net : N;
  sh_fetches : list (result Limits);    (* how the fetches ended, so far *)
  sh_threads : gmap nat limits_thread;
}.

Definition set_thread (i : nat) (t : limits_thread) (s : shared) : shared :=
  mkShared (sh_client s) (sh_lock s) (sh_net s) (sh_fetches s) (<[i := t]> (sh_threads s)).

(** [Limits], step by step. *)
Inductive limits_step : shared -> option event -> shared -> Prop :=
  | lim_call s i :
      sh_threads s !! i = None -> limits_step s (Some (Called i)) (set_thread i Locking s)
  | lim_lock s i :
      sh_threads s !! i = Some Locking -> sh_lock s = None ->
      limits_step s None
        (mkShared (sh_client s) (Some i) (sh_net s) (sh_fetches s) (<[i := Looking]> (sh_threads s)))
  | lim_cached s i lim :
      sh_threads s !! i = Some Looking -> limits (sh_client s) = Some lim ->
      limits_step s None
        (mkShared (sh_client s) None (sh_net s) (sh_fetches s) (<[i := Returning (Ok lim)]> (sh_threads s)))
  | lim_miss s i :
      sh_threads s !! i = Some Looking -> limits (sh_client s) = None ->
      limits_step s None (set_thread i Fetching s)
  | lim_fetched s i n r :
      sh_threads s !! i = Some Fetching -> fetch_limits (baseURL (sh_client s)) (sh_net s) = (n, r) ->
      limits_step s None
        (mkShared
          (match r with
           | Ok lim => mkClient (baseURL (sh_client s)) (wallet (sh_client s)) (Some lim)
           | Err _ => sh_client s
           end)
          None n (sh_fetches s ++ [r]) (<[i := Returning r]> (sh_threads s)))
  | lim_return s i r :
      sh_threads s !! i = Some (Returning r) ->
      limits_step s (Some (Returned i r))
        (mkShared (sh_client s) (sh_lock s) (sh_net s) (sh_fetches s) (delete i (sh_threads s)))
  (* the other requests *)
  | lim_network s n :
      limits_step s None (mkShared (sh_client s) (sh_lock s) n (sh_fetches s) (sh_threads s)).

Definition unshared (c : Client) (n : N) : shared := mkShared c None n [] ∅.

(** * The atomic object *)

Inductive atomic_limits :=
  | AtomicCalled
  | AtomicDone (r : result Limits).

Definition atomic_state : Type := Client * N * gmap nat atomic_limits.

Inductive atomic_step : atomic_state -> option event -> atomic_state -> Prop :=
  | at_call c n ts i :
      ts !! i = None -> atomic_step (c, n, ts) (Some (Called i)) (c, n, <[i := AtomicCalled]> ts)
  | at_perform c n ts i c' n' r :
      ts !! i = Some AtomicCalled -> client_Limits c n = (c', n', r) ->
      atomic_step (c, n, ts) None (c', n', <[i := AtomicDone r]> ts)
  | at_return c n ts i r :
      ts !! i = Some (AtomicDone r) -> atomic_step (c, n, ts) (Some (Returned i r)) (c, n, delete i ts)
  | at_network c n n' ts : atomic_step (c, n, ts) None (c, n', ts).

(** * The mutex *)

Definition holds (t : limits_thread) : bool :=
  match t with Looking | Fetching => true | _ => false end.

(** Every fetch but the last failed, and the last one filled the cache; or all
    failed, and it is empty. *)
Definition collapsed (c : Client) (fetches : list (result Limits)) : Prop :=
  exists es : list error, fetches = (Err <$> es) ++ match limits c with Some lim => [Ok lim] | None => [] end.

Record mutex_ok (s : shared) : Prop := {
  mutex_held i t : sh_threads s !! i = Some t -> holds t = true -> sh_lock s = Some i;
  mutex_fetching i : sh_threads s !! i = Some Fetching -> limits (sh_client s) = None;
  mutex_told i lim : sh_threads s !! i = Some (Returning (Ok lim)) -> limits (sh_client s) = Some lim;
  mutex_collapsed : collapsed (sh_client s) (sh_fetches s);
}.

(** Once told, the limits do not change. *)
Definition told (e : event) (s : shared) : Prop :=
  match e with Returned _ (Ok lim) => limits (sh_client s) = Some lim | _ => True end.

(** The threads after one of them moved. *)
Ltac moved := intros j; rewrite lookup_insert; case_decide; [subst; intros; simplify_eq/=; auto|intros; eauto].

(** Who holds the mutex holds it alone. *)
Lemma alone s i t j t' :
  mutex_ok s -> sh_threads s !! i = Some t -> holds t = true -> sh_threads s !! j = Some t' -> holds t' = true -> i = j.
Proof. intros H Hi Ht Hj Ht'. pose proof (mutex_held _ H _ _ Hi Ht). pose proof (mutex_held _ H _ _ Hj Ht'). congruence. Qed.

(** A thread that held the mutex gives it up and returns [r]; the others hold
    nothing, and what was told still is. *)
Lemma release_ok s i t c n fs r :
  mutex_ok s -> sh_threads s !! i = Some t -> holds t = true ->
  (forall lim, limits (sh_client s) = Some lim -> limits c = Some lim) ->
  (forall lim, r = Ok lim -> limits c = Some lim) -> collapsed c fs ->
  mutex_ok (mkShared c None n fs (<[i := Returning r]> (sh_threads s))).
Proof.
  intros Hok Hi Ht Hc Hr Hf. split; simpl; [| | |exact Hf]; intros j; rewrite lookup_insert; case_decide as E.
  - intros t' [= <-]. done.
  - intros t' Hj Ht'. destruct E. by eapply alone.
  - done.
  - intros Hj. destruct E. by eapply alone.
  - intros lim [= ->]. auto.
  - intros lim Hj. apply Hc. by eapply mutex_told.
Qed.

Lemma limits_step_ok s l s' :
  limits_step s l s' -> mutex_ok s ->
  mutex_ok s' /\ (forall e, l = Some e -> told e s') /\ (forall e, told e s -> told e s').
Proof.
  intros Hstep Hok. pose proof Hok as [Hl Hf Ht [es Hc]].
  destruct Hstep as [s i Hi|s i Hi Hfree|s i lim Hi Hlim|s i Hi Hlim|s i n r Hi Hr|s i r Hi|s n].
  - split; [|split; [by intros e [= <-]|done]]. split; simpl; [moved..|by exists es].
  - split; [|done]. split; simpl; [|moved..|by exists es].
    intros j t. rewrite lookup_insert. case_decide; [by subst|]. intros Hj Hh. specialize (Hl _ _ Hj Hh). congruence.
  - split; [|done]. eapply release_ok; [exact Hok|exact Hi|done|auto|by intros lim' [= <-]|by exists es].
  - split; [|done]. split; simpl; [moved..|by exists es]. by eapply (Hl _ Looking).
  - pose proof (Hf _ Hi) as Hnone. rewrite Hnone, app_nil_r in Hc.
    assert (forall lim, limits (sh_client s) = Some lim ->
      limits (match r with Ok lim => mkClient (baseURL (sh_client s)) (wallet (sh_client s)) (Some lim) | Err _ => sh_client s end)
      = Some lim) as Hkeep by (intros lim; by rewrite Hnone).
    split; [|split; [done|]].
    + eapply release_ok; [exact Hok|exact Hi|done|exact Hkeep|by intros lim ->|]. rewrite Hc.
      destruct r as [lim|e]; [by exists es|]. exists (es ++ [e]). rewrite Hnone, app_nil_r, fmap_app. done.
    + intros [|j [lim|e]]; simpl; auto.
  - split; [|split; [|done]].
    + split; simpl; [..|by exists es]; intros j; rewrite lookup_delete; case_decide; try done; eauto.
    + intros e [= <-]. destruct r as [lim|]; [|done]. by eapply Ht.
  - split; [|done]. split; simpl; [done..|by exists es].
Qed.

(** * The simulation *)

(** What the atomic object knows of a thread. *)
Definition outside (t : limits_thread) : atomic_limits :=
  match t with Returning r => AtomicDone r | _ => AtomicCalled end.

Definition limits_rel (s : shared) (t : atomic_state) : Prop :=
  mutex_ok s /\ t = (sh_client s, sh_net s, outside <$> sh_threads s).

Lemma limits_simulation s1 l s2 t1 :
  limits_rel s1 t1 -> limits_step s1 l s2 -> exists t2, execution atomic_step t1 (event_of l) t2 /\ limits_rel s2 t2.
Proof.
  intros [Hok ->] Hstep. pose proof (proj1 (limits_step_ok _ _ _ Hstep Hok)) as Hok'.
  exists (sh_client s2, sh_net s2, outside <$> sh_threads s2). split; [|by split]. clear Hok'.
  destruct Hstep as [s i Hi|s i Hi Hfree|s i lim Hi Hlim|s i Hi Hlim|s i n r Hi Hr|s i r Hi|s n]; simpl;
    rewrite ?fmap_insert, ?fmap_delete; assert (forall j, (outside <$> sh_threads s) !! j = outside <$> (sh_threads s !! j)) as Hat
      by (intros; apply lookup_fmap).
  - apply (execution_one atomic_step _ _ (Some _)), at_call. by rewrite Hat, Hi.
  - rewrite insert_id by (by rewrite Hat, Hi). constructor.
  - eapply (execution_one atomic_step _ _ None), at_perform; [by rewrite Hat, Hi|by unfold client_Limits; rewrite Hlim].
  - rewrite insert_id by (by rewrite Hat, Hi). constructor.
  - pose proof (mutex_fetching _ Hok _ Hi) as Hnone.
    eapply (execution_one atomic_step _ _ None), at_perform; [by rewrite Hat, Hi|].
    unfold client_Limits. rewrite Hnone, Hr. by destruct r.
  - apply (execution_one atomic_step _ _ (Some _)), at_return. by rewrite Hat, Hi.
  - apply (execution_one atomic_step _ _ None), at_network.
Qed.

(** C24. Concurrent first calls. Whatever the scheduler and the rest of the
    traffic do, calls of [Limits] on a fresh client and their results are
    those of an object that performs each call in one indivisible moment
    between its start and its return; never are two fetches under way; every
    fetch but the last ended in an error, and if the last one did not, the
    limits it brought are the ones cached and the ones every call that
    succeeded returned. *)
Theorem limits_collapse c n h s :
  limits c = None -> execution limits_step (unshared c n) h s ->
  (exists ats, execution atomic_step (c, n, ∅) h (sh_client s, sh_net s, ats)) /\
  (forall i j, sh_threads s !! i = Some Fetching -> sh_threads s !! j = Some Fetching -> i = j) /\
  (exists es : list error,
     sh_fetches s = (Err <$> es) ++ match limits (sh_client s) with Some lim => [Ok lim] | None => [] end) /\
  (forall i lim, Returned i (Ok lim) ∈ h -> limits (sh_client s) = Some lim).
Proof.
  intros Hc He.
  assert (mutex_ok (unshared c n)) as H0.
  { split; simpl; [intros i t|intros i|intros i lim|exists []; by rewrite Hc]; by rewrite lookup_empty. }
  destruct (execution_invariant limits_step mutex_ok told limits_step_ok _ _ _ He H0) as (Hok & Ht & _).
  destruct (forward_simulation limits_step atomic_step limits_rel limits_simulation _ _ _ (c, n, ∅) (conj H0 eq_refl) He)
    as (t & Ha & _ & ->).
  split; [by eexists|]. split; [intros i j Hi Hj; by eapply alone|]. split; [apply Hok|].
  intros i lim Hin. exact (Ht _ Hin).
Qed.
End concurrent.
