(* ===== verification/ClientProps.v ===== *)
(** What the client puts on the wire: its targets survive parsing byte for
    byte, and a call sends what it should, no more often than it should. *)
From S2P Require Import Prelude GoStrings GoError Sha256 GoTime Json JsonFacts Url UrlEscape AuthProof GoIO BlobStore Client.
Local Open Scope Z_scope.
Local Open Scope go_scope.

(** * Targets *)

Lemma digit_plain c : is_digit c = true -> should_escape_path c = false.
Proof. destruct c as [[] [] [] [] [] [] [] []]; vm_compute; done. Qed.

(** Decimal numbers need no escape. *)
Lemma FormatInt_chars n :
  Forall (fun c => is_digit c = true \/ c = "-"%char) (bytes_of_string (FormatInt n)).
Proof.
  unfold FormatInt. destruct (Z.ltb_spec n 0) as [H|H].
  - cbn [bytes_of_string]. constructor; [by right|]. rewrite bytes_of_string_of_bytes.
    destruct (digits_ok (- n)) as [_ Hd]; [lia|]. eapply Forall_impl; [exact Hd|]. by left.
  - rewrite bytes_of_string_of_bytes. destruct (digits_ok n H) as [_ Hd].
    eapply Forall_impl; [exact Hd|]. by left.
Qed.

Lemma FormatInt_plain n : plain_path (bytes_of_string (FormatInt n)).
Proof.
  eapply Forall_impl; [apply FormatInt_chars|]. intros c [H| ->]; [by apply digit_plain|done].
Qed.

Lemma plain_query_path q : plain_path q -> plain_query q.
Proof.
  intros Hq. split; [by apply plain_printable|]. intros Hin. unfold plain_path in Hq.
  rewrite Forall_forall in Hq. apply Hq in Hin. by vm_compute in Hin.
Qed.

Lemma plain_query_component q : Forall component_char q -> plain_query q.
Proof.
  intros Hq. split.
  - eapply Forall_impl; [exact Hq|]. by intros c (_ & _ & _ & _ & ? & ?)%component_char_plain.
  - intros Hin. rewrite Forall_forall in Hq. by apply Hq, component_char_plain in Hin as (_ & _ & _ & ? & _).
Qed.

Lemma plain_query_app p q : plain_query p -> plain_query q -> plain_query (p ++ q).
Proof.
  intros [] []. split; [by apply Forall_app|]. by intros [|]%elem_of_app.
Qed.

(** A text that needs no escape, checked by computation. *)
Definition plain_text (s : string) : bool := forallb (fun c => negb (should_escape_path c)) (bytes_of_string s).

Lemma plain_text_path s : plain_text s = true -> plain_path (bytes_of_string s).
Proof.
  intros H. apply Forall_forall. intros c Hc%list_elem_of_In.
  by apply negb_true_iff, (proj1 (List.forallb_forall _ _) H).
Qed.

Lemma esc_escaped s : escaped (bytes_of_string (esc s)).
Proof. unfold esc. rewrite bytes_of_string_of_bytes. apply escape_segment_escaped. Qed.

Lemma qesc_query s : plain_query (bytes_of_string (qesc s)).
Proof. unfold qesc. rewrite bytes_of_string_of_bytes. apply plain_query_component, query_escape_chars. Qed.

(** A target that both the client's and the server's parser render unchanged. *)
Definition verbatim (uri : string) : Prop :=
  exists u, parse_tail (bytes_of_string uri) = Some u /\
    ParseRequestURI (bytes_of_string uri) = Some u /\ RequestURI u = bytes_of_string uri.

(** The shape of every target: an escaped path, and a query. *)
Lemma verbatim_intro uri p q :
  bytes_of_string uri = target_of ("/"%char :: p) q ->
  escaped ("/"%char :: p) -> plain_query q -> verbatim uri.
Proof.
  intros E Hp Hq. destruct (parse_escaped p q Hp Hq) as (u & H1 & H2 & H3 & _).
  exists u. rewrite E. done.
Qed.

Lemma verbatim_query uri p q :
  uri = "/" +:+ p +:+ "?" +:+ q -> q <> "" ->
  escaped (bytes_of_string ("/" +:+ p)) -> plain_query (bytes_of_string q) -> verbatim uri.
Proof.
  intros -> Hq. change ("/" +:+ p) with (String "/" p). cbn [bytes_of_string]. intros Hp Hpl.
  apply (verbatim_intro _ (bytes_of_string p) (bytes_of_string q)); [|done|done].
  unfold target_of. change ("/" +:+ p +:+ "?" +:+ q) with (String "/" (p +:+ String "?" q)).
  cbn [bytes_of_string]. rewrite bytes_of_string_app. cbn [bytes_of_string app].
  destruct q; [done|]. done.
Qed.

Lemma verbatim_path uri p :
  uri = "/" +:+ p -> escaped (bytes_of_string ("/" +:+ p)) -> verbatim uri.
Proof.
  intros ->. change ("/" +:+ p) with (String "/" p). cbn [bytes_of_string]. intros Hp.
  apply (verbatim_intro _ (bytes_of_string p) []); [|done|split; [constructor|apply not_elem_of_nil]].
  unfold target_of. by rewrite app_nil_r.
Qed.

Lemma plain_query_text s : plain_text s = true -> plain_query (bytes_of_string s).
Proof. intros. by apply plain_query_path, plain_text_path. Qed.

Lemma escaped_text s : plain_text s = true -> escaped (bytes_of_string s).
Proof. intros. by apply plain_escaped, plain_text_path. Qed.

(** Texts put together from plain literals, numbers and escaped names. *)
Ltac target_parts :=
  rewrite ?bytes_of_string_app;
  repeat first
    [ apply escaped_app | apply plain_query_app
    | apply escaped_text; reflexivity | apply plain_query_text; reflexivity
    | apply plain_escaped, FormatInt_plain | apply plain_query_path, FormatInt_plain
    | apply esc_escaped | apply qesc_query ].

(** C27. What the client signs is what the server reads. For any device name,
    numbers and digest, each request target the client emits is rendered
    unchanged by its own URL parser (so it goes on the wire as it was signed)
    and by the server's (so the server rebuilds the same action). *)
Theorem requestURI_verbatim device generation seq prev from limit :
  Forall verbatim
    [ append_uri device generation seq prev; blob_uri device generation seq;
      index_uri device generation from limit; manifest_uri; prune_uri device generation; account_uri ].
Proof.
  repeat apply Forall_cons_2; [| | | | | |done].
  - unfold append_uri. case_bool_decide; cbn [negb].
    + apply (verbatim_query _ ("v1/log/" +:+ esc device) ("seq=" +:+ FormatInt seq +:+ "&generation=" +:+ FormatInt generation));
        [rewrite ?string_app_assoc; reflexivity|done|target_parts..].
    + apply (verbatim_query _ ("v1/log/" +:+ esc device)
        ("seq=" +:+ FormatInt seq +:+ "&generation=" +:+ FormatInt generation +:+ "&prevSha256=" +:+ qesc prev));
        [rewrite ?string_app_assoc; reflexivity|done|target_parts..].
  - apply (verbatim_query _ ("v1/log/" +:+ esc device +:+ "/" +:+ FormatInt seq) ("generation=" +:+ FormatInt generation));
      [rewrite ?string_app_assoc; reflexivity|done|target_parts..].
  - unfold index_uri. destruct (0 <? from), (0 <? limit).
    + apply (verbatim_query _ ("v1/log/" +:+ esc device)
        ("generation=" +:+ FormatInt generation +:+ "&from=" +:+ FormatInt from +:+ "&limit=" +:+ FormatInt limit));
        [rewrite ?string_app_assoc; reflexivity|done|target_parts..].
    + apply (verbatim_query _ ("v1/log/" +:+ esc device) ("generation=" +:+ FormatInt generation +:+ "&from=" +:+ FormatInt from));
        [rewrite ?string_app_assoc; reflexivity|done|target_parts..].
    + apply (verbatim_query _ ("v1/log/" +:+ esc device) ("generation=" +:+ FormatInt generation +:+ "&limit=" +:+ FormatInt limit));
        [rewrite ?string_app_assoc; reflexivity|done|target_parts..].
    + apply (verbatim_query _ ("v1/log/" +:+ esc device) ("generation=" +:+ FormatInt generation));
        [rewrite ?string_app_assoc; reflexivity|done|target_parts..].
  - apply (verbatim_path _ "v1/manifest"); [done|by apply escaped_text].
  - apply (verbatim_path _ ("v1/generation/" +:+ esc device +:+ "/" +:+ FormatInt generation));
      [rewrite ?string_app_assoc; reflexivity|target_parts].
  - apply (verbatim_path _ "v1/account"); [done|by apply escaped_text].
Qed.

(** * What a call sends *)

Section sends.
Context {crypto : Crypto} {dec : Decoders} {N : Type} {net : Transport N}.

(** A request and what came of it. *)
Abbreviation exchange := (http_request * result http_response)%type.

(** The network, keeping a record of every exchange. *)
Local Instance recording : Transport (N * list exchange) := {|
  http_Do nl q :=
    let '(n', r) := http_Do nl.1 q in ((n', nl.2 ++ [(q, r)]), r);
  origin_error := origin_error;
  url_error := url_error;
|}.

(** A request carries a proof made at this stamp for the action. *)
Definition carries (c : Client) (method uri sha : string) (st : Z * result bytes) (q : http_request) : Prop :=
  hq_method q = method /\
  exists w key p, wallet c = Ok w /\ Sign w key (Action method uri sha) st.1 st.2 = Ok p /\
    hq_header q !! Header = Some (Encode p).

(** The server refused the proof as spent. *)
Definition refused_as_spent (r : result http_response) : Prop :=
  exists resp msg, r = Ok resp /\ hp_status resp = 401 /\
    decodeAPIError resp = APIError 401 "ERR_AUTH_REQUIRED" msg /\ Contains msg "proof already used" = true.

(** What one call may send after it knows the server's key. *)
Definition attempts_ok (c : Client) (method uri sha : string) (body : option upload) (st1 st2 : Z * result bytes)
    (sent : list exchange) : Prop :=
  match sent with
  | [] => True
  | [(q, _)] => carries c method uri sha st1 q
  | [(q1, r1); (q2, _)] =>
      body = None /\ carries c method uri sha st1 q1 /\ refused_as_spent r1 /\ carries c method uri sha st2 q2
  | _ => False
  end.

Lemma decodeAPIError_status resp : exists code msg, decodeAPIError resp = APIError (hp_status resp) code msg.
Proof.
  unfold decodeAPIError. destruct (ReadAll _) as [? [? ?]]. destruct (match parse _ with Some _ => _ | None => _ end); eauto.
Qed.

(** The random source reports no [APIError]. *)
Definition foreign_draw (st : Z * result bytes) : Prop := forall e, st.2 = Err e -> AsAPIError e = None.

(** An [APIError] is only ever made by this client: no other package reports one. *)
Record foreign_errors : Prop := {
  foreign_sign w key action st e : foreign_draw st -> Sign w key action st.1 st.2 = Err e -> AsAPIError e = None;
  foreign_Do (n n' : N) q e : http_Do n q = (n', Err e) -> AsAPIError e = None;
  foreign_origin o e : origin_error (N := N) o = Some e -> AsAPIError e = None;
  foreign_url u : AsAPIError (url_error (N := N) u) = None;
}.

Hypothesis foreign : foreign_errors.

Lemma NewRequest_foreign method url body e :
  NewRequest (N := N * list exchange) method url body = Err e -> AsAPIError e = None.
Proof.
  unfold NewRequest. destruct (split_origin _) as [o rest]. cbn [origin_error url_error recording].
  destruct (origin_error o) as [e'|] eqn:Eo; [intros [= <-]; by eapply foreign_origin|].
  destruct (parse_tail rest); [|intros [= <-]; by apply foreign_url].
  destruct body as [[|[]]|]; done.
Qed.

Lemma NewRequest_method method url body q :
  NewRequest (N := N * list exchange) method url body = Ok q -> hq_method q = method /\ hq_header q = ∅.
Proof.
  unfold NewRequest. destruct (split_origin _) as [o rest].
  destruct (origin_error o); [done|]. destruct (parse_tail rest); [|done].
  destruct body as [[|[]]|]; by intros [= <-].
Qed.

Lemma spent_foreign {A} (e : error) : AsAPIError e = None -> isSpentProofRefusal (A := A) (Err e) = false.
Proof. intros He. simpl. by rewrite He. Qed.

(** One attempt: nothing is sent, or one request with a proof of this stamp. *)
Lemma roundTrip_sends c w key method uri sha body size st n l n' l' res :
  foreign_draw st -> wallet c = Ok w ->
  roundTrip w (baseURL c) key method uri sha body size st (n, l) = ((n', l'), res) ->
  (l' = l /\ isSpentProofRefusal res = false) \/
  exists q r, l' = l ++ [(q, r)] /\ carries c method uri sha st q /\
    (isSpentProofRefusal res = true -> refused_as_spent r).
Proof.
  intros Hdraw Hw. unfold roundTrip, wrap_err. destruct (Sign _ _ _ _ _) as [p|e] eqn:Hs.
  2:{ intros [= <- <- <-]. left. split; [done|]. apply spent_foreign. simpl. by eapply foreign_sign. }
  destruct (NewRequest method _ body) as [q0|e] eqn:Hq.
  2:{ intros [= <- <- <-]. left. split; [done|]. by eapply spent_foreign, NewRequest_foreign. }
  apply NewRequest_method in Hq as [Hm Hh]. set (q := match body with None => _ | Some _ => _ end).
  assert (carries c method uri sha st q) as Hc.
  { unfold carries. subst q. destruct body; cbn [hq_method hq_header]; (split; [done|]);
      exists w, key, p; (split; [done|]); (split; [done|]).
    - rewrite lookup_insert_ne by done. by rewrite lookup_insert_eq.
    - by rewrite lookup_insert_eq. }
  cbn [http_Do recording fst snd]. destruct (http_Do n q) as [n1 [resp|e]] eqn:Ed.
  - destruct (_ || _) eqn:Hst; intros [= <- <- <-]; right; exists q, (Ok resp); (split; [done|]); (split; [done|]); [|done].
    intros Hspent. simpl in Hspent. destruct (decodeAPIError_status resp) as (code & msg & Hdec). rewrite Hdec in Hspent.
    simpl in Hspent. apply andb_true_iff in Hspent as [[H1%Z.eqb_eq H2%bool_decide_eq_true]%andb_true_iff H3].
    exists resp, msg. split; [done|]. split; [done|]. split; [|done]. by rewrite Hdec, H1, H2.
  - intros [= <- <- <-]. right. exists q, (Err e). split; [done|]. split; [done|].
    rewrite spent_foreign by (by eapply foreign_Do). done.
Qed.

(** The key of the server is fetched by one unsigned GET, if at all. *)
Lemma client_Limits_sends c n l c' n' l' res :
  client_Limits c (n, l) = (c', (n', l'), res) ->
  baseURL c' = baseURL c /\ wallet c' = wallet c /\
  exists fetch, l' = l ++ fetch /\
    (fetch = [] \/ limits c = None /\ exists q r, fetch = [(q, r)] /\ hq_method q = "GET" /\ hq_header q = ∅).
Proof.
  unfold client_Limits. destruct (limits c) as [lim|]; [intros [= <- <- <- <-]; do 2 (split; [done|]); exists [];
    rewrite app_nil_r; by split; [|left]|].
  destruct (fetch_limits (baseURL c) (n, l)) as [[n1 l1] r1] eqn:Ef. intros Hr.
  assert (exists fetch, l1 = l ++ fetch /\
    (fetch = [] \/ @None Limits = None /\ exists q r, fetch = [(q, r)] /\ hq_method q = "GET" /\ hq_header q = ∅)) as Hf.
  { clear Hr. revert Ef. unfold fetch_limits. destruct (NewRequest "GET" _ None) as [q|e] eqn:Hq.
    2:{ intros [= <- <- <-]. exists []. rewrite app_nil_r. by split; [|left]. }
    apply NewRequest_method in Hq. cbn [http_Do recording fst snd]. destruct (http_Do n q) as [n2 [resp|e]].
    - destruct (negb _); intros [= <- <- _]; exists [(q, Ok resp)]; (split; [done|]); right; (split; [done|]); naive_solver.
    - intros [= <- <- _]. exists [(q, Err e)]. split; [done|]. right. split; [done|]. naive_solver. }
  destruct r1; injection Hr as <- <- <- _; (split; [done|]); (split; [done|]); exact Hf.
Qed.

(** C21. A call sends its request once. Before it the client may fetch the
    server's key with one unsigned GET; after it, only a request without a
    body, refused by the server because its proof was spent, is sent a second
    time, with a proof signed anew. An upload is never sent twice. *)
Theorem client_do_sends c method uri sha body size st1 st2 n :
  foreign_draw st1 -> foreign_draw st2 ->
  let '(_, (_, sent), _) := client_do c method uri sha body size st1 st2 (n, []) in
  exists fetch attempts, sent = fetch ++ attempts /\
    (fetch = [] \/ limits c = None /\ exists q r, fetch = [(q, r)] /\ hq_method q = "GET" /\ hq_header q = ∅) /\
    attempts_ok c method uri sha body st1 st2 attempts.
Proof.
  intros Hst1 Hst2. destruct (client_do c method uri sha body size st1 st2 (n, [])) as [[c' [n' sent]] res] eqn:E.
  unfold client_do in E. destruct (wallet c) as [w|e] eqn:Hw.
  2:{ injection E as <- <- <- <-. exists [], []. by split; [|split; [left|]]. }
  destruct (client_Limits c (n, [])) as [[c1 [n1 l1]] r1] eqn:El.
  apply client_Limits_sends in El as (Hb & Hw1 & fetch & -> & Hfetch). cbn [app] in E. rewrite Hb in E.
  destruct r1 as [lim|e].
  2:{ injection E as <- <- <- <-. exists fetch, []. rewrite app_nil_r. by split. }
  destruct (roundTrip w _ _ _ _ _ body _ st1 _) as [[n2 l2] r2] eqn:E1.
  pose proof (roundTrip_sends _ _ _ _ _ _ _ _ _ _ _ _ _ _ Hst1 Hw E1) as H1.
  destruct (bool_decide (is_Some body) || negb (isSpentProofRefusal r2)) eqn:Hretry.
  - injection E as <- <- <- <-. destruct H1 as [[-> _]|(q & r & -> & Hc & _)].
    + exists fetch, []. rewrite app_nil_r. by split.
    + exists fetch, [(q, r)]. by split.
  - apply orb_false_iff in Hretry as [Hbody Hspent]. apply bool_decide_eq_false in Hbody.
    apply negb_false_iff in Hspent. assert (body = None) as -> by (destruct body; [destruct Hbody; by eexists|done]).
    destruct H1 as [[_ H1]|(q1 & r & -> & Hc1 & Hr1)]; [congruence|].
    destruct (roundTrip w _ _ _ _ _ None _ st2 _) as [[n3 l3] r3] eqn:E2.
    pose proof (roundTrip_sends _ _ _ _ _ _ _ _ _ _ _ _ _ _ Hst2 Hw E2) as H2. injection E as <- <- <- <-.
    destruct H2 as [[-> _]|(q2 & r4 & -> & Hc2 & _)].
    + exists fetch, [(q1, r)]. by split.
    + exists fetch, [(q1, r); (q2, r4)]. rewrite <- app_assoc. split; [done|]. split; [done|].
      split; [done|]. split; [done|]. split; [by apply Hr1|done].
Qed.

End sends.
