(* ===== verification/ClientServer.v ===== *)
(** The client of [Client] talking to the server of [Server]: a network that
    delivers each request once and brings the response back.  What the client
    signs the server admits, and what a call returns is what the abstract log
    says. *)
From S2P Require Import Prelude GoStrings GoError Sha256 GoTime Base64 Json JsonFacts Url UrlEscape Nonce.
From S2P Require Import AuthProof AuthProofProps GoIO BlobStore LogFacts Trace Bodies Http WriterFacts Handlers Api.
From S2P Require Import Middlewares AuthGate Server ServerProps Client ClientProps.
Local Open Scope Z_scope.

(** * Texts on the wire *)

Definition wire_char (c : ascii) : Prop := c <> " "%char /\ byte_val c < 128.
Definition wire_text (s : string) : Prop := Forall wire_char (bytes_of_string s).

Lemma plain_wire_char c : should_escape_path c = false -> wire_char c.
Proof. destruct c as [[] [] [] [] [] [] [] []]; vm_compute; done. Qed.

Lemma component_wire_char c : component_char c -> wire_char c.
Proof.
  destruct c as [[] [] [] [] [] [] [] []]; intros [H|[H|H]]; try discriminate H;
    try (vm_compute in H; discriminate H); vm_compute; done.
Qed.

Lemma wire_text_space s : wire_text s -> str_free space s.
Proof.
  unfold wire_text, str_free. induction s as [|c s IH]; [done|]. cbn [bytes_of_string str_forall].
  intros [[Hc _] Hs]%Forall_cons. rewrite IH by done. rewrite bool_decide_eq_false_2 by done. done.
Qed.

Lemma wire_text_ascii s : wire_text s -> ascii7_str s.
Proof. intros H. eapply Forall_impl; [exact H|]. by intros c []. Qed.

Lemma name_ascii s : name_ok s -> ascii7_str s.
Proof.
  unfold name_ok, ascii7_str, ascii7.
  induction s as [|c s IH]; simpl; [constructor|]. intros [Hc Hs]%andb_true_iff. constructor; [|by apply IH].
  revert Hc. destruct c as [[] [] [] [] [] [] [] []]; vm_compute; done.
Qed.

Lemma match_lower_hex_ascii n s : match_lower_hex n s = true -> ascii7_str s.
Proof. intros [_ H]%andb_true_iff. by apply name_ascii. Qed.

Lemma base64_ascii b : ascii7_str (base64_EncodeToString b).
Proof.
  unfold ascii7_str, base64_EncodeToString. rewrite bytes_of_string_of_bytes.
  eapply Forall_impl; [apply base64_encode_out|]. by intros c [].
Qed.

(** A target: a plain path and a query of pairs. *)
Definition target (path : bytes) (kvs : list (bytes * bytes)) : string :=
  string_of_bytes (target_of path (join_query kvs)).

Lemma join_query_chars kvs :
  Forall (fun c => c = "="%char \/ c = "&"%char \/ component_char c) (join_query kvs).
Proof.
  assert (forall kv, Forall (fun c => c = "="%char \/ c = "&"%char \/ component_char c) (pair_text kv)) as Hp.
  { intros kv. unfold pair_text. apply Forall_app. split; [|constructor; [by left|]];
      (eapply Forall_impl; [apply query_escape_chars|]); intros c Hc; right; right; exact Hc. }
  induction kvs as [|kv [|kv' kvs] IH]; [constructor|apply Hp|].
  change (join_query (kv :: kv' :: kvs)) with (pair_text kv ++ "&"%char :: join_query (kv' :: kvs)).
  apply Forall_app. split; [apply Hp|]. constructor; [by right; left|exact IH].
Qed.

Lemma join_query_plain kvs : plain_query (join_query kvs).
Proof.
  split.
  - eapply Forall_impl; [apply join_query_chars|]. intros c [->|[->|Hc]]; [by vm_compute..|].
    by apply component_char_plain in Hc as (_ & _ & _ & _ & ? & ?).
  - intros Hin. pose proof (join_query_chars kvs) as H. rewrite Forall_forall in H.
    apply H in Hin as [?|[?|Hc]]; [done..|]. by apply component_char_plain in Hc as (_ & _ & _ & ? & _).
Qed.

Lemma target_wire path kvs : plain_path path -> wire_text (target path kvs).
Proof.
  intros Hp. unfold wire_text, target. rewrite bytes_of_string_of_bytes. unfold target_of.
  apply Forall_app. split; [eapply Forall_impl; [exact Hp|]; apply plain_wire_char|].
  assert (Forall wire_char (join_query kvs)) as Hq.
  { eapply Forall_impl; [apply join_query_chars|]. intros c [->|[->|Hc]]; [by vm_compute..|].
    by apply component_wire_char. }
  destruct (join_query kvs); [done|]. constructor; [by vm_compute|done].
Qed.

(** * A direct network *)

(** Both ends of a connection: the server's stores, and the clock readings it
    will take, request by request. *)
Record connection (St NSt : Type) := mkConnection {
  cn_store : St;
  cn_nonces : NSt;
  cn_clock : list times;
}.
Arguments mkConnection {St NSt} _ _ _.
Arguments cn_store {St NSt} _.
Arguments cn_nonces {St NSt} _.
Arguments cn_clock {St NSt} _.

(** The origin of a base URL ends where the target begins. *)
Definition origin_base (base : string) : Prop :=
  forall rest, split_origin (bytes_of_string base ++ "/"%char :: rest) = (bytes_of_string base, "/"%char :: rest).

Lemma until_path_app a rest :
  Forall (fun c => one_of "/?#" c = false) a -> until_path (a ++ "/"%char :: rest) = (a, "/"%char :: rest).
Proof. induction 1 as [|c a Hc Ha IH]; [done|]. simpl. by rewrite Hc, IH. Qed.

Lemma origin_base_intro scheme host :
  "/"%char ∉ bytes_of_string scheme -> Forall (fun c => one_of "/?#" c = false) (bytes_of_string host) ->
  origin_base (scheme +:+ "//" +:+ host).
Proof.
  intros Hs Hh rest. rewrite !bytes_of_string_app, <- !app_assoc. revert Hs.
  change (bytes_of_string "//") with ["/"%char; "/"%char].
  induction (bytes_of_string scheme) as [|c s IH]; intros Hs.
  - cbn [app split_origin]. rewrite !bool_decide_eq_true_2 by done. cbn [andb]. by rewrite until_path_app.
  - apply not_elem_of_cons in Hs as [Hc Hs]. specialize (IH Hs).
    cbn [app split_origin] in *. rewrite (bool_decide_eq_false_2 (c = _)) by congruence. cbn [andb].
    destruct (s ++ _) as [|x l] eqn:E; [by destruct s|]. by rewrite IH.
Qed.

(** How a response arrives: cut short where fewer bytes come than announced. *)
Definition response_source (body : bytes) (len : Z) : source :=
  mkSource (match body with [] => [] | _ => [body] end)
    (if Z.of_nat (length body) <? len then ErrUnexpectedEOF else EOF) false.

Definition reply_response (rp : reply) : http_response :=
  let len := default (-1) (rp_length rp ≫= Atoi) in
  mkHttpResponse (rp_status rp) len (response_source (rp_body rp) len).

Section direct.
Context {crypto : Crypto} {laws : CryptoLaws crypto} {tf : TimeFormat} {chi : Chi} {claws : ChiLaws chi}.
Context {St NSt : Type} {bs : BlobStore St} {ok : BlobStoreOk St} {ns : NonceStore NSt} {dec : Decoders}.
Abbreviation world := (world St NSt).
Abbreviation connection := (connection St NSt).

Definition response_of (s : world) : http_response :=
  let len := default (-1) (rs_sent (w_resp s) !! "Content-Length" ≫= Atoi) in
  mkHttpResponse (status_of s) len (response_source (rs_body (w_resp s)) len).

Lemma response_of_reply s rp : response_is s rp -> response_of s = reply_response rp.
Proof. intros (Hs & _ & Hl & Hb). unfold response_of, reply_response, status_of. by rewrite Hs, Hl, Hb. Qed.

(** The body as the server's connection delivers it: a declared length that
    the reader does not meet breaks it off, or cuts it. *)
Definition body_on_wire (q : http_request) : Z * source :=
  match hq_body q with
  | None => (0, bytes_reader [])
  | Some s =>
      if hq_length q =? 0 then (-1, s)
      else if hq_length q =? Z.of_nat (length (rd_bytes s)) then (hq_length q, s)
      else (hq_length q, mkSource [take (Z.to_nat (hq_length q)) (rd_bytes s)]
              (if hq_length q <? Z.of_nat (length (rd_bytes s)) then EOF else ErrUnexpectedEOF) false)
  end.

Definition length_met (q : http_request) : bool :=
  match hq_body q with
  | None => true
  | Some s => (hq_length q =? 0) || (hq_length q =? Z.of_nat (length (rd_bytes s)))
  end.

Context (h : handler St NSt).

Definition server_request (q : http_request) (u : URL) : request :=
  mkRequest _ (hq_method q) u (hq_header q) (body_on_wire q).1 None [].

Definition deliver (cn : connection) (q : http_request) : connection * result http_response :=
  match ParseRequestURI (RequestURI (hq_url q)), cn_clock cn with
  | Some u, t :: clock =>
      let s := serve h (server_request q u) (body_on_wire q).2 t (cn_store cn) (cn_nonces cn) in
      (mkConnection (w_store s) (w_nonces s) clock,
       if length_met q then Ok (response_of s) else Err (External "http: ContentLength does not match the body"))
  | _, _ => (cn, Err (External "connection refused"))
  end.

#[export] Instance direct : Transport connection := {|
  http_Do := deliver;
  origin_error _ := None;
  url_error _ := External "malformed URL";
|}.

(** * One signed attempt *)

(** What a caller uploads, or nothing; an empty upload has no body either. *)
Definition uploads (data : option bytes) : option upload := UploadBytes <$> data.

Definition upload_header (data : option bytes) (p : Proof) : gmap string string :=
  match data with
  | Some _ => <["Content-Type" := contentTypeOctetStream]> (<[Header := Encode p]> ∅)
  | None => <[Header := Encode p]> ∅
  end.

Definition upload_length (data : option bytes) : Z := Z.of_nat (length (default [] data)).
Definition upload_source (data : option bytes) : source := bytes_reader (default [] data).
Definition upload_digest (data : option bytes) : string :=
  match data with Some b => sha256_hex b | None => "" end.

(** The request as the server sees it. *)
Definition arriving (e : endpoint) (path : bytes) (kvs : list (bytes * bytes)) (data : option bytes) (p : Proof)
    : request :=
  mkRequest _ (endpoint_method e) (mkURL path [] (join_query kvs) false) (upload_header data p) (upload_length data) None [].

Lemma target_parses path kvs :
  plain_path ("/"%char :: path) ->
  parse_tail (bytes_of_string (target ("/"%char :: path) kvs)) = Some (mkURL ("/"%char :: path) [] (join_query kvs) false) /\
  ParseRequestURI (bytes_of_string (target ("/"%char :: path) kvs)) = Some (mkURL ("/"%char :: path) [] (join_query kvs) false) /\
  RequestURI (mkURL ("/"%char :: path) [] (join_query kvs) false) = bytes_of_string (target ("/"%char :: path) kvs).
Proof.
  intros Hp. unfold target. rewrite bytes_of_string_of_bytes.
  pose proof (join_query_plain kvs) as Hq.
  destruct (parse_escaped path (join_query kvs)) as (u & H1 & H2 & H3 & _); [by apply plain_escaped|done|].
  assert (u = mkURL ("/"%char :: path) [] (join_query kvs) false) as ->.
  { pose proof (ParseRequestURI_plain path (join_query kvs) Hp (proj1 Hq)) as H. congruence. }
  done.
Qed.

(** The network request an attempt makes. *)
Lemma roundTrip_delivers w base key method path kvs data p now draw (cn : connection) :
  origin_base base -> plain_path ("/"%char :: path) ->
  data <> Some [] ->
  Sign w key (Action method (target ("/"%char :: path) kvs) (upload_digest data)) now draw = Ok p ->
  exists q, 
    roundTrip w base key method (target ("/"%char :: path) kvs) (upload_digest data) (uploads data)
      (upload_length data) (now, draw) cn
    = (let '(cn', res) := deliver cn q in
       match res with
       | Err e => (cn', Err e)
       | Ok resp => if (hp_status resp <? 200) || (300 <=? hp_status resp)
                    then (cn', Err (decodeAPIError resp)) else (cn', Ok resp)
       end) /\
    hq_url q = mkURL ("/"%char :: path) [] (join_query kvs) false /\ hq_method q = method /\
    hq_header q = upload_header data p /\ body_on_wire q = (upload_length data, upload_source data) /\
    length_met q = true.
Proof.
  intros Hb Hp Hne Hs. destruct (target_parses path kvs Hp) as (Ht & _ & _).
  unfold roundTrip, wrap_err. cbn [fst snd]. rewrite Hs. unfold NewRequest.
  assert (exists rest, bytes_of_string (target ("/"%char :: path) kvs) = "/"%char :: rest) as [rest Hrest].
  { unfold target. rewrite bytes_of_string_of_bytes. unfold target_of. by eexists. }
  rewrite bytes_of_string_app, Hrest, (Hb rest), <- Hrest. cbn [origin_error direct]. rewrite Ht.
  destruct data as [[|c data]|]; [done| |].
  - set (len := Z.of_nat (length (c :: data))). assert (0 < len) as Hlen by (subst len; simpl; lia).
    cbn [uploads fmap option_fmap option_map upload_length upload_digest]. 
    change (upload_length (Some (c :: data))) with len. rewrite (proj2 (Z.ltb_lt 0 len)) by done.
    eexists (mkHttpRequest method (bytes_of_string base) _ _ len (Some (bytes_reader (c :: data)))).
    split; [reflexivity|]. split; [done|]. split; [done|]. split; [done|].
    unfold body_on_wire, length_met. cbn [hq_body hq_length].
    rewrite (proj2 (Z.eqb_neq len 0)) by lia. change (rd_bytes (bytes_reader (c :: data))) with ((c :: data) ++ []).
    rewrite app_nil_r. fold len. rewrite Z.eqb_refl. done.
  - cbn [uploads fmap option_fmap option_map].
    eexists (mkHttpRequest method (bytes_of_string base) _ _ 0 None).
    split; [reflexivity|]. done.
Qed.

(** The clock of the server while it handles the request, against the one
    the client signed at. *)
Definition in_time (now : Z) (t : times) : Prop :=
  clock_ok now /\ clock_ok (now + Window) /\ clock_ok (t_verify t) /\ time_zero <= t_store t /\
  UnixMilli now - Milliseconds Skew <= UnixMilli (t_verify t) < UnixMilli now + Milliseconds Window.

Context (d : Deps) (pub : PublicKey).
Hypothesis Hpub : GetPublicKey (dep_Wallet d) = Ok pub.
Hypothesis Hrouter : NewRouter d = Ok h.
Hypothesis Hlimit : 0 <= dep_MaxBlobBytes d.

Lemma ascii_action method uri sha :
  ascii7_str method -> wire_text uri -> digest_ok sha -> ascii7_str (Action method uri sha).
Proof.
  intros Hm Hu Hd. assert (ascii7_str sha) as Hs.
  { destruct Hd as [->|Hd]; [constructor|]. by eapply match_lower_hex_ascii. }
  unfold Action, ascii7_str, ascii7. case_bool_decide; rewrite !bytes_of_string_app, ?Forall_app;
    split_and!; try done; try (by apply wire_text_ascii); by repeat constructor.
Qed.

(** The server admits what the client signed. *)
Lemma signed_admitted w me e path kvs data p now draw t n n' :
  GetPublicKey w = Ok me -> plain_path ("/"%char :: path) ->
  (e = EAppend <-> data <> None) ->
  Sign w (ToDERHex pub) (Action (endpoint_method e) (target ("/"%char :: path) kvs) (upload_digest data)) now draw = Ok p ->
  Nonce p <> "" -> Proof_Signature p <> "" -> in_time now t ->
  Consume (t_nonce t) n (Nonce p) (time_UnixMilli (ExpiresAt p)) = (n', Ok true) ->
  authenticate (dep_Wallet d) (arriving e ("/"%char :: path) kvs data p) t n = (n', Granted me (upload_digest data)).
Proof.
  intros Hw Hp He Hs Hn Hsig (Hc1 & Hc2 & Hc3 & _ & Hwin) Hcons.
  set (uri := target ("/"%char :: path) kvs) in *. pose proof (target_wire _ kvs Hp) as Hwire. fold uri in Hwire.
  assert (digest_ok (upload_digest data)) as Hd.
  { destruct data as [b|]; [right; apply sha256_hex_shape|by left]. }
  assert (request_line_ok (endpoint_method e) uri) as Hline.
  { split; [by destruct e|]. split; [by apply wire_text_space|]. unfold uri, target, target_of. done. }
  pose proof (Sign_Verify_lemma w (dep_Wallet d) pub me _ now (t_verify t) draw p Hpub Hw Hc1 Hc2 Hc3 Hs Hwin) as Hver.
  pose proof (Sign_fields w pub me _ now draw p Hw Hs) as (nb & sig & der & _ & _ & _ & Ep).
  assert (Decode (Encode p) = Ok p) as Hdec.
  { apply Decode_Encode_lemma. rewrite Ep in Hn, Hsig |- *. unfold proof_ok. cbn [Proof_Action IdentityKey ExpiresAt Nonce Proof_Signature] in *.
    split_and!; try done.
    - apply ascii_action; [destruct e; by repeat constructor|done|done].
    - eapply match_lower_hex_ascii, ToDERHex_hex.
    - apply base64_ascii.
    - apply base64_ascii.
    - destruct (UnixMilli_clock _ Hc2) as [-> ?]. unfold in64. lia.
    - unfold Action. case_bool_decide; by destruct e.
    - apply account_ne. }
  assert (Header_Get (arriving e ("/"%char :: path) kvs data p) Header = Encode p) as Hhdr.
  { unfold Header_Get, arriving, upload_header. cbn [ReqHeader].
    destruct data; [rewrite lookup_insert_ne by done|]; by rewrite lookup_insert_eq. }
  assert (Encode p <> "") as Hne by (intros E; rewrite E in Hdec; by vm_compute in Hdec).
  assert (Proof_Action p = Action (endpoint_method e) uri (upload_digest data)) as Hact by (by rewrite Ep).
  assert (request_uri (arriving e ("/"%char :: path) kvs data p) = uri) as Huri.
  { unfold request_uri, arriving. cbn [ReqURL]. destruct (target_parses path kvs Hp) as (_ & _ & ->).
    by rewrite string_of_bytes_of_string. }
  unfold authenticate, check_header. rewrite Hhdr, bool_decide_eq_false_2, Hdec by done. cbn zeta.
  rewrite Hact, BodySha256_Action_lemma by done.
  assert (negb (bool_decide (upload_digest data = "")) && negb (match_lower_hex 64 (upload_digest data)) = false) as ->.
  { destruct Hd as [->|Hd]; [done|]. by rewrite Hd, andb_false_r. }
  assert (bool_decide (Method (arriving e ("/"%char :: path) kvs data p) = "POST") && bool_decide (upload_digest data = "") = false) as ->.
  { unfold arriving. cbn [Method]. destruct data as [b|].
    - rewrite andb_comm. rewrite bool_decide_eq_false_2; [done|]. cbn [upload_digest]. intros E.
      pose proof (sha256_hex_shape b) as H. rewrite E in H. done.
    - destruct e; try done. by destruct (proj1 He eq_refl). }
  rewrite Huri. change (Method (arriving e ("/"%char :: path) kvs data p)) with (endpoint_method e).
  rewrite Hver, Hcons. done.
Qed.

End direct.
