(* ===== verification/EndToEnd.v ===== *)
(** Calls of the client on the server, end to end: what [client_AppendBytes]
    and [client_Blob] return to their caller, and what they leave in the
    store, is what the abstract log says. *)
From S2P Require Import Prelude GoStrings GoError Sha256 GoTime Json JsonFacts Url UrlEscape Nonce.
From S2P Require Import AuthProof AuthProofProps GoIO BlobStore LogFacts Trace Bodies Http WriterFacts Handlers Api.
From S2P Require Import Middlewares AuthGate Server ServerProps Client ClientProps ClientServer.
Local Open Scope Z_scope.

(** * Replies as the client decodes them *)

Lemma digits_rev_length fuel n : (length (digits_rev fuel n) <= fuel)%nat.
Proof. revert n. induction fuel as [|fuel IH]; intros n; simpl; [lia|]. case_match; simpl; [lia|]. specialize (IH (n / 10)). lia. Qed.

Lemma FormatInt_length n : 0 <= n < 2 ^ 63 -> (length (bytes_of_string (FormatInt n)) <= 64)%nat.
Proof.
  intros Hn. rewrite FormatInt_nonneg, bytes_of_string_of_bytes by lia. unfold digits. rewrite length_reverse.
  etrans; [apply digits_rev_length|]. assert (Z.log2 n <= 62); [|lia].
  destruct (decide (n = 0)) as [->|]; [done|]. apply Z.lt_succ_r. apply Z.log2_lt_pow2; lia.
Qed.

Lemma FormatInt_ascii n : ascii7_str (FormatInt n).
Proof.
  unfold ascii7_str. eapply Forall_impl; [apply FormatInt_plain|]. intros c Hc.
  by apply plain_wire_char in Hc as [_ ?].
Qed.

(** A body that arrived whole. *)
Lemma json_reply_response status payload :
  reply_response (json_reply status payload)
  = mkHttpResponse status (-1) (mkSource [encode payload ++ ["010"%char]] EOF false).
Proof.
  unfold reply_response, json_reply, response_source. cbn [rp_length rp_status rp_body mbind option_bind default].
  destruct (encode payload ++ ["010"%char]) as [|c b] eqn:E; [by destruct (encode payload)|].
  rewrite (proj2 (Z.ltb_ge _ (-1))); [done|]. lia.
Qed.

Lemma Decode_body_json {dec : Decoders} {A} (set : A -> bytes * json -> option A) (zero : A) status m d :
  plain d (JObj m) -> (d <= max_depth)%nat ->
  Decode_body set zero (hp_body (reply_response (json_reply status (JObj m))))
  = match set_members set zero (JObj m) with
    | Some a => Ok a
    | None => Err (decode_error (encode (JObj m) ++ ["010"%char]) EOF)
    end.
Proof.
  intros Hp Hd. rewrite json_reply_response. unfold Decode_body. cbn [hp_body src_chunks src_final mjoin list_join].
  rewrite app_nil_r. rewrite (proj1 scan_encode d _ Hp); [done|done| |done]. unfold scan_fuel. lia.
Qed.

Lemma set_envelope_code c0 m0 code :
  set_envelope (c0, m0) (bytes_of_string "code", JStr (bytes_of_string code)) = (code, m0).
Proof. unfold set_envelope. cbn [fst snd]. change (is_field "code" _) with true. cbn. by rewrite string_of_bytes_of_string. Qed.

Lemma set_envelope_description c0 m0 msg :
  set_envelope (c0, m0) (bytes_of_string "description", JStr (bytes_of_string msg)) = (c0, msg).
Proof.
  unfold set_envelope. cbn [fst snd]. change (is_field "code" _) with false. change (is_field "description" _) with true.
  cbn. by rewrite string_of_bytes_of_string.
Qed.

Lemma set_int64_JInt n old : in64 n -> set_int64 (JInt n) old = Some n.
Proof. intros H. unfold JInt, set_int64. by rewrite string_of_bytes_of_string, Atoi_FormatInt. Qed.

Lemma set_string_JString s old : set_string (JString s) old = Some s.
Proof. unfold JString, set_string. by rewrite string_of_bytes_of_string. Qed.

(** Members stored into a struct one by one, by [set]. *)
Ltac stored set :=
  unfold set;
  repeat match goal with
    | |- context [is_field ?a ?b] => let v := eval vm_compute in (is_field a b) in change (is_field a b) with v
    end;
  cbn iota; repeat (rewrite ?set_int64_JInt, ?set_string_JString by done; progress cbn [fmap option_fmap option_map mbind option_bind]).

(** An error of the service, within the 64 KiB the client looks at. *)
Lemma decodeAPIError_reply status code msg :
  ascii7_str code -> ascii7_str msg ->
  Z.of_nat (length (encode (ErrorBody code msg))) < 2 ^ 16 ->
  decodeAPIError (reply_response (error_reply status code msg)) = APIError status code msg.
Proof.
  intros Hc Hm Hl. unfold error_reply. rewrite json_reply_response. unfold decodeAPIError. cbn [hp_body hp_status].
  set (raw := encode (ErrorBody code msg) ++ ["010"%char]).
  destruct (ReadAll_ok (mkSource [raw] EOF false)) as (r' & bs & -> & Hbs & _). 
  assert (bs = raw) as -> by (rewrite Hbs by done; apply app_nil_r).
  assert (take (Z.to_nat (Z.shiftl 64 10)) raw = raw) as ->.
  { apply take_ge. subst raw. rewrite length_app. cbn [length].
    apply Nat2Z.inj_le. rewrite Z2Nat.id by done. change (Z.shiftl 64 10) with (2 ^ 16). lia. }
  assert (plain 1 (ErrorBody code msg)) as Hp.
  { unfold ErrorBody. constructor. apply plain_members_Forall. repeat constructor; try done; by repeat constructor. }
  subst raw. rewrite (parse_encode_newline 1) by (done || vm_compute; lia).
  unfold ErrorBody. cbn [foldl]. unfold JString.
  change (set_envelope ("", "") (bytes_of_string "status", _)) with ("" : string, "" : string).
  rewrite set_envelope_code, set_envelope_description. done.
Qed.

Lemma length_escape b : ascii7 b -> (length (escape b) <= 6 * length b)%nat.
Proof.
  unfold escape. induction 1 as [|c b Hc Hb IH]; [done|]. cbn [length escape_loop].
  rewrite (proj2 (Z.ltb_lt _ _)) by done. rewrite length_app.
  assert (length (escape_ascii c) <= 6)%nat; [|lia].
  destruct c as [[] [] [] [] [] [] [] []]; by vm_compute; lia.
Qed.

Lemma ErrorBody_length code msg :
  ascii7_str code -> ascii7_str msg -> 6 * Z.of_nat (length (bytes_of_string code) + length (bytes_of_string msg)) < 2 ^ 15 ->
  Z.of_nat (length (encode (ErrorBody code msg))) < 2 ^ 16.
Proof.
  intros Hc%length_escape Hm%length_escape Hl.
  assert (exists a b c : bytes, (length a + length b + length c <= 64)%nat /\
    encode (ErrorBody code msg) = a ++ escape (bytes_of_string code) ++ b ++ escape (bytes_of_string msg) ++ c)
    as (a & b & c & Hn & ->).
  { eexists (text "{'status':'error','code':'"), (text "','description':'"), (text "'}"). split; [by vm_compute; lia|].
    unfold ErrorBody, JString. cbn [encode map commas fst snd]. unfold encode_string.
    repeat (rewrite <- app_assoc || rewrite <- app_comm_cons). reflexivity. }
  rewrite !length_app. lia.
Qed.

(** * Routes *)

Lemma segments_last a : "/"%char ∉ a -> segments a = [a].
Proof.
  induction a as [|c a IH]; simpl; [done|]. rewrite not_elem_of_cons. intros [Hc Ha].
  rewrite bool_decide_eq_false_2 by congruence. by rewrite IH.
Qed.

Lemma segments_app a b : "/"%char ∉ a -> segments (a ++ "/"%char :: b) = a :: segments b.
Proof.
  induction a as [|c a IH]; simpl; [done|]. rewrite not_elem_of_cons. intros [Hc Ha].
  rewrite bool_decide_eq_false_2 by congruence. by rewrite IH.
Qed.

Lemma FormatInt_noslash n : "/"%char ∉ bytes_of_string (FormatInt n).
Proof. apply str_free_bytes. by apply FormatInt_free. Qed.

Section routing.
Context {crypto : Crypto} {tf : TimeFormat} {chi : Chi} {claws : ChiLaws chi} {St NSt : Type}.
Context {bs : BlobStore St} {ns : NonceStore NSt} (d : Deps) (key : string).

(** A path of these segments finds its route: the only one with its method
    that matches. *)
Ltac finds_route H :=
  unfold find_route; eapply chi_match;
  [ reflexivity
  | unfold match_pattern; rewrite H; reflexivity
  | repeat apply Forall_cons_2; done
  | intros j m' pat'; do 8 (destruct j as [|j]; [intros [= <- <-]; unfold match_pattern; rewrite H;
      try (intros _ E; discriminate E); try reflexivity; intros [? E]; vm_compute in E; discriminate E|]); done ].

Abbreviation find := (find_route (St := St) (NSt := NSt) d key).

Lemma find_limits r :
  Method r = "GET" -> route_path (ReqURL r) = bytes_of_string "/v1/limits" -> find r = Found 1 [].
Proof.
  intros Hm Hp. assert (segments (route_path (ReqURL r)) = segments (bytes_of_string "/v1/limits")) as H by (by rewrite Hp).
  unfold find_route. rewrite Hm. finds_route H.
Qed.

Lemma find_log r m i dev :
  (m = "POST" /\ i = 3%nat \/ m = "GET" /\ i = 4%nat) -> Method r = m -> dev <> [] -> "/"%char ∉ dev ->
  route_path (ReqURL r) = bytes_of_string "/v1/log/" ++ dev ->
  find r = Found i [("deviceId", string_of_bytes dev)].
Proof.
  intros Hi Hm Hne Hd Hp.
  assert (segments (route_path (ReqURL r)) = [[]; bytes_of_string "v1"; bytes_of_string "log"; dev]) as H.
  { rewrite Hp. simpl. by rewrite segments_last. }
  assert (string_of_bytes dev <> "") by (intros E; by destruct dev).
  unfold find_route. rewrite Hm. destruct Hi as [[-> ->]|[-> ->]]; finds_route H.
Qed.

Lemma find_blob r dev seq :
  Method r = "GET" -> dev <> [] -> "/"%char ∉ dev -> seq <> [] -> "/"%char ∉ seq ->
  route_path (ReqURL r) = bytes_of_string "/v1/log/" ++ dev ++ "/"%char :: seq ->
  find r = Found 5 [("deviceId", string_of_bytes dev); ("seq", string_of_bytes seq)].
Proof.
  intros Hm Hne Hd Hsn Hs Hp.
  assert (segments (route_path (ReqURL r)) = [[]; bytes_of_string "v1"; bytes_of_string "log"; dev; seq]) as H.
  { rewrite Hp. simpl. by rewrite segments_app, segments_last. }
  assert (string_of_bytes dev <> "" /\ string_of_bytes seq <> "") as [? ?] by (by destruct dev, seq).
  unfold find_route. rewrite Hm. finds_route H.
Qed.

Lemma find_manifest r :
  Method r = "GET" -> route_path (ReqURL r) = bytes_of_string "/v1/manifest" -> find r = Found 2 [].
Proof.
  intros Hm Hp. assert (segments (route_path (ReqURL r)) = segments (bytes_of_string "/v1/manifest")) as H by (by rewrite Hp).
  unfold find_route. rewrite Hm. finds_route H.
Qed.

Lemma find_account r :
  Method r = "DELETE" -> route_path (ReqURL r) = bytes_of_string "/v1/account" -> find r = Found 7 [].
Proof.
  intros Hm Hp. assert (segments (route_path (ReqURL r)) = segments (bytes_of_string "/v1/account")) as H by (by rewrite Hp).
  unfold find_route. rewrite Hm. finds_route H.
Qed.

Lemma find_prune r dev gen :
  Method r = "DELETE" -> dev <> [] -> "/"%char ∉ dev -> gen <> [] -> "/"%char ∉ gen ->
  route_path (ReqURL r) = bytes_of_string "/v1/generation/" ++ dev ++ "/"%char :: gen ->
  find r = Found 6 [("deviceId", string_of_bytes dev); ("generation", string_of_bytes gen)].
Proof.
  intros Hm Hne Hd Hgn Hg Hp.
  assert (segments (route_path (ReqURL r)) = [[]; bytes_of_string "v1"; bytes_of_string "generation"; dev; gen]) as H.
  { rewrite Hp. simpl. by rewrite segments_app, segments_last. }
  assert (string_of_bytes dev <> "" /\ string_of_bytes gen <> "") as [? ?] by (by destruct dev, gen).
  unfold find_route. rewrite Hm. finds_route H.
Qed.
End routing.

(** * Queries *)

Lemma Query_Get_join path kvs name :
  kvs <> [] ->
  Query_Get (mkURL path [] (join_query kvs) false) name
  = match base.filter (fun kv => kv.1 = bytes_of_string name) kvs with [] => "" | kv :: _ => string_of_bytes kv.2 end.
Proof. intros Hne. unfold Query_Get, Query. cbn [RawQuery]. by rewrite Query_join. Qed.

Lemma query_number_join {crypto : Crypto} r kvs name path n v :
  ReqURL r = mkURL path [] (join_query kvs) false -> kvs <> [] -> 1 <= n <= 2 ^ 30 ->
  base.filter (fun kv => kv.1 = bytes_of_string name) kvs = [(v, bytes_of_string (FormatInt n))] ->
  query_number r name = Some n.
Proof.
  intros Hr Hne Hn Hf. unfold query_number. rewrite Hr, Query_Get_join, Hf by done. cbn [snd].
  rewrite string_of_bytes_of_string, Atoi_FormatInt by (unfold in64; assert (2 ^ 30 < 2 ^ 63) by done; lia).
  unfold addressable. by rewrite bool_decide_eq_true_2.
Qed.

Lemma decimal_number_FormatInt n : 1 <= n <= 2 ^ 30 -> decimal_number (FormatInt n) = Some n.
Proof.
  intros Hn. unfold decimal_number, addressable.
  rewrite FormatInt_nonneg, bytes_of_string_of_bytes, parse_digits_digits by lia. by rewrite bool_decide_eq_true_2.
Qed.

(** * One call *)

(** What the client makes of a response. *)
Definition received (resp : http_response) : result http_response :=
  if (hp_status resp <? 200) || (300 <=? hp_status resp) then Err (decodeAPIError resp) else Ok resp.

Section calls.
Context {crypto : Crypto} {laws : CryptoLaws crypto} {tf : TimeFormat} {chi : Chi} {claws : ChiLaws chi}.
Context {St NSt : Type} {bs : BlobStore St} {ok : BlobStoreOk St} {ns : NonceStore NSt} {dec : Decoders}.
Abbreviation connection := (connection St NSt).
Context (h : handler St NSt) (d : Deps) (pub : PublicKey).
Hypothesis Hpub : GetPublicKey (dep_Wallet d) = Ok pub.
Hypothesis Hrouter : NewRouter d = Ok h.
Hypothesis Hlimit : 0 <= dep_MaxBlobBytes d < 2 ^ 49.

Let limit := dep_MaxBlobBytes d.
Local Instance net : Transport connection := direct h.

(** The server's side of one attempt: the proof the client makes is fresh
    there, and its clock agrees. *)
Definition admits (w : Wallet) (me : PublicKey) (e : endpoint) (path : bytes) (kvs : list (bytes * bytes))
    (data : option bytes) (st : Z * result bytes) (t : times) (n n' : NSt) (p : Proof) : Prop :=
  GetPublicKey w = Ok me /\
  Sign w (ToDERHex pub) (Action (endpoint_method e) (target path kvs) (upload_digest data)) st.1 st.2 = Ok p /\
  AuthProof.Nonce p <> "" /\ Proof_Signature p <> "" /\ in_time st.1 t /\
  Consume (t_nonce t) n (AuthProof.Nonce p) (time_UnixMilli (ExpiresAt p)) = (n', Ok true).

(** What the service did, and what came back. *)
Definition answered (e : endpoint) (account : string) (r : request) (a a' : alog) (rp : reply) (st : St)
    (cn' : connection) (res : result http_response) : Prop :=
  (refines (cn_store cn') a' /\ res = received (reply_response rp)) \/
  (request_excused e account r a st /\ (refines (cn_store cn') a \/ refines (cn_store cn') a') /\
   exists rp', failure_reply limit false rp rp' /\ res = received (reply_response rp')).

Lemma upload_body_whole data :
  data <> Some [] -> upload_length data <= limit ->
  rd_err (request_body d (upload_digest data) (upload_source data)) = EOF /\
  body_outcome (request_body d (upload_digest data) (upload_source data)) = Ok (default [] data).
Proof.
  intros Hne Hl. assert (rd_bytes (request_body d (upload_digest data) (upload_source data)) = default [] data) as Hb.
  { unfold request_body, bind_body. case_bool_decide; exact (bytes_reader_bytes (default [] data)). }
  assert (rd_err (request_body d (upload_digest data) (upload_source data)) = EOF) as He.
  { unfold request_body, bind_body. destruct data as [b|].
    - rewrite bool_decide_eq_false_2.
      2:{ intros E. pose proof (sha256_hex_shape b) as H. simpl in E. rewrite E in H. done. }
      apply (upload_body_EOF limit (upload_digest (Some b))). unfold upload_source. cbn [default].
      rewrite bytes_reader_err, bytes_reader_bytes. done.
    - rewrite bool_decide_eq_true_2 by done. cbn [upload_source default].
      unfold rd_err; simpl. subst limit. by destruct (dep_MaxBlobBytes d) eqn:E; try done; lia. }
  split; [done|]. unfold body_outcome. by rewrite He, bool_decide_eq_true_2, Hb.
Qed.

Lemma upload_wire_ok data t now :
  upload_length data <= limit -> in_time now t -> wire_ok (upload_source data) t.
Proof.
  intros Hl (_ & _ & Hc & Ht & _). unfold wire_ok, upload_source. rewrite bytes_reader_err.
  split_and!; [apply end_ok_clean; by left|done| |done|done].
  unfold stream_fits, upload_length in *. subst limit. simpl.
  assert ((2 ^ 50 = 2 ^ 49 + 2 ^ 49)%Z) as -> by done. assert (0 < 2 ^ 49) by done.
  destruct (default [] data) as [|c b]; simpl in *; lia.
Qed.

(** A signed attempt that reaches its endpoint is served. *)
Lemma attempt_served base w me e path kvs data st t clock n' p ps a (cn : connection) :
  origin_base base -> plain_path ("/"%char :: path) ->
  (e = EAppend <-> data <> None) -> data <> Some [] -> upload_length data <= limit ->
  admits w me e ("/"%char :: path) kvs data st t (cn_nonces cn) n' p ->
  reaches d pub e (arriving e ("/"%char :: path) kvs data p) ps ->
  cn_clock cn = t :: clock -> refines (cn_store cn) a ->
  let r := with_params (arriving e ("/"%char :: path) kvs data p) ps in
  let spec := spec_api limit e (ToDERHex me) r (t_store t) (Ok (default [] data)) a in
  exists cn' res,
    roundTrip w base (ToDERHex pub) (endpoint_method e) (target ("/"%char :: path) kvs) (upload_digest data)
      (uploads data) (upload_length data) st cn = (cn', res) /\
    cn_clock cn' = clock /\ cn_nonces cn' = n' /\
    answered e (ToDERHex me) r a spec.1 spec.2 (cn_store cn) cn' res.
Proof.
  intros Hb Hp He Hne Hl (Hw & Hs & Hn & Hsig & Hin & Hcons) Hreach Hclock Ha r spec.
  destruct st as [now draw]. cbn [fst snd] in *.
  destruct (roundTrip_delivers h w base (ToDERHex pub) (endpoint_method e) path kvs data p now draw cn Hb Hp Hne Hs)
    as (q & Hrt & Hu & Hm & Hh & Hbody & Hmet).
  pose proof (signed_admitted d pub Hpub w me e path kvs data p now draw t (cn_nonces cn) n' Hw Hp He Hs Hn Hsig Hin Hcons)
    as Hauth.
  destruct (upload_body_whole data Hne Hl) as [Hend Hout].
  pose proof (serve_admitted d pub h Hpub Hrouter (proj1 Hlimit) e ps _ (upload_source data) t (cn_store cn)
    (cn_nonces cn) n' me (upload_digest data) a (upload_wire_ok data t now Hl Hin) Ha Hreach Hauth) as Hserved.
  cbn zeta in Hserved. rewrite Hout in Hserved. fold limit r in Hserved. fold spec in Hserved.
  set (s := serve h (arriving e ("/"%char :: path) kvs data p) (upload_source data) t (cn_store cn) (cn_nonces cn)) in *.
  assert (deliver h cn q = (mkConnection (w_store s) (w_nonces s) clock, Ok (response_of s))) as Hdel.
  { unfold deliver. rewrite Hu. destruct (target_parses path kvs Hp) as (_ & Hpar & ->). rewrite Hpar, Hclock, Hmet.
    unfold server_request. rewrite Hm, Hh, Hbody. done. }
  rewrite Hdel in Hrt. destruct Hserved as (Hn' & Hover & Hcase & _).
  assert (body_over (w_body s) = false) as Ho.
  { destruct (body_over (w_body s)); [|done]. specialize (Hover eq_refl). by rewrite Hend in Hover. }
  eexists _, (received (response_of s)). split_and!.
  - etrans; [exact Hrt|]. unfold received. by destruct (_ || _).
  - done.
  - done.
  - unfold answered. cbn [cn_store]. unfold reply_through in Hcase. rewrite Ho in Hcase.
    destruct Hcase as [[Hr Hresp]|(Hex & Hr & rp' & Hf & Hresp)].
    + left. split; [exact Hr|]. by rewrite (response_of_reply _ _ Hresp).
    + right. split; [exact Hex|]. split; [exact Hr|]. exists rp'. split; [exact Hf|]. by rewrite (response_of_reply _ _ Hresp).
Qed.

(** ** The server's key *)

Lemma serve_limits r body t st n :
  is_health r = false -> Method r = "GET" -> ContentLength r <= limit ->
  route_path (ReqURL r) = bytes_of_string "/v1/limits" ->
  let s := serve h r body t st n in
  response_is s (json_reply 200 (limits_json limit (ToDERHex pub))) /\ w_store s = st /\ w_nonces s = n.
Proof.
  intros Hh Hm Hl Hp. cbn zeta. rewrite (serve_chain d pub h Hpub Hrouter) by (done || by rewrite Hm).
  unfold mux. rewrite (find_limits d (ToDERHex pub) r Hm Hp). cbn [routes lookup list_lookup]. fold limit.
  set (s0 := set_route _ _).
  destruct (api_WriteJSON limit 200 (limits_json limit (ToDERHex pub)) s0) as (Hr & (Eb & Es & En & _) & _ & Hw); [done..|].
  unfold reply_through in Hr. change (body_over (w_body s0)) with false in Hr. cbn iota in Hr.
  unfold handle_Limits. remember (WriteJSON (api_writer limit) 200 _ s0) as s1 eqn:E1. clear E1.
  unfold finish. rewrite Hw, andb_false_r. unfold response_is, logged, emit.
  cbn [w_resp w_store w_nonces]. rewrite Es, En. done.
Qed.

Definition server_limits : Limits := mkLimits limit limit (ToDERHex pub).

Lemma decode_limits :
  Decode_body set_limits (mkLimits 0 0 "") (hp_body (reply_response (json_reply 200 (limits_json limit (ToDERHex pub)))))
  = Ok server_limits.
Proof.
  assert (in64 limit) as H64 by (unfold in64; subst limit; assert (2 ^ 49 < 2 ^ 63) by done; lia).
  assert (forall m, m = [(bytes_of_string "maxBlobBytes", JInt limit); (bytes_of_string "maxBodyBytes", JInt limit);
    (bytes_of_string "serverIdentityKey", JString (ToDERHex pub)); (bytes_of_string "status", JString "success")] ->
    Decode_body set_limits (mkLimits 0 0 "") (hp_body (reply_response (json_reply 200 (JObj m)))) = Ok server_limits) as H;
    [|by apply H].
  intros m Em. rewrite (Decode_body_json _ _ _ _ 1); [|subst m|by vm_compute; lia].
  2:{ constructor. apply plain_members_Forall. repeat constructor; try done. eapply match_lower_hex_ascii, ToDERHex_hex. }
  subst m. unfold set_members. cbn [foldl mbind option_bind].
  stored set_limits. done.
Qed.

(** Fetching the key costs one request, and changes nothing but the clock. *)
Lemma fetch_limits_served base t clock (cn : connection) :
  origin_base base -> cn_clock cn = t :: clock ->
  fetch_limits base cn = (mkConnection (cn_store cn) (cn_nonces cn) clock, Ok server_limits).
Proof.
  intros Hb Hclock. unfold fetch_limits, NewRequest.
  assert (plain_path (bytes_of_string "/v1/limits")) as Hp by (by repeat constructor).
  destruct (target_parses (bytes_of_string "v1/limits") [] Hp) as (Ht & Hpar & Huri).
  change (target _ []) with "/v1/limits" in *.
  rewrite bytes_of_string_app. cbn [bytes_of_string]. rewrite (Hb _). cbn [origin_error net direct].
  change (parse_tail _) with (parse_tail (bytes_of_string "/v1/limits")). rewrite Ht. cbn [http_Do net direct].
  set (u := mkURL _ _ _ _) in *.
  match goal with |- context [deliver h cn ?q] => set (q0 := q) end.
  assert (deliver h cn q0 = (mkConnection (cn_store cn) (cn_nonces cn) clock,
    Ok (reply_response (json_reply 200 (limits_json limit (ToDERHex pub)))))) as ->.
  { unfold deliver. change (hq_url q0) with u. rewrite Huri, Hpar, Hclock.
    change (length_met q0) with true. cbn iota.
    destruct (serve_limits (server_request q0 u) (body_on_wire q0).2 t (cn_store cn) (cn_nonces cn)) as (Hr & -> & ->);
      [done|done|subst limit; simpl; lia|done|]. by rewrite (response_of_reply _ _ Hr). }
  rewrite decode_limits. unfold wrap_err. cbn iota. change (hp_status _) with 200. cbn [Z.eqb negb].
  change (negb _) with false. cbn iota. cbn [res_bind server_limits ServerIdentityKey].
  rewrite bool_decide_eq_false_2 by apply account_ne. done.
Qed.

(** ** A call *)

(** What a call needs to go through: a usable key, the server's key known or
    to be fetched (with a clock reading for that request), and a proof that
    the server admits. *)
Record calling (c : Client) (me : PublicKey) (e : endpoint) (path : bytes) (kvs : list (bytes * bytes))
    (data : option bytes) (st : Z * result bytes) (t : times) (n' : NSt) (cn : connection) : Prop := {
  calling_base : origin_base (baseURL c);
  calling_key : forall lim, limits c = Some lim -> ServerIdentityKey lim = ToDERHex pub;
  calling_clock : exists pre clock, cn_clock cn = pre ++ t :: clock /\
    length pre = match limits c with Some _ => 0%nat | None => 1%nat end;
  calling_admitted : exists w p, wallet c = Ok w /\ admits w me e path kvs data st t (cn_nonces cn) n' p;
}.

Lemma spec_api_status e account r now body a : rp_status (spec_api limit e account r now body a).2 <> 401.
Proof.
  assert (forall q res, rp_status (append_reply limit q res) <> 401) as Happend
    by (intros q [[]|err]; [done|]; unfold append_reply; repeat destruct (Is err _); done).
  unfold spec_api. destruct e; [done| | | | |done].
  - destruct (bool_decide _), (match_lower_hex _ _), (query_number r "seq"), (query_number r "generation"); try done.
    cbn [negb]. destruct (spec_append _ _ _ _ _). apply Happend.
  - destruct (match_lower_hex _ _), (query_number r "generation"); done.
  - destruct (match_lower_hex _ _), (query_number r "generation"), (decimal_number (URLParam r "seq")); try done.
    cbn [negb snd]. by destruct (spec_get _ _).
  - destruct (match_lower_hex _ _), (decimal_number (URLParam r "generation")); try done. cbn [negb].
    destruct (spec_delete_generation _ _ _ _) as [? [n|err]]; [|done]. cbn [snd prune_reply]. by destruct (bool_decide _).
Qed.

Lemma failure_reply_status over rp rp' : rp_status rp <> 401 -> failure_reply limit over rp rp' -> rp_status rp' <> 401.
Proof. intros H [[what ->]|[[_ ->]|(data & -> & data' & _ & ->)]]; done. Qed.

Lemma not_spent rp : rp_status rp <> 401 -> isSpentProofRefusal (received (reply_response rp)) = false.
Proof.
  intros H. unfold received. destruct (_ || _); [|done].
  destruct (decodeAPIError_status (reply_response rp)) as (code & msg & ->). simpl.
  by rewrite (proj2 (Z.eqb_neq _ _)).
Qed.

Lemma call_served c me e path kvs data st st2 t n' ps a (cn : connection) :
  plain_path ("/"%char :: path) ->
  (e = EAppend <-> data <> None) -> data <> Some [] -> upload_length data <= limit ->
  calling c me e ("/"%char :: path) kvs data st t n' cn ->
  (forall p, reaches d pub e (arriving e ("/"%char :: path) kvs data p) ps) ->
  refines (cn_store cn) a ->
  exists c' cn' res p,
    let r := with_params (arriving e ("/"%char :: path) kvs data p) ps in
    let spec := spec_api limit e (ToDERHex me) r (t_store t) (Ok (default [] data)) a in
    client_do c (endpoint_method e) (target ("/"%char :: path) kvs) (upload_digest data)
      (uploads data) (upload_length data) st st2 cn = (c', cn', res) /\
    cn_nonces cn' = n' /\ answered e (ToDERHex me) r a spec.1 spec.2 (cn_store cn) cn' res.
Proof.
  intros Hp He Hne Hl [Hb Hk (pre & clock & Hclock & Hpre) (w & p & Hw & Hadm)] Hreach Ha.
  set (cn1 := mkConnection (cn_store cn) (cn_nonces cn) (t :: clock)).
  assert (exists c1 lim, client_Limits c cn = (c1, cn1, Ok lim) /\ ServerIdentityKey lim = ToDERHex pub /\ baseURL c1 = baseURL c)
    as (c1 & lim & Hlim & Hkey & Hbase).
  { unfold client_Limits. destruct (limits c) as [lim|] eqn:El.
    - destruct pre; [|done]. exists c, lim. split; [|split; [by apply Hk|done]]. subst cn1. destruct cn. simpl in *. by subst.
    - destruct pre as [|t0 [|]]; try done. rewrite (fetch_limits_served (baseURL c) t0 (t :: clock)) by done.
      by eexists _, server_limits. }
  destruct (attempt_served (baseURL c) w me e path kvs data st t clock n' p ps a cn1 Hb Hp He Hne Hl Hadm (Hreach p) eq_refl Ha)
    as (cn' & res & Hrt & Hc' & Hn' & Hans).
  exists c1, cn', res, p. cbn zeta. split; [|by split].
  unfold client_do. rewrite Hw, Hlim, Hkey, Hbase, Hrt.
  assert (isSpentProofRefusal res = false) as ->; [|by rewrite orb_true_r].
  pose proof (spec_api_status e (ToDERHex me) (with_params (arriving e ("/"%char :: path) kvs data p) ps) (t_store t)
    (Ok (default [] data)) a) as Hst.
  destruct Hans as [[_ ->]|(_ & _ & rp' & Hf & ->)]; apply not_spent; [done|by eapply failure_reply_status].
Qed.

(** A failure of the service. *)
Definition server_failure {A : Type} (res : result A) : Prop :=
  exists code msg, res = Err (APIError 500 code msg).

Lemma received_internal what : server_failure (received (reply_response (internal what))).
Proof.
  unfold received. change (_ || _) with true. cbn iota.
  destruct (decodeAPIError_status (reply_response (internal what))) as (code & msg & ->). by exists code, msg.
Qed.

(** The abstract outcome, or, where it is excused, a 500 that leaves the log
    where it was or where the abstract outcome takes it. *)
Definition outcome {A : Type} (excused : Prop) (a a' : alog) (want : result A) (cn' : connection) (res : result A) : Prop :=
  (refines (cn_store cn') a' /\ res = want) \/
  (excused /\ (refines (cn_store cn') a \/ refines (cn_store cn') a') /\ server_failure res).

(** How the client takes a reply. *)
Definition taken {A : Type} (k : http_response -> result A) (rp : reply) : result A :=
  match received (reply_response rp) with Ok resp => k resp | Err e => Err e end.

(** An operation that decodes the answer to one call. *)
Lemma do_then_served {A : Type} (k : http_response -> result A) (ex : Prop) want rp c me e path kvs data st st2 t n' ps
    a a' (cn : connection) :
  plain_path ("/"%char :: path) ->
  (e = EAppend <-> data <> None) -> data <> Some [] -> upload_length data <= limit ->
  calling c me e ("/"%char :: path) kvs data st t n' cn ->
  (forall p, reaches d pub e (arriving e ("/"%char :: path) kvs data p) ps) ->
  refines (cn_store cn) a ->
  (forall p, let r := with_params (arriving e ("/"%char :: path) kvs data p) ps in
    spec_api limit e (ToDERHex me) r (t_store t) (Ok (default [] data)) a = (a', rp) /\
    (request_excused e (ToDERHex me) r a (cn_store cn) -> ex)) ->
  taken k rp = want -> (forall data, rp <> blob_reply data) ->
  exists c' cn' res,
    do_then (endpoint_method e) (target ("/"%char :: path) kvs) (upload_digest data) (uploads data)
      (upload_length data) k c cn st st2 = (c', cn', res) /\
    cn_nonces cn' = n' /\ outcome ex a a' want cn' res.
Proof.
  intros Hp He Hne Hl Hcall Hreach Ha Hspec Hwant Hblob.
  destruct (call_served c me e path kvs data st st2 t n' ps a cn Hp He Hne Hl Hcall Hreach Ha)
    as (c' & cn' & res & p & Hdo & Hn' & Hans).
  destruct (Hspec p) as [Hsp Hex]. cbn zeta in Hans, Hsp, Hex. rewrite Hsp in Hans. cbn [fst snd] in Hans.
  unfold do_then. rewrite Hdo. destruct Hans as [[Hr ->]|(Hxc & Hr & rp' & Hf & ->)].
  - eexists c', cn', want. split; [|split; [exact Hn'|by left]]. rewrite <- Hwant. unfold taken. by destruct (received _).
  - destruct Hf as [[what ->]|[[[=] _]|(data' & E & _)]]; [|by destruct (Hblob data')].
    destruct (received_internal what) as (code & msg & ->).
    exists c', cn', (Err (APIError 500 code msg)). split; [done|]. split; [exact Hn'|]. right.
    split; [by apply Hex|]. split; [exact Hr|]. by exists code, msg.
Qed.

(** ** Uploads *)

Definition append_query (g q : Z) (prev : string) : list (bytes * bytes) :=
  [(bytes_of_string "seq", bytes_of_string (FormatInt q)); (bytes_of_string "generation", bytes_of_string (FormatInt g))]
  ++ if bool_decide (prev = "") then [] else [(bytes_of_string "prevSha256", bytes_of_string prev)].

Definition log_path (device : string) : bytes := bytes_of_string "/v1/log/" ++ bytes_of_string device.

Lemma QueryEscape_FormatInt n : QueryEscape (bytes_of_string (FormatInt n)) = bytes_of_string (FormatInt n).
Proof.
  apply QueryEscape_plain. eapply Forall_impl; [apply FormatInt_chars|].
  intros c [Hc| ->]; [|done]. split; [by intros ->|]. by destruct c as [[] [] [] [] [] [] [] []]; vm_compute in Hc |- *.
Qed.

Lemma append_uri_target device g q prev :
  name_ok device -> append_uri device g q prev = target (log_path device) (append_query g q prev).
Proof.
  intros Hd. rewrite <- (string_of_bytes_of_string (append_uri device g q prev)). unfold target. f_equal.
  unfold append_uri, append_query, target_of, log_path, esc, qesc. rewrite PathEscape_hex, string_of_bytes_of_string by done.
  case_bool_decide; cbn [negb app join_query]; unfold pair_text; cbn [fst snd]; rewrite !QueryEscape_FormatInt;
    repeat (rewrite bytes_of_string_app || cbn [bytes_of_string]); rewrite ?bytes_of_string_of_bytes;
    repeat (rewrite <- app_assoc || rewrite <- app_comm_cons); reflexivity.
Qed.
Section device.
Context (device : string).
Hypothesis Hdev : match_lower_hex 32 device = true.

Lemma device_name : name_ok device.
Proof. eapply hex_name, Hdev. Qed.

Lemma device_bytes :
  bytes_of_string device <> [] /\ ("/"%char ∉ bytes_of_string device) /\ plain_path (log_path device).
Proof.
  destruct (hex_plain device device_name) as [Hp Hs]. split_and!; [|done|].
  - intros E. destruct device; [by vm_compute in Hdev|done].
  - apply Forall_app. split; [by repeat constructor|done].
Qed.

(** What the server reads off an upload. *)
Lemma append_arrives g q prev data p :
  1 <= g <= 2 ^ 30 -> 1 <= q <= 2 ^ 30 ->
  let r := with_params (arriving EAppend (log_path device) (append_query g q prev) (Some data) p) [("deviceId", device)] in
  URLParam r "deviceId" = device /\ query_number r "seq" = Some q /\ query_number r "generation" = Some g /\
  Query_Get (ReqURL r) "prevSha256" = prev /\ Header_Get r "Content-Type" = Handlers.ContentTypeOctetStream.
Proof.
  intros Hg Hq r. assert (append_query g q prev <> []) as Hne by done. split_and!.
  - done.
  - eapply (query_number_join r (append_query g q prev) "seq"); [done..|]. unfold append_query. by case_bool_decide.
  - eapply (query_number_join r (append_query g q prev) "generation"); [done..|]. unfold append_query. by case_bool_decide.
  - change (ReqURL r) with (mkURL (log_path device) [] (join_query (append_query g q prev)) false).
    rewrite Query_Get_join by done. unfold append_query. case_bool_decide as Hprev; [by subst|].
    cbn. apply string_of_bytes_of_string.
  - unfold Header_Get. change (ReqHeader r) with (upload_header (Some data) p). unfold upload_header.
    by rewrite lookup_insert_eq.
Qed.

Lemma append_reaches g q prev data p :
  upload_length (Some data) <= limit ->
  reaches d pub EAppend (arriving EAppend (log_path device) (append_query g q prev) (Some data) p) [("deviceId", device)].
Proof.
  intros Hl. destruct device_bytes as (Hne & Hs & _). split_and!; [|done|done|].
  - done.
  - rewrite <- (string_of_bytes_of_string device) at 2. by eapply (find_log d (ToDERHex pub)); [left| | | |].
Qed.

(** The results as the client decodes them. *)
Lemma decode_append q n sha :
  in64 q -> in64 n -> ascii7_str sha ->
  Decode_body set_append (mkAppendResult 0 "" 0) (hp_body (reply_response (json_reply 201 (append_json q n sha))))
  = Ok (mkAppendResult q sha n).
Proof.
  intros Hq Hn Hs. unfold append_json.
  match goal with |- context [JObj ?m0] => set (m := m0) end.
  rewrite (Decode_body_json _ _ _ m 1); [|subst m|by vm_compute; lia].
  2:{ constructor. apply plain_members_Forall. repeat constructor; done. }
  subst m. unfold set_members. cbn [foldl mbind option_bind]. stored set_append. done.
Qed.

Lemma conflict_decoded w q :
  0 <= w < 2 ^ 63 -> 0 <= q < 2 ^ 63 ->
  decodeAPIError (reply_response (error_reply 409 "ERR_SEQ_CONFLICT" (Error (conflict_error w q))))
  = APIError 409 "ERR_SEQ_CONFLICT" (Error (conflict_error w q)).
Proof.
  intros Hw Hq. pose proof (FormatInt_length w Hw). pose proof (FormatInt_length q Hq).
  assert (bytes_of_string (Error (conflict_error w q))
    = bytes_of_string (sentinel_text ErrSeqConflict +:+ ": expected seq ") ++ bytes_of_string (FormatInt w)
      ++ bytes_of_string ", got " ++ bytes_of_string (FormatInt q)) as E.
  { unfold conflict_error. cbn [Error]. rewrite !bytes_of_string_app, <- !app_assoc. done. }
  assert (ascii7_str (Error (conflict_error w q))) as Ha.
  { unfold ascii7_str, ascii7. rewrite E, !Forall_app. split_and!; try apply FormatInt_ascii; by apply ascii7_check. }
  assert (ascii7_str "ERR_SEQ_CONFLICT") by by apply ascii7_check.
  apply decodeAPIError_reply; [done..|]. apply ErrorBody_length; [done..|].
  rewrite E, !length_app.
  assert (length (bytes_of_string (sentinel_text ErrSeqConflict +:+ ": expected seq ")) <= 100)%nat by (vm_compute; lia).
  assert (length (bytes_of_string "ERR_SEQ_CONFLICT") = 16 /\ length (bytes_of_string ", got ") = 6)%nat as [-> ->] by done.
  lia.
Qed.

(** What the caller of [AppendBytes] gets for an outcome of the log. *)
Definition append_result (q : Z) (res : result (string * Z)) : result AppendResult :=
  match res with
  | Ok (sha, size) => Ok (mkAppendResult q sha size)
  | Err e => Err (APIError 409 "ERR_SEQ_CONFLICT" (Error e))
  end.

Lemma spec_api_append_eq account r now data a g q :
  Header_Get r "Content-Type" = Handlers.ContentTypeOctetStream -> URLParam r "deviceId" = device ->
  query_number r "seq" = Some q -> query_number r "generation" = Some g ->
  let spec := spec_append now a (mkBlobKey account device g q) (Query_Get (ReqURL r) "prevSha256") (Ok data) in
  spec_api limit EAppend account r now (Ok data) a = (spec.1, append_reply limit q spec.2).
Proof.
  intros Hct Hd Hq Hg spec. unfold spec_api. rewrite Hct, Hd, Hq, Hg, Hdev.
  rewrite bool_decide_eq_true_2 by done. cbn [negb]. fold spec. by destruct spec.
Qed.

Lemma append_received_ok now account a g q prev data :
  alog_ok a -> 1 <= q <= 2 ^ 30 -> data <> [] -> Z.of_nat (length data) <= limit ->
  let res := (spec_append now a (mkBlobKey account device g q) prev (Ok data)).2 in
  match received (reply_response (append_reply limit q res)) with
  | Err e => Err e
  | Ok resp => wrap_err "decode append response: " (Decode_body set_append (mkAppendResult 0 "" 0) (hp_body resp))
  end = append_result q res.
Proof.
  intros Ha Hq Hne Hl. unfold spec_append. cbn [Seq stream_of Pseudonym DeviceID Generation].
  assert (2 ^ 30 < 2 ^ 49 < 2 ^ 63) as Hpow by done.
  case_bool_decide.
  - destruct data as [|x data]; [done|]. set (l := x :: data) in *. cbn [snd append_reply append_result].
    change (received _) with (Ok (reply_response (json_reply 201 (append_json q (Z.of_nat (length l)) (sha256_hex l))))).
    cbn iota. unfold wrap_err. rewrite decode_append; [done| | |].
    + unfold in64. lia.
    + unfold in64. subst limit. lia.
    + eapply match_lower_hex_ascii, sha256_hex_shape.
  - pose proof (log_of_length a (stream_of (mkBlobKey account device g q)) Ha) as Hlen. cbn [snd append_reply append_result].
    unfold spec_next. set (w := Z.of_nat (length (log_of a _)) + 1).
    change (received _) with (Err (A := http_response) (decodeAPIError (reply_response
      (error_reply 409 "ERR_SEQ_CONFLICT" (Error (conflict_error w q)))))).
    rewrite conflict_decoded; [done| |]; subst w; lia.
Qed.

Lemma AppendBytes_call c me g q prev data st st2 t n' a (cn : connection) :
  calling c me EAppend (log_path device) (append_query g q prev) (Some data) st t n' cn ->
  refines (cn_store cn) a ->
  1 <= g <= 2 ^ 30 -> 1 <= q <= 2 ^ 30 -> data <> [] -> Z.of_nat (length data) <= limit ->
  let spec := spec_append (t_store t) a (mkBlobKey (ToDERHex me) device g q) prev (Ok data) in
  exists c' cn' res,
    client_AppendBytes device g q prev data c cn st st2 = (c', cn', res) /\ cn_nonces cn' = n' /\
    outcome (faulty (cn_store cn) \/ ~ text_ok prev) a spec.1 (append_result q spec.2) cn' res.
Proof.
  intros Hcall Ha Hg Hq Hne Hl spec. destruct device_bytes as (_ & _ & Hp).
  unfold client_AppendBytes, client_Append_upload. rewrite append_uri_target by apply device_name.
  eapply (do_then_served _ _ _ (append_reply limit q spec.2) c me EAppend _ _ (Some data) st st2 t n' [("deviceId", device)]);
    [exact Hp|done|by intros [= ->]|exact Hl|exact Hcall|intros p; by apply (append_reaches g q)|exact Ha| | |].
  - intros p. destruct (append_arrives g q prev data p Hg Hq) as (Hd & Hseq & Hgen & Hprev & Hct).
    change ("/"%char :: _) with (log_path device). cbn zeta. split.
    + rewrite (spec_api_append_eq _ _ _ _ _ g q Hct Hd Hseq Hgen), Hprev. done.
    + unfold request_excused. by rewrite Hprev.
  - apply append_received_ok; try done. by eapply refines_alog_ok.
  - intros data' E. revert E. unfold spec, spec_append. by destruct (bool_decide _), data.
Qed.

(** C14. An upload, end to end. A client that calls [AppendBytes] with a
    well-formed device and addressable numbers, over a network that delivers
    the request once, gets exactly the outcome of the abstract append for the
    account of its own key: the sequence number, the digest and the size of a
    blob that is now the next one of the log, or the 409 that names the
    expected sequence number, the log being untouched. Only where the store
    reports trouble below it the caller gets a 500. *)
Theorem client_AppendBytes_outcome c me g q prev data st st2 t n' a (cn : connection) :
  calling c me EAppend (log_path device) (append_query g q prev) (Some data) st t n' cn ->
  refines (cn_store cn) a ->
  1 <= g <= 2 ^ 30 -> 1 <= q <= 2 ^ 30 -> data <> [] -> Z.of_nat (length data) <= limit ->
  let spec := spec_append (t_store t) a (mkBlobKey (ToDERHex me) device g q) prev (Ok data) in
  exists c' cn' res,
    client_AppendBytes device g q prev data c cn st st2 = (c', cn', res) /\ cn_nonces cn' = n' /\
    ((refines (cn_store cn') spec.1 /\ res = append_result q spec.2) \/
     ((faulty (cn_store cn) \/ ~ text_ok prev) /\ (refines (cn_store cn') a \/ refines (cn_store cn') spec.1) /\
      server_failure res)).
Proof. intros. by apply AppendBytes_call. Qed.

(** ** Downloads *)

Definition blob_path (q : Z) : bytes := log_path device ++ "/"%char :: bytes_of_string (FormatInt q).
Definition blob_query (g : Z) : list (bytes * bytes) := [(bytes_of_string "generation", bytes_of_string (FormatInt g))].
Definition blob_params (q : Z) : list (string * string) := [("deviceId", device); ("seq", FormatInt q)].

Lemma blob_uri_target g q : blob_uri device g q = target (blob_path q) (blob_query g).
Proof.
  rewrite <- (string_of_bytes_of_string (blob_uri device g q)). unfold target. f_equal.
  unfold blob_uri, blob_query, target_of, blob_path, log_path, esc.
  rewrite PathEscape_hex, string_of_bytes_of_string by apply device_name.
  cbn [join_query]. unfold pair_text. cbn [fst snd]. rewrite QueryEscape_FormatInt.
  repeat (rewrite bytes_of_string_app || cbn [bytes_of_string]).
  repeat (rewrite <- app_assoc || rewrite <- app_comm_cons). reflexivity.
Qed.

Lemma FormatInt_nonempty n : bytes_of_string (FormatInt n) <> [].
Proof.
  unfold FormatInt. destruct (n <? 0); [done|]. rewrite bytes_of_string_of_bytes. apply digits_nonempty.
Qed.

Lemma blob_reaches g q p :
  reaches d pub EBlob (arriving EBlob (blob_path q) (blob_query g) None p) (blob_params q).
Proof.
  destruct device_bytes as (Hne & Hs & _). split_and!; [done|done|unfold arriving, upload_length; simpl; lia|].
  pose proof (find_blob (St := St) (NSt := NSt) d (ToDERHex pub) (arriving EBlob (blob_path q) (blob_query g) None p)
    (bytes_of_string device) (bytes_of_string (FormatInt q))) as H.
  rewrite !string_of_bytes_of_string in H.
  apply H; [done|done|done|apply FormatInt_nonempty|apply FormatInt_noslash|].
  unfold blob_path, log_path. by rewrite <- app_assoc.
Qed.

Lemma spec_api_blob_eq account now body a g q p :
  1 <= g <= 2 ^ 30 -> 1 <= q <= 2 ^ 30 ->
  spec_api limit EBlob account (with_params (arriving EBlob (blob_path q) (blob_query g) None p) (blob_params q)) now body a
  = (a, match spec_get a (mkBlobKey account device g q) with
        | Ok data => blob_reply data
        | Err _ => error_reply 404 "ERR_BLOB_NOT_FOUND" "No such blob."
        end).
Proof.
  intros Hg Hq. unfold spec_api. set (r := with_params _ _).
  change (URLParam r "deviceId") with device. change (URLParam r "seq") with (FormatInt q). rewrite Hdev. cbn [negb].
  rewrite (query_number_join r (blob_query g) "generation" (blob_path q) g (bytes_of_string "generation")) by done.
  by rewrite decimal_number_FormatInt.
Qed.

(** A blob that arrives whole. *)
Lemma blob_received data :
  Z.of_nat (length data) < 2 ^ 63 ->
  reply_response (blob_reply data) = mkHttpResponse 200 (Z.of_nat (length data)) (bytes_reader data).
Proof.
  intros Hl. unfold reply_response, blob_reply. cbn [rp_length rp_status rp_body mbind option_bind].
  rewrite Atoi_FormatInt by (unfold in64; lia). cbn [default]. unfold response_source, bytes_reader.
  by rewrite Z.ltb_irrefl.
Qed.

Lemma not_found_received :
  received (reply_response (error_reply 404 "ERR_BLOB_NOT_FOUND" "No such blob."))
  = Err (APIError 404 "ERR_BLOB_NOT_FOUND" "No such blob.").
Proof.
  unfold received. change (_ || _) with true. cbn iota. rewrite decodeAPIError_reply; [done|by apply ascii7_check..|].
  vm_compute. done.
Qed.

(** A blob that arrives short is reported as such: what the caller reads
    without an error is the whole of it. *)
Lemma short_blob_received data data' :
  Z.of_nat (length data) < 2 ^ 63 -> data' `prefix_of` data ->
  let rp := mkReply 200 (rp_type (blob_reply data)) (rp_length (blob_reply data)) data' in
  drained (taken (fun resp => Ok (hp_body resp, hp_length resp)) rp) = Err (Sentinel ErrUnexpectedEOF) \/ data' = data.
Proof.
  intros Hl Hpre. cbn zeta. unfold taken, received, reply_response. cbn [rp_length rp_status rp_body blob_reply mbind option_bind hp_status].
  rewrite Atoi_FormatInt by (unfold in64; lia). cbn [default]. change (_ || _) with false. cbn iota.
  cbn [hp_body hp_length]. unfold response_source, id.
  destruct (Z.ltb_spec (Z.of_nat (length data')) (Z.of_nat (length data))) as [Hlt|Hge]; [left|right].
  { rewrite drained_err; [reflexivity|]. unfold rd_err. simpl. discriminate. }
  destruct Hpre as [rest ->]. rewrite length_app in Hge. destruct rest; [by rewrite app_nil_r|]. simpl in Hge. lia.
Qed.

Definition blob_result (k : BlobKey) (a : alog) : result (bytes * Z) :=
  match blob_at a k with
  | Some b => Ok (ab_data b, Z.of_nat (length (ab_data b)))
  | None => Err (APIError 404 "ERR_BLOB_NOT_FOUND" "No such blob.")
  end.

(** A download, end to end: the caller of [Blob] who reads the body to its
    end has the bytes that were stored under the account of its key, with
    their length, or the 404; the log is untouched. A store whose
    infrastructure fails may answer 500, or cut the download short, which the
    caller is told. *)
Theorem client_Blob_outcome c me g q st st2 t n' a (cn : connection) :
  calling c me EBlob (blob_path q) (blob_query g) None st t n' cn ->
  refines (cn_store cn) a ->
  1 <= g <= 2 ^ 30 -> 1 <= q <= 2 ^ 30 ->
  let k := mkBlobKey (ToDERHex me) device g q in
  (forall b, blob_at a k = Some b -> Z.of_nat (length (ab_data b)) < 2 ^ 63) ->
  exists c' cn' res,
    client_Blob device g q c cn st st2 = (c', cn', res) /\ cn_nonces cn' = n' /\ refines (cn_store cn') a /\
    (drained res = blob_result k a \/
     faulty (cn_store cn) /\ (server_failure (drained res) \/ drained res = Err (Sentinel ErrUnexpectedEOF))).
Proof.
  intros Hcall Ha Hg Hq k Hlen. destruct device_bytes as (_ & _ & Hp0).
  assert (plain_path (blob_path q)) as Hp.
  { apply Forall_app. split; [done|]. constructor; [done|apply FormatInt_plain]. }
  destruct (call_served c me EBlob _ _ None st st2 t n' (blob_params q) a cn Hp ltac:(done) ltac:(done)
    ltac:(unfold upload_length; subst limit; simpl; lia) Hcall (blob_reaches g q) Ha)
    as (c' & cn' & res & p & Hdo & Hn' & Hans).
  cbn zeta in Hans. change ("/"%char :: _) with (blob_path q) in *. rewrite spec_api_blob_eq in Hans by done.
  cbn [fst snd] in Hans. fold k in Hans. unfold client_Blob, do_then. rewrite blob_uri_target.
  change (client_do c "GET" _ "" None 0 st st2 cn) with (client_do c (endpoint_method EBlob)
    (target (blob_path q) (blob_query g)) (upload_digest None) (uploads None) (upload_length None) st st2 cn).
  rewrite Hdo. unfold spec_get, blob_result in *.
  eexists c', cn', (match res with Ok resp => Ok (hp_body resp, hp_length resp) | Err e => Err e end).
  split; [by destruct res|]. split; [exact Hn'|].
  split; [by destruct Hans as [[? _]|(_ & [?|?] & _)]|].
  destruct Hans as [[_ ->]|([Hf|[]] & _ & rp' & Hfr & ->)].
  - left. destruct (blob_at a k) as [b|]; [|by rewrite not_found_received].
    rewrite blob_received by by apply Hlen. unfold received. change (_ || _) with false. cbn iota. cbn [hp_body hp_length].
    rewrite drained_ok by apply bytes_reader_err. by rewrite bytes_reader_bytes.
  - change (match received _ with Ok _ => _ | Err _ => _ end) with
      (taken (fun resp => Ok (hp_body resp, hp_length resp)) rp').
    destruct Hfr as [[what ->]|[[[=] _]|(data & E & data' & Hpre & ->)]].
    + right. split; [done|]. left. unfold taken. destruct (received_internal what) as (code & msg & ->). by exists code, msg.
    + destruct (blob_at a k) as [b|]; [|by apply (f_equal rp_status) in E].
      apply (f_equal rp_body) in E. cbn [rp_body blob_reply] in E. subst data.
      destruct (short_blob_received (ab_data b) data') as [H| ->]; [by apply Hlen|done| |].
      * right. split; [done|]. by right.
      * left. change (taken _ _) with (taken (fun resp => Ok (hp_body resp, hp_length resp)) (blob_reply (ab_data b))).
        unfold taken. rewrite blob_received by by apply Hlen. unfold received. change (_ || _) with false. cbn iota.
        cbn [hp_body hp_length]. rewrite drained_ok by apply bytes_reader_err. by rewrite bytes_reader_bytes.
Qed.
End device.

End calls.
