(* ===== verification/Session.v ===== *)
(** A client's session: every operation of [client/client.go], end to end,
    and a sequence of them on one client.  What the caller is told is what
    the operations of the abstract log say for the account of its key. *)
From S2P Require Import Prelude GoStrings GoError Sha256 GoTime Json JsonFacts Url UrlEscape Nonce.
From S2P Require Import AuthProof AuthProofProps GoIO BlobStore LogFacts Trace Bodies Http WriterFacts Handlers Api.
From S2P Require Import Middlewares AuthGate Server ServerProps Client ClientProps ClientServer EndToEnd.
Local Open Scope Z_scope.

(** What the server renders the client reads back: RFC 3339 keeps the
    nanoseconds, and the offsets of the zones in use are whole minutes. *)
Class DecoderLaws (tf : TimeFormat) (dec : Decoders) : Prop := {
  MarshalTime_ascii t : clock_ok t -> ascii7 (MarshalTime t);
  UnmarshalTime_MarshalTime t : clock_ok t -> UnmarshalTime (MarshalTime t) = Some t;
}.

(** * Listings as the client reads them *)

Section listings.
Context {tf : TimeFormat} {dec : Decoders} {dlaws : DecoderLaws tf dec}.

Lemma set_elements_map {A B : Type} (set : B -> json -> option B) (zero : B) (f : A -> json) (g : A -> B) (l : list A) :
  Forall (fun x => set zero (f x) = Some (g x)) l -> set_elements set zero (f <$> l) [] = Some (g <$> l).
Proof.
  induction 1 as [|x l Hx Hl IH]; [done|]. rewrite !fmap_cons. cbn [set_elements head default from_option tail].
  by rewrite Hx, IH.
Qed.

Lemma set_time_JTime t old : clock_ok t -> set_time (JTime t) old = Some t.
Proof. intros H. by apply UnmarshalTime_MarshalTime. Qed.

Definition entry_readable (e : Entry) : Prop :=
  in64 (Entry_Seq e) /\ ascii7_str (Entry_Sha256 e) /\ ascii7_str (Entry_PrevSha256 e) /\
  in64 (Entry_Size e) /\ clock_ok (Entry_CreatedAt e).

Definition summary_readable (s : DeviceSummary) : Prop :=
  ascii7_str (Summary_DeviceID s) /\ in64 (Summary_Generation s) /\ in64 (Summary_HeadSeq s) /\
  ascii7_str (Summary_HeadSha256 s) /\ in64 (Summary_TotalBytes s) /\ clock_ok (Summary_UpdatedAt s).

(** The members of an object that [json.Marshal] made of ASCII. *)
Ltac plain_object :=
  constructor; apply plain_members_Forall; repeat (apply Forall_cons_2; [split; [by apply ascii7_check|]|]);
  [..|apply Forall_nil_2]; try (apply plain_int); apply plain_str.

Lemma entry_plain e : entry_readable e -> plain 1 (entry_json e).
Proof.
  intros (_ & Hs & Hp & _ & Ht). unfold entry_json. case_bool_decide; cbn [app]; plain_object;
    try done; by apply MarshalTime_ascii.
Qed.

Lemma summary_plain s : summary_readable s -> plain 1 (summary_json s).
Proof.
  intros (Hd & _ & _ & Hs & _ & Ht). unfold summary_json. plain_object; try done; by apply MarshalTime_ascii.
Qed.

Ltac stores :=
  unfold set_members; cbn [foldl mbind option_bind]; unfold set_entry, set_summary;
  repeat match goal with
    | |- context [is_field ?a ?b] => let v := eval vm_compute in (is_field a b) in change (is_field a b) with v
    end;
  cbn iota;
  repeat (rewrite ?set_int64_JInt, ?set_string_JString, ?set_time_JTime by done;
          progress cbn [fmap option_fmap option_map mbind option_bind]).

Lemma entry_read e : entry_readable e -> set_members set_entry zero_entry (entry_json e) = Some e.
Proof.
  intros (Hq & _ & _ & Hn & Ht). destruct e as [q sha prev n at_]. unfold entry_json, zero_entry.
  cbn [Entry_Seq Entry_Sha256 Entry_PrevSha256 Entry_Size Entry_CreatedAt] in *.
  case_bool_decide as E; cbn [app]; stores; [by subst|done].
Qed.

Lemma summary_read s : summary_readable s -> set_members set_summary zero_summary (summary_json s) = Some s.
Proof.
  intros (_ & Hg & Hq & _ & Hn & Ht). destruct s as [d g q sha n at_]. unfold summary_json, zero_summary.
  cbn [Summary_DeviceID Summary_Generation Summary_HeadSeq Summary_HeadSha256 Summary_TotalBytes Summary_UpdatedAt] in *.
  by stores.
Qed.

Lemma decode_index l :
  Forall entry_readable l ->
  Decode_body set_entries [] (hp_body (reply_response (json_reply 200 (index_json l)))) = Ok l.
Proof.
  intros Hl. unfold index_json. match goal with |- context [JObj ?m0] => set (m := m0) end.
  rewrite (Decode_body_json _ _ _ m 3); [|subst m|by vm_compute; lia].
  - subst m. unfold set_members. cbn [foldl mbind option_bind]. unfold set_entries. cbn [fst snd].
    change (is_field "entries" (bytes_of_string "entries")) with true.
    change (is_field "entries" (bytes_of_string "status")) with false. cbn iota. unfold set_slice.
    rewrite (set_elements_map _ _ _ id), list_fmap_id; [done|].
    eapply Forall_impl; [exact Hl|]. exact entry_read.
  - constructor. apply plain_members_Forall. repeat (apply Forall_cons_2; [split; [by apply ascii7_check|]|]); [| |done].
    + constructor. apply plain_list_Forall, Forall_fmap. eapply Forall_impl; [exact Hl|]. exact entry_plain.
    + by apply plain_str, ascii7_check.
Qed.

Lemma decode_manifest l :
  Forall summary_readable l ->
  Decode_body set_devices [] (hp_body (reply_response (json_reply 200 (manifest_json l)))) = Ok l.
Proof.
  intros Hl. unfold manifest_json. match goal with |- context [JObj ?m0] => set (m := m0) end.
  rewrite (Decode_body_json _ _ _ m 3); [|subst m|by vm_compute; lia].
  - subst m. unfold set_members. cbn [foldl mbind option_bind]. unfold set_devices. cbn [fst snd].
    change (is_field "devices" (bytes_of_string "devices")) with true.
    change (is_field "devices" (bytes_of_string "status")) with false. cbn iota. unfold set_slice.
    rewrite (set_elements_map _ _ _ id), list_fmap_id; [done|].
    eapply Forall_impl; [exact Hl|]. exact summary_read.
  - constructor. apply plain_members_Forall. repeat (apply Forall_cons_2; [split; [by apply ascii7_check|]|]); [| |done].
    + constructor. apply plain_list_Forall, Forall_fmap. eapply Forall_impl; [exact Hl|]. exact summary_plain.
    + by apply plain_str, ascii7_check.
Qed.

Lemma decode_deleted n :
  in64 n ->
  Decode_body set_deleted 0 (hp_body (reply_response (json_reply 200 (deleted_json n)))) = Ok n.
Proof.
  intros Hn. unfold deleted_json. match goal with |- context [JObj ?m0] => set (m := m0) end.
  rewrite (Decode_body_json _ _ _ m 1); [|subst m|by vm_compute; lia].
  - subst m. unfold set_members. cbn [foldl mbind option_bind]. unfold set_deleted. cbn [fst snd].
    change (is_field "deleted" (bytes_of_string "deleted")) with true. cbn iota. by rewrite set_int64_JInt.
  - constructor. apply plain_members_Forall. repeat (apply Forall_cons_2; [split; [by apply ascii7_check|]|]); [|done].
    apply plain_int.
Qed.
End listings.

(** * Logs whose listings are readable *)

(** What the uploads of this client put in the log of an account: clock
    readings of this era, chain digests in ASCII, bodies within 64 bits. *)
Definition blob_readable (b : ablob) : Prop :=
  clock_ok (ab_at b) /\ ascii7_str (ab_prev b) /\ in64 (Z.of_nat (length (ab_data b))).

Definition readable (p : string) (a : alog) : Prop :=
  map_Forall (fun s l => s.1.1 = p -> Forall blob_readable l) a.

Lemma readable_log p a s : readable p a -> s.1.1 = p -> Forall blob_readable (log_of a s).
Proof.
  intros Hr Hs. unfold log_of. destruct (a !! s) as [l|] eqn:E; [|done]. by apply (Hr s l E).
Qed.

Lemma sha256_ascii b : ascii7_str (sha256_hex b).
Proof. eapply match_lower_hex_ascii, sha256_hex_shape. Qed.

Lemma index_readable p d g a from limit :
  alog_ok a -> readable p a -> Forall entry_readable (spec_index a p d g from limit).
Proof.
  intros Hok Hr. unfold spec_index. apply Forall_take. apply Forall_forall.
  intros e [_ He]%list_elem_of_filter. apply elem_of_lookup_imap in He as (i & b & -> & Hi).
  pose proof (log_of_length a (p, d, g) Hok) as Hl. pose proof (lookup_lt_Some _ _ _ Hi) as Hlt.
  pose proof (readable_log p a (p, d, g) Hr eq_refl) as Hb.
  eapply Forall_lookup_1 in Hb as (Ht & Hp & Hn); [|exact Hi].
  split_and!; [|apply sha256_ascii|exact Hp|exact Hn|exact Ht].
  unfold in64, spec_entry. cbn [Entry_Seq]. assert (2 ^ 30 < 2 ^ 63) by done. lia.
Qed.

Lemma log_updated_readable l : l <> [] -> Forall blob_readable l -> clock_ok (log_updated l).
Proof.
  intros Hne Hl. unfold log_updated.
  assert (forall l, Forall blob_readable l -> zmax ab_at time_zero l < 2 ^ 63) as Hhi.
  { induction 1 as [|b l' ((_ & Hb) & _) _ IH]; [done|]. simpl. lia. }
  destruct l as [|b l]; [done|]. split; [|by apply Hhi].
  apply Forall_cons in Hl as [((Hb & _) & _) _]. simpl. lia.
Qed.

Lemma manifest_readable p a :
  alog_ok a -> readable p a -> Forall summary_readable (spec_manifest a p).
Proof.
  intros Hok Hr. unfold spec_manifest. apply Forall_forall. intros x Hx.
  rewrite merge_sort_Permutation in Hx. apply list_elem_of_fmap in Hx as ([[[p' d] g] l] & -> & Hx).
  apply list_elem_of_filter in Hx as [Hp Hx%elem_of_map_to_list]. simpl in Hp. subst p'.
  destruct (Hok _ _ Hx) as ((_ & Hd & Hg) & Hne & Hlen & _). pose proof (Hr _ _ Hx eq_refl) as Hl.
  assert (2 ^ 30 < 2 ^ 63) by done. simpl in Hg.
  split_and!; cbn [spec_summary Summary_DeviceID Summary_Generation Summary_HeadSeq Summary_HeadSha256
    Summary_TotalBytes Summary_UpdatedAt].
  - by apply name_ascii.
  - unfold in64. lia.
  - unfold in64. lia.
  - destruct (last l); [apply sha256_ascii|constructor].
  - apply wrap64_in64.
  - by apply log_updated_readable.
Qed.

(** The calls of the account itself keep its log readable. *)
Definition op_readable (o : op) : Prop :=
  match o with
  | OpAppend now _ prev body => clock_ok now /\ ascii7_str prev /\ in64 (Z.of_nat (length (rd_bytes body)))
  | _ => True
  end.

Lemma spec_op_readable p a o : readable p a -> op_readable o -> readable p (spec_op a o).1.
Proof.
  intros Hr Ho. destruct o as [now k prev body|k|p' d g from limit|p'|p' d g|p']; simpl; try done.
  - destruct Ho as (Hn & Hp & Hb). unfold spec_append. case_bool_decide; [|done].
    unfold body_outcome. case_bool_decide; [|done]. destruct (rd_bytes body) as [|c data]; [done|]. cbn [fst].
    intros s l [[<- <-]|[_ Hl]]%lookup_insert_Some; [|by apply (Hr s l)]. intros Hs.
    apply Forall_app. split; [by apply (readable_log p)|]. apply Forall_cons_2; [by split_and!|by apply Forall_nil_2].
  - unfold spec_delete_generation. case_bool_decide; [done|]. cbn [fst].
    intros s l [_ Hl]%lookup_delete_Some. by apply (Hr s l).
  - intros s l [Hl _]%map_lookup_filter_Some. by apply (Hr s l).
Qed.

(** A call adds at most one blob. *)
Lemma account_blobs_le p a a' extra :
  (forall k b, blob_at a' k = Some b -> blob_at a k = Some b \/ (k, b) ∈ extra) ->
  (account_blobs a' p <= length extra + account_blobs a p)%nat.
Proof.
  intros H. rewrite !account_blobs_rows, <- length_app. apply submseteq_length, NoDup_submseteq.
  - apply NoDup_filter. eapply NoDup_fmap_1, NoDup_log_rows.
  - intros [k b] [Hp Hk%elem_of_log_rows]%list_elem_of_filter. rewrite elem_of_app, list_elem_of_filter, elem_of_log_rows.
    destruct (H k b Hk); auto.
Qed.

Lemma spec_op_blobs p a o : (account_blobs (spec_op a o).1 p <= 1 + account_blobs a p)%nat.
Proof.
  destruct o as [now k prev body|k|p' d g from limit|p'|p' d g|p']; cbn [spec_op fst]; try lia.
  - unfold spec_append. case_bool_decide; [|simpl; lia]. destruct (body_outcome body) as [[|c data]|]; cbn [fst]; try lia.
    set (b := mkAblob _ _ _). apply (account_blobs_le p a _ [(k, b)]). intros k' b'. rewrite blob_at_append by done.
    case_decide; [|auto]. intros [= <-]. right. subst. by apply list_elem_of_singleton.
  - unfold spec_delete_generation. case_bool_decide; cbn [fst]; [lia|].
    etrans; [apply (account_blobs_le p a _ [])|simpl; lia]. intros k b. rewrite blob_at_delete. case_decide; [done|auto].
  - destruct (spec_delete_account a p') as [a' r] eqn:E. cbn [fst].
    etrans; [apply (account_blobs_le p a _ [])|simpl; lia]. intros k b.
    change a' with ((a', r).1). rewrite <- E, blob_at_delete_account. case_decide; [done|auto].
Qed.

(** The log of the account before [n] more calls. *)
Definition session_log (p : string) (n : nat) (a : alog) : Prop :=
  readable p a /\ Z.of_nat (n + account_blobs a p) < 2 ^ 63.

Lemma session_log_step p n a o :
  session_log p (S n) a -> op_readable o -> session_log p n (spec_op a o).1.
Proof.
  intros [Hr Hn] Ho. split; [by apply spec_op_readable|]. pose proof (spec_op_blobs p a o). lia.
Qed.

Lemma session_log_fewer p n a : session_log p (S n) a -> session_log p n a.
Proof. intros [Hr Hn]. split; [done|]. lia. Qed.

(** * The operations, and what they mean *)

Inductive client_op :=
  | CallAppendBytes (device : string) (g q : Z) (prev : string) (data : bytes)
  | CallBlob (device : string) (g q : Z)
  | CallIndex (device : string) (g from limit : Z)
  | CallManifest
  | CallPruneGeneration (device : string) (g : Z)
  | CallDeleteAccount.

(** What its caller sees; a blob is read to its end. *)
Inductive client_obs :=
  | SawAppend (r : result AppendResult)
  | SawBlob (r : result (bytes * Z))
  | SawIndex (r : result (list Entry))
  | SawManifest (r : result (list DeviceSummary))
  | SawPrune (r : result unit)
  | SawErase (r : result Z).

(** The operation of the store a call stands for, on the account [me]; the
    page an index asks for when it does not say. *)
Definition store_op (now : Z) (me : string) (o : client_op) : op :=
  match o with
  | CallAppendBytes d g q prev data => OpAppend now (mkBlobKey me d g q) prev (bytes_reader data)
  | CallBlob d g q => OpGet (mkBlobKey me d g q)
  | CallIndex d g from limit =>
      OpIndex me d g (if 0 <? from then from else 1)
        (if (0 <? limit) && (limit <=? DefaultIndexLimit) then limit else DefaultIndexLimit)
  | CallManifest => OpManifest me
  | CallPruneGeneration d g => OpDeleteGeneration me d g
  | CallDeleteAccount => OpDeleteAccount me
  end.

Definition prune_result (r : result Z) : result unit :=
  match r with
  | Ok n => if bool_decide (n = 0) then Err (APIError 404 "ERR_GENERATION_NOT_FOUND" "No such generation.") else Ok ()
  | Err e => Err (APIError 409 "ERR_RETENTION_GUARD" (Error e))
  end.

Definition get_result (r : result (bytes * Z)) : result (bytes * Z) :=
  match r with
  | Ok x => Ok x
  | Err _ => Err (APIError 404 "ERR_BLOB_NOT_FOUND" "No such blob.")
  end.

(** The outcome of that operation, as the client reports it. *)
Definition client_view (o : client_op) (ob : obs) : client_obs :=
  match ob with
  | ObsAppend r => SawAppend (append_result (match o with CallAppendBytes _ _ q _ _ => q | _ => 0 end) r)
  | ObsGet r => SawBlob (get_result r)
  | ObsIndex r => SawIndex r
  | ObsManifest r => SawManifest r
  | ObsDelete r => match o with CallPruneGeneration _ _ => SawPrune (prune_result r) | _ => SawErase r end
  end.

Definition spec_call (now : Z) (me : string) (a : alog) (o : client_op) : alog * client_obs :=
  let '(a', ob) := spec_op a (store_op now me o) in (a', client_view o ob).

(** The caller is told of a failure of the service, or of a download that
    was cut short. *)
Definition call_failed (ob : client_obs) : Prop :=
  match ob with
  | SawAppend r => server_failure r
  | SawBlob r => server_failure r \/ r = Err (Sentinel ErrUnexpectedEOF)
  | SawIndex r => server_failure r
  | SawManifest r => server_failure r
  | SawPrune r => server_failure r
  | SawErase r => server_failure r
  end.

(** The arguments of a caller that knows the limits. *)
Definition client_op_ok (limit : Z) (o : client_op) : Prop :=
  match o with
  | CallAppendBytes d g q prev data =>
      match_lower_hex 32 d = true /\ 1 <= g <= 2 ^ 30 /\ 1 <= q <= 2 ^ 30 /\ ascii7_str prev /\
      data <> [] /\ Z.of_nat (length data) <= limit
  | CallBlob d g q => match_lower_hex 32 d = true /\ 1 <= g <= 2 ^ 30 /\ 1 <= q <= 2 ^ 30
  | CallIndex d g from n => match_lower_hex 32 d = true /\ 1 <= g <= 2 ^ 30 /\ in64 from /\ in64 n
  | CallManifest | CallDeleteAccount => True
  | CallPruneGeneration d g => match_lower_hex 32 d = true /\ 1 <= g <= 2 ^ 30
  end.

(** ** The request of each *)

Definition call_endpoint (o : client_op) : endpoint :=
  match o with
  | CallAppendBytes _ _ _ _ _ => EAppend
  | CallBlob _ _ _ => EBlob
  | CallIndex _ _ _ _ => EIndex
  | CallManifest => EManifest
  | CallPruneGeneration _ _ => EPrune
  | CallDeleteAccount => EErase
  end.

Definition prune_path (device : string) (g : Z) : bytes :=
  bytes_of_string "/v1/generation/" ++ bytes_of_string device ++ "/"%char :: bytes_of_string (FormatInt g).

Definition positive_query (name : string) (n : Z) : list (bytes * bytes) :=
  if 0 <? n then [(bytes_of_string name, bytes_of_string (FormatInt n))] else [].

Definition index_query (g from limit : Z) : list (bytes * bytes) :=
  (bytes_of_string "generation", bytes_of_string (FormatInt g))
  :: positive_query "from" from ++ positive_query "limit" limit.

Definition call_path (o : client_op) : bytes :=
  match o with
  | CallAppendBytes d _ _ _ _ | CallIndex d _ _ _ => log_path d
  | CallBlob d _ q => blob_path d q
  | CallManifest => bytes_of_string "/v1/manifest"
  | CallPruneGeneration d g => prune_path d g
  | CallDeleteAccount => bytes_of_string "/v1/account"
  end.

Definition call_query (o : client_op) : list (bytes * bytes) :=
  match o with
  | CallAppendBytes _ g q prev _ => append_query g q prev
  | CallBlob _ g _ => blob_query g
  | CallIndex _ g from n => index_query g from n
  | _ => []
  end.

Definition call_data (o : client_op) : option bytes :=
  match o with CallAppendBytes _ _ _ _ data => Some data | _ => None end.

(** ** Making the call *)

Definition observe {C N A : Type} (see : result A -> client_obs) (x : C * N * result A) : C * N * client_obs :=
  (x.1, see x.2).

Definition client_step {crypto : Crypto} {dec : Decoders} {N : Type} {net : Transport N} (o : client_op)
    (c : Client) (n : N) (st st2 : Z * result bytes) : Client * N * client_obs :=
  match o with
  | CallAppendBytes d g q prev data => observe SawAppend (client_AppendBytes d g q prev data c n st st2)
  | CallBlob d g q => observe (fun r => SawBlob (drained r)) (client_Blob d g q c n st st2)
  | CallIndex d g from limit => observe SawIndex (client_Index d g from limit c n st st2)
  | CallManifest => observe SawManifest (client_Manifest c n st st2)
  | CallPruneGeneration d g => observe SawPrune (client_PruneGeneration d g c n st st2)
  | CallDeleteAccount => observe SawErase (client_DeleteAccount c n st st2)
  end.

(** ** The query of an index *)

Lemma index_uri_target dev g from n :
  name_ok dev -> index_uri dev g from n = target (log_path dev) (index_query g from n).
Proof.
  intros Hd. rewrite <- (string_of_bytes_of_string (index_uri dev g from n)). unfold target. f_equal.
  unfold index_uri, index_query, positive_query, target_of, log_path, esc. rewrite PathEscape_hex, string_of_bytes_of_string by done.
  destruct (0 <? from), (0 <? n); cbn [app join_query]; unfold pair_text; cbn [fst snd]; rewrite ?QueryEscape_FormatInt;
    repeat (rewrite bytes_of_string_app || cbn [bytes_of_string]);
    repeat (rewrite <- app_assoc || rewrite <- app_comm_cons); reflexivity.
Qed.

(** What the server reads of an optional number. *)
Lemma index_query_get dev g from n name m :
  (name = "from" /\ m = from \/ name = "limit" /\ m = n) -> in64 m ->
  Atoi (Query_Get (mkURL (log_path dev) [] (join_query (index_query g from n)) false) name)
  = if 0 <? m then Some m else None.
Proof.
  intros Hn Hm. rewrite Query_Get_join by done.
  assert (base.filter (fun kv => kv.1 = bytes_of_string name) (index_query g from n) = positive_query name m) as ->.
  { unfold index_query, positive_query. by destruct Hn as [[-> ->]|[-> ->]]; destruct (0 <? from), (0 <? n). }
  unfold positive_query. destruct (0 <? m); [|done]. cbn [snd]. by rewrite string_of_bytes_of_string, Atoi_FormatInt.
Qed.

Lemma index_from dev g from n :
  in64 from ->
  default 1 (Atoi (Query_Get (mkURL (log_path dev) [] (join_query (index_query g from n)) false) "from"))
  = if 0 <? from then from else 1.
Proof. intros Hf. rewrite (index_query_get _ _ _ _ _ from) by (done || by left). by destruct (0 <? from). Qed.

Lemma index_page {crypto : Crypto} r dev g from n :
  ReqURL r = mkURL (log_path dev) [] (join_query (index_query g from n)) false -> in64 n ->
  page_size r = if (0 <? n) && (n <=? DefaultIndexLimit) then n else DefaultIndexLimit.
Proof.
  intros Hr Hn. unfold page_size. rewrite Hr, (index_query_get _ _ _ _ _ n) by (done || by right).
  unfold DefaultIndexLimit. destruct (Z.ltb_spec 0 n); [|done].
  destruct (Z.leb_spec n 500); case_bool_decide; done || lia.
Qed.

(** ** The request and the answers of a prune *)

Lemma prune_uri_target dev g : name_ok dev -> prune_uri dev g = target (prune_path dev g) [].
Proof.
  intros Hd. rewrite <- (string_of_bytes_of_string (prune_uri dev g)). unfold target. f_equal.
  unfold prune_uri, prune_path, target_of, esc. rewrite PathEscape_hex, string_of_bytes_of_string by done.
  cbn [join_query]. repeat (rewrite bytes_of_string_app || cbn [bytes_of_string]).
  repeat (rewrite <- app_assoc || rewrite <- app_comm_cons). by rewrite ?app_nil_r.
Qed.

Lemma prune_path_plain dev g : name_ok dev -> plain_path (prune_path dev g).
Proof.
  intros Hd. destruct (hex_plain dev Hd) as [Hp _]. unfold prune_path. apply Forall_app. split; [by repeat constructor|].
  apply Forall_app. split; [done|]. constructor; [done|apply FormatInt_plain].
Qed.

Lemma guard_decoded g n :
  in64 g -> in64 n -> 0 <= g -> 0 <= n ->
  decodeAPIError (reply_response (error_reply 409 "ERR_RETENTION_GUARD" (Error (guard_error g n))))
  = APIError 409 "ERR_RETENTION_GUARD" (Error (guard_error g n)).
Proof.
  intros [_ Hg] [_ Hn] Hg0 Hn0. pose proof (FormatInt_length g ltac:(lia)). pose proof (FormatInt_length n ltac:(lia)).
  assert (bytes_of_string (Error (guard_error g n))
    = bytes_of_string (sentinel_text ErrRetentionGuard +:+ ": generation ") ++ bytes_of_string (FormatInt g)
      ++ bytes_of_string ", newest " ++ bytes_of_string (FormatInt n)) as E.
  { unfold guard_error. cbn [Error]. rewrite !bytes_of_string_app, <- !app_assoc. done. }
  assert (ascii7_str (Error (guard_error g n))) as Ha.
  { unfold ascii7_str, ascii7. rewrite E, !Forall_app. split_and!; try apply FormatInt_ascii; by apply ascii7_check. }
  assert (ascii7_str "ERR_RETENTION_GUARD") by by apply ascii7_check.
  apply decodeAPIError_reply; [done..|]. apply ErrorBody_length; [done..|].
  rewrite E, !length_app.
  assert (length (bytes_of_string (sentinel_text ErrRetentionGuard +:+ ": generation ")) <= 100)%nat by (vm_compute; lia).
  assert (length (bytes_of_string "ERR_RETENTION_GUARD") = 19 /\ length (bytes_of_string ", newest ") = 9)%nat as [-> ->] by done.
  lia.
Qed.

Lemma prune_result_taken w :
  match w with Err e => exists g n, e = guard_error g n /\ 0 <= g <= 2 ^ 30 /\ 0 <= n <= 2 ^ 30 | _ => True end ->
  taken (fun _ => Ok ()) (prune_reply w) = prune_result w.
Proof.
  unfold prune_reply, prune_result, taken. destruct w as [n|e].
  - intros _. by case_bool_decide.
  - intros (g & n & -> & Hg & Hn). change (received _) with (Err (A := http_response) (decodeAPIError (reply_response
      (error_reply 409 "ERR_RETENTION_GUARD" (Error (guard_error g n)))))). cbn iota. f_equal.
    assert (2 ^ 30 < 2 ^ 63) by done. apply guard_decoded; unfold in64; lia.
Qed.

Lemma body_outcome_bytes data : body_outcome (bytes_reader data) = Ok data.
Proof. unfold body_outcome. by rewrite bytes_reader_err, bool_decide_eq_true_2, bytes_reader_bytes. Qed.

(** * Every call *)

Section session.
Context {crypto : Crypto} {laws : CryptoLaws crypto} {tf : TimeFormat} {chi : Chi} {claws : ChiLaws chi}.
Context {St NSt : Type} {bs : BlobStore St} {ok : BlobStoreOk St} {ns : NonceStore NSt}.
Context {dec : Decoders} {dlaws : DecoderLaws tf dec}.
Abbreviation connection := (connection St NSt).
Context (h : handler St NSt) (d : Deps) (pub : PublicKey).
Hypothesis Hpub : GetPublicKey (dep_Wallet d) = Ok pub.
Hypothesis Hrouter : NewRouter d = Ok h.
Hypothesis Hlimit : 0 <= dep_MaxBlobBytes d < 2 ^ 49.

Let limit := dep_MaxBlobBytes d.
Local Instance net : Transport connection := direct h.

(** What one call leaves behind, against the abstract operation. *)
Definition call_outcome (me : string) (now : Z) (o : client_op) (a : alog) (cn cn' : connection) (seen : client_obs)
    : Prop :=
  let spec := spec_call now me a o in
  (refines (cn_store cn') spec.1 /\ seen = spec.2) \/
  (op_excused (cn_store cn) a (store_op now me o) /\ call_failed seen /\
   (refines (cn_store cn') a \/ refines (cn_store cn') spec.1)).

Definition stepped (me : string) (now : Z) (o : client_op) (a : alog) (c : Client) (cn : connection)
    (st st2 : Z * result bytes) (n' : NSt) : Prop :=
  exists c' cn' seen, client_step o c cn st st2 = (c', cn', seen) /\ cn_nonces cn' = n' /\
    call_outcome me now o a cn cn' seen.

(** From an operation of the client to what is observed of it. *)
Lemma observed {A : Type} (see : result A -> client_obs) (f : call A) (ex : Prop) want me now o a c cn st st2 n' :
  (forall r, server_failure r -> call_failed (see r)) ->
  client_step o c cn st st2 = observe see (f c cn st st2) ->
  (ex -> op_excused (cn_store cn) a (store_op now me o)) ->
  see want = (spec_call now me a o).2 ->
  (exists c' cn' res, f c cn st st2 = (c', cn', res) /\ cn_nonces cn' = n' /\
    outcome ex a (spec_call now me a o).1 want cn' res) ->
  stepped me now o a c cn st st2 n'.
Proof.
  intros Hfail Hstep Hex Hwant (c' & cn' & res & E & Hn & Hout). exists c', cn', (see res).
  split; [by rewrite Hstep, E|]. split; [done|]. destruct Hout as [[Hr ->]|(Hx & Hr & Hf)]; [left|right].
  - by rewrite <- Hwant.
  - split_and!; auto.
Qed.

Section one_call.
Context (c : Client) (me : PublicKey) (st st2 : Z * result bytes) (t : times) (n' : NSt) (a : alog) (cn : connection).
Hypothesis Hrefines : refines (cn_store cn) a.
Hypothesis Hlog : session_log (ToDERHex me) 1 a.

Abbreviation makes o := (calling pub c me (call_endpoint o) (call_path o) (call_query o) (call_data o) st t n' cn).
Abbreviation steps o := (stepped (ToDERHex me) (t_store t) o a c cn st st2 n').

Lemma log_ok : alog_ok a.
Proof. by eapply refines_alog_ok. Qed.

Lemma no_upload : upload_length None <= limit.
Proof. unfold upload_length. subst limit. simpl. lia. Qed.

(** Calls without a body. *)
Lemma bodyless_served {A : Type} (k : http_response -> result A) (ex : Prop) want rp e path kvs ps a' :
  plain_path ("/"%char :: path) -> e <> EAppend ->
  calling pub c me e ("/"%char :: path) kvs None st t n' cn ->
  (forall p, reaches d pub e (arriving e ("/"%char :: path) kvs None p) ps) ->
  (forall p, let r := with_params (arriving e ("/"%char :: path) kvs None p) ps in
    spec_api limit e (ToDERHex me) r (t_store t) (Ok []) a = (a', rp) /\
    (request_excused e (ToDERHex me) r a (cn_store cn) -> ex)) ->
  taken k rp = want -> (forall data, rp <> blob_reply data) ->
  exists c' cn' res,
    do_then (endpoint_method e) (target ("/"%char :: path) kvs) "" None 0 k c cn st st2 = (c', cn', res) /\
    cn_nonces cn' = n' /\ outcome ex a a' want cn' res.
Proof.
  intros Hp He Hcall Hreach Hspec Hwant Hblob.
  apply (do_then_served h d pub Hpub Hrouter Hlimit k ex want rp c me e path kvs None st st2 t n' ps a a' cn);
    first [done|apply no_upload|by split].
Qed.

Lemma append_call dev g q prev data :
  let o := CallAppendBytes dev g q prev data in client_op_ok limit o -> makes o -> steps o.
Proof.
  intros o (Hd & Hg & Hq & Hp & Hne & Hl) Hcall.
  pose proof (AppendBytes_call h d pub Hpub Hrouter Hlimit dev Hd c me g q prev data st st2 t n' a cn
    Hcall Hrefines Hg Hq Hne Hl) as H. cbn zeta in H.
  destruct (spec_append (t_store t) a (mkBlobKey (ToDERHex me) dev g q) prev (Ok data)) as [a' res] eqn:E.
  assert (spec_call (t_store t) (ToDERHex me) a o = (a', SawAppend (append_result q res))) as Es.
  { unfold spec_call, o. cbn [store_op spec_op]. by rewrite body_outcome_bytes, E. }
  eapply (observed SawAppend (client_AppendBytes dev g q prev data)); [done|done|exact id|by rewrite Es|].
  rewrite Es. exact H.
Qed.

Lemma blob_call dev g q :
  let o := CallBlob dev g q in client_op_ok limit o -> makes o -> steps o.
Proof.
  intros o (Hd & Hg & Hq) Hcall.
  destruct (client_Blob_outcome h d pub Hpub Hrouter Hlimit dev Hd c me g q st st2 t n' a cn Hcall Hrefines Hg Hq)
    as (c' & cn' & res & E & Hn & Hr & Hout).
  { intros b Hb. destruct Hlog as [Hread _]. apply blob_at_Some in Hb as (s & i & Hk & Hi).
    assert (s.1.1 = ToDERHex me) as Hs by (apply (f_equal Pseudonym) in Hk; done).
    pose proof (readable_log _ _ s Hread Hs) as Hl. eapply Forall_lookup_1 in Hl as (_ & _ & _ & ?); done. }
  exists c', cn', (SawBlob (drained res)).
  split; [exact (f_equal (observe (fun r => SawBlob (drained r))) E)|]. split; [done|].
  unfold call_outcome, spec_call. cbn [store_op spec_op o fst snd client_view].
  destruct Hout as [Hres|[Hf Hres]]; [left|right].
  - split; [done|]. rewrite Hres. unfold blob_result. by destruct (blob_at a _).
  - split; [by left|]. split; [done|]. by left.
Qed.
Lemma Index_call dev g from n :
  let o := CallIndex dev g from n in client_op_ok limit o -> makes o -> steps o.
Proof.
  intros o (Hd & Hg & Hf & Hn) Hcall. destruct (device_bytes dev Hd) as (Hne & Hs & Hp).
  assert (spec_call (t_store t) (ToDERHex me) a o = (a, SawIndex (Ok (spec_index a (ToDERHex me) dev g
    (if 0 <? from then from else 1) (if (0 <? n) && (n <=? DefaultIndexLimit) then n else DefaultIndexLimit))))) as Es by done.
  eapply (observed SawIndex (client_Index dev g from n)); [done|done|exact id|by rewrite Es|].
  rewrite Es. cbn [fst]. unfold client_Index. rewrite index_uri_target by (by eapply hex_name).
  set (from' := if 0 <? from then from else 1). set (page := if (0 <? n) && _ then n else _).
  eapply (bodyless_served _ _ _ (json_reply 200 (index_json (spec_index a (ToDERHex me) dev g from' page))) EIndex _ _
    [("deviceId", dev)]); [exact Hp|done|exact Hcall| | | |].
  - intros p. split_and!; [done|done|unfold arriving, upload_length; simpl; lia|].
    rewrite <- (string_of_bytes_of_string dev) at 2. by eapply (find_log d (ToDERHex pub)); [right| | | |].
  - intros p. cbn zeta. set (r := with_params _ _).
    assert (ReqURL r = mkURL (log_path dev) [] (join_query (index_query g from n)) false) as Hr by done.
    assert (query_number r "generation" = Some g) as Hgen.
    { eapply (query_number_join r (index_query g from n) "generation"); [done..|].
      unfold index_query, positive_query. by destruct (0 <? from), (0 <? n). }
    unfold spec_api, request_excused. change (URLParam r "deviceId") with dev.
    rewrite Hd, Hgen, (index_page r dev g from n Hr Hn), Hr, index_from by done. done.
  - unfold taken, received, wrap_err. change (_ || _) with false. cbn iota. rewrite decode_index; [done|].
    apply index_readable; [exact log_ok|apply Hlog].
  - intros data E. by apply (f_equal rp_length) in E.
Qed.

(** ** Manifest *)

Lemma Manifest_call : let o := CallManifest in makes o -> steps o.
Proof.
  intros o Hcall.
  assert (spec_call (t_store t) (ToDERHex me) a o = (a, SawManifest (Ok (spec_manifest a (ToDERHex me))))) as Es by done.
  eapply (observed SawManifest client_Manifest); [done|done|exact id|by rewrite Es|].
  rewrite Es. cbn [fst]. unfold client_Manifest. change manifest_uri with (target (bytes_of_string "/v1/manifest") []).
  eapply (bodyless_served _ _ _ (json_reply 200 (manifest_json (spec_manifest a (ToDERHex me)))) EManifest _ _ []);
    [by repeat constructor|done|exact Hcall| | | |].
  - intros p. split_and!; [done|done|unfold arriving, upload_length; simpl; lia|].
    by apply (find_manifest d (ToDERHex pub)).
  - intros p. cbn zeta. split; [done|exact id].
  - unfold taken, received, wrap_err. change (_ || _) with false. cbn iota. rewrite decode_manifest; [done|].
    apply manifest_readable; [exact log_ok|apply Hlog].
  - intros data E. by apply (f_equal rp_length) in E.
Qed.
(** ** PruneGeneration *)

Lemma PruneGeneration_call dev g :
  let o := CallPruneGeneration dev g in client_op_ok limit o -> makes o -> steps o.
Proof.
  intros o (Hd & Hg) Hcall. destruct (device_bytes dev Hd) as (Hne & Hs & Hp).
  set (spec := spec_delete_generation a (ToDERHex me) dev g).
  assert (spec_call (t_store t) (ToDERHex me) a o = (spec.1, SawPrune (prune_result spec.2))) as Es.
  { unfold spec_call, o. cbn [store_op spec_op]. fold spec. by destruct spec. }
  eapply (observed SawPrune (client_PruneGeneration dev g)); [done|done|exact id|by rewrite Es|].
  rewrite Es. cbn [fst]. unfold client_PruneGeneration. rewrite prune_uri_target by (by eapply hex_name).
  eapply (bodyless_served _ _ _ (prune_reply spec.2) EPrune _ _ [("deviceId", dev); ("generation", FormatInt g)]);
    [eapply prune_path_plain, hex_name, Hd|done|exact Hcall| | | |].
  - intros p. split_and!; [done|done|unfold arriving, upload_length; simpl; lia|].
    pose proof (find_prune (St := St) (NSt := NSt) d (ToDERHex pub) (arriving EPrune (prune_path dev g) [] None p)
      (bytes_of_string dev) (bytes_of_string (FormatInt g))) as H. rewrite !string_of_bytes_of_string in H.
    apply H; [done|done|done|apply FormatInt_nonempty|apply FormatInt_noslash|done].
  - intros p. cbn zeta. set (r := with_params _ _). unfold spec_api, request_excused.
    change (URLParam r "deviceId") with dev. change (URLParam r "generation") with (FormatInt g).
    rewrite Hd, decimal_number_FormatInt by done. cbn [negb]. fold spec. by destruct spec.
  - apply prune_result_taken. unfold spec, spec_delete_generation. case_bool_decide as Hguard; [|done].
    cbn [snd]. exists g, (newest_of a (ToDERHex me) dev). split; [done|].
    pose proof (newest_range a (ToDERHex me) dev log_ok). lia.
  - intros data E. unfold prune_reply in E. destruct spec.2 as [n|e]; [case_bool_decide|];
      by apply (f_equal rp_length) in E.
Qed.

(** ** DeleteAccount *)

Lemma DeleteAccount_call : let o := CallDeleteAccount in makes o -> steps o.
Proof.
  intros o Hcall. set (n := Z.of_nat (account_blobs a (ToDERHex me))).
  set (a' := (spec_delete_account a (ToDERHex me)).1).
  assert (spec_call (t_store t) (ToDERHex me) a o = (a', SawErase (Ok n))) as Es by done.
  eapply (observed SawErase client_DeleteAccount); [done|done|exact id|by rewrite Es|].
  rewrite Es. cbn [fst]. unfold client_DeleteAccount. change account_uri with (target (bytes_of_string "/v1/account") []).
  eapply (bodyless_served _ _ _ (erase_reply (Ok n)) EErase _ _ []);
    [by repeat constructor|done|exact Hcall| | | |].
  - intros p. split_and!; [done|done|unfold arriving, upload_length; simpl; lia|].
    by apply (find_account d (ToDERHex pub)).
  - intros p. cbn zeta. split; [done|exact id].
  - unfold taken, received, wrap_err, erase_reply. change (_ || _) with false. cbn iota. rewrite decode_deleted; [done|].
    destruct Hlog as [_ Hn]. unfold in64, n. lia.
  - intros data E. by apply (f_equal rp_length) in E.
Qed.

(** Whatever the call, what is observed of it is the abstract outcome. *)
Lemma client_step_ok o : client_op_ok limit o -> makes o -> steps o.
Proof.
  destruct o; intros Ho Hcall; [by apply append_call|by apply blob_call|by apply Index_call|by apply Manifest_call
    |by apply PruneGeneration_call|by apply DeleteAccount_call].
Qed.
End one_call.

(** ** A session *)

(** A call with the stamps of its two attempts and the server's clock
    readings while it serves the first. *)
Record session_call := mkSessionCall {
  sc_op : client_op;
  sc_stamp : Z * result bytes;
  sc_stamp2 : Z * result bytes;
  sc_times : times;
}.

(** Every call is well formed and goes through, in the state the calls
    before it leave. *)
Fixpoint session_ready (me : PublicKey) (calls : list session_call) (c : Client) (cn : connection) : Prop :=
  match calls with
  | [] => True
  | mkSessionCall o st st2 t :: rest =>
      client_op_ok limit o /\ clock_ok (t_store t) /\
      (exists n', calling pub c me (call_endpoint o) (call_path o) (call_query o) (call_data o) st t n' cn) /\
      let '(c', cn', _) := client_step o c cn st st2 in session_ready me rest c' cn'
  end.

(** What the calls of a session observe, one after the other, is what the
    abstract log says at that point; a failure is reported, and leaves the
    log as it was or takes the call to its end. *)
Fixpoint session_follows (me : string) (calls : list session_call) (c : Client) (cn : connection) (a : alog) : Prop :=
  match calls with
  | [] => True
  | mkSessionCall o st st2 t :: rest =>
      let '(c', cn', seen) := client_step o c cn st st2 in
      let '(a1, told) := spec_call (t_store t) me a o in
      exists a', refines (cn_store cn') a' /\
        ((a' = a1 /\ seen = told) \/
         (op_excused (cn_store cn) a (store_op (t_store t) me o) /\ call_failed seen /\ (a' = a \/ a' = a1))) /\
        session_follows me rest c' cn' a'
  end.

Lemma session_ready_cons me o st st2 t rest c cn c' cn' seen :
  client_op_ok limit o -> clock_ok (t_store t) ->
  (exists n', calling pub c me (call_endpoint o) (call_path o) (call_query o) (call_data o) st t n' cn) ->
  client_step o c cn st st2 = (c', cn', seen) -> session_ready me rest c' cn' ->
  session_ready me (mkSessionCall o st st2 t :: rest) c cn.
Proof. intros Ho Ht Hc E Hr. cbn [session_ready]. by rewrite E. Qed.

Lemma store_op_readable me now o :
  client_op_ok limit o -> clock_ok now -> op_readable (store_op now me o).
Proof.
  destruct o; try done. intros (_ & _ & _ & Hp & _ & Hl) Ht. split_and!; [done|done|].
  rewrite bytes_reader_bytes. subst limit. unfold in64. assert (2 ^ 49 < 2 ^ 63) by done. lia.
Qed.

Lemma session_from calls c me a cn :
  session_log (ToDERHex me) (length calls) a -> refines (cn_store cn) a -> session_ready me calls c cn ->
  session_follows (ToDERHex me) calls c cn a.
Proof.
  revert c a cn. induction calls as [|[o st st2 t] rest IH]; intros c a cn Hlog Ha; [done|].
  cbn [session_ready session_follows]. intros (Ho & Ht & (n' & Hcall) & Hrest).
  assert (session_log (ToDERHex me) 1 a) as Hlog1.
  { destruct Hlog as [Hr Hn]. split; [done|]. cbn [length] in Hn. lia. }
  destruct (client_step_ok c me st st2 t n' a cn Ha Hlog1 o Ho Hcall) as (c' & cn' & seen & E & _ & Hout).
  rewrite E in Hrest |- *. unfold call_outcome in Hout.
  pose proof (store_op_readable (ToDERHex me) (t_store t) o Ho Ht) as Hread.
  pose proof (session_log_step _ _ _ _ Hlog Hread) as Hnext.
  assert ((spec_call (t_store t) (ToDERHex me) a o).1 = (spec_op a (store_op (t_store t) (ToDERHex me) o)).1) as Ecall.
  { unfold spec_call. by destruct (spec_op _ _). }
  rewrite <- Ecall in Hnext. destruct (spec_call (t_store t) (ToDERHex me) a o) as [a1 told]. cbn [fst snd] in *.
  destruct Hout as [[Hr ->]|(Hx & Hf & [Hr|Hr])].
  - exists a1. split; [done|]. split; [by left|]. by apply IH.
  - exists a. split; [done|]. split; [right; by auto|]. apply IH; [by apply session_log_fewer|done|done].
  - exists a1. split; [done|]. split; [right; by auto|]. by apply IH.
Qed.

(** C9. A session of the client, end to end. Any sequence of uploads,
    downloads, listings, prunes and erasures made through one [Client] over a
    network that delivers each request once returns, call by call, what the
    operations of the abstract log return on the account of the client's key:
    digests and sizes, contents, every field of the index and of the
    manifest, counts, and the refusals with their texts. Where the store
    reports trouble below it a call fails with a 500, or with a download cut
    short, and has taken effect as a whole or not at all; no call ever returns
    anything else. *)
Theorem client_session_refines calls c me a cn :
  session_log (ToDERHex me) (length calls) a -> refines (cn_store cn) a -> session_ready me calls c cn ->
  session_follows (ToDERHex me) calls c cn a.
Proof. exact (session_from calls c me a cn). Qed.

(** What the session saw, and what the abstract log says. *)
Fixpoint session_seen (calls : list session_call) (c : Client) (cn : connection) : list client_obs :=
  match calls with
  | [] => []
  | mkSessionCall o st st2 _ :: rest =>
      let '(c', cn', seen) := client_step o c cn st st2 in seen :: session_seen rest c' cn'
  end.

Fixpoint spec_session (me : string) (calls : list session_call) (a : alog) : list client_obs :=
  match calls with
  | [] => []
  | mkSessionCall o _ _ t :: rest =>
      let '(a', told) := spec_call (t_store t) me a o in told :: spec_session me rest a'
  end.

(** With a store that never fails the two agree. *)
Theorem client_session_exact calls c me a cn :
  (forall st a o, ~ op_excused (St := St) st a o) ->
  session_log (ToDERHex me) (length calls) a -> refines (cn_store cn) a -> session_ready me calls c cn ->
  session_seen calls c cn = spec_session (ToDERHex me) calls a.
Proof.
  intros Hno Hlog Ha Hready. pose proof (session_from calls c me a cn Hlog Ha Hready) as H. clear Hlog Ha Hready.
  revert c a cn H. induction calls as [|[o st st2 t] rest IH]; intros c a cn; [done|].
  cbn [session_follows session_seen spec_session]. destruct (client_step o c cn st st2) as [[c' cn'] seen].
  destruct (spec_call (t_store t) (ToDERHex me) a o) as [a1 told].
  intros (a' & _ & [[-> ->]|(Hx & _)] & Hrest); [|by destruct (Hno _ _ _ Hx)]. by rewrite (IH _ _ _ Hrest).
Qed.
End session.
