(* ===== verification/ServerWitness.v ===== *)
(** The server on concrete requests: a router that matches patterns as chi
    documents, the two-party cryptography of [AuthProofProps.Toy], the
    in-memory stores, and one signed upload.  Every theorem of the HTTP layer
    is applied to it, so its hypotheses can hold. *)
From S2P Require Import Prelude GoStrings GoError GoTime Sha256 Json JsonFacts Url Nonce AuthProof AuthProofProps.
From S2P Require Import GoIO BlobStore LogFacts Trace Bodies Http WriterFacts Handlers Api Middlewares AuthGate.
From S2P Require Import Server ServerProps TelemetryProps MemoryStore MemoryStoreOk.
Import Toy.
Local Open Scope Z_scope.

(** * A router *)

Fixpoint first_match (table : list (string * string)) (m : string) (p : bytes) (i : nat)
    : option (nat * list (string * string)) :=
  match table with
  | [] => None
  | (m', pat) :: rest =>
      match match_pattern pat p with
      | Some ps => if bool_decide (m' = m) then Some (i, ps) else first_match rest m p (S i)
      | None => first_match rest m p (S i)
      end
  end.

#[export] Instance first_match_chi : Chi := {|
  chi_route table m p :=
    match first_match table m p 0 with
    | Some (i, ps) => Found i ps
    | None => if existsb (fun mp => bool_decide (is_Some (match_pattern mp.2 p))) table then NoMethod else NoRoute
    end;
  chi_405_header _ _ h := h;
|}.

Lemma first_match_some table m p i j ps :
  first_match table m p i = Some (j, ps) ->
  (i <= j)%nat /\ exists pat, table !! (j - i)%nat = Some (m, pat) /\ match_pattern pat p = Some ps.
Proof.
  revert i. induction table as [|[m' pat] rest IH]; intros i; [done|]. simpl.
  assert (first_match rest m p (S i) = Some (j, ps) -> (i <= j)%nat /\ exists pat0,
    ((m', pat) :: rest) !! (j - i)%nat = Some (m, pat0) /\ match_pattern pat0 p = Some ps) as Hrest.
  { intros (Hle & pat0 & Hl & Hp)%IH. split; [lia|]. exists pat0. split; [|done].
    by replace (j - i)%nat with (S (j - S i)) by lia. }
  destruct (match_pattern pat p) as [ps'|] eqn:Hp; [|done]. case_bool_decide as Hm; [|done].
  intros [= <- <-]. split; [lia|]. exists pat. rewrite Nat.sub_diag, Hm. done.
Qed.

Lemma first_match_none table m p i :
  first_match table m p i = None ->
  forall j pat, table !! j = Some (m, pat) -> match_pattern pat p = None.
Proof.
  revert i. induction table as [|[m' pat'] rest IH]; intros i E j pat Hj; [done|]. simpl in E.
  destruct j as [|j]; simpl in Hj.
  - injection Hj as <- <-. destruct (match_pattern pat' p); [|done]. by rewrite bool_decide_eq_true_2 in E.
  - destruct (match_pattern pat' p); [case_bool_decide; [done|]|]; by eapply IH.
Qed.

#[export] Instance first_match_laws : ChiLaws first_match_chi.
Proof.
  split.
  - intros table m p i ps. simpl. destruct (first_match table m p 0) as [[j ps']|] eqn:E; [|by case_match].
    intros [= <- <-]. apply first_match_some in E as (_ & pat & Hl & Hp). rewrite Nat.sub_0_r in Hl. eauto.
  - intros table m p i pat ps Hl Hp _ Huniq. simpl.
    destruct (first_match table m p 0) as [[j ps']|] eqn:E.
    + apply first_match_some in E as (_ & pat' & Hl' & Hp'). rewrite Nat.sub_0_r in Hl'.
      assert (j = i) as -> by (eapply Huniq; eauto). rewrite Hl in Hl'. injection Hl' as <-. congruence.
    + by rewrite (first_match_none _ _ _ _ E _ _ Hl) in Hp.
Qed.

(** * A signed upload *)

Module Demo.
#[export] Existing Instance default_range.
#[export] Instance utc : TimeFormat := {| MarshalTime t := bytes_of_string (FormatInt t) |}.

Definition deps : Deps := mkDeps (true : Wallet) 1024 8080.
Definition pub : PublicKey := true.

Definition server : handler MemoryStore NonceMemory :=
  Telemetry (corsMiddleware (maxBody 1024 (mux deps (ToDERHex pub)))).

Lemma pub_ok : GetPublicKey (dep_Wallet deps) = Ok pub.
Proof. reflexivity. Qed.

Lemma server_ok : NewRouter deps = Ok server.
Proof. reflexivity. Qed.

Definition device : string := "0123456789abcdef0123456789abcdef".
Definition target : string := "/v1/log/" +:+ device +:+ "?seq=1&generation=1".
Definition sha_foo : string := "2c26b46b68ffc68ff99b453c1d30413413422d706483bfa0f98a5e886266e7ae".
Definition foo : source := mkSource [bytes_of_string "f"; []; bytes_of_string "oo"] EOF true.

Definition sign (action : string) : Proof :=
  match Sign (false : Wallet) key_server action now draw with Ok p => p | Err _ => zero_proof end.

Definition no_url : URL := mkURL [] [] [] false.

Definition upload : request :=
  mkRequest _ "POST" (default no_url (ParseRequestURI (bytes_of_string target)))
    (<["Content-Type" := ContentTypeOctetStream]>
      (<["X-Bsv-Auth" := Encode (sign (Action "POST" target sha_foo))]> ∅)) 3 None [].

Definition at_noon : times := mkTimes (now + 1000000) (now + 2000000) (now + 3000000) 5000000.
Definition params : list (string * string) := [("deviceId", device)].
Definition nonces' : NonceMemory := (authenticate (dep_Wallet deps) upload at_noon NewNonceMemory).1.

Lemma wire : wire_ok foo at_noon.
Proof. split_and!; [done|reflexivity|vm_compute; done|split; vm_compute; done|vm_compute; done]. Qed.

Lemma start_ok : refines NewMemoryStore (∅ : alog).
Proof. exact mem_refines_new. Qed.

Lemma upload_reaches : reaches deps pub EAppend upload params.
Proof. split_and!; [vm_compute; reflexivity|done|done|vm_compute; reflexivity]. Qed.

Lemma upload_admitted :
  authenticate (dep_Wallet deps) upload at_noon NewNonceMemory = (nonces', Granted (false : PublicKey) sha_foo).
Proof. vm_compute. reflexivity. Qed.

Definition final : world MemoryStore NonceMemory :=
  serve server upload foo at_noon NewMemoryStore NewNonceMemory.

Lemma final_201 : status_of final = 201.
Proof. vm_compute. reflexivity. Qed.

Lemma limit_ok : 0 <= dep_MaxBlobBytes deps.
Proof. done. Qed.

Lemma serve_refines_api_witness : w_nonces final = nonces'.
Proof.
  destruct (serve_refines_api deps pub server pub_ok server_ok limit_ok EAppend params upload foo at_noon
    NewMemoryStore NewNonceMemory nonces' _ _ ∅ wire start_ok upload_reaches upload_admitted) as [H _].
  exact H.
Defined.


Definition huge : request :=
  mkRequest _ "POST" (ReqURL upload) (ReqHeader upload) 4096 None [].

Lemma oversize_upload_witness :
  response_is (serve server huge foo at_noon NewMemoryStore NewNonceMemory) (too_large_reply 1024).
Proof.
  destruct (oversize_upload deps pub server pub_ok server_ok limit_ok huge foo at_noon
    NewMemoryStore NewNonceMemory) as [H _]; [vm_compute; reflexivity|done|].
  apply H. vm_compute. reflexivity.
Defined.

(** Without its header the request is turned away. *)
Definition bare : request := mkRequest _ "POST" (ReqURL upload) ∅ 3 None [].

Lemma bare_refused : ~ let_through deps pub bare at_noon NewNonceMemory.
Proof.
  intros (e & ps & n' & caller & digest & _ & Ha).
  assert (admitted (authenticate (dep_Wallet deps) bare at_noon NewNonceMemory).2 = false) as Hno
    by (vm_compute; reflexivity).
  rewrite Ha in Hno. discriminate Hno.
Qed.

Lemma store_behind_auth_witness :
  src_of (inner_of (w_body (serve server bare foo at_noon NewMemoryStore NewNonceMemory))) = foo.
Proof.
  destruct (store_behind_auth deps pub server pub_ok server_ok bare foo at_noon NewMemoryStore NewNonceMemory)
    as [H|[_ H]]; [destruct (bare_refused H)|exact H].
Defined.



Lemma api_refines_witness :
  w_wrote (endpoint_handler EManifest (api_writer 1024) (WithIdentityKey upload (false : PublicKey))
    (at_endpoint deps EManifest "" foo at_noon NewMemoryStore NewNonceMemory)) = true.
Proof.
  pose proof (api_refines 1024 (at_endpoint deps EManifest "" foo at_noon NewMemoryStore NewNonceMemory) ∅
    (WithIdentityKey upload (false : PublicKey)) (false : PublicKey)
    (at_endpoint_ready deps limit_ok EManifest "" foo at_noon NewMemoryStore NewNonceMemory ∅ wire start_ok)
    eq_refl EManifest) as [H _].
  exact H.
Defined.

Lemma positiveIntParam_addressable_witness : parsePathInt (FormatInt 1) = Some 1.
Proof. apply (positiveIntParam_addressable upload "generation"). vm_compute. reflexivity. Defined.

End Demo.
