(* ===== verification/ServiceWitness.v ===== *)
(** Concurrent requests to the server of [ServerWitness.Demo]: the signed
    upload arrives twice, the copies overtake each other, and a health probe
    needs no proof. *)
From S2P Require Import Prelude GoStrings GoError GoTime Json Url Nonce AuthProof AuthProofProps GoIO BlobStore LogFacts.
From S2P Require Import Bodies Http WriterFacts Handlers Api Middlewares AuthGate Server ServerProps Public.
From S2P Require Import MemoryStore MemoryStoreOk Systems Service ServerWitness.
Import Toy Demo.
Local Open Scope Z_scope.

Module ServiceWitness.

(** ** The probe *)

Definition probe : request := mkRequest _ "GET" (default no_url (ParseRequestURI (bytes_of_string "/health"))) ∅ 0 None [].
Definition nothing : source := mkSource [] EOF true.

Lemma public_answered_witness :
  answer_is (w_resp (serve server probe nothing at_noon NewMemoryStore NewNonceMemory)) (json_reply 200 (health_json "ok" "ok")).
Proof.
  destruct (public_answered deps pub server pub_ok server_ok probe nothing at_noon NewMemoryStore NewNonceMemory ∅ start_ok)
    as [H _]; [vm_compute; reflexivity|].
  assert (find_route (St := MemoryStore) (NSt := NonceMemory) deps (ToDERHex pub) probe = Found 0 []) as Hf
    by (vm_compute; reflexivity).
  unfold answered_publicly in H. rewrite Hf in H. simpl in H. destruct H as [H|[[] _]]. exact H.
Defined.

(** ** The race *)

Definition the_job : job := mkJob upload foo at_noon.
Definition proof_header : string := Encode (sign (Action "POST" target sha_foo)).

Lemma the_job_ok j : j = the_job -> job_ok (St := MemoryStore) (NSt := NonceMemory) deps pub j.
Proof. intros ->. split; [exact wire|]. vm_compute. discriminate. Qed.

Abbreviation svc_step := (svc_step (St := MemoryStore) (NSt := NonceMemory) server (eq the_job)).
Abbreviation served st n := (serve_job (St := MemoryStore) (NSt := NonceMemory) server the_job st n).

Definition spent_nonces : NonceMemory := w_nonces (served NewMemoryStore NewNonceMemory).
Definition lost : response := w_resp (served NewMemoryStore spent_nonces).
Definition after_loser : MemoryStore := w_store (served NewMemoryStore spent_nonces).
Definition won : response := w_resp (served after_loser NewNonceMemory).

(** The second copy passes the gate after the first and is answered before it. *)
Definition race : list event := [Arrive 0 the_job; Arrive 1 the_job; Answer 1 lost; Answer 0 won].

(** The steps on states spelt out. *)
Lemma goes_gate st n ts i :
  ts !! i = Some (Arrived the_job) ->
  svc_step (mkService st n ts) None (mkService st (w_nonces (served st n)) (<[i := Gated the_job n]> ts)).
Proof. exact (sv_gate _ _ (mkService st n ts) i the_job). Qed.

Lemma goes_perform st n ts i n0 :
  ts !! i = Some (Gated the_job n0) ->
  svc_step (mkService st n ts) None
    (mkService (w_store (served st n0)) n (<[i := Performed the_job n0 (w_resp (served st n0))]> ts)).
Proof. exact (sv_perform _ _ (mkService st n ts) i the_job n0). Qed.

Lemma goes_answer st n ts i n0 rs :
  ts !! i = Some (Performed the_job n0 rs) ->
  svc_step (mkService st n ts) (Some (Answer i rs)) (mkService st n (<[i := Answered the_job n0 rs]> ts)).
Proof. exact (sv_answer _ _ (mkService st n ts) i the_job n0 rs). Qed.

Ltac at_thread := first [apply lookup_insert_eq | rewrite lookup_insert_ne by discriminate; at_thread].

Lemma upload_race : exists s, execution svc_step (started NewMemoryStore NewNonceMemory) race s.
Proof.
  unfold race, won, after_loser, lost, spent_nonces.
  eexists. eapply exec_event; [by apply sv_arrive|]. eapply exec_event; [by apply sv_arrive|]. unfold started. cbn [sv_store sv_nonces sv_threads].
  eapply exec_internal; [apply (goes_gate _ _ _ 0); at_thread|].
  eapply exec_internal; [apply (goes_gate _ _ _ 1); at_thread|].
  eapply exec_internal; [apply (goes_perform _ _ _ 1 (w_nonces (served NewMemoryStore NewNonceMemory))); at_thread|].
  eapply exec_event; [apply (goes_answer _ _ _ 1 (w_nonces (served NewMemoryStore NewNonceMemory))); at_thread|].
  eapply exec_internal; [apply (goes_perform _ _ _ 0 NewNonceMemory); at_thread|].
  eapply exec_event; [apply (goes_answer _ _ _ 0 NewNonceMemory); at_thread|]. apply exec_nil.
Qed.


(** One copy is stored; the other is not answered as if it were. *)
Lemma service_replay_witness :
  rs_status won = Some 201 /\ ~ (rs_status lost <> Some 401 /\ rs_status lost <> Some 500).
Proof.
  assert (rs_status won = Some 201) as Hw by (vm_compute; reflexivity). split; [exact Hw|]. intros [H401 H500].
  destruct upload_race as [s Hs].
  assert (0 = 1)%nat as E; [|discriminate E].
  refine (service_replay deps pub server pub_ok server_ok limit_ok (eq the_job) (fun j H => the_job_ok j (eq_sym H))
    proof_header (sign (Action "POST" target sha_foo)) NewMemoryStore NewNonceMemory ∅ race s _ _ start_ok Hs
    0%nat the_job won 1%nat the_job lost _ _ _ _ _ _ _ _ _ _ H401 H500).
  - vm_compute. reflexivity.
  - intros j <-. vm_compute. discriminate.
  - apply list_elem_of_here.
  - apply list_elem_of_further, list_elem_of_further, list_elem_of_further, list_elem_of_here.
  - apply list_elem_of_further, list_elem_of_here.
  - apply list_elem_of_further, list_elem_of_further, list_elem_of_here.
  - vm_compute. discriminate.
  - vm_compute. reflexivity.
  - vm_compute. discriminate.
  - vm_compute. reflexivity.
  - rewrite Hw. discriminate.
  - rewrite Hw. discriminate.
Defined.
End ServiceWitness.
