(* ===== verification/ClientWitness.v ===== *)
(** The client on concrete inputs: the keys of [AuthProofProps.Toy], the
    server of [ServerWitness.Demo] with its in-memory stores at the other end
    of the connection, one upload and the download of what it stored. *)
From S2P Require Import Prelude GoStrings GoError GoTime Sha256 Json JsonFacts Url Nonce AuthProof AuthProofProps.
From S2P Require Import GoIO BlobStore LogFacts Trace Bodies Http WriterFacts Handlers Api Middlewares AuthGate.
From S2P Require Import Server ServerProps MemoryStore MemoryStoreOk ServerWitness.
From S2P Require Import Client ClientProps ClientServer EndToEnd Session Systems ClientConcurrent.
Import Toy Demo.
Local Open Scope Z_scope.

Module ClientWitness.

#[export] Instance utc_decoders : Decoders := {|
  decode_error _ e := e;
  UnmarshalTime b := Atoi (string_of_bytes b);
|}.

#[export] Instance utc_laws : DecoderLaws utc utc_decoders.
Proof.
  split; intros t Ht.
  - apply FormatInt_ascii.
  - cbn. rewrite string_of_bytes_of_string. apply Atoi_FormatInt. unfold in64, clock_ok in *. lia.
Qed.

(** A client that has not talked to the server yet. *)
Definition fresh_client : Client := mkClient "http://cache" (Ok (false : Wallet)) None.

Lemma base_ok : origin_base "http://cache".
Proof.
  apply (origin_base_intro "http:" "cache").
  - vm_compute. intros H. repeat (apply elem_of_cons in H as [H|H]; [discriminate H|]). by apply not_elem_of_nil in H.
  - by repeat constructor.
Qed.

Lemma limit_range : 0 <= dep_MaxBlobBytes deps < 2 ^ 49.
Proof. done. Qed.

Definition bytes_foo : bytes := bytes_of_string "foo".
Definition stamp1 : Z * result bytes := (now, draw).
Definition stamp2 : Z * result bytes := (now + 1000, Ok (replicate 32 "B"%char)).

Definition before : connection MemoryStore NonceMemory := mkConnection NewMemoryStore NewNonceMemory [at_noon; at_noon; at_noon].

(** The proof a stamp makes for a request. *)
Definition proof_of (e : endpoint) (path : bytes) (kvs : list (bytes * bytes)) (data : option bytes) (st : Z * result bytes) : Proof :=
  match Sign (false : Wallet) key_server (Action (endpoint_method e) (ClientServer.target path kvs) (upload_digest data)) st.1 st.2 with
  | Ok p => p
  | Err _ => zero_proof
  end.

Definition consumed (p : Proof) (n : NonceMemory) : NonceMemory :=
  (Consume (t_nonce at_noon) n (AuthProof.Nonce p) (time_UnixMilli (ExpiresAt p))).1.

Definition append_proof : Proof := proof_of EAppend (log_path device) (append_query 1 1 "") (Some bytes_foo) stamp1.
Definition after_append : NonceMemory := consumed append_proof NewNonceMemory.

Lemma append_calling :
  calling (St := MemoryStore) (NSt := NonceMemory) pub fresh_client (false : PublicKey) EAppend (log_path device) (append_query 1 1 "") (Some bytes_foo)
    stamp1 at_noon after_append before.
Proof.
  split.
  - exact base_ok.
  - done.
  - by exists [at_noon], [at_noon].
  - exists (false : @Wallet toy), append_proof. split; [done|]. split_and!; [done|vm_compute; reflexivity|done|done| |].
    + split_and!; vm_compute; done.
    + vm_compute. reflexivity.
Qed.

Definition key_one : BlobKey := mkBlobKey key_client device 1 1.

Lemma client_AppendBytes_outcome_witness :
  exists c' cn', client_AppendBytes (net := direct server) device 1 1 "" bytes_foo fresh_client before stamp1 stamp2
    = (c', cn', Ok (mkAppendResult 1 sha_foo 3)) /\ cn_nonces cn' = after_append.
Proof.
  destruct (client_AppendBytes_outcome server deps pub pub_ok server_ok limit_range device eq_refl fresh_client
    (false : @PublicKey toy) 1 1 "" bytes_foo stamp1 stamp2 at_noon after_append ∅ before append_calling start_ok)
    as (c' & cn' & res & E & Hn & [[_ ->]|([[]|Ht] & _)]); [lia|lia|done|by vm_compute| |].
  - exists c', cn'. split; [|exact Hn]. etrans; [exact E|]. by f_equal.
  - by destruct Ht.
Defined.

(** A store that holds one blob. *)
Definition one_blob : MemoryStore := (Append (t_store at_noon) NewMemoryStore key_one "" (bytes_reader bytes_foo)).1.1.
Definition one_blob_log : alog := (spec_append (t_store at_noon) ∅ key_one "" (Ok bytes_foo)).1.

Lemma one_blob_ok : refines one_blob one_blob_log.
Proof.
  destruct (Append (t_store at_noon) NewMemoryStore key_one "" (bytes_reader bytes_foo)) as [[st r'] res] eqn:E.
  destruct (Append_ok (t_store at_noon) NewMemoryStore ∅ key_one "" (bytes_reader bytes_foo) st r' res start_ok) as [Hop _];
    [split_and!; vm_compute; done|vm_compute; done|done|vm_compute; done|exact E|].
  unfold one_blob. rewrite E. destruct Hop as [[H _]|([[]|Ht] & _)]; [exact H|by destruct Ht].
Qed.

Definition holding : connection MemoryStore NonceMemory := mkConnection one_blob NewNonceMemory [at_noon; at_noon].
Definition blob_proof : Proof := proof_of EBlob (blob_path device 1) (blob_query 1) None stamp1.

Lemma blob_calling :
  calling (St := MemoryStore) (NSt := NonceMemory) pub fresh_client (false : PublicKey) EBlob (blob_path device 1)
    (blob_query 1) None stamp1 at_noon (consumed blob_proof NewNonceMemory) holding.
Proof.
  split.
  - exact base_ok.
  - done.
  - by exists [at_noon], [].
  - exists (false : @Wallet toy), blob_proof. split; [done|]. split_and!; [done|vm_compute; reflexivity|done|done| |].
    + split_and!; vm_compute; done.
    + vm_compute. reflexivity.
Qed.

Lemma client_Blob_outcome_witness :
  exists c' cn' res, client_Blob (net := direct server) device 1 1 fresh_client holding stamp1 stamp2 = (c', cn', res) /\
    drained res = Ok (bytes_foo, 3).
Proof.
  destruct (client_Blob_outcome server deps pub pub_ok server_ok limit_range device eq_refl fresh_client
    (false : @PublicKey toy) 1 1 stamp1 stamp2 at_noon _ one_blob_log holding blob_calling one_blob_ok)
    as (c' & cn' & res & E & _ & _ & [Hd|[[] _]]); [lia|lia| |].
  - intros b. assert (blob_at one_blob_log (mkBlobKey (ToDERHex (false : @PublicKey toy)) device 1 1)
      = Some (mkAblob bytes_foo "" (t_store at_noon))) as -> by (vm_compute; reflexivity). by intros [= <-].
  - exists c', cn', res. split; [exact E|]. rewrite Hd. vm_compute. reflexivity.
Defined.

(** ** A session *)

Definition stamp_of (c : ascii) : Z * result bytes := (now, Ok (replicate 32 c)).
Abbreviation session_step o c := (mkSessionCall o (stamp_of c) stamp2 at_noon).

Definition session : list session_call :=
  [ session_step (CallAppendBytes device 1 1 "" bytes_foo) "a"%char;
    session_step (CallAppendBytes device 1 3 "" bytes_foo) "b"%char;
    session_step (CallIndex device 1 0 0) "c"%char;
    session_step CallManifest "d"%char;
    session_step (CallBlob device 1 1) "e"%char;
    session_step (CallPruneGeneration device 1) "f"%char;
    session_step CallDeleteAccount "g"%char;
    session_step (CallBlob device 1 1) "h"%char ].

Definition connected : connection MemoryStore NonceMemory :=
  mkConnection NewMemoryStore NewNonceMemory (replicate 9 at_noon).

(** The client and the connection after the first [n] calls. *)
Definition session_state (n : nat) : Client * connection MemoryStore NonceMemory :=
  foldl (fun x call => (client_step (net := direct server) (sc_op call) x.1 x.2 (sc_stamp call) (sc_stamp2 call)).1)
    (fresh_client, connected) (take n session).

Example session_told :
  session_seen server session fresh_client connected
  = [ SawAppend (Ok (mkAppendResult 1 sha_foo 3));
      SawAppend (Err (APIError 409 "ERR_SEQ_CONFLICT" (Error (conflict_error 2 3))));
      SawIndex (Ok [mkEntry 1 sha_foo "" 3 (t_store at_noon)]);
      SawManifest (Ok [mkDeviceSummary device 1 1 sha_foo 3 (t_store at_noon)]);
      SawBlob (Ok (bytes_foo, 3));
      SawPrune (Err (APIError 409 "ERR_RETENTION_GUARD" (Error (guard_error 1 1))));
      SawErase (Ok 1);
      SawBlob (Err (APIError 404 "ERR_BLOB_NOT_FOUND" "No such blob.")) ].
Proof. vm_compute. reflexivity. Qed.

Lemma noon_clock : clock_ok (t_store at_noon).
Proof. by vm_compute. Qed.

Lemma noon_in_time : in_time now at_noon.
Proof. split_and!; by vm_compute. Qed.

#[local] Instance times_eq_dec : EqDecision times.
Proof. solve_decision. Defined.

Lemma session_ops_ok : Forall (fun x => client_op_ok (dep_MaxBlobBytes deps) (sc_op x)) session.
Proof.
  repeat (apply Forall_cons_2; [cbn [sc_op client_op_ok]; split_and?;
    first [done|by vm_compute|by apply Forall_nil_2]|]). by apply Forall_nil_2.
Qed.

(** A call goes through: its proof is made, fresh, and accepted in time. *)
Definition call_check (o : client_op) (ch : ascii) (x : Client * connection MemoryStore NonceMemory) : bool :=
  let '(c, cn) := x in
  let made := Sign (false : @Wallet toy) key_server (Action (endpoint_method (call_endpoint o))
    (ClientServer.target (call_path o) (call_query o)) (upload_digest (call_data o))) now (Ok (replicate 32 ch)) in
  bool_decide (baseURL c = "http://cache") &&
  match wallet c with Ok w => negb w | Err _ => false end &&
  bool_decide (ServerIdentityKey (default (mkLimits 0 0 key_server) (limits c)) = key_server) &&
  match limits c, cn_clock cn with
  | Some _, t :: _ | None, _ :: t :: _ => bool_decide (t = at_noon)
  | _, _ => false
  end &&
  match made with
  | Ok p =>
      bool_decide (AuthProof.Nonce p <> "") && bool_decide (Proof_Signature p <> "") &&
      match (Consume (t_nonce at_noon) (cn_nonces cn) (AuthProof.Nonce p) (time_UnixMilli (ExpiresAt p))).2 with
      | Ok fresh => fresh
      | Err _ => false
      end
  | Err _ => false
  end.

Lemma call_check_ok o ch x :
  call_check o ch x = true ->
  exists n', calling (St := MemoryStore) (NSt := NonceMemory) pub x.1 (false : PublicKey) (call_endpoint o) (call_path o)
    (call_query o) (call_data o) (stamp_of ch) at_noon n' x.2.
Proof.
  destruct x as [c cn]. unfold call_check. cbn [fst snd].
  destruct (Sign _ _ _ now _) as [p|] eqn:Hs; [|by rewrite andb_false_r].
  rewrite !andb_true_iff. intros ((((Hb & Hw) & Hk) & Hc) & (Hn & Hsig) & Hcons).
  apply bool_decide_eq_true in Hb, Hk, Hn, Hsig.
  destruct (Consume _ _ _ _) as [n' [[]|]] eqn:Hcons'; try done. exists n'. split.
  - rewrite Hb. exact base_ok.
  - intros lim El. rewrite El in Hk. exact Hk.
  - destruct (limits c), (cn_clock cn) as [|t0 [|t1 clock]]; try done; apply bool_decide_eq_true in Hc; subst.
    + by exists [], [].
    + by exists [], (t1 :: clock).
    + by exists [t0], clock.
  - destruct (wallet c) as [[]|] eqn:Ew; try done. exists (false : @Wallet toy), p. split; [done|].
    split_and!; [reflexivity|exact Hs|exact Hn|exact Hsig|exact noon_in_time|exact Hcons'].
Qed.

Definition goes (n : nat) : Prop :=
  session_ready server deps pub (false : @PublicKey toy) (drop n session) (session_state n).1 (session_state n).2.

Lemma goes_step n o ch :
  session !! n = Some (session_step o ch) -> call_check o ch (session_state n) = true -> goes (S n) -> goes n.
Proof.
  intros Hs Hc Hgo. unfold goes. erewrite drop_S by exact Hs.
  pose proof session_ops_ok as Hok. eapply Forall_lookup_1 in Hok; [|exact Hs].
  set (y := client_step (net := direct server) o (session_state n).1 (session_state n).2 (stamp_of ch) stamp2).
  assert (session_state (S n) = y.1) as Ey.
  { unfold session_state at 1. erewrite take_S_r by exact Hs. rewrite foldl_snoc. reflexivity. }
  refine (session_ready_cons server deps pub (false : @PublicKey toy) o (stamp_of ch) stamp2 at_noon _ _ _ y.1.1 y.1.2 y.2
    Hok noon_clock (call_check_ok o ch _ Hc) _ _).
  - change (y = (y.1.1, y.1.2, y.2)). by destruct y as [[? ?] ?].
  - rewrite <- Ey. exact Hgo.
Qed.

Lemma session_goes : session_ready server deps pub (false : @PublicKey toy) session fresh_client connected.
Proof.
  change (goes 0).
  do 8 (eapply goes_step; [reflexivity|vm_compute; reflexivity|]). exact I.
Qed.

Lemma session_start : session_log (ToDERHex (false : @PublicKey toy)) (length session) ∅.
Proof. by split. Qed.

Lemma client_session_refines_witness :
  session_follows server (ToDERHex (false : @PublicKey toy)) session fresh_client connected ∅.
Proof.
  apply (client_session_refines server deps pub pub_ok server_ok limit_range session fresh_client
    (false : @PublicKey toy) ∅ connected session_start start_ok session_goes).
Defined.

(** ** Two first calls

    The first fetch finds the network down; the call that waited for the lock
    fetches again. *)

Definition limits_answer : http_response :=
  mkHttpResponse 200 (-1) (mkSource [encode (limits_json 1024 key_server)] EOF false).

#[local] Instance recovering : Transport bool := {|
  http_Do (up : bool) _ := (true, if up then Ok limits_answer else Err (External "connection refused"));
  origin_error _ := None;
  url_error _ := External "malformed URL";
|}.

Definition refused : error := Wrapf "fetch limits: " (External "connection refused") "".
Definition learnt : Limits := mkLimits 1024 1024 key_server.

Definition two_calls : list event :=
  [Called 0; Called 1; Returned 0 (Err refused); Returned 1 (Ok learnt)].

Lemma two_calls_happen : exists s, execution limits_step (unshared fresh_client false) two_calls s.
Proof.
  eexists. eapply exec_event; [by apply lim_call|]. eapply exec_event; [by apply lim_call|].
  eapply exec_internal; [by apply (lim_lock _ 0)|]. eapply exec_internal; [by apply (lim_miss _ 0)|].
  eapply exec_internal; [by eapply (lim_fetched _ 0 true (Err refused)); vm_compute|].
  eapply exec_internal; [by apply (lim_lock _ 1)|]. eapply exec_internal; [by apply (lim_miss _ 1)|].
  eapply exec_event; [by apply (lim_return _ 0)|].
  eapply exec_internal; [by eapply (lim_fetched _ 1 true (Ok learnt)); vm_compute|].
  eapply exec_event; [by apply (lim_return _ 1)|]. apply exec_nil.
Qed.

Lemma limits_collapse_witness :
  exists s, limits (sh_client s) = Some learnt /\
    exists ats, execution atomic_step (fresh_client, false, ∅) two_calls (sh_client s, sh_net s, ats).
Proof.
  destruct two_calls_happen as [s Hs]. exists s.
  destruct (limits_collapse fresh_client false two_calls s eq_refl Hs) as (Ha & _ & _ & Ht). split; [|exact Ha].
  apply (Ht 1%nat). unfold two_calls. set_solver.
Defined.

(** ** What is sent *)

(** A network whose server calls every proof spent. *)
Definition spent_body : bytes :=
  encode (ErrorBody "ERR_AUTH_REQUIRED" "Authentication required: proof already used.") ++ ["010"%char].

#[export] Instance refusing : Transport unit := {|
  http_Do n _ := (n, Ok (mkHttpResponse 401 (-1) (mkSource [spent_body] EOF false)));
  origin_error _ := None;
  url_error _ := External "malformed URL";
|}.

Lemma toy_Sign_foreign (w : @Wallet toy) key action now draw e :
  (forall e', draw = Err e' -> AsAPIError e' = None) -> Sign w key action now draw = Err e -> AsAPIError e = None.
Proof.
  intros Hd. unfold Sign, wrap_err. cbn [PublicKeyFromString toy].
  destruct (bool_decide (key = key_client)); [|destruct (bool_decide (key = key_server)); [|by intros [= <-]]];
    (destruct draw as [b|e']; [by intros [=]|]; intros [= <-]; by apply (Hd e')).
Qed.

Lemma refusing_foreign : foreign_errors (N := unit).
Proof. split; [intros w key action st e Hd; apply toy_Sign_foreign, Hd|done|done|done]. Qed.

Definition knowing_client : Client := mkClient "http://cache" (Ok (false : Wallet)) (Some (mkLimits 1024 1024 key_server)).

(** The retry, once, and never of an upload. *)
Lemma client_do_sends_witness :
  isSpentProofRefusal (client_do knowing_client "GET" manifest_uri "" None 0 stamp1 stamp2 ()).2 = true /\
  let '(_, (_, sent), _) := client_do (net := recording (net := refusing)) knowing_client "GET" manifest_uri "" None 0 stamp1 stamp2 ((), []) in
  exists fetch attempts, sent = fetch ++ attempts /\
    attempts_ok knowing_client "GET" manifest_uri "" None stamp1 stamp2 attempts.
Proof.
  split; [vm_compute; reflexivity|].
  pose proof (client_do_sends refusing_foreign knowing_client "GET" manifest_uri "" None 0 stamp1 stamp2 ()
    ltac:(done) ltac:(done)) as H.
  destruct (client_do _ _ _ _ _ _ _ _ _) as [[? [? sent]] ?]. destruct H as (f & l & H1 & _ & H2). by exists f, l.
Defined.
End ClientWitness.
