(* ===== verification/PostgresWitness.v ===== *)
(** The database store on concrete inputs: a server with an ASCII encoding
    and the byte order of texts, sequences of calls with failing round trips,
    and the whole HTTP server running over it, also on the requests it
    answers unexpectedly. *)
From S2P Require Import Prelude GoStrings GoError GoTime Sha256 Json JsonFacts Url Nonce AuthProof AuthProofProps.
From S2P Require Import GoIO BlobStore LogFacts Trace Bodies Http WriterFacts Handlers Api Middlewares AuthGate.
From S2P Require Import Server ServerProps MemoryStore MemoryStoreOk MemoryStoreProps Sql PostgresStore PostgresFacts.
From S2P Require Import PostgresManifest PostgresStoreOk PostgresProps PostgresRace Config Main Lifecycle ServerWitness.
Local Open Scope Z_scope.

(** * A server *)

Definition ascii_text (c : ascii) : bool := (0 <? Z.of_nat (nat_of_ascii c)) && (Z.of_nat (nat_of_ascii c) <? 128).

#[export] Instance ascii_server : PgServer := {|
  text_valid := str_forall ascii_text;
  collate_le := String.le;
|}.

Lemma lower_hex_ascii c : is_lower_hex c = true -> ascii_text c = true.
Proof. destruct c as [[] [] [] [] [] [] [] []]; vm_compute; done. Qed.

#[export] Instance ascii_server_laws : PgServerLaws ascii_server.
Proof.
  split; try apply _; [|done]. intros s. unfold name_ok. simpl.
  induction s as [|c s IH]; simpl; [done|]. rewrite !andb_true_iff. intros [Hc Hs].
  split; [by apply lower_hex_ascii|auto].
Qed.

Import Toy Demo MemoryStoreWitness.
#[local] Existing Instance default_range.

(** * Sequences of calls *)

Module PostgresWitness.

Definition reset : error := External "connection reset by peer".

(** The second call loses the acknowledgement of its commit, the third breaks
    in the middle of its rows. *)
Definition flaky : list fate :=
  replicate 5 (Call ExecOk) ++ [Call ExecOk; Call ExecOk; Call ExecOk; Call ExecOk; Call (ExecUnacked reset); Broken 1 reset].

Definition key2 : BlobKey := mkBlobKey "0a" "1b" 1 2.

Definition calls : list op :=
  [OpAppend 5 key1 "" foo; OpAppend 6 key2 sha_foo foo; OpIndex "0a" "1b" 1 1 10; OpManifest "0a"; OpGet key2].

Definition fresh_session (l : list fate) : PostgresStore := mkSession no_tables l.

Lemma calls_ok : Forall (op_ok clean_error) calls.
Proof. repeat constructor; (vm_compute; done) || (simpl; lia) || (by left) || (intros; vm_compute; done). Qed.

Lemma flaky_answers :
  (run (fresh_session flaky) calls).2 =
  [ObsAppend (Ok (sha_foo, 3)); ObsAppend (Err reset); ObsIndex (Err reset);
   ObsManifest (Ok [mkDeviceSummary "1b" 1 2 sha_foo 6 6]); ObsGet (Ok (bytes_of_string "foo", 3))].
Proof. vm_compute. reflexivity. Qed.




(** * The server over the database *)

Definition pg_server : handler PostgresStore NonceMemory :=
  Telemetry (corsMiddleware (maxBody 1024 (mux deps (ToDERHex pub)))).

Definition serve_pg (r : request) (body : source) (st : PostgresStore) : world PostgresStore NonceMemory :=
  serve pg_server r body at_noon st NewNonceMemory.

(** The connection breaks after two of the three announced bytes. *)
Definition cut_foo : source := mkSource [bytes_of_string "fo"] ErrUnexpectedEOF false.

Definition stored_key : BlobKey := mkBlobKey (ToDERHex (false : PublicKey)) device 1 1.

Definition signed_get (target : string) : request :=
  mkRequest _ "GET" (default no_url (ParseRequestURI (bytes_of_string target)))
    (<["X-Bsv-Auth" := Encode (sign (Action "GET" target (sha256_hex [])))]> ∅) 0 None [].

Definition nothing : source := mkSource [] EOF false.

Definition far_index : request := signed_get ("/v1/log/" +:+ device +:+ "?generation=1&from=2147483648").


(** A page of the index from beyond the integers of the database: an internal
    error, where the in-memory store answers an empty page. *)
Theorem far_index_fails :
  status_of (serve_pg far_index nothing (fresh_session [])) = 500 /\
  status_of (serve server far_index nothing at_noon NewMemoryStore NewNonceMemory) = 200.
Proof. split; vm_compute; reflexivity. Qed.

(** ** Races

    Transactions by their number: 0 uploads, 1 erases the account. *)

Definition foo_bytes : bytes := bytes_of_string "foo".
Definition erasing : BlobKey -> bool := of_account "0a".

(** One blob, stored. *)
Definition one_row : tables :=
  mkTables {[ key1 := mkLogRow sha_foo None 3 5 ]} {[ (key1, 0) := foo_bytes ]}.

Lemma foo_fits : (length foo_bytes <= chunk_len)%nat.
Proof. apply Nat2Z.inj_le. rewrite chunk_len_Z. by vm_compute. Qed.

(** The other open transaction, if any, is not in the way. *)
Ltac clear_way :=
  intros j t' Hne Hj;
  repeat first
    [ apply lookup_insert_Some in Hj as [[<- <-]|[_ Hj]]
    | apply lookup_delete_Some in Hj as [_ Hj]
    | by rewrite lookup_empty in Hj ];
  first [ by destruct Hne | apply map_disjoint_empty_l | intros [] ].

Tactic Notation "then_step" uconstr(s) := eapply rtc_l; [eapply s; reflexivity|].
Ltac then_chunk k now i :=
  eapply rtc_l; [eapply (step_chunk _ _ i k now "" [] foo_bytes); [reflexivity|done|exact foo_fits|vm_compute; reflexivity|clear_way]|].
Ltac then_log k now i :=
  eapply rtc_l; [eapply (step_log _ _ i k now "" [foo_bytes]); [reflexivity|by vm_compute|vm_compute; reflexivity|clear_way]|].
Tactic Notation "then_locks" uconstr(s) := eapply rtc_l; [eapply s; [reflexivity|clear_way]|].

Lemma one_upload :
  exists r, rtc race_step (at_rest no_tables) r /\ blob_log (committed (r_rows r)) !! key1 = Some (upload_row 5 "" [foo_bytes]).
Proof.
  eexists. split.
  - then_step (step_head (mkVersioned ∅ ∅ 1) ∅ 0%nat key1 5 "" None).
    then_chunk key1 5 0%nat. then_log key1 5 0%nat. then_step (step_commit _ _ 0%nat key1 [foo_bytes]). apply rtc_refl.
  - vm_compute. reflexivity.
Qed.

Lemma pg_log_complete_witness :
  exists t s' body, pg_Get (mkSession t []) key1 = (s', Ok (body, 3)) /\ sha256_hex (rd_bytes body) = sha_foo.
Proof.
  destruct one_upload as (r & Hr & Hrow).
  destruct (pg_log_complete no_tables ∅ r key1 _ no_tables_refine (map_Forall_empty _) Hr Hrow) as (s' & body & E & _ & Hs & _);
    [vm_compute; reflexivity|].
  exists (committed (r_rows r)), s', body. split; [exact E|]. rewrite Hs. vm_compute. reflexivity.
Defined.


(** ** A boot

    Over a database that already holds a log and a spent nonce: the migrations
    run and keep both. *)

#[export] Instance toy_keys : Keys := {|
  PrivateKey := bool;
  PrivateKeyFromHex _ := Ok true;
  NewCompletedProtoWallet k := Ok k;
|}.

Definition server_hex : string := "00112233445566778899aabbccddeeff00112233445566778899aabbccddeeff".

Definition old_database : database :=
  mkDatabase (mkSchema (Some (Current (blob_log one_row))) (Some (blob_chunks one_row)))
    (Some {[ "n" := 7 ]}).

Definition boot : process :=
  mkProcess (<["SERVER_PRIVATE_KEY" := server_hex]> (<["DATABASE_URL" := "postgres://cache"]> ∅))
    (mkOutcomes None None None) (mkGlobals false NoOp NoOp) None old_database [] [].

Definition address (r : result running) : string :=
  match r with
  | Ok (RunningInMemory _ _ srv) => Addr srv
  | Ok (RunningInDatabase _ _ srv) => Addr srv
  | Err _ => ""
  end.


(** ** A life

    The same process, exporting its telemetry, with one download that outlasts
    the shutdown. *)

Definition exporting : process :=
  mkProcess (<["OTEL_EXPORTER_OTLP_ENDPOINT" := "http://otel"]> (p_env boot))
    (p_otel boot) (p_globals boot) (p_dsn boot) (p_database boot) (p_script boot) (p_nonce_envs boot).

Definition exporting_config : Config :=
  mkConfig 8080 server_hex "postgres://cache" "info" "json" (200 * 2 ^ 20) "http://otel".

Definition exporters : otel_globals :=
  mkGlobals true (Exporting "http://otel/v1/traces") (Exporting "http://otel/v1/metrics").

Definition launched : life := mkLife Starting Unopened 0 exporters true 7 [(7, "telemetry export enabled")].

(** The pending metrics are lost: the flush has no time left. *)
Definition left_behind : life :=
  let s := set_requests 1 (set_listener Accepting (set_listener Opening (log_msg "listening" (to_phase Waiting launched)))) in
  let s := log_msg "graceful shutdown failed" (advance (15 * 10 ^ 9) (begin_shutdown s)) in
  finish "http://otel" true None (Some (External "context deadline exceeded")) None (to_phase (Flushing (7 + 15 * 10 ^ 9)) s).

Lemma left_behind_reachable : rtc (life_step "http://otel" true) launched left_behind.
Proof.
  eapply rtc_l; [by apply ls_notify|]. eapply rtc_l; [by apply ls_open|]. eapply rtc_l; [by apply ls_listen|].
  eapply rtc_l; [by apply ls_request|]. eapply rtc_l; [by apply ls_signal|].
  eapply rtc_l; [by apply (ls_tick _ _ _ (15 * 10 ^ 9))|].
  eapply rtc_l; [by eapply ls_timeout|]. apply rtc_once. by eapply ls_finish.
Qed.

Lemma life_cycle_witness :
  l_phase left_behind = Exited 0 /\ l_requests left_behind = 1%nat /\ l_pool_open left_behind = false /\
  l_globals left_behind = mkGlobals true (ShutDown "http://otel/v1/traces") (ShutDown "http://otel/v1/metrics").
Proof.
  assert (launch exporting 7 = Some (exporting_config, launched)) as HL by (vm_compute; reflexivity).
  pose proof (life_cycle exporting 7 exporting_config launched left_behind HL left_behind_reachable) as (_ & Hx & _).
  specialize (Hx 0 eq_refl). destruct Hx as [(_ & Hp & Hg & _)|(? & _)]; [|discriminate].
  split; [reflexivity|]. split; [reflexivity|]. split; [exact Hp|exact Hg].
Defined.

End PostgresWitness.
